(** * New-year countdown page: the Clock and the firework simulation

    A shallow embedding of [Countdown.js] and [Fireworks.js] and the
    properties of their specification.

    - Millisecond instants and durations are integers ([Z]): a JavaScript
      [Date] holds an integral number of milliseconds. On integers of
      magnitude below 2^53, which a Number holds exactly,
      [Math.floor (a / b)] is floor division and [%] is the remainder that
      takes the sign of the dividend ([Z.rem]); the statements about
      durations carry that bound where they go beyond single instants.
    - DOM, timers and console are explicit state: every method takes the
      world and returns the new one.
    - Console messages, which the source writes in Russian with emoji, are
      kept as short ASCII labels: ["started"], ["stopped"],
      ["canvas not found"], and the event names as they are.
    - The simulation computes with JavaScript Numbers. Its code is written
      once over an interface [Number] and read in two ways: over the
      kernel's binary64 floats ([float]), which is bit for bit what the
      engine computes for [+ - * /], [Math.sqrt] and the comparisons, and
      over the real numbers ([R]), the exact arithmetic that the fading of
      an explosion point is compared with. [Math.cos], [Math.sin] and
      [Math.atan2] are left to the engine by ECMAScript, so over [float]
      they are a parameter, and the statements name what they need of it. *)

From Stdlib Require Import ZArith List Lia Bool String Ascii DecimalString.
From Stdlib Require Import Floats Uint63 Reals Lra Psatz.
Import ListNotations.
Local Open Scope Z_scope.

(** ** Countdown.js *)

Module Countdown.

(** The object [calculateTimeUnits] returns. *)
Record TimeUnits : Set := mkTime {
  days : Z;
  hours : Z;
  minutes : Z;
  seconds : Z
}.

Definition calculateTimeUnits (diff : Z) : TimeUnits :=
  let seconds := diff / 1000 in
  let minutes := seconds / 60 in
  let hours := minutes / 60 in
  let days := hours / 24 in
  {| days := days;
     hours := Z.rem hours 24;
     minutes := Z.rem minutes 60;
     seconds := Z.rem seconds 60 |}.

(** The milliseconds accounted for by a decomposition. *)
Definition totalMs (t : TimeUnits) : Z :=
  days t * 86400000 + hours t * 3600000 + minutes t * 60000 + seconds t * 1000.

(** The keys of [settings.elements], in the order of the object literal. *)
Inductive UnitKey : Set := Days | Hours | Minutes | Seconds.

Definition unitValue (t : TimeUnits) (k : UnitKey) : Z :=
  match k with
  | Days => days t
  | Hours => hours t
  | Minutes => minutes t
  | Seconds => seconds t
  end.

(** [Object.entries(time)] *)
Definition entries (t : TimeUnits) : list (UnitKey * Z) :=
  [(Days, days t); (Hours, hours t); (Minutes, minutes t); (Seconds, seconds t)].

(** A DOM node handle; [document.getElementById] answers [None] for null. *)
Definition Element := nat.

(** What the Clock does to the outside, in order. *)
Inductive Effect : Set :=
| ConsoleLog (msg : string)
| GsapTo (el : Element) (newValue : string)
| SetInterval (id : nat) (ms : Z)
| ClearInterval (id : nat)
| SetTimeoutAlert (ms : Z)
| MassiveCelebration
| NewYearHandled.

Record Clock : Type := mkClock {
  targetDate : Z;
  updateInterval : Z;
  elements : UnitKey -> option Element;
  intervalId : option nat
}.

(** The Clock together with the page it lives in. *)
Record World : Type := mkWorld {
  clock : Clock;
  textContent : Element -> string;
  nextTimer : nat;
  fireworksComponent : bool;
  trace : list Effect
}.

Definition emit (e : Effect) (w : World) : World :=
  {| clock := clock w; textContent := textContent w; nextTimer := nextTimer w;
     fireworksComponent := fireworksComponent w; trace := trace w ++ [e] |}.

Definition setIntervalId (i : option nat) (w : World) : World :=
  {| clock := {| targetDate := targetDate (clock w);
                 updateInterval := updateInterval (clock w);
                 elements := elements (clock w);
                 intervalId := i |};
     textContent := textContent w; nextTimer := nextTimer w;
     fireworksComponent := fireworksComponent w; trace := trace w |}.

Definition setText (el : Element) (s : string) (w : World) : World :=
  {| clock := clock w;
     textContent := fun e => if Nat.eqb e el then s else textContent w e;
     nextTimer := nextTimer w;
     fireworksComponent := fireworksComponent w; trace := trace w |}.

(** [String(value)] for an integer. *)
Definition String_of (z : Z) : string := NilEmpty.string_of_int (Z.to_int z).

(** [s.padStart(2, '0')] *)
Definition padStart2 (s : string) : string :=
  match String.length s with
  | O => "00"
  | S O => String "0"%char s
  | _ => s
  end.

(** The constructor: [cacheElements] looks each id up once. Timer ids handed
    out by the browser are positive. *)
Definition construct (target interval : Z) (getElementById : UnitKey -> option Element)
    (text : Element -> string) (fireworks : bool) : World :=
  {| clock := {| targetDate := target; updateInterval := interval;
                 elements := getElementById; intervalId := None |};
     textContent := text; nextTimer := 1%nat;
     fireworksComponent := fireworks; trace := [] |}.

Definition stop (w : World) : World :=
  match intervalId (clock w) with
  | Some id =>
      emit (ConsoleLog "stopped") (setIntervalId None (emit (ClearInterval id) w))
  | None => w
  end.

Definition showCongratulations (w : World) : World :=
  let zero (w : World) (k : UnitKey) :=
    match elements (clock w) k with
    | Some el => setText el "00" w
    | None => w
    end in
  emit (SetTimeoutAlert 1000) (fold_left zero [Days; Hours; Minutes; Seconds] w).

Definition handleNewYear (w : World) : World :=
  let w := stop w in
  let w := showCongratulations w in
  let w := if fireworksComponent w then emit MassiveCelebration w else w in
  emit NewYearHandled w.

Definition animateNumberChange (el : Element) (newValue : string) (w : World) : World :=
  emit (GsapTo el newValue) w.

Definition updateDisplay (time : TimeUnits) (w : World) : World :=
  fold_left
    (fun w '(unit, value) =>
       match elements (clock w) unit with
       | Some el =>
           let formattedValue := padStart2 (String_of value) in
           if String.eqb (textContent w el) formattedValue then w
           else animateNumberChange el formattedValue w
       | None => w
       end)
    (entries time) w.

Definition triggerSpecialEvent (eventName : string) (w : World) : World :=
  emit (ConsoleLog eventName) w.

Definition isMoment (t : TimeUnits) (d h m s : Z) : bool :=
  (days t =? d) && (hours t =? h) && (minutes t =? m) && (seconds t =? s).

Definition checkSpecialMoments (time : TimeUnits) (w : World) : World :=
  let w := if isMoment time 0 1 0 0 then triggerSpecialEvent "hour_to_new_year" w else w in
  let w := if isMoment time 0 0 10 0 then triggerSpecialEvent "ten_minutes_to_new_year" w else w in
  if isMoment time 0 0 1 0 then triggerSpecialEvent "one_minute_to_new_year" w else w.

(** [update], with the instant [new Date()] reads passed in. *)
Definition update (now : Z) (w : World) : World :=
  let diff := targetDate (clock w) - now in
  if diff <=? 0 then handleNewYear w
  else
    let time := calculateTimeUnits diff in
    checkSpecialMoments time (updateDisplay time w).

Definition start (now : Z) (w : World) : World :=
  match intervalId (clock w) with
  | Some _ => w
  | None =>
      let w := update now w in
      let id := nextTimer w in
      let w := {| clock := clock w; textContent := textContent w;
                  nextTimer := S id;
                  fireworksComponent := fireworksComponent w; trace := trace w |} in
      let w := setIntervalId (Some id) (emit (SetInterval id (updateInterval (clock w))) w) in
      emit (ConsoleLog "started") w
  end.

Definition getRemainingTime (now : Z) (w : World) : TimeUnits :=
  let diff := targetDate (clock w) - now in
  calculateTimeUnits diff.

(** What can happen to a Clock: its methods are called, or the interval it
    registered fires. A cleared interval never fires, and the Clock holds the
    only handle of its interval in [intervalId]. *)
Inductive Event : Set :=
| CallStart (now : Z)
| CallStop
| IntervalFires (now : Z).

Definition step (w : World) (e : Event) : World :=
  match e with
  | CallStart now => start now w
  | CallStop => stop w
  | IntervalFires now =>
      match intervalId (clock w) with
      | Some _ => update now w
      | None => w
      end
  end.

Definition run (es : list Event) (w : World) : World := fold_left step es w.

Definition isNewYear (e : Effect) : bool :=
  match e with NewYearHandled => true | _ => false end.

(** How many times the terminal event was signalled. *)
Definition newYearCount (w : World) : nat :=
  List.length (filter isNewYear (trace w)).

(** [w'] is [w] after effects that leave the Clock object alone and do not
    signal the terminal event. *)
Definition quiet (w w' : World) : Prop :=
  clock w' = clock w /\ nextTimer w' = nextTimer w /\
  fireworksComponent w' = fireworksComponent w /\
  newYearCount w' = newYearCount w.

(** The page lookups of the examples: no text element, or all four. *)
Definition noElements : UnitKey -> option Element := fun _ => None.
Definition allElements : UnitKey -> option Element :=
  fun k => Some (match k with Days => 0 | Hours => 1 | Minutes => 2 | Seconds => 3 end)%nat.

(** With every text element missing the Clock never writes to the page. *)
Definition skips (text : Element -> string) (w : World) : Prop :=
  elements (clock w) = noElements /\ textContent w = text /\
  forall el v, ~ In (GsapTo el v) (trace w).

End Countdown.

(** An instant for the examples: 2026-01-01T00:00:00Z. *)
Definition newYear2026 : Z := 1767225600000.

(** ** JavaScript Numbers *)

Declare Scope js_scope.
Delimit Scope js_scope with js.

Class Number (num : Type) : Type := {
  num_add : num -> num -> num;
  num_sub : num -> num -> num;
  num_mul : num -> num -> num;
  num_sqrt : num -> num;
  (** [a <= b] *)
  num_leb : num -> num -> bool;
  (** [ToBoolean x] is false: [x] is zero or NaN *)
  num_falsy : num -> bool;
  (** [Math.floor x] as an integer *)
  num_floorZ : num -> Z;
  (** an integer literal *)
  num_of_Z : Z -> num;
  (** the decimal literal [m / 10^k], as the parser reads it *)
  num_dec : Z -> nat -> num;
  (** [Math.PI] *)
  num_PI : num
}.

Class MathLib (num : Type) : Type := {
  Math_cos : num -> num;
  Math_sin : num -> num;
  Math_atan2 : num -> num -> num
}.

Infix "+" := num_add : js_scope.
Infix "-" := num_sub : js_scope.
Infix "*" := num_mul : js_scope.
Infix "<=?" := num_leb : js_scope.
(** [a >= b] *)
Notation "a >=? b" := (num_leb b a) : js_scope.

(** *** binary64 *)

Module F64.

Definition of_Z (z : Z) : float :=
  match z with
  | Z0 => PrimFloat.zero
  | Zpos _ => PrimFloat.of_uint63 (Uint63.of_Z z)
  | Zneg p => PrimFloat.opp (PrimFloat.of_uint63 (Uint63.of_Z (Zpos p)))
  end.

(** A decimal literal denotes the double nearest to it, which is what the
    correctly rounded quotient of two exactly represented integers is. *)
Definition dec (m : Z) (k : nat) : float :=
  PrimFloat.div (of_Z m) (of_Z (10 ^ Z.of_nat k)).

Definition falsy (x : float) : bool :=
  PrimFloat.eqb x PrimFloat.zero || PrimFloat.is_nan x.

Definition floorZ (x : float) : Z :=
  match Prim2SF x with
  | S754_finite s m e => Z.shiftl (if s then Zneg m else Zpos m) e
  | _ => 0
  end.

Definition PI : float := 0x1.921fb54442d18p+1%float.

End F64.

#[export] Instance Number_float : Number float := {
  num_add := PrimFloat.add;
  num_sub := PrimFloat.sub;
  num_mul := PrimFloat.mul;
  num_sqrt := PrimFloat.sqrt;
  num_leb := PrimFloat.leb;
  num_falsy := F64.falsy;
  num_floorZ := F64.floorZ;
  num_of_Z := F64.of_Z;
  num_dec := F64.dec;
  num_PI := F64.PI
}.

(** *** exact arithmetic *)

Module Exact.

Definition leb (a b : R) : bool := if Rle_dec a b then true else false.

Definition falsy (x : R) : bool := if Req_dec_T x 0%R then true else false.

Definition floorZ (x : R) : Z := Int_part x.

Definition dec (m : Z) (k : nat) : R := (IZR m / IZR (10 ^ Z.of_nat k))%R.

Definition atan2 (y x : R) : R :=
  if Rlt_dec 0 x then atan (y / x)
  else if Rlt_dec x 0 then
    (if Rle_dec 0 y then atan (y / x) + PI else atan (y / x) - PI)%R
  else if Rlt_dec 0 y then (PI / 2)%R
  else if Rlt_dec y 0 then (- (PI / 2))%R
  else 0%R.

End Exact.

#[export] Instance Number_R : Number R := {
  num_add := Rplus;
  num_sub := Rminus;
  num_mul := Rmult;
  num_sqrt := R_sqrt.sqrt;
  num_leb := Exact.leb;
  num_falsy := Exact.falsy;
  num_floorZ := Exact.floorZ;
  num_of_Z := IZR;
  num_dec := Exact.dec;
  num_PI := PI
}.

#[export] Instance MathLib_R : MathLib R := {
  Math_cos := cos;
  Math_sin := sin;
  Math_atan2 := Exact.atan2
}.

(** ** Fireworks.js: the two kinds of particle *)

Record Color : Set := mkColor { hue : Z; saturation : Z }.

(** The 2D drawing context. Drawing only paints, so [clearRect] and the
    particles' [draw] appear below only through the objects they
    dereference. *)
Inductive Context2D : Set := TheContext.

(** A method either completes or throws the [TypeError] of a property read
    on [null] or [undefined]. *)
Inductive Result (A : Type) : Type :=
| Ok (a : A)
| TypeError (what : string).
Arguments Ok {A} a.
Arguments TypeError {A} what.

(** [a.pop(); a.unshift(p)] *)
Definition pop_unshift {A : Type} (p : A) (a : list A) : list A := p :: removelast a.

Module FireworkParticle.
Section WithNumber.
Context {num : Type} {N : Number num} {M : MathLib num}.
Local Open Scope js_scope.

Record t : Type := mk {
  x : num;
  y : num;
  startX : num;
  startY : num;
  targetX : num;
  targetY : num;
  ctx : option Context2D;
  color : option Color;
  coordinates : list (num * num);
  coordinateCount : Z;
  angle : num;
  speed : num;
  acceleration : num;
  brightness : num;
  distance : num;
  currentDistance : num
}.

Definition calculateDistance (startX startY targetX targetY : num) : num :=
  let dx := targetX - startX in
  let dy := targetY - startY in
  num_sqrt (dx * dx + dy * dy).

(** [new FireworkParticle(x1, y1, x2, y2, ctx, color)]: the constructor stores
    its arguments and calls [initialize]; [random] is what the one call of
    [Math.random()] returns. The loop [while (this.coordinateCount--)] leaves
    three copies of the launch point and the counter at -1. *)
Definition initialize (x1 y1 x2 y2 : num) (ctx : option Context2D)
    (color : option Color) (random : num) : t :=
  {| x := x1; y := y1;
     startX := x1; startY := y1;
     targetX := x2; targetY := y2;
     ctx := ctx;
     color := color;
     coordinates := [(x1, y1); (x1, y1); (x1, y1)];
     coordinateCount := -1;
     angle := Math_atan2 (y2 - y1) (x2 - x1);
     speed := num_of_Z 2;
     acceleration := num_dec 102 2;
     brightness := num_of_Z (num_floorZ (random * num_of_Z 20)) + num_of_Z 70;
     distance := calculateDistance x1 y1 x2 y2;
     currentDistance := num_of_Z 0 |}.

(** One tick: the particle after it, and whether the target is reached. *)
Definition update (p : t) : t * bool :=
  let coordinates' := pop_unshift (x p, y p) (coordinates p) in
  let speed' := speed p * acceleration p in
  let vx := Math_cos (angle p) * speed' in
  let vy := Math_sin (angle p) * speed' in
  let x' := x p + vx in
  let y' := y p + vy in
  let dx := x' - startX p in
  let dy := y' - startY p in
  let currentDistance' := num_sqrt (dx * dx + dy * dy) in
  ({| x := x'; y := y';
      startX := startX p; startY := startY p;
      targetX := targetX p; targetY := targetY p;
      ctx := ctx p;
      color := color p;
      coordinates := coordinates';
      coordinateCount := coordinateCount p;
      angle := angle p;
      speed := speed';
      acceleration := acceleration p;
      brightness := brightness p;
      distance := distance p;
      currentDistance := currentDistance' |},
   currentDistance' >=? distance p).

(** Every Number one call of [update] computes, in the order of
    evaluation. *)
Definition arithmetic (p : t) : list num :=
  let speed' := speed p * acceleration p in
  let c := Math_cos (angle p) in
  let vx := c * speed' in
  let s := Math_sin (angle p) in
  let vy := s * speed' in
  let x' := x p + vx in
  let y' := y p + vy in
  let dx := x' - startX p in
  let dy := y' - startY p in
  [speed'; c; vx; s; vy; x'; y'; dx; dy;
   dx * dx; dy * dy; dx * dx + dy * dy; num_sqrt (dx * dx + dy * dy)].

(** [draw] paints the trail: it returns at once on fewer than two trail
    points, and otherwise reads [this.ctx.beginPath] and then
    [this.color.hue]. *)
Definition draw (p : t) : Result unit :=
  if (List.length (coordinates p) <? 2)%nat then Ok tt
  else match ctx p with
       | None => TypeError "this.ctx is null"
       | Some _ =>
           match color p with
           | None => TypeError "this.color is undefined"
           | Some _ => Ok tt
           end
       end.

(** The particle after [n] ticks, removed or not. *)
Fixpoint ticks (n : nat) (p : t) : t :=
  match n with
  | O => p
  | S n => fst (update (ticks n p))
  end.

(** What [update] returns at tick [n], for [n >= 1]. *)
Definition reached (n : nat) (p : t) : bool :=
  match n with
  | O => false
  | S n => snd (update (ticks n p))
  end.

End WithNumber.
Arguments t num : clear implicits.
End FireworkParticle.

Module ExplosionParticle.
Section WithNumber.
Context {num : Type} {N : Number num} {M : MathLib num}.
Local Open Scope js_scope.

Record t : Type := mk {
  x : num;
  y : num;
  ctx : option Context2D;
  color : option Color;
  coordinates : list (num * num);
  coordinateCount : Z;
  angle : num;
  speed : num;
  friction : num;
  gravity : num;
  brightness : num;
  alpha : num;
  decay : num
}.

(** The five values [Math.random()] returns in [initialize], in order. *)
Record Draws : Type := mkDraws {
  r_angle : num;
  r_speed : num;
  r_brightness : num;
  r_alpha : num;
  r_decay : num
}.

(** [new ExplosionParticle(x, y, ctx, color)] *)
Definition initialize (x0 y0 : num) (ctx : option Context2D)
    (color : option Color) (r : Draws) : t :=
  {| x := x0; y := y0;
     ctx := ctx;
     color := color;
     coordinates := [(x0, y0); (x0, y0); (x0, y0); (x0, y0); (x0, y0)];
     coordinateCount := -1;
     angle := r_angle r * num_PI * num_of_Z 2;
     speed := r_speed r * num_of_Z 9 + num_of_Z 1;
     friction := num_dec 95 2;
     gravity := num_dec 6 1;
     brightness := num_of_Z (num_floorZ (r_brightness r * num_of_Z 25)) + num_of_Z 70;
     alpha := r_alpha r * num_dec 1 1 + num_dec 9 1;
     decay := r_decay r * num_dec 15 3 + num_dec 1 2 |}.

(** One tick: the particle after it, and whether it has faded out. *)
Definition update (p : t) : t * bool :=
  let coordinates' := pop_unshift (x p, y p) (coordinates p) in
  let speed' := speed p * friction p in
  let x' := x p + Math_cos (angle p) * speed' in
  let y' := y p + (Math_sin (angle p) * speed' + gravity p) in
  let alpha' := alpha p - decay p in
  ({| x := x'; y := y';
      ctx := ctx p;
      color := color p;
      coordinates := coordinates';
      coordinateCount := coordinateCount p;
      angle := angle p;
      speed := speed';
      friction := friction p;
      gravity := gravity p;
      brightness := brightness p;
      alpha := alpha';
      decay := decay p |},
   alpha' <=? num_dec 1 2).

(** [draw] returns at once on fewer than two trail points or when the
    opacity is at most 0, and otherwise reads [this.ctx.beginPath] and then
    [this.color.hue]. *)
Definition draw (p : t) : Result unit :=
  if (List.length (coordinates p) <? 2)%nat || (alpha p <=? num_of_Z 0) then Ok tt
  else match ctx p with
       | None => TypeError "this.ctx is null"
       | Some _ =>
           match color p with
           | None => TypeError "this.color is undefined"
           | Some _ => Ok tt
           end
       end.

Fixpoint ticks (n : nat) (p : t) : t :=
  match n with
  | O => p
  | S n => fst (update (ticks n p))
  end.

(** What [update] returns at tick [n], for [n >= 1]. *)
Definition faded (n : nat) (p : t) : bool :=
  match n with
  | O => false
  | S n => snd (update (ticks n p))
  end.

End WithNumber.
Arguments t num : clear implicits.
Arguments Draws num : clear implicits.
End ExplosionParticle.

(** ** Fireworks.js: the simulation loop *)

Module Fireworks.
Section WithNumber.
Context {num : Type} {N : Number num} {M : MathLib num}.
Local Open Scope js_scope.

Record Settings : Type := mkSettings {
  canvasId : string;
  particleCount : Z;
  minDelay : Z;
  maxDelay : Z;
  simultaneousFireworks : Z;
  fireworksPerBurst : Z;
  colors : list Color
}.

Definition defaults : Settings :=
  {| canvasId := "fireworks-canvas";
     particleCount := 120;
     minDelay := 80;
     maxDelay := 150;
     simultaneousFireworks := 8;
     fireworksPerBurst := 8;
     colors :=
       [ mkColor 0 100; mkColor 15 100; mkColor 30 100; mkColor 45 100;
         mkColor 60 100; mkColor 120 100; mkColor 180 100; mkColor 200 100;
         mkColor 240 100; mkColor 270 80; mkColor 300 80; mkColor 330 80;
         mkColor 50 100; mkColor 220 30; mkColor 40 90; mkColor 150 70 ] |}.

(** The canvas element: its pixel size. *)
Record Canvas : Set := mkCanvas { width : Z; height : Z }.

(** The [Fireworks] instance. *)
Record t : Type := mk {
  settings : Settings;
  canvas : option Canvas;
  ctx : option Context2D;
  isRunning : bool;
  fireworks : list (FireworkParticle.t num);
  particles : list (ExplosionParticle.t num);
  animationId : option nat
}.

(** What [setTimeout] is asked to call later. *)
Inductive Callback : Set :=
| CallSpawnFirework
| CallSpawnBurst (count : Z).

(** The instance in its page. [frames] are the animation-frame requests that
    have neither run nor been cancelled, [timeouts] the pending [setTimeout]
    calls with their delays, [random] the values [Math.random()] is going to
    return and [drawn] how many of them have been taken. *)
Record Page : Type := mkPage {
  self : t;
  canvasElement : option Canvas;
  innerWidth : Z;
  innerHeight : Z;
  frames : list nat;
  timeouts : list (Z * Callback);
  nextHandle : nat;
  random : nat -> num;
  drawn : nat;
  console : list string;
  listening : bool
}.

Definition Action (A : Type) : Type := Page -> Result (A * Page).

Definition ret {A : Type} (a : A) : Action A := fun p => Ok (a, p).

Definition bind {A B : Type} (c : Action A) (k : A -> Action B) : Action B :=
  fun p =>
    match c p with
    | Ok (a, p') => k a p'
    | TypeError what => TypeError what
    end.

Notation "x <- c ;; k" := (bind c (fun x => k))
  (at level 61, c at next level, right associativity).
Notation "c ;; k" := (bind c (fun _ => k))
  (at level 61, right associativity).

Definition throw {A : Type} (what : string) : Action A := fun _ => TypeError what.

(** A call that may throw and leaves the instance alone. *)
Definition lift {A : Type} (r : Result A) : Action A :=
  fun p =>
    match r with
    | Ok a => Ok (a, p)
    | TypeError what => TypeError what
    end.

Definition this : Action t := fun p => Ok (self p, p).

Definition modify (f : t -> t) : Action unit :=
  fun p =>
    Ok (tt, {| self := f (self p); canvasElement := canvasElement p;
               innerWidth := innerWidth p; innerHeight := innerHeight p;
               frames := frames p; timeouts := timeouts p;
               nextHandle := nextHandle p; random := random p; drawn := drawn p;
               console := console p; listening := listening p |}).

Definition set_canvas (c : option Canvas) (s : t) : t :=
  {| settings := settings s; canvas := c; ctx := ctx s; isRunning := isRunning s;
     fireworks := fireworks s; particles := particles s; animationId := animationId s |}.

Definition set_ctx (c : option Context2D) (s : t) : t :=
  {| settings := settings s; canvas := canvas s; ctx := c; isRunning := isRunning s;
     fireworks := fireworks s; particles := particles s; animationId := animationId s |}.

Definition set_isRunning (b : bool) (s : t) : t :=
  {| settings := settings s; canvas := canvas s; ctx := ctx s; isRunning := b;
     fireworks := fireworks s; particles := particles s; animationId := animationId s |}.

Definition set_fireworks (l : list (FireworkParticle.t num)) (s : t) : t :=
  {| settings := settings s; canvas := canvas s; ctx := ctx s; isRunning := isRunning s;
     fireworks := l; particles := particles s; animationId := animationId s |}.

Definition set_particles (l : list (ExplosionParticle.t num)) (s : t) : t :=
  {| settings := settings s; canvas := canvas s; ctx := ctx s; isRunning := isRunning s;
     fireworks := fireworks s; particles := l; animationId := animationId s |}.

Definition set_animationId (i : option nat) (s : t) : t :=
  {| settings := settings s; canvas := canvas s; ctx := ctx s; isRunning := isRunning s;
     fireworks := fireworks s; particles := particles s; animationId := i |}.

(** *** The browser *)

Definition Math_random : Action num :=
  fun p =>
    Ok (random p (drawn p),
        {| self := self p; canvasElement := canvasElement p;
           innerWidth := innerWidth p; innerHeight := innerHeight p;
           frames := frames p; timeouts := timeouts p;
           nextHandle := nextHandle p; random := random p; drawn := S (drawn p);
           console := console p; listening := listening p |}).

Definition requestAnimationFrame : Action nat :=
  fun p =>
    Ok (nextHandle p,
        {| self := self p; canvasElement := canvasElement p;
           innerWidth := innerWidth p; innerHeight := innerHeight p;
           frames := frames p ++ [nextHandle p]; timeouts := timeouts p;
           nextHandle := S (nextHandle p); random := random p; drawn := drawn p;
           console := console p; listening := listening p |}).

Definition cancelAnimationFrame (id : nat) : Action unit :=
  fun p =>
    Ok (tt,
        {| self := self p; canvasElement := canvasElement p;
           innerWidth := innerWidth p; innerHeight := innerHeight p;
           frames := filter (fun i => negb (Nat.eqb i id)) (frames p);
           timeouts := timeouts p;
           nextHandle := nextHandle p; random := random p; drawn := drawn p;
           console := console p; listening := listening p |}).

Definition setTimeout (cb : Callback) (ms : Z) : Action unit :=
  fun p =>
    Ok (tt,
        {| self := self p; canvasElement := canvasElement p;
           innerWidth := innerWidth p; innerHeight := innerHeight p;
           frames := frames p; timeouts := timeouts p ++ [(ms, cb)];
           nextHandle := nextHandle p; random := random p; drawn := drawn p;
           console := console p; listening := listening p |}).

Definition console_log (msg : string) : Action unit :=
  fun p =>
    Ok (tt,
        {| self := self p; canvasElement := canvasElement p;
           innerWidth := innerWidth p; innerHeight := innerHeight p;
           frames := frames p; timeouts := timeouts p;
           nextHandle := nextHandle p; random := random p; drawn := drawn p;
           console := console p ++ [msg]; listening := listening p |}).

Definition addEventListeners : Action unit :=
  fun p =>
    Ok (tt,
        {| self := self p; canvasElement := canvasElement p;
           innerWidth := innerWidth p; innerHeight := innerHeight p;
           frames := frames p; timeouts := timeouts p;
           nextHandle := nextHandle p; random := random p; drawn := drawn p;
           console := console p; listening := true |}).

(** Reading a property of [this.canvas] or [this.ctx]. *)
Definition this_canvas : Action Canvas :=
  s <- this ;;
  match canvas s with
  | Some c => ret c
  | None => throw "this.canvas is null"
  end.

Definition this_ctx : Action Context2D :=
  s <- this ;;
  match ctx s with
  | Some c => ret c
  | None => throw "this.ctx is null"
  end.

(** *** The methods *)

Definition resizeCanvas : Action unit :=
  _ <- this_canvas ;;
  fun p => modify (set_canvas (Some (mkCanvas (innerWidth p) (innerHeight p)))) p.

Definition initializeCanvas : Action unit :=
  fun p =>
    (modify (set_canvas (canvasElement p)) ;;
     s <- this ;;
     match canvas s with
     | None => console_log "canvas not found"
     | Some _ =>
         modify (set_ctx (Some TheContext)) ;;
         resizeCanvas ;;
         addEventListeners
     end) p.

(** [new Fireworks(options)] in a page, [options] already merged over the
    defaults. *)
Definition construct (options : Settings) : Action unit :=
  modify (fun _ =>
    {| settings := options; canvas := None; ctx := None; isRunning := false;
       fireworks := []; particles := []; animationId := None |}) ;;
  initializeCanvas.

Definition randomRange (min max : num) : Action num :=
  r <- Math_random ;;
  ret (r * (max - min) + min).

(** [a[i]] for an integral index: [undefined] outside the array. *)
Definition index {A : Type} (a : list A) (i : Z) : option A :=
  if (i <? 0)%Z then None else nth_error a (Z.to_nat i).

Definition getRandomColor : Action (option Color) :=
  s <- this ;;
  r <- Math_random ;;
  ret (index (colors (settings s))
         (num_floorZ (r * num_of_Z (Z.of_nat (List.length (colors (settings s))))))).

(** [v || alt] for an optional Number argument: [undefined], zero and NaN
    are falsy. *)
Definition or_else (v : option num) (alt : Action num) : Action num :=
  match v with
  | Some n => if num_falsy n then alt else ret n
  | None => alt
  end.

Definition spawnFirework (x y : option num) (color : option Color) : Action unit :=
  c <- this_canvas ;;
  startX <- randomRange (num_of_Z 150) (num_of_Z (width c) - num_of_Z 150) ;;
  c <- this_canvas ;;
  let startY := num_of_Z (height c) + num_of_Z 30 in
  targetX <- or_else x
    (c <- this_canvas ;;
     randomRange (num_of_Z 100) (num_of_Z (width c) - num_of_Z 100)) ;;
  targetY <- or_else y
    (c <- this_canvas ;;
     randomRange (num_of_Z 150) (num_of_Z (height c) * num_dec 5 1)) ;;
  fireworkColor <- match color with
                   | Some c => ret (Some c)
                   | None => getRandomColor
                   end ;;
  r <- Math_random ;;
  modify (fun s =>
    set_fireworks
      (fireworks s ++
       [FireworkParticle.initialize startX startY targetX targetY (ctx s) fireworkColor r]) s).

(** [for (let i = 0; i < count; i++) setTimeout(() => this.spawnFirework(), i * 150)] *)
Fixpoint spawnBurst_from (i : Z) (n : nat) : Action unit :=
  match n with
  | O => ret tt
  | S n => setTimeout CallSpawnFirework (i * 150) ;; spawnBurst_from (i + 1) n
  end.

Definition spawnBurst (count : Z) : Action unit := spawnBurst_from 0 (Z.to_nat count).

Definition newExplosionParticle (x y : num) (color : option Color)
  : Action (ExplosionParticle.t num) :=
  r1 <- Math_random ;;
  r2 <- Math_random ;;
  r3 <- Math_random ;;
  r4 <- Math_random ;;
  r5 <- Math_random ;;
  s <- this ;;
  ret (ExplosionParticle.initialize x y (ctx s) color
         (ExplosionParticle.mkDraws r1 r2 r3 r4 r5)).

Fixpoint createParticles_n (n : nat) (x y : num) (color : option Color) : Action unit :=
  match n with
  | O => ret tt
  | S n =>
      e <- newExplosionParticle x y color ;;
      modify (fun s => set_particles (particles s ++ [e]) s) ;;
      createParticles_n n x y color
  end.

Definition createParticles (x y : num) (color : option Color) : Action unit :=
  s <- this ;;
  createParticles_n (Z.to_nat (particleCount (settings s))) x y color.

(** The loop of [updateFireworks] runs from the last index down, so the tail
    of the array is swept before its head; each firework is drawn, then
    updated, and a finished one is spliced out after its burst is created. *)
Fixpoint sweepFireworks (l : list (FireworkParticle.t num))
  : Action (list (FireworkParticle.t num)) :=
  match l with
  | [] => ret []
  | firework :: rest =>
      rest' <- sweepFireworks rest ;;
      lift (FireworkParticle.draw firework) ;;
      let (firework', done) := FireworkParticle.update firework in
      if done then
        createParticles (FireworkParticle.x firework') (FireworkParticle.y firework')
          (FireworkParticle.color firework') ;;
        ret rest'
      else ret (firework' :: rest')
  end.

Definition updateFireworks : Action unit :=
  s <- this ;;
  l <- sweepFireworks (fireworks s) ;;
  modify (set_fireworks l).

Fixpoint sweepParticles (l : list (ExplosionParticle.t num))
  : Action (list (ExplosionParticle.t num)) :=
  match l with
  | [] => ret []
  | particle :: rest =>
      rest' <- sweepParticles rest ;;
      lift (ExplosionParticle.draw particle) ;;
      let (particle', done) := ExplosionParticle.update particle in
      if done then ret rest' else ret (particle' :: rest')
  end.

Definition updateParticles : Action unit :=
  s <- this ;;
  l <- sweepParticles (particles s) ;;
  modify (set_particles l).

Definition autoSpawn : Action unit :=
  s <- this ;;
  let live := Z.of_nat (List.length (fireworks s)) in
  if (live <? simultaneousFireworks (settings s))%Z then
    let needed := Z.min (simultaneousFireworks (settings s) - live)
                        (fireworksPerBurst (settings s)) in
    if (0 <? needed)%Z then spawnBurst needed else ret tt
  else ret tt.

(** One pass of [loop], up to the request for the next frame. *)
Definition loop : Action unit :=
  s <- this ;;
  if negb (isRunning s) then ret tt
  else
    _ <- this_ctx ;;
    _ <- this_canvas ;;
    updateFireworks ;;
    updateParticles ;;
    autoSpawn ;;
    id <- requestAnimationFrame ;;
    modify (set_animationId (Some id)).

Definition start : Action unit :=
  s <- this ;;
  if isRunning s || (match ctx s with None => true | Some _ => false end) then ret tt
  else
    modify (set_isRunning true) ;;
    modify (set_fireworks []) ;;
    modify (set_particles []) ;;
    loop ;;
    console_log "started".

Definition stop : Action unit :=
  modify (set_isRunning false) ;;
  s <- this ;;
  match animationId s with
  | Some id => cancelAnimationFrame id ;; modify (set_animationId None)
  | None => ret tt
  end ;;
  s <- this ;;
  match ctx s with
  | Some _ => _ <- this_canvas ;; ret tt
  | None => ret tt
  end ;;
  console_log "stopped".

Definition pause : Action unit := modify (set_isRunning false).

Definition resume : Action unit :=
  s <- this ;;
  if negb (isRunning s) then modify (set_isRunning true) ;; loop
  else ret tt.

(** [handleClick(event)]: the pointer position and whether the click hit a
    button. *)
Definition handleClick (clientX clientY : num) (onButton : bool) : Action unit :=
  s <- this ;;
  if negb (isRunning s) || onButton then ret tt
  else spawnFirework (Some clientX) (Some clientY) None.

Definition massiveCelebration : Action unit :=
  spawnBurst 15 ;;
  setTimeout (CallSpawnBurst 10) 1000 ;;
  setTimeout (CallSpawnBurst 8) 2000.

(** *** What happens to the page *)

Definition callback (cb : Callback) : Action unit :=
  match cb with
  | CallSpawnFirework => spawnFirework None None None
  | CallSpawnBurst count => spawnBurst count
  end.

(** The browser runs the animation frame requested under [id], if it is
    still pending. *)
Definition frameFires (id : nat) : Action unit :=
  fun p =>
    if existsb (Nat.eqb id) (frames p) then (cancelAnimationFrame id ;; loop) p
    else Ok (tt, p).

(** The number of tick chains alive: every pending frame request runs
    [loop] once, which requests the next one while the loop is running. *)
Definition tickChains (p : Page) : nat :=
  if isRunning (self p) then List.length (frames p) else O.

(** *** Pages for the statements *)

(** The delays [spawnBurst] asks for, from index [i] on. *)
Fixpoint burstSchedule (i : Z) (n : nat) : list (Z * Callback) :=
  match n with
  | O => []
  | S n => ((i * 150)%Z, CallSpawnFirework) :: burstSchedule (i + 1)%Z n
  end.

Definition with_timeouts (ts : list (Z * Callback)) (p : Page) : Page :=
  {| self := self p; canvasElement := canvasElement p;
     innerWidth := innerWidth p; innerHeight := innerHeight p;
     frames := frames p; timeouts := ts;
     nextHandle := nextHandle p; random := random p; drawn := drawn p;
     console := console p; listening := listening p |}.

(** What [autoSpawn] schedules when no firework is alive. *)
Definition firstBurst (s : Settings) : list (Z * Callback) :=
  (if 0 <? simultaneousFireworks s then
     if 0 <? Z.min (simultaneousFireworks s - 0) (fireworksPerBurst s) then
       burstSchedule 0 (Z.to_nat (Z.min (simultaneousFireworks s - 0) (fireworksPerBurst s)))
     else []
   else [])%Z.

(** The page right after a [start] that took effect. *)
Definition started (p : Page) : Page :=
  {| self := {| settings := settings (self p);
                canvas := canvas (self p);
                ctx := ctx (self p);
                isRunning := true;
                fireworks := [];
                particles := [];
                animationId := Some (nextHandle p) |};
     canvasElement := canvasElement p;
     innerWidth := innerWidth p; innerHeight := innerHeight p;
     frames := frames p ++ [nextHandle p];
     timeouts := timeouts p ++ firstBurst (settings (self p));
     nextHandle := S (nextHandle p);
     random := random p; drawn := drawn p;
     console := console p ++ ["started"%string];
     listening := listening p |}.

(** A page before the script runs. *)
Definition blank (element : option Canvas) (w h : Z) (rnd : nat -> num) : Page :=
  {| self := {| settings := defaults; canvas := None; ctx := None; isRunning := false;
                fireworks := []; particles := []; animationId := None |};
     canvasElement := element;
     innerWidth := w; innerHeight := h;
     frames := []; timeouts := [];
     nextHandle := 1%nat;
     random := rnd; drawn := O;
     console := []; listening := false |}.

End WithNumber.
Arguments t num : clear implicits.
Arguments Page num : clear implicits.
Arguments Action num A : clear implicits.
End Fireworks.

(** ** A reference engine for binary64

    ECMAScript leaves the accuracy of [Math.cos], [Math.sin] and
    [Math.atan2] to the implementation and fixes their values at zeros.
    This is one implementation, by argument reduction and Taylor
    polynomials, used wherever an example needs the simulation to run on
    binary64 from end to end. *)

Module Engine.
Local Open Scope float_scope.

Definition horner (coefficients : list float) (z : float) : float :=
  fold_right (fun c acc => c + z * acc) 0 coefficients.

(** [1 / n!] and [1 / n], correctly rounded. *)
Definition inv (n : Z) : float := 1 / F64.of_Z n.

Definition sin_poly (r : float) : float :=
  let z := r * r in
  r * horner [1; - inv 6; inv 120; - inv 5040; inv 362880; - inv 39916800;
              inv 6227020800; - inv 1307674368000; inv 355687428096000] z.

Definition cos_poly (r : float) : float :=
  let z := r * r in
  horner [1; - inv 2; inv 24; - inv 720; inv 40320; - inv 3628800;
          inv 479001600; - inv 87178291200; inv 20922789888000] z.

Definition finite (x : float) : bool := PrimFloat.abs x <? infinity.

(** pi/2 in two parts *)
Definition pio2_hi : float := 0x1.921fb54442d18p+0.
Definition pio2_lo : float := 0x1.1a62633145c07p-54.

(** The quadrant of [x] and what is left of it. *)
Definition reduce (x : float) : Z * float :=
  let k := F64.floorZ (x / pio2_hi + 0x1p-1) in
  let fk := F64.of_Z k in
  ((k mod 4)%Z, (x - fk * pio2_hi) - fk * pio2_lo).

Definition cos (x : float) : float :=
  if finite x then
    let (q, r) := reduce x in
    if (q =? 0)%Z then cos_poly r
    else if (q =? 1)%Z then - sin_poly r
    else if (q =? 2)%Z then - cos_poly r
    else sin_poly r
  else nan.

Definition sin (x : float) : float :=
  if finite x then
    let (q, r) := reduce x in
    if (q =? 0)%Z then sin_poly r
    else if (q =? 1)%Z then cos_poly r
    else if (q =? 2)%Z then - sin_poly r
    else - cos_poly r
  else nan.

Definition halve (z : float) : float := z / (1 + PrimFloat.sqrt (1 + z * z)).

(** arctangent on [-1, 1] *)
Definition atan_small (z : float) : float :=
  let h := halve (halve z) in
  let w := h * h in
  4 * (h * horner [1; - inv 3; inv 5; - inv 7; inv 9; - inv 11; inv 13;
                   - inv 15; inv 17; - inv 19; inv 21; - inv 23; inv 25] w).

Definition atan (z : float) : float :=
  if PrimFloat.abs z <=? 1 then atan_small z
  else if 0 <? z then pio2_hi - atan_small (1 / z)
  else - pio2_hi - atan_small (1 / z).

(** the sign bit, also of a zero *)
Definition negative (x : float) : bool := (x <? 0) || ((x =? 0) && (1 / x <? 0)).

Definition atan2 (y x : float) : float :=
  if PrimFloat.is_nan y || PrimFloat.is_nan x then nan
  else if 0 <? x then atan (y / x)
  else if x <? 0 then
    (if negative y then atan (y / x) - F64.PI else atan (y / x) + F64.PI)
  else if 0 <? y then pio2_hi
  else if y <? 0 then - pio2_hi
  else if negative x then (if negative y then - F64.PI else F64.PI)
  else y.

End Engine.

Definition MathLib_engine : MathLib float := {|
  Math_cos := Engine.cos;
  Math_sin := Engine.sin;
  Math_atan2 := Engine.atan2
|}.

(** ** Pages and calls for the statements *)

(** The page once the script has constructed its [Fireworks] in it. *)
Definition constructed {num : Type} {N : Number num} {M : MathLib num}
    (element : option Fireworks.Canvas) (w h : Z) (rnd : nat -> num) : Fireworks.Page num :=
  match Fireworks.construct Fireworks.defaults (Fireworks.blank element w h rnd) with
  | Ok (_, p) => p
  | TypeError _ => Fireworks.blank element w h rnd
  end.

(** The calls a page makes on a [Fireworks] that [start] guards. *)
Inductive Call : Set := CallStart | CallStop | CallPause.

Definition call {num : Type} {N : Number num} {M : MathLib num} (c : Call)
  : Fireworks.Action num unit :=
  match c with
  | CallStart => Fireworks.start
  | CallStop => Fireworks.stop
  | CallPause => Fireworks.pause
  end.

Fixpoint calls {num : Type} {N : Number num} {M : MathLib num} (cs : list Call)
  : Fireworks.Action num unit :=
  match cs with
  | [] => Fireworks.ret tt
  | c :: cs => Fireworks.bind (call c) (fun _ => calls cs)
  end.

(** A 1000 by 800 window whose [Math.random()] always answers one half. *)
Definition half : nat -> float := fun _ => 0x1p-1%float.

Definition pageWithCanvas : Fireworks.Page float :=
  @constructed float _ MathLib_engine (Some (Fireworks.mkCanvas 300 150)) 1000 800 half.

Definition pageWithoutCanvas : Fireworks.Page float :=
  @constructed float _ MathLib_engine None 1000 800 half.


(** ** binary64 as integer arithmetic

    Every finite double is an integer number of units of [2^-1074], and the
    sum, difference and product of two doubles are the rounding to nearest,
    ties to even, of the exact integer result. These are the definitions
    that say so; they are related to the kernel's floats in the theory
    below. *)

Module Binary64.

(** Round [m / P] to the nearest integer, ties to even. *)
Definition rhe (m P : Z) : Z :=
  let q := m / P in
  let r := m mod P in
  if 2 * r <? P then q
  else if (2 * r =? P) && Z.even q then q
  else q + 1.

(** The exponent of the last place of [m * 2^e]. *)
Definition cexp (m e : Z) : Z := fexp prec emax (Zdigits2 m + e).

(** Rounding of [m * 2^e], [m > 0]: mantissa and exponent. *)
Definition rnd (m e : Z) : Z * Z :=
  let t := cexp m e in
  if t <=? e then (m * 2 ^ (e - t), t)
  else
    let q := rhe m (2 ^ (t - e)) in
    if q =? 2 ^ 53 then (2 ^ 52, t + 1) else (q, t).

Definition finish (s : bool) (qt : Z * Z) : spec_float :=
  let (q, t) := qt in
  match q with
  | Zpos p => if t <=? emax - prec then S754_finite s p t else S754_infinity s
  | _ => S754_zero s
  end.

(** The spacing at [m], in units of [2^e]. *)
Definition spacing (m e : Z) : Z := 2 ^ (cexp m e - e).

Definition F (m e : Z) : Z := rhe m (spacing m e) * spacing m e.

Definition value (qt : Z * Z) (e : Z) : Z := fst qt * 2 ^ (snd qt - e).

Definition canonical (qt : Z * Z) : Prop :=
  emin <= snd qt /\ 0 <= fst qt < 2 ^ 53 /\
  (snd qt = emin \/ 2 ^ 52 <= fst qt \/ fst qt = 0).

Definition SFle (x y : spec_float) : Prop := SFleb x y = true.

(** The double nearest to [V * 2^e]. *)
Definition RE (e V : Z) : spec_float := binary_normalize prec emax V e false.

Definition finite (x : spec_float) : bool :=
  match x with
  | S754_zero _ | S754_finite _ _ _ => true
  | _ => false
  end.

(** The value of a finite double, in units of [2^emin]. *)
Definition val (x : spec_float) : Z :=
  match x with
  | S754_finite s m e => cond_Zopp s (Zpos m * 2 ^ (e - emin))
  | _ => 0
  end.

(** Equal, or zeros of either sign. *)
Definition same (x y : spec_float) : Prop :=
  x = y \/ (exists s s', x = S754_zero s /\ y = S754_zero s').

Definition Fin (a : float) : Prop := finite (Prim2SF a) = true.

(** The value of a finite float, in units of [2^-1074]. *)
Definition V (a : float) : Z := val (Prim2SF a).

(** Rounding of sums and differences, and of products. *)
Definition rz (W : Z) : Z := val (RE emin W).
Definition rz2 (W : Z) : Z := val (RE (2 * emin) W).
Definition fits (W : Z) : bool := finite (RE emin W).
Definition fits2 (W : Z) : bool := finite (RE (2 * emin) W).

(** The largest finite value. *)
Definition maxV : Z := (2 ^ 53 - 1) * 2 ^ (emax - prec - emin).

Definition I (n : Z) : Z := n * 2 ^ 1074.

(** Zero, a positive number or plus infinity. *)
Definition nonneg (x : spec_float) : bool :=
  match x with
  | S754_zero _ | S754_finite false _ _ | S754_infinity false => true
  | _ => false
  end.

(** On primitive floats. *)
Definition NonNeg (a : float) : Prop := nonneg (Prim2SF a) = true.

Definition NotNaN (a : float) : Prop := Prim2SF a <> S754_nan.

End Binary64.

(** ** The numbers of the statements *)

Section StatementNumbers.
Import Binary64.
Local Open Scope float_scope.

(** What [Math.random()] returns: a double in [0, 1). *)
Definition unit_draw (r : float) : Prop := (0 <=? r) = true /\ (r <? 1) = true.

(** The literals of [initialize]. *)
Definition c0_1 : float := 0x1.999999999999ap-4.
Definition c0_9 : float := 0x1.ccccccccccccdp-1.
Definition c0_015 : float := 0x1.eb851eb851eb8p-7.
Definition c0_01 : float := 0x1.47ae147ae147bp-7.
Definition c0_025 : float := 0x1.999999999999ap-6.

(** The literals of [FireworkParticle.initialize]: 2 * 1.02. *)
Definition c2_04 : float := 0x1.051eb851eb852p+1.

(** An interval of values, carried through the ticks: the lower end loses
    the largest decay, the upper end the smallest. [None] if an end leaves
    the finite range. *)
Definition fade_step (dlo dhi : Z) (lu : Z * Z) : option (Z * Z) :=
  let (l, u) := lu in
  if fits (l - dhi) && fits (u - dlo) then Some (rz (l - dhi), rz (u - dlo)) else None.

Fixpoint fade (dlo dhi : Z) (n : nat) (lu : Z * Z) : option (Z * Z) :=
  match n with
  | O => Some lu
  | S n =>
      match fade dlo dhi n lu with
      | Some lu' => fade_step dlo dhi lu'
      | None => None
      end
  end.

End StatementNumbers.

(** An explosion point for the examples: at the origin, every draw one
    half except the decay's, chosen so that the decay is the double 0.02. *)
Definition sampleDraws : ExplosionParticle.Draws float :=
  {| ExplosionParticle.r_angle := 0x1p-1%float;
     ExplosionParticle.r_speed := 0x1p-1%float;
     ExplosionParticle.r_brightness := 0x1p-1%float;
     ExplosionParticle.r_alpha := 0x1p-1%float;
     ExplosionParticle.r_decay := 0x1.5555555555556p-1%float |}.

Definition samplePoint : ExplosionParticle.t float :=
  ExplosionParticle.initialize 0%float 0%float (Some TheContext) (Some (mkColor 0 100))
    sampleDraws.


(** ** Statements about Projectiles on binary64 *)

Section FlightStatements.
Import Binary64.

(** The value of 1 in units of [2^-1074], and two spacings: [fine] is
    [2^-30], more than rounding moves any value of magnitude under [2^23],
    and [coarse] is [2^-7], the same for magnitudes under [2^46]. *)
Definition U1 : Z := 2 ^ 1074.
Definition fine : Z := 2 ^ 1044.
Definition coarse : Z := 2 ^ 1067.

(** A value that is a double: rounding returns it. *)
Definition representable (w : Z) : Prop := fits w = true /\ rz w = w.

(** The literal 1.02. *)
Definition c1_02 : float := 0x1.051eb851eb852p+0.

Local Open Scope float_scope.

(** A coordinate of magnitude at most 65536. *)
Definition onStage (v : float) : Prop :=
  (-65536 <=? v) = true /\ (v <=? 65536) = true.

(** A direction the engine returned as cosine and sine: both in [-1, 1],
    one of them at least one half in magnitude. *)
Definition steady (c s : float) : Prop :=
  ((-1 <=? c) = true /\ (c <=? 1) = true) /\
  ((-1 <=? s) = true /\ (s <=? 1) = true) /\
  ((0x1p-1 <=? c) || (c <=? -0x1p-1) || (0x1p-1 <=? s) || (s <=? -0x1p-1)) = true.

(** The engine straight up: at the angle of (0, 100) its sine is 1 and
    its cosine at most [2^-28] in magnitude. *)
Definition upright (M : MathLib float) : Prop :=
  Math_sin (Math_atan2 100 0) = 1 /\
  (-0x1p-28 <=? Math_cos (Math_atan2 100 0)) = true /\
  (Math_cos (Math_atan2 100 0) <=? 0x1p-28) = true.

(** The distance from the launch point that [update] computes from a
    position. *)
Definition distanceFrom (x0 y0 x y : float) : float :=
  PrimFloat.sqrt ((x - x0) * (x - x0) + (y - y0) * (y - y0)).

(** The distance covered along an axis from [x0] to [x], in units of
    [2^-1074], [sg] being the sign of the direction. *)
Definition covered (sg : Z) (x0 x : float) : Z := (sg * (V x - V x0))%Z.

(** A direction with its signs: [sx] and [sy] are 1 or -1 and make the
    cosine [c] and the sine [s] not negative. *)
Definition heading (c s : float) (sx sy : Z) : Prop :=
  ((sx = 1 \/ sx = -1) /\ (sy = 1 \/ sy = -1))%Z /\ Fin c /\ Fin s /\
  (0 <= sx * V c <= U1 /\ 0 <= sy * V s <= U1 /\
   (U1 <= 2 * (sx * V c) \/ U1 <= 2 * (sy * V s)))%Z.

(** What holds of a Projectile launched at [(x0, y0)] after [n] ticks none
    of which has reached the target: the fields [update] leaves alone, the
    position on the side of the launch point the direction points to, the
    speed at most the distance covered, and that distance at least [n]. *)
Definition inFlight {M : MathLib float} (x0 y0 c s dist : float) (sx sy : Z) (n : nat)
    (q : FireworkParticle.t float) : Prop :=
  (FireworkParticle.startX q = x0 /\ FireworkParticle.startY q = y0 /\
   Math_cos (FireworkParticle.angle q) = c /\ Math_sin (FireworkParticle.angle q) = s /\
   FireworkParticle.acceleration q = c1_02 /\ FireworkParticle.distance q = dist) /\
  (Fin (FireworkParticle.x q) /\ Fin (FireworkParticle.y q) /\
   Fin (FireworkParticle.speed q) /\ Fin (FireworkParticle.currentDistance q)) /\
  (0 <= covered sx x0 (FireworkParticle.x q) <= 4194304 * U1 /\
   0 <= covered sy y0 (FireworkParticle.y q) <= 4194304 * U1 /\
   2 * U1 <= V (FireworkParticle.speed q)
     <= 2 * (covered sx x0 (FireworkParticle.x q) + covered sy y0 (FireworkParticle.y q))
        + 2 * U1 /\
   Z.of_nat n * U1
     <= covered sx x0 (FireworkParticle.x q) + covered sy y0 (FireworkParticle.y q))%Z /\
  FireworkParticle.currentDistance q
    = distanceFrom x0 y0 (FireworkParticle.x q) (FireworkParticle.y q).

End FlightStatements.

(** ** More of the Clock: what the statements below are about *)

From Stdlib Require DecimalPos DecimalZ.

(** The intervals still registered after one more effect. *)
Definition liveAfter (live : list nat) (e : Countdown.Effect) : list nat :=
  match e with
  | Countdown.SetInterval id _ => live ++ [id]
  | Countdown.ClearInterval id => filter (fun i => negb (Nat.eqb i id)) live
  | _ => live
  end.

(** The intervals a trace has registered with [setInterval] and not cleared. *)
Definition liveIntervals (tr : list Countdown.Effect) : list nat :=
  fold_left liveAfter tr [].

Definition isIntervalEffect (e : Countdown.Effect) : bool :=
  match e with
  | Countdown.SetInterval _ _ | Countdown.ClearInterval _ => true
  | _ => false
  end.

(** [w'] is [w] with a longer trace, whose new effects all satisfy [P], and
    with the same Clock object and timer counter. *)
Definition onlyEmits (P : Countdown.Effect -> bool) (w w' : Countdown.World) : Prop :=
  Countdown.clock w' = Countdown.clock w /\
  Countdown.nextTimer w' = Countdown.nextTimer w /\
  Countdown.fireworksComponent w' = Countdown.fireworksComponent w /\
  exists l, Countdown.trace w' = Countdown.trace w ++ l /\ forallb P l = true.


(** The text [update] asks to show for a unit. *)
Definition shownText (t : Countdown.TimeUnits) (k : Countdown.UnitKey) : string :=
  Countdown.padStart2 (Countdown.String_of (Countdown.unitValue t k)).

(** The events [checkSpecialMoments] logs at [diff] milliseconds before the
    target. *)
Definition momentsAt (diff : Z) : list Countdown.Effect :=
  (if (3600000 <=? diff) && (diff <? 3601000)
   then [Countdown.ConsoleLog "hour_to_new_year"] else []) ++
  (if (600000 <=? diff) && (diff <? 601000)
   then [Countdown.ConsoleLog "ten_minutes_to_new_year"] else []) ++
  (if (60000 <=? diff) && (diff <? 61000)
   then [Countdown.ConsoleLog "one_minute_to_new_year"] else []).

(** The invariant of every execution: the intervals registered and not
    cleared are the one the Clock holds, and its id is an old one. *)
Definition holdsItsInterval (w : Countdown.World) : Prop :=
  liveIntervals (Countdown.trace w) =
    match Countdown.intervalId (Countdown.clock w) with Some id => [id] | None => [] end /\
  forall id, Countdown.intervalId (Countdown.clock w) = Some id ->
    (id < Countdown.nextTimer w)%nat.

(** ** More of the simulation loop: the page as it runs *)

Section LoopStatements.
Context {num : Type} {N : Number num} {M : MathLib num}.
Import Fireworks.

(** A particle [draw] can paint: it holds a drawing context and a color. *)
Definition equippedFirework (f : FireworkParticle.t num) : Prop :=
  FireworkParticle.ctx f <> None /\ FireworkParticle.color f <> None.

Definition equippedPoint (e : ExplosionParticle.t num) : Prop :=
  ExplosionParticle.ctx e <> None /\ ExplosionParticle.color e <> None.

(** A loop that found its canvas and whose live particles can all be
    painted. *)
Definition wellEquipped (p : Page num) : Prop :=
  ctx (self p) <> None /\ canvas (self p) <> None /\
  Forall equippedFirework (fireworks (self p)) /\
  Forall equippedPoint (particles (self p)).

(** The page with other live collections and another count of draws. *)
Definition with_simulation (fws : list (FireworkParticle.t num))
    (ps : list (ExplosionParticle.t num)) (d : nat) (p : Page num) : Page num :=
  {| self := {| settings := settings (self p);
                canvas := canvas (self p);
                ctx := ctx (self p);
                isRunning := isRunning (self p);
                fireworks := fws;
                particles := ps;
                animationId := animationId (self p) |};
     canvasElement := canvasElement p;
     innerWidth := innerWidth p; innerHeight := innerHeight p;
     frames := frames p; timeouts := timeouts p;
     nextHandle := nextHandle p;
     random := random p; drawn := d;
     console := console p; listening := listening p |}.

(** The projectiles a sweep keeps, updated, in their order. *)
Fixpoint survivors (l : list (FireworkParticle.t num)) : list (FireworkParticle.t num) :=
  match l with
  | [] => []
  | f :: rest =>
      if snd (FireworkParticle.update f) then survivors rest
      else fst (FireworkParticle.update f) :: survivors rest
  end.

(** The projectiles a sweep removes, as they are after their last update. *)
Fixpoint finished (l : list (FireworkParticle.t num)) : list (FireworkParticle.t num) :=
  match l with
  | [] => []
  | f :: rest =>
      if snd (FireworkParticle.update f) then fst (FireworkParticle.update f) :: finished rest
      else finished rest
  end.

(** The explosion points a sweep keeps, updated, in their order. *)
Fixpoint glowing (l : list (ExplosionParticle.t num)) : list (ExplosionParticle.t num) :=
  match l with
  | [] => []
  | e :: rest =>
      if snd (ExplosionParticle.update e) then glowing rest
      else fst (ExplosionParticle.update e) :: glowing rest
  end.

(** What [autoSpawn] schedules when [live] projectiles are alive. *)
Definition burstFor (s : Settings) (live : nat) : list (Z * Callback) :=
  (if Z.of_nat live <? simultaneousFireworks s then
     if 0 <? Z.min (simultaneousFireworks s - Z.of_nat live) (fireworksPerBurst s) then
       burstSchedule 0
         (Z.to_nat (Z.min (simultaneousFireworks s - Z.of_nat live) (fireworksPerBurst s)))
     else []
   else [])%Z.

(** The page after one pass of [loop] that left the explosion points [ps]
    and had taken [d] draws in all. *)
Definition afterLoop (ps : list (ExplosionParticle.t num)) (d : nat) (p : Page num)
  : Page num :=
  {| self := {| settings := settings (self p);
                canvas := canvas (self p);
                ctx := ctx (self p);
                isRunning := isRunning (self p);
                fireworks := survivors (fireworks (self p));
                particles := ps;
                animationId := Some (nextHandle p) |};
     canvasElement := canvasElement p;
     innerWidth := innerWidth p; innerHeight := innerHeight p;
     frames := frames p ++ [nextHandle p];
     timeouts := timeouts p
                 ++ burstFor (settings (self p))
                      (List.length (survivors (fireworks (self p))));
     nextHandle := S (nextHandle p);
     random := random p; drawn := d;
     console := console p; listening := listening p |}.

(** An argument that [x || ...] keeps: given and truthy. *)
Definition given (v : option num) : option num :=
  match v with
  | Some n => if num_falsy n then None else Some n
  | None => None
  end.

(** What [spawnFirework(x, y, color)] pushes on the canvas [c], and the
    number of draws taken when it has. *)
Definition spawned (x y : option num) (color : option Color) (c : Canvas) (p : Page num)
  : FireworkParticle.t num * nat :=
  let W := num_of_Z (width c) in
  let H := num_of_Z (height c) in
  let startX :=
    (random p (drawn p) * ((W - num_of_Z 150) - num_of_Z 150) + num_of_Z 150)%js in
  let d1 := S (drawn p) in
  let startY := (H + num_of_Z 30)%js in
  let tx := match given x with
            | Some v => (v, d1)
            | None => ((random p d1 * ((W - num_of_Z 100) - num_of_Z 100) + num_of_Z 100)%js,
                       S d1)
            end in
  let ty := match given y with
            | Some v => (v, snd tx)
            | None => ((random p (snd tx) * (H * num_dec 5 1 - num_of_Z 150)
                        + num_of_Z 150)%js,
                       S (snd tx))
            end in
  let k := match color with
           | Some k => (Some k, snd ty)
           | None =>
               (index (colors (settings (self p)))
                  (num_floorZ
                     (random p (snd ty)
                      * num_of_Z (Z.of_nat (List.length (colors (settings (self p))))))%js),
                S (snd ty))
           end in
  (FireworkParticle.initialize startX startY (fst tx) (fst ty) (ctx (self p)) (fst k)
     (random p (snd k)),
   S (snd k)).

(** The page after a [stop] that did not throw. *)
Definition stopped (p : Page num) : Page num :=
  {| self := {| settings := settings (self p);
                canvas := canvas (self p);
                ctx := ctx (self p);
                isRunning := false;
                fireworks := fireworks (self p);
                particles := particles (self p);
                animationId := None |};
     canvasElement := canvasElement p;
     innerWidth := innerWidth p; innerHeight := innerHeight p;
     frames := match animationId (self p) with
               | Some id => filter (fun i => negb (Nat.eqb i id)) (frames p)
               | None => frames p
               end;
     timeouts := timeouts p;
     nextHandle := nextHandle p;
     random := random p; drawn := drawn p;
     console := console p ++ ["stopped"%string];
     listening := listening p |}.

(** *** The browser's side *)

(** The browser runs the oldest pending animation frame. *)
Definition nextFrame : Action num unit :=
  fun p =>
    match frames p with
    | id :: _ => frameFires id p
    | [] => Ok (tt, p)
    end.

(** [k] animation frames in a row, with no timeout firing in between. *)
Fixpoint passes (k : nat) : Action num unit :=
  match k with
  | O => ret tt
  | S k => bind nextFrame (fun _ => passes k)
  end.

(** The browser runs the pending timeout at position [k], which leaves the
    list before its callback starts. *)
Definition timeoutFires (k : nat) : Action num unit :=
  fun p =>
    match nth_error (timeouts p) k with
    | Some (_, cb) =>
        callback cb (with_timeouts (firstn k (timeouts p) ++ skipn (S k) (timeouts p)) p)
    | None => Ok (tt, p)
    end.

(** The window is resized: the listener the constructor registered, if it
    did, calls [resizeCanvas]. *)
Definition windowResized (w h : Z) : Action num unit :=
  fun p =>
    let p' := {| self := self p; canvasElement := canvasElement p;
                 innerWidth := w; innerHeight := h;
                 frames := frames p; timeouts := timeouts p;
                 nextHandle := nextHandle p; random := random p; drawn := drawn p;
                 console := console p; listening := listening p |} in
    if listening p then resizeCanvas p' else Ok (tt, p').

(** The document is clicked. *)
Definition documentClicked (clientX clientY : num) (onButton : bool) : Action num unit :=
  fun p =>
    if listening p then handleClick clientX clientY onButton p else Ok (tt, p).

(** [App.handleVisibilityChange], for an [App] whose [components.fireworks]
    is this loop: hiding the page pauses it, showing it resumes it. *)
Definition handleVisibilityChange (hidden : bool) : Action num unit :=
  if hidden then pause else resume.

(** What can happen to the loop in a page. *)
Inductive PageEvent : Type :=
| StartCalled
| StopCalled
| PauseCalled
| ResumeCalled
| MassiveCelebrationCalled
| SpawnBurstCalled (count : Z)
| SpawnFireworkCalled (x y : option num) (color : option Color)
| FrameFires (id : nat)
| TimeoutFires (k : nat)
| Clicked (clientX clientY : num) (onButton : bool)
| Resized (w h : Z)
| VisibilityChanged (hidden : bool).

Definition happens (e : PageEvent) : Action num unit :=
  match e with
  | StartCalled => start
  | StopCalled => stop
  | PauseCalled => pause
  | ResumeCalled => resume
  | MassiveCelebrationCalled => massiveCelebration
  | SpawnBurstCalled count => spawnBurst count
  | SpawnFireworkCalled x y color => spawnFirework x y color
  | FrameFires id => frameFires id
  | TimeoutFires k => timeoutFires k
  | Clicked clientX clientY onButton => documentClicked clientX clientY onButton
  | Resized w h => windowResized w h
  | VisibilityChanged hidden => handleVisibilityChange hidden
  end.

Fixpoint unfolds (es : list PageEvent) : Action num unit :=
  match es with
  | [] => ret tt
  | e :: es => bind (happens e) (fun _ => unfolds es)
  end.

(** The projectiles the pending timeouts are going to spawn. *)
Fixpoint pendingSpawns (ts : list (Z * Callback)) : nat :=
  match ts with
  | [] => O
  | (_, CallSpawnFirework) :: ts => S (pendingSpawns ts)
  | (_, CallSpawnBurst count) :: ts => (Z.to_nat count + pendingSpawns ts)%nat
  end.

(** The timeouts that are going to run until none is pending: a burst
    callback schedules one more for each of its spawns. *)
Fixpoint timerSteps (ts : list (Z * Callback)) : nat :=
  match ts with
  | [] => O
  | (_, CallSpawnFirework) :: ts => S (timerSteps ts)
  | (_, CallSpawnBurst count) :: ts => S (Z.to_nat count + timerSteps ts)
  end.

(** The browser runs the pending timeouts, oldest first, until none is
    left or [fuel] of them have run. *)
Fixpoint drain (fuel : nat) : Action num unit :=
  match fuel with
  | O => ret tt
  | S fuel =>
      fun p =>
        match timeouts p with
        | [] => Ok (tt, p)
        | _ :: _ => bind (timeoutFires 0) (fun _ => drain fuel) p
        end
  end.

(** What [createParticles] adds: points at the place, in the color, with
    the context of the loop. *)
Definition burstOf (p : Page num) (x y : num) (color : option Color)
    (e : ExplosionParticle.t num) : Prop :=
  ExplosionParticle.ctx e = ctx (self p) /\ ExplosionParticle.color e = color /\
  ExplosionParticle.x e = x /\ ExplosionParticle.y e = y.

End LoopStatements.

(** A page the loop can run in for ever: it found its canvas, its live
    particles can be painted, its palette is not empty and [Math.random()]
    stays in [0, 1). *)
Definition safePage {M : MathLib float} (p : Fireworks.Page float) : Prop :=
  wellEquipped p /\
  Fireworks.colors (Fireworks.settings (Fireworks.self p)) <> [] /\
  (Z.of_nat (List.length (Fireworks.colors (Fireworks.settings (Fireworks.self p)))) < 2 ^ 53)%Z /\
  forall i : nat, unit_draw (Fireworks.random p i).

(** The page the constructor leaves when it finds the canvas [c]. *)
Definition constructedWith (options : Fireworks.Settings) (c : Fireworks.Canvas)
    (w h : Z) (rnd : nat -> float) : Fireworks.Page float :=
  {| Fireworks.self :=
       {| Fireworks.settings := options;
          Fireworks.canvas := Some (Fireworks.mkCanvas w h);
          Fireworks.ctx := Some TheContext;
          Fireworks.isRunning := false;
          Fireworks.fireworks := []; Fireworks.particles := [];
          Fireworks.animationId := None |};
     Fireworks.canvasElement := Some c;
     Fireworks.innerWidth := w; Fireworks.innerHeight := h;
     Fireworks.frames := []; Fireworks.timeouts := [];
     Fireworks.nextHandle := 1%nat;
     Fireworks.random := rnd; Fireworks.drawn := O;
     Fireworks.console := []; Fireworks.listening := true |}.

(** An explosion point as the constructor makes it, from draws in [0, 1). *)
Definition freshPoint {M : MathLib float} (e : ExplosionParticle.t float) : Prop :=
  exists (x y : float) (cx : option Context2D) (color : option Color)
         (r : ExplosionParticle.Draws float),
    unit_draw (ExplosionParticle.r_alpha r) /\
    unit_draw (ExplosionParticle.r_decay r) /\
    e = ExplosionParticle.initialize x y cx color r.

(** *** Pages for the examples *)

(** The 1000 by 800 page after a [start] that took effect. *)
Definition runningPage : Fireworks.Page float :=
  Fireworks.started pageWithCanvas.

(** The default options with an empty palette. *)
Definition noColors : Fireworks.Settings :=
  {| Fireworks.canvasId := Fireworks.canvasId Fireworks.defaults;
     Fireworks.particleCount := Fireworks.particleCount Fireworks.defaults;
     Fireworks.minDelay := Fireworks.minDelay Fireworks.defaults;
     Fireworks.maxDelay := Fireworks.maxDelay Fireworks.defaults;
     Fireworks.simultaneousFireworks := Fireworks.simultaneousFireworks Fireworks.defaults;
     Fireworks.fireworksPerBurst := Fireworks.fireworksPerBurst Fireworks.defaults;
     Fireworks.colors := [] |}.

(** A running loop constructed with the empty palette. *)
Definition colorlessPage : Fireworks.Page float :=
  Fireworks.started
    (constructedWith noColors (Fireworks.mkCanvas 300 150) 1000 800 half).

(** A Projectile launched at its own target. *)
Definition landing : FireworkParticle.t float :=
  FireworkParticle.initialize (M := MathLib_engine) 500%float 830%float 500%float 830%float
    (Some TheContext) (Some (mkColor 0 100)) 0x1p-1%float.

(** The running page with that Projectile alive. *)
Definition pageWithLanding : Fireworks.Page float :=
  with_simulation [landing] [] 0 runningPage.

(** * Properties *)

(** ** The Clock *)

Section ClockProperties.
Import Countdown.

Lemma calculateTimeUnits_nonneg (d : Z) :
  0 <= d ->
  calculateTimeUnits d =
    {| days := d / 1000 / 60 / 60 / 24;
       hours := (d / 1000 / 60 / 60) mod 24;
       minutes := (d / 1000 / 60) mod 60;
       seconds := (d / 1000) mod 60 |}.
Proof.
  intros Hd. unfold calculateTimeUnits.
  assert (Hs : 0 <= d / 1000) by (apply Z.div_pos; lia).
  assert (Hm : 0 <= d / 1000 / 60) by (apply Z.div_pos; lia).
  assert (Hh : 0 <= d / 1000 / 60 / 60) by (apply Z.div_pos; lia).
  rewrite !Z.rem_mod_nonneg by lia. reflexivity.
Qed.

(** C1. For every non-negative duration [d] in milliseconds below 2^53,
    the range on which a JavaScript Number holds every integer and
    [Math.floor] and [%] of the code are the integer quotient and remainder,
    [calculateTimeUnits d] has its hours in [0, 24), its minutes and seconds
    in [0, 60), and accounts for [d] up to the milliseconds of the current
    second: [totalMs t <= d < totalMs t + 1000]. The decomposition of 0 is
    all zeros. *)
Theorem calculateTimeUnits_decomposes (d : Z) (Hd : 0 <= d) (Hrange : d < 2 ^ 53) :
  let t := calculateTimeUnits d in
  0 <= days t /\
  0 <= hours t < 24 /\
  0 <= minutes t < 60 /\
  0 <= seconds t < 60 /\
  totalMs t <= d < totalMs t + 1000 /\
  calculateTimeUnits 0 = {| days := 0; hours := 0; minutes := 0; seconds := 0 |}.
Proof.
  intros t. subst t. rewrite (calculateTimeUnits_nonneg d Hd).
  unfold totalMs. cbn [days hours minutes seconds].
  assert (Hs : 0 <= d / 1000) by (apply Z.div_pos; lia).
  assert (Hm : 0 <= d / 1000 / 60) by (apply Z.div_pos; lia).
  assert (Hh : 0 <= d / 1000 / 60 / 60) by (apply Z.div_pos; lia).
  assert (Hdd : 0 <= d / 1000 / 60 / 60 / 24) by (apply Z.div_pos; lia).
  pose proof (Z.mod_pos_bound (d / 1000 / 60 / 60) 24 ltac:(lia)) as B24.
  pose proof (Z.mod_pos_bound (d / 1000 / 60) 60 ltac:(lia)) as B60m.
  pose proof (Z.mod_pos_bound (d / 1000) 60 ltac:(lia)) as B60s.
  pose proof (Z.mod_pos_bound d 1000 ltac:(lia)) as B1000.
  pose proof (Z.div_mod (d / 1000 / 60 / 60) 24 ltac:(lia)) as E24.
  pose proof (Z.div_mod (d / 1000 / 60) 60 ltac:(lia)) as E60m.
  pose proof (Z.div_mod (d / 1000) 60 ltac:(lia)) as E60s.
  pose proof (Z.div_mod d 1000 ltac:(lia)) as E1000.
  repeat split; try lia; reflexivity.
Qed.

Lemma calculateTimeUnits_decomposes_witness :
  0 <= 90061001 /\
  90061001 < 2 ^ 53 /\
  calculateTimeUnits 90061001 = {| days := 1; hours := 1; minutes := 1; seconds := 1 |} /\
  totalMs (calculateTimeUnits 90061001) <= 90061001
    < totalMs (calculateTimeUnits 90061001) + 1000.
Proof.
  split; [lia|]. split; [lia|]. split; [reflexivity|].
  exact (proj1 (proj2 (proj2 (proj2 (proj2
    (calculateTimeUnits_decomposes 90061001 ltac:(lia) ltac:(lia))))))).
Defined.

(** While the target is ahead, [getRemainingTime] is the decomposition of
    [max 0 (target - now)]. *)
Lemma getRemainingTime_before_target (now : Z) (w : World) :
  now <= targetDate (clock w) ->
  getRemainingTime now w = calculateTimeUnits (Z.max 0 (targetDate (clock w) - now)).
Proof.
  intros H. unfold getRemainingTime. rewrite Z.max_r by lia. reflexivity.
Qed.

(** Past the target the days of [getRemainingTime] are negative and no
    component is positive: nothing clamps the difference at zero. *)
Lemma getRemainingTime_past_target (now : Z) (w : World) :
  targetDate (clock w) < now ->
  let t := getRemainingTime now w in
  days t < 0 /\ hours t <= 0 /\ minutes t <= 0 /\ seconds t <= 0.
Proof.
  intros H t. subst t. unfold getRemainingTime, calculateTimeUnits.
  cbn [days hours minutes seconds].
  set (diff := targetDate (clock w) - now).
  assert (Hs : diff / 1000 < 0) by (apply Z.div_lt_upper_bound; lia).
  assert (Hm : diff / 1000 / 60 < 0) by (apply Z.div_lt_upper_bound; lia).
  assert (Hh : diff / 1000 / 60 / 60 < 0) by (apply Z.div_lt_upper_bound; lia).
  assert (Hd : diff / 1000 / 60 / 60 / 24 < 0) by (apply Z.div_lt_upper_bound; lia).
  repeat split; try lia; apply Z.rem_nonpos; lia.
Qed.


(** C2, at the failing input. One millisecond past the target
    [getRemainingTime] returns -1 in all four components, where the
    decomposition of [max 0 (target - now)] is all zeros. *)
Theorem getRemainingTime_one_ms_late :
  let w := construct newYear2026 1000 allElements (fun _ => "00"%string) true in
  getRemainingTime (newYear2026 + 1) w =
    {| days := -1; hours := -1; minutes := -1; seconds := -1 |} /\
  calculateTimeUnits (Z.max 0 (targetDate (clock w) - (newYear2026 + 1))) =
    {| days := 0; hours := 0; minutes := 0; seconds := 0 |}.
Proof.
  split; reflexivity.
Qed.

End ClockProperties.

(** ** The Clock as a state machine *)

Section ClockExecutions.
Import Countdown.


Lemma newYearCount_emit (e : Effect) (w : World) :
  newYearCount (emit e w) = (newYearCount w + (if isNewYear e then 1 else 0))%nat.
Proof.
  unfold newYearCount, emit. cbn [trace].
  rewrite filter_app, length_app. cbn [filter].
  fold (isNewYear e). destruct (isNewYear e); reflexivity.
Qed.


Lemma quiet_refl (w : World) : quiet w w.
Proof. repeat split. Qed.

Lemma quiet_trans (a b c : World) : quiet a b -> quiet b c -> quiet a c.
Proof.
  intros (H1 & H2 & H3 & H4) (K1 & K2 & K3 & K4).
  repeat split; congruence.
Qed.

Lemma quiet_emit (e : Effect) (w : World) : isNewYear e = false -> quiet w (emit e w).
Proof.
  intros H. repeat split. rewrite newYearCount_emit, H. lia.
Qed.

Lemma quiet_setText (el : Element) (s : string) (w : World) : quiet w (setText el s w).
Proof. repeat split. Qed.

Lemma quiet_updateDisplay (time : TimeUnits) (w : World) : quiet w (updateDisplay time w).
Proof.
  unfold updateDisplay, entries. cbn [fold_left].
  repeat
    match goal with
    | |- quiet ?a (match elements (clock ?x) ?k with _ => _ end) =>
        let H := fresh in
        assert (H : quiet a x) by (repeat first
          [ apply quiet_refl
          | match goal with
            | |- quiet _ (match ?o with _ => _ end) => destruct o
            | |- quiet _ (if ?b then _ else _) => destruct b
            | |- quiet _ (animateNumberChange _ _ _) =>
                eapply quiet_trans; [| apply quiet_emit; reflexivity]
            end ]);
        destruct (elements (clock x) k);
        [ match goal with
          | |- quiet _ (if ?b then _ else _) => destruct b
          end;
          [ exact H | eapply quiet_trans; [exact H | apply quiet_emit; reflexivity] ]
        | exact H ]
    end.
Qed.

Lemma quiet_checkSpecialMoments (time : TimeUnits) (w : World) :
  quiet w (checkSpecialMoments time w).
Proof.
  unfold checkSpecialMoments, triggerSpecialEvent.
  destruct (isMoment time 0 1 0 0), (isMoment time 0 0 10 0), (isMoment time 0 0 1 0);
    repeat first [ apply quiet_refl
                 | eapply quiet_trans; [| apply quiet_emit; reflexivity] ].
Qed.

Lemma quiet_showCongratulations (w : World) : quiet w (showCongratulations w).
Proof.
  unfold showCongratulations. cbn [fold_left].
  eapply quiet_trans; [| apply quiet_emit; reflexivity].
  repeat
    match goal with
    | |- quiet ?a (match elements (clock ?x) ?k with _ => _ end) =>
        let H := fresh in
        assert (H : quiet a x);
        [ | destruct (elements (clock x) k);
            [ eapply quiet_trans; [exact H | apply quiet_setText] | exact H ] ]
    end.
  apply quiet_refl.
Qed.

(** Before the target, [update] only displays. *)
Lemma update_before_target (now : Z) (w : World) :
  now < targetDate (clock w) -> quiet w (update now w).
Proof.
  intros H. unfold update.
  destruct (Z.leb_spec (targetDate (clock w) - now) 0) as [L | L]; [lia|].
  eapply quiet_trans; [apply quiet_updateDisplay | apply quiet_checkSpecialMoments].
Qed.

(** At or after the target, [update] hands over to [handleNewYear]: the
    interval is cleared and the terminal event is signalled, once. *)
Lemma update_at_target (now : Z) (w : World) :
  targetDate (clock w) <= now ->
  let w' := update now w in
  intervalId (clock w') = None /\
  targetDate (clock w') = targetDate (clock w) /\
  nextTimer w' = nextTimer w /\
  newYearCount w' = S (newYearCount w).
Proof.
  intros H w'. subst w'. unfold update.
  destruct (Z.leb_spec (targetDate (clock w) - now) 0) as [L | L]; [|lia].
  unfold handleNewYear.
  set (w1 := stop w).
  assert (H1 : intervalId (clock w1) = None /\ targetDate (clock w1) = targetDate (clock w) /\
               nextTimer w1 = nextTimer w /\ newYearCount w1 = newYearCount w).
  { subst w1. unfold stop. destruct (intervalId (clock w)) eqn:E.
    - repeat split.
      rewrite newYearCount_emit.
      change (newYearCount (setIntervalId None (emit (ClearInterval n) w)))
        with (newYearCount (emit (ClearInterval n) w)).
      rewrite newYearCount_emit. cbn [isNewYear]. lia.
    - repeat split; assumption. }
  destruct H1 as (I1 & T1 & N1 & C1).
  pose proof (quiet_showCongratulations w1) as (Q1 & Q2 & Q3 & Q4).
  set (w2 := showCongratulations w1) in *.
  assert (Q : quiet w2 (if fireworksComponent w2 then emit MassiveCelebration w2 else w2)).
  { destruct (fireworksComponent w2); [apply quiet_emit; reflexivity | apply quiet_refl]. }
  destruct Q as (R1 & R2 & R3 & R4).
  set (w3 := if fireworksComponent w2 then emit MassiveCelebration w2 else w2) in *.
  rewrite newYearCount_emit. cbn [isNewYear emit clock nextTimer].
  rewrite R1, R2, R4, Q1, Q2, Q4. repeat split; try assumption; lia.
Qed.

(** A run of the interval: started once, while the target is still ahead,
    then left to its ticks. However many ticks there are and whatever the
    instants they read, the terminal event is signalled at most once, and
    once it is signalled the interval is gone. *)
Lemma interval_signals_at_most_once (ticks : list Z) (w : World) :
  intervalId (clock w) <> None ->
  let w' := run (map IntervalFires ticks) w in
  (newYearCount w' = newYearCount w /\ intervalId (clock w') <> None) \/
  (newYearCount w' = S (newYearCount w) /\ intervalId (clock w') = None).
Proof.
  revert w. induction ticks as [| now ticks IH]; intros w Hrun; cbn.
  - left. split; [reflexivity | assumption].
  - destruct (intervalId (clock w)) as [id |] eqn:E; [clear Hrun | congruence].
    destruct (Z_lt_le_dec now (targetDate (clock w))) as [Before | After].
    + destruct (update_before_target now w Before) as (Q1 & Q2 & Q3 & Q4).
      assert (Hi : intervalId (clock (update now w)) <> None)
        by (rewrite Q1, E; discriminate).
      specialize (IH _ Hi). cbn in IH. unfold run in IH.
      rewrite Q4 in IH. exact IH.
    + destruct (update_at_target now w After) as (I1 & T1 & N1 & C1).
      right. set (w1 := update now w) in *. clearbody w1.
      assert (Stay : forall l w2, intervalId (clock w2) = None ->
                fold_left step (map IntervalFires l) w2 = w2).
      { induction l as [| t l IHl]; intros w2 H2; cbn; [reflexivity|].
        rewrite H2. apply IHl. assumption. }
      rewrite (Stay ticks w1 I1). split; assumption.
Qed.

(** A Clock started before its target: exactly one signal if a tick reads an
    instant at or after the target, none otherwise. *)
Lemma started_in_time_signals_once (now0 : Z) (ticks : list Z) (w : World) :
  intervalId (clock w) = None ->
  now0 < targetDate (clock w) ->
  let w' := run (CallStart now0 :: map IntervalFires ticks) w in
  (newYearCount w' <= S (newYearCount w))%nat /\
  (newYearCount w' = S (newYearCount w) -> intervalId (clock w') = None).
Proof.
  intros Hnone Hbefore. cbn. unfold start. rewrite Hnone.
  destruct (update_before_target now0 w Hbefore) as (Q1 & Q2 & Q3 & Q4).
  set (w1 := emit _ _).
  assert (Hc : newYearCount w1 = newYearCount w).
  { subst w1. rewrite newYearCount_emit. cbn [isNewYear].
    unfold newYearCount, setIntervalId, emit. cbn [trace].
    rewrite filter_app, length_app. cbn.
    unfold newYearCount in Q4. lia. }
  assert (Hi : intervalId (clock w1) <> None) by (subst w1; cbn; discriminate).
  pose proof (interval_signals_at_most_once ticks w1 Hi) as H. cbv zeta in H.
  unfold run in H. destruct H as [(A & B) | (A & B)]; rewrite A, Hc; split; try lia; auto.
Qed.

(** C3, at the failing input. A Clock started when the target has already
    passed signals the terminal event twice: [start] runs [update] first,
    whose [handleNewYear] finds no interval to clear, then registers the
    interval; its first tick signals again and only then clears it. *)
Theorem start_past_target_signals_twice :
  let w0 := construct newYear2026 1000 allElements (fun _ => "00"%string) true in
  let w1 := run [CallStart newYear2026] w0 in
  let w2 := run [CallStart newYear2026; IntervalFires (newYear2026 + 1000)] w0 in
  newYearCount w1 = 1%nat /\ intervalId (clock w1) = Some 1%nat /\
  newYearCount w2 = 2%nat /\ intervalId (clock w2) = None.
Proof.
  repeat split; reflexivity.
Qed.

End ClockExecutions.

(** ** The simulation loop: start, stop, pause *)

Section LoopProperties.
Context {num : Type} {N : Number num} {M : MathLib num}.
Import Fireworks.



Lemma with_timeouts_same (p : Page num) : with_timeouts (timeouts p) p = p.
Proof. destruct p; reflexivity. Qed.

Lemma spawnBurst_from_schedules (n : nat) (i : Z) (p : Page num) :
  spawnBurst_from i n p = Ok (tt, with_timeouts (timeouts p ++ burstSchedule i n) p).
Proof.
  revert i p. induction n as [| n IH]; intros i p; cbn [spawnBurst_from burstSchedule].
  - unfold ret. rewrite app_nil_r, with_timeouts_same. reflexivity.
  - unfold bind, setTimeout. rewrite IH. unfold with_timeouts. cbn.
    rewrite <- app_assoc. reflexivity.
Qed.


Lemma autoSpawn_none_alive (p : Page num) :
  fireworks (self p) = [] ->
  autoSpawn p = Ok (tt, with_timeouts (timeouts p ++ firstBurst (settings (self p))) p).
Proof.
  intros H. unfold autoSpawn, bind, this, firstBurst, spawnBurst. rewrite H.
  cbn [List.length Z.of_nat].
  destruct (0 <? simultaneousFireworks (settings (self p))).
  - destruct (0 <? Z.min _ _).
    + apply spawnBurst_from_schedules.
    + unfold ret. rewrite app_nil_r, with_timeouts_same. reflexivity.
  - unfold ret. rewrite app_nil_r, with_timeouts_same. reflexivity.
Qed.


Lemma start_when_running (p : Page num) :
  isRunning (self p) = true -> start p = Ok (tt, p).
Proof.
  intros H. unfold start, bind, this, ret. rewrite H. reflexivity.
Qed.

Lemma start_without_context (p : Page num) :
  ctx (self p) = None -> start p = Ok (tt, p).
Proof.
  intros H. unfold start, bind, this, ret. rewrite H, orb_true_r. reflexivity.
Qed.

Lemma start_when_stopped (p : Page num) (c : Canvas) (x : Context2D) :
  ctx (self p) = Some x -> canvas (self p) = Some c -> isRunning (self p) = false ->
  start p = Ok (tt, started p).
Proof.
  intros Hx Hc Hr. destruct p as [s ce iw ih fr ts nh rnd dr co li].
  destruct s as [st cv cx run fws ps aid]. cbn in Hx, Hc, Hr. subst cx cv run.
  unfold start, loop, updateFireworks, updateParticles.
  unfold bind, this, this_ctx, this_canvas, bind, this, modify, ret.
  cbn -[autoSpawn]. rewrite autoSpawn_none_alive by reflexivity.
  reflexivity.
Qed.

Lemma createParticles_n_completes (n : nat) (x y : num) (color : option Color) (p : Page num) :
  exists p',
    createParticles_n n x y color p = Ok (tt, p') /\
    fireworks (self p') = fireworks (self p) /\
    List.length (particles (self p')) = (List.length (particles (self p)) + n)%nat.
Proof.
  revert p. induction n as [| n IH]; intros p; cbn [createParticles_n].
  - exists p. repeat split. lia.
  - unfold bind at 1, newExplosionParticle, bind, Math_random, ret, modify.
    cbn -[createParticles_n ExplosionParticle.initialize].
    match goal with |- exists _, createParticles_n n x y color ?q = _ /\ _ =>
      destruct (IH q) as (p' & E & Hf & Hl) end.
    exists p'. split; [exact E|]. split; [exact Hf|].
    rewrite Hl. cbn. rewrite length_app. cbn. lia.
Qed.

(** A firework whose [update] returns true is spliced out by the sweep,
    after its burst is created. *)
Lemma sweep_removes_finished (f : FireworkParticle.t num) (p : Page num) :
  FireworkParticle.draw f = Ok tt ->
  snd (FireworkParticle.update f) = true ->
  exists p',
    sweepFireworks [f] p = Ok ([], p') /\
    List.length (particles (self p')) =
      (List.length (particles (self p)) + Z.to_nat (particleCount (settings (self p))))%nat.
Proof.
  intros D H. cbn [sweepFireworks]. unfold bind at 1, ret at 1.
  unfold bind at 1, lift. rewrite D.
  destruct (FireworkParticle.update f) as [f' done]. cbn [snd] in H. subst done.
  unfold createParticles, bind, this.
  destruct (createParticles_n_completes (Z.to_nat (particleCount (settings (self p))))
              (FireworkParticle.x f') (FireworkParticle.y f') (FireworkParticle.color f') p)
    as (p' & E & _ & Hl).
  exists p'. rewrite E. split; [reflexivity | exact Hl].
Qed.

End LoopProperties.

Section LoopClaims.
Context {num : Type} {N : Number num} {M : MathLib num}.
Import Fireworks.

(** C5 (amended). On a Simulation Loop that obtained its canvas context:
    [start] when already running changes nothing; [start] when not running
    sets the running flag, empties both collections and runs the first pass
    of [loop], which requests exactly one animation frame (one tick chain
    when none was pending) and schedules the first burst; and two [start]s
    in a row leave the page exactly as one does, so no further frame and no
    further spawn is scheduled. *)
Theorem start_twice_is_start_once (p : Page num) (c : Canvas) (x : Context2D)
    (Hctx : ctx (self p) = Some x) (Hcanvas : canvas (self p) = Some c) :
  bind start (fun _ => start) p = start p /\
  (isRunning (self p) = true -> start p = Ok (tt, p)) /\
  (isRunning (self p) = false ->
   start p = Ok (tt, started p) /\
   isRunning (self (started p)) = true /\
   fireworks (self (started p)) = [] /\
   particles (self (started p)) = [] /\
   frames (started p) = frames p ++ [nextHandle p] /\
   timeouts (started p) = timeouts p ++ firstBurst (settings (self p)) /\
   (frames p = [] -> tickChains (started p) = 1%nat)).
Proof.
  destruct (isRunning (self p)) eqn:Hr.
  - pose proof (start_when_running p Hr) as E.
    split; [| split; [intros _; exact E | discriminate]].
    unfold bind. rewrite E. exact E.
  - pose proof (start_when_stopped p c x Hctx Hcanvas Hr) as E.
    split; [| split; [discriminate |]].
    + unfold bind. rewrite E. rewrite start_when_running by reflexivity.
      reflexivity.
    + intros _. repeat split; try assumption.
      intros Hf. unfold tickChains. cbn. rewrite Hf. reflexivity.
Qed.

Lemma call_without_context (c : Call) (p : Page num) :
  ctx (self p) = None -> isRunning (self p) = false -> animationId (self p) = None ->
  exists p',
    call c p = Ok (tt, p') /\ self p' = self p /\ frames p' = frames p /\
    timeouts p' = timeouts p /\ listening p' = listening p /\
    (forall m, In m (console p) -> In m (console p')).
Proof.
  intros Hx Hr Ha. destruct p as [s ce iw ih fr ts nh rnd dr co li].
  destruct s as [st cv cx run fws ps aid]. cbn in Hx, Hr, Ha. subst cx run aid.
  destruct c; cbn [call].
  - eexists. rewrite start_without_context by reflexivity.
    repeat split; auto.
  - eexists. unfold stop, bind, modify, this, ret, console_log. cbn.
    repeat split; auto. intros m Hm. apply in_or_app. left. exact Hm.
  - eexists. unfold pause, modify. cbn. repeat split; auto.
Qed.

Lemma calls_without_context (cs : list Call) (p : Page num) :
  ctx (self p) = None -> isRunning (self p) = false -> animationId (self p) = None ->
  exists p',
    calls cs p = Ok (tt, p') /\ self p' = self p /\ frames p' = frames p /\
    timeouts p' = timeouts p /\ listening p' = listening p /\
    (forall m, In m (console p) -> In m (console p')).
Proof.
  revert p. induction cs as [| c cs IH]; intros p Hx Hr Ha; cbn [calls].
  - exists p. repeat split; auto.
  - destruct (call_without_context c p Hx Hr Ha) as (p1 & E1 & S1 & F1 & T1 & L1 & C1).
    destruct (IH p1) as (p2 & E2 & S2 & F2 & T2 & L2 & C2); try (rewrite S1; assumption).
    exists p2. unfold bind. rewrite E1. repeat split; try congruence.
    intros m Hm. auto.
Qed.

End LoopClaims.

Section SkippedElements.
Import Countdown.


Ltac no_gsap :=
  let el := fresh "el" in let v := fresh "v" in let Hin := fresh "Hin" in
  intros el v Hin;
  repeat (apply in_app_or in Hin; destruct Hin as [Hin | Hin]);
  try (cbn in Hin; destruct Hin as [Hin | Hin]; [discriminate Hin | contradiction Hin]);
  match goal with H : forall _ _, ~ In _ _ |- _ => exact (H _ _ Hin) end.

Lemma step_skips (text : Element -> string) (e : Event) (w : World) :
  skips text w -> skips text (step w e).
Proof.
  intros (He & Ht & Hg). destruct w as [c tx nt fw tr]. destruct c as [tg ui els iid].
  cbn in He, Ht, Hg. subst els tx.
  destruct e as [now | | now]; cbn [step].
  - unfold start, update, handleNewYear, stop, showCongratulations, updateDisplay,
      checkSpecialMoments, triggerSpecialEvent.
    destruct iid; cbn -[Z.sub Z.leb isMoment calculateTimeUnits];
      [ repeat split; assumption |].
    destruct (tg - now <=? 0); cbn -[Z.sub Z.leb isMoment calculateTimeUnits].
    + destruct fw; cbn; (split; [reflexivity | split; [reflexivity | no_gsap]]).
    + destruct (isMoment _ 0 1 0 0), (isMoment _ 0 0 10 0), (isMoment _ 0 0 1 0); cbn;
        (split; [reflexivity | split; [reflexivity | no_gsap]]).
  - unfold stop. destruct iid; cbn; (split; [reflexivity | split; [reflexivity | no_gsap]]).
  - unfold update, handleNewYear, stop, showCongratulations, updateDisplay,
      checkSpecialMoments, triggerSpecialEvent.
    destruct iid; cbn -[Z.sub Z.leb isMoment calculateTimeUnits];
      [| repeat split; assumption ].
    destruct (tg - now <=? 0); cbn -[Z.sub Z.leb isMoment calculateTimeUnits].
    + destruct fw; cbn; (split; [reflexivity | split; [reflexivity | no_gsap]]).
    + destruct (isMoment _ 0 1 0 0), (isMoment _ 0 0 10 0), (isMoment _ 0 0 1 0); cbn;
        (split; [reflexivity | split; [reflexivity | no_gsap]]).
Qed.

Lemma run_skips (text : Element -> string) (es : list Event) (w : World) :
  skips text w -> skips text (run es w).
Proof.
  revert w. induction es as [| e es IH]; intros w H; cbn; [exact H|].
  apply IH, step_skips, H.
Qed.

Lemma start_registers_interval (now : Z) (w : World) :
  intervalId (clock w) = None ->
  nextTimer (update now w) = nextTimer w ->
  intervalId (clock (start now w)) = Some (nextTimer w).
Proof.
  intros H Hn. unfold start. rewrite H. cbn. rewrite Hn. reflexivity.
Qed.

End SkippedElements.

(** C4 (amended). When the fireworks canvas is missing, the constructor
    reports it on the console and leaves the context null; from then on any
    sequence of [start], [stop] and [pause] calls completes without touching
    the canvas and leaves the loop stopped, with no animation frame
    requested and no spawn scheduled. The Clock does not look for missing
    text elements: with every one of them missing [start] still registers
    its interval, and neither [start] nor any later tick writes to an
    element or asks for a number animation. *)
Theorem missing_canvas_is_inert_and_clock_skips_missing_elements :
  (forall (num : Type) (N : Number num) (M : MathLib num)
          (w h : Z) (rnd : nat -> num) (cs : list Call),
     exists p,
       Fireworks.bind (Fireworks.construct Fireworks.defaults) (fun _ => calls cs)
         (Fireworks.blank None w h rnd) = Ok (tt, p) /\
       In "canvas not found"%string (Fireworks.console p) /\
       Fireworks.ctx (Fireworks.self p) = None /\
       Fireworks.isRunning (Fireworks.self p) = false /\
       Fireworks.fireworks (Fireworks.self p) = [] /\
       Fireworks.frames p = [] /\
       Fireworks.timeouts p = [] /\
       Fireworks.listening p = false) /\
  (forall (target interval now : Z) (text : Countdown.Element -> string) (fw : bool)
          (ticks : list Z),
     let w0 := Countdown.construct target interval Countdown.noElements text fw in
     let w1 := Countdown.start now w0 in
     let w2 := Countdown.run (map Countdown.IntervalFires ticks) w1 in
     Countdown.trace w0 = [] /\
     Countdown.intervalId (Countdown.clock w1) = Some 1%nat /\
     Countdown.textContent w2 = text /\
     forall el v, ~ In (Countdown.GsapTo el v) (Countdown.trace w2)).
Proof.
  split.
  - intros num N M w h rnd cs.
    set (q := {| Fireworks.self :=
                   {| Fireworks.settings := Fireworks.defaults; Fireworks.canvas := None;
                      Fireworks.ctx := None; Fireworks.isRunning := false;
                      Fireworks.fireworks := []; Fireworks.particles := [];
                      Fireworks.animationId := None |};
                 Fireworks.canvasElement := None;
                 Fireworks.innerWidth := w; Fireworks.innerHeight := h;
                 Fireworks.frames := []; Fireworks.timeouts := [];
                 Fireworks.nextHandle := 1%nat;
                 Fireworks.random := rnd; Fireworks.drawn := O;
                 Fireworks.console := ["canvas not found"%string];
                 Fireworks.listening := false |}).
    assert (E : Fireworks.construct Fireworks.defaults (Fireworks.blank None w h rnd)
                = Ok (tt, q)) by reflexivity.
    destruct (calls_without_context cs q) as (p & E1 & S1 & F1 & T1 & L1 & C1);
      try reflexivity.
    exists p. unfold Fireworks.bind. rewrite E.
    split; [exact E1|]. split; [apply C1; left; reflexivity|].
    rewrite S1, F1, T1, L1. repeat split.
  - intros target interval now text fw ticks w0 w1 w2.
    assert (H0 : Countdown.skips text w0) by (repeat split; intros el v []).
    assert (H1 : Countdown.skips text w1) by (apply (step_skips text (Countdown.CallStart now)), H0).
    assert (H2 : Countdown.skips text w2) by (apply run_skips, H1).
    split; [reflexivity|]. split.
    + subst w1. apply start_registers_interval; [reflexivity|].
      unfold Countdown.update, Countdown.handleNewYear, Countdown.stop,
        Countdown.showCongratulations, Countdown.updateDisplay,
        Countdown.checkSpecialMoments, Countdown.triggerSpecialEvent.
      subst w0. cbn -[Z.sub Z.leb Countdown.isMoment Countdown.calculateTimeUnits].
      destruct (target - now <=? 0);
        cbn -[Z.sub Z.leb Countdown.isMoment Countdown.calculateTimeUnits].
      * destruct fw; reflexivity.
      * destruct (Countdown.isMoment _ 0 1 0 0), (Countdown.isMoment _ 0 0 10 0),
          (Countdown.isMoment _ 0 0 1 0); reflexivity.
    + destruct H2 as (_ & Ht & Hg). split; assumption.
Qed.

(** ** The loop on binary64, at concrete pages *)

Section LoopExamples.
Import Fireworks.

Lemma start_twice_is_start_once_witness :
  ctx (self pageWithCanvas) = Some TheContext /\
  canvas (self pageWithCanvas) = Some (mkCanvas 1000 800) /\
  bind (start (M := MathLib_engine)) (fun _ => start (M := MathLib_engine)) pageWithCanvas
  = start (M := MathLib_engine) pageWithCanvas.
Proof.
  split; [reflexivity|]. split; [reflexivity|].
  exact (proj1 (start_twice_is_start_once (M := MathLib_engine) pageWithCanvas
                  (mkCanvas 1000 800) TheContext eq_refl eq_refl)).
Defined.

(** C5 as stated fails on a loop without canvas: it is not running, and
    [start] leaves it so, with no frame requested. *)
Lemma start_without_canvas_does_not_tick :
  isRunning (self pageWithoutCanvas) = false /\
  start (M := MathLib_engine) pageWithoutCanvas = Ok (tt, pageWithoutCanvas) /\
  frames pageWithoutCanvas = [] /\
  tickChains pageWithoutCanvas = 0%nat.
Proof.
  repeat split.
Qed.

(** C4 as stated fails on the Clock: with every text element missing its
    constructor reports nothing and [start] registers the interval. *)
Lemma clock_without_elements_still_ticks :
  let w0 := Countdown.construct newYear2026 1000 Countdown.noElements
              (fun _ => "00"%string) true in
  let w1 := Countdown.start (newYear2026 - 5000) w0 in
  Countdown.trace w0 = [] /\
  Countdown.intervalId (Countdown.clock w1) = Some 1%nat /\
  Countdown.trace w1 = [Countdown.SetInterval 1 1000; Countdown.ConsoleLog "started"].
Proof.
  repeat split.
Qed.

(** [resume] has no guard on the context: on a loop without canvas it sets
    the running flag and [loop] reads [this.ctx.clearRect]. *)
Lemma resume_without_canvas_throws :
  resume (M := MathLib_engine) pageWithoutCanvas = TypeError "this.ctx is null".
Proof. reflexivity. Qed.

(** So does a scheduled [spawnFirework], on [this.canvas.width]. *)
Lemma spawnFirework_without_canvas_throws :
  spawnFirework (M := MathLib_engine) None None None pageWithoutCanvas
  = TypeError "this.canvas is null".
Proof. reflexivity. Qed.

(** [pause] leaves the requested frame pending, so a [start] before that
    frame runs adds a second tick chain. *)
Lemma start_after_pause_doubles_the_chain :
  match bind (start (M := MathLib_engine))
          (fun _ => bind pause (fun _ => start (M := MathLib_engine))) pageWithCanvas with
  | Ok (_, p) => tickChains p
  | TypeError _ => 0%nat
  end = 2%nat.
Proof. reflexivity. Qed.

End LoopExamples.

(** * binary64 arithmetic over the integers *)

Section Binary64Theory.
Import Binary64.
Local Open Scope Z_scope.

Ltac params := unfold cexp, fexp, SpecFloat.emin, prec, emax in *.

(** ** Digits *)

Lemma digits2_pos_log2 (p : positive) :
  Zpos (digits2_pos p) = Z.log2 (Zpos p) + 1.
Proof.
  induction p as [p IH | p IH |]; cbn [digits2_pos].
  - rewrite Pos2Z.inj_succ, IH.
    change (Zpos p~1) with (2 * Zpos p + 1).
    rewrite Z.log2_succ_double by lia. lia.
  - rewrite Pos2Z.inj_succ, IH.
    change (Zpos p~0) with (2 * Zpos p).
    rewrite Z.log2_double by lia. lia.
  - reflexivity.
Qed.

Lemma Zdigits2_bounds (m : Z) :
  0 < m -> 2 ^ (Zdigits2 m - 1) <= m < 2 ^ Zdigits2 m.
Proof.
  intros H. destruct m as [| p | p]; try lia.
  cbn [Zdigits2]. rewrite digits2_pos_log2.
  replace (Z.log2 (Zpos p) + 1 - 1) with (Z.log2 (Zpos p)) by lia.
  pose proof (Z.log2_spec (Zpos p) ltac:(lia)) as L.
  replace (Z.log2 (Zpos p) + 1) with (Z.succ (Z.log2 (Zpos p))) by lia. exact L.
Qed.

Lemma Zdigits2_pos (m : Z) : 0 < m -> 0 < Zdigits2 m.
Proof. destruct m; cbn; lia. Qed.

Lemma Zdigits2_unique (m d : Z) :
  2 ^ (d - 1) <= m < 2 ^ d -> 0 < d -> Zdigits2 m = d.
Proof.
  intros H Hd.
  assert (Hm : 0 < m) by (pose proof (Z.pow_pos_nonneg 2 (d - 1)); lia).
  destruct m as [| p | p]; try lia. cbn [Zdigits2]. rewrite digits2_pos_log2.
  rewrite (Z.log2_unique (Zpos p) (d - 1)); try lia.
  replace (Z.succ (d - 1)) with d by lia. exact H.
Qed.

Lemma Zdigits2_shift (m k : Z) :
  0 < m -> 0 <= k -> Zdigits2 (m * 2 ^ k) = Zdigits2 m + k.
Proof.
  intros Hm Hk. pose proof (Zdigits2_bounds m Hm) as B.
  pose proof (Zdigits2_pos m Hm) as Dp.
  apply Zdigits2_unique; [| lia].
  replace (Zdigits2 m + k - 1) with (Zdigits2 m - 1 + k) by lia.
  rewrite !Z.pow_add_r by lia.
  pose proof (Z.pow_pos_nonneg 2 k ltac:(lia) Hk). nia.
Qed.

Lemma Zdigits2_mono (a b : Z) : 0 < a -> a <= b -> Zdigits2 a <= Zdigits2 b.
Proof.
  intros Ha Hab. destruct a as [| p | p], b as [| q | q]; try lia.
  cbn [Zdigits2]. rewrite !digits2_pos_log2.
  pose proof (Z.log2_le_mono (Zpos p) (Zpos q) Hab). lia.
Qed.

(** ** Shifts *)

Lemma iter_xO (k : positive) (m : positive) :
  Zpos (Pos.iter xO m k) = Zpos m * 2 ^ Zpos k.
Proof.
  revert m. induction k as [| k IH] using Pos.peano_ind; intros m.
  - cbn. lia.
  - rewrite Pos.iter_succ, Pos2Z.inj_succ, Z.pow_succ_r by lia.
    change (Zpos (Pos.iter xO m k)~0) with (2 * Zpos (Pos.iter xO m k)).
    rewrite IH. lia.
Qed.

Lemma iter_pos_nat {A : Type} (f : A -> A) (p : positive) (x : A) :
  SpecFloat.iter_pos f p x = Nat.iter (Pos.to_nat p) f x.
Proof.
  revert x. induction p as [p IH | p IH |]; intros x; cbn [SpecFloat.iter_pos].
  - rewrite !IH. rewrite Pos2Nat.inj_xI.
    replace (S (2 * Pos.to_nat p))%nat with (Pos.to_nat p + (Pos.to_nat p + 1))%nat by lia.
    rewrite !Nat.iter_add. cbn. reflexivity.
  - rewrite !IH. rewrite Pos2Nat.inj_xO.
    replace (2 * Pos.to_nat p)%nat with (Pos.to_nat p + Pos.to_nat p)%nat by lia.
    rewrite Nat.iter_add. reflexivity.
  - reflexivity.
Qed.

Lemma shr_1_nonneg (m : Z) (r s : bool) :
  0 <= m ->
  shr_1 (Build_shr_record m r s) = Build_shr_record (m / 2) (Z.odd m) (r || s).
Proof.
  intros H. destruct m as [| p | p]; try lia.
  - reflexivity.
  - destruct p as [p | p |]; cbn [shr_1].
    + f_equal. rewrite Pos2Z.inj_xI. symmetry.
      rewrite Z.mul_comm. rewrite Z.div_add_l by lia. cbn. lia.
    + f_equal. rewrite Pos2Z.inj_xO. symmetry. rewrite Z.mul_comm. apply Z.div_mul. lia.
    + reflexivity.
Qed.

(** [k + 1] steps of [shr_1] from an exact record. *)
Lemma shr_steps (k : nat) (m : Z) :
  0 <= m ->
  Nat.iter (S k) shr_1 (Build_shr_record m false false) =
  Build_shr_record (m / 2 ^ Z.of_nat (S k))
                   (Z.testbit m (Z.of_nat k))
                   (negb (m mod 2 ^ Z.of_nat k =? 0)).
Proof.
  intros Hm. induction k as [| k IH].
  - cbn [Nat.iter]. rewrite shr_1_nonneg by assumption.
    change (Z.of_nat 1) with 1. change (Z.of_nat 0) with 0.
    rewrite Z.pow_1_r, Z.pow_0_r, Z.mod_1_r, Z.bit0_odd. reflexivity.
  - change (Nat.iter (S (S k)) shr_1 ?x) with (shr_1 (Nat.iter (S k) shr_1 x)).
    rewrite IH. rewrite shr_1_nonneg by (apply Z.div_pos; [lia | apply Z.pow_pos_nonneg; lia]).
    f_equal.
    + rewrite Z.div_div by (try apply Z.pow_pos_nonneg; lia).
      f_equal. rewrite (Nat2Z.inj_succ (S k)), Z.pow_succ_r by lia. lia.
    + rewrite Z.testbit_odd. rewrite Z.shiftr_div_pow2 by lia. reflexivity.
    + rewrite (Nat2Z.inj_succ k), Z.pow_succ_r by lia.
      pose proof (Z.testbit_spec' m (Z.of_nat k) ltac:(lia)) as T.
      assert (P : 0 < 2 ^ Z.of_nat k) by (apply Z.pow_pos_nonneg; lia).
      rewrite (Z.mul_comm 2), Z.rem_mul_r by lia.
      pose proof (Z.mod_pos_bound m (2 ^ Z.of_nat k) P) as B.
      destruct (Z.testbit m (Z.of_nat k)); cbn [Z.b2z] in T; rewrite <- T; cbn [orb].
      * symmetry. apply negb_true_iff, Z.eqb_neq. nia.
      * f_equal. f_equal. lia.
Qed.

Lemma shr_exact (m e n : Z) :
  0 <= m -> 0 < n ->
  shr (Build_shr_record m false false) e n =
  (Build_shr_record (m / 2 ^ n) (Z.testbit m (n - 1)) (negb (m mod 2 ^ (n - 1) =? 0)),
   e + n).
Proof.
  intros Hm Hn. destruct n as [| p | p]; try lia. cbn [shr].
  rewrite iter_pos_nat.
  destruct (Pos2Nat.is_succ p) as [k Hk]. rewrite Hk, shr_steps by assumption.
  assert (E : Z.of_nat (S k) = Zpos p) by (rewrite <- Hk; apply positive_nat_Z).
  rewrite E. replace (Z.of_nat k) with (Zpos p - 1) by lia. reflexivity.
Qed.

(** ** Rounding to nearest, ties to even *)

Lemma round_shr (m n : Z) :
  0 <= m -> 0 < n ->
  round_nearest_even (m / 2 ^ n)
    (loc_of_shr_record
       (Build_shr_record (m / 2 ^ n) (Z.testbit m (n - 1))
          (negb (m mod 2 ^ (n - 1) =? 0))))
  = rhe m (2 ^ n).
Proof.
  intros Hm Hn. unfold rhe.
  assert (P : 0 < 2 ^ (n - 1)) by (apply Z.pow_pos_nonneg; lia).
  assert (E : 2 ^ n = 2 ^ (n - 1) * 2).
  { replace n with (Z.succ (n - 1)) at 1 by lia. rewrite Z.pow_succ_r by lia. lia. }
  pose proof (Z.testbit_spec' m (n - 1) ltac:(lia)) as T.
  pose proof (Z.mod_pos_bound m (2 ^ (n - 1)) P) as B.
  assert (R : m mod 2 ^ n = m mod 2 ^ (n - 1) + 2 ^ (n - 1) * ((m / 2 ^ (n - 1)) mod 2)).
  { rewrite E. apply Z.rem_mul_r; lia. }
  rewrite <- T in R.
  destruct (Z.testbit m (n - 1)); cbn [Z.b2z] in R.
  - destruct (Z.eqb_spec (m mod 2 ^ (n - 1)) 0) as [Z0 | NZ]; cbn [negb loc_of_shr_record round_nearest_even].
    + destruct (Z.ltb_spec (2 * (m mod 2 ^ n)) (2 ^ n)); [lia|].
      destruct (Z.eqb_spec (2 * (m mod 2 ^ n)) (2 ^ n)); [| lia].
      cbn [andb]. destruct (Z.even (m / 2 ^ n)); reflexivity.
    + destruct (Z.ltb_spec (2 * (m mod 2 ^ n)) (2 ^ n)); [lia|].
      destruct (Z.eqb_spec (2 * (m mod 2 ^ n)) (2 ^ n)); [lia |].
      reflexivity.
  - destruct (Z.ltb_spec (2 * (m mod 2 ^ n)) (2 ^ n)); [| lia].
    destruct (negb (m mod 2 ^ (n - 1) =? 0)); reflexivity.
Qed.

Lemma rhe_bounds (m P : Z) :
  0 <= m -> 0 < P -> m / P <= rhe m P <= m / P + 1.
Proof.
  intros Hm HP. unfold rhe.
  destruct (2 * (m mod P) <? P); [lia|].
  destruct ((2 * (m mod P) =? P) && Z.even (m / P)); lia.
Qed.

Lemma rhe_nonneg (m P : Z) : 0 <= m -> 0 < P -> 0 <= rhe m P.
Proof.
  intros Hm HP. pose proof (rhe_bounds m P Hm HP).
  pose proof (Z.div_pos m P Hm HP). lia.
Qed.

Lemma cexp_emin (m e : Z) : emin <= cexp m e.
Proof. params. lia. Qed.

Lemma cexp_lower (m e : Z) : Zdigits2 m + e - 53 <= cexp m e.
Proof. params. lia. Qed.

(** The quotient of the shift has at most 53 digits. *)
Lemma shift_quotient_small (m e : Z) :
  0 < m -> e < cexp m e -> m / 2 ^ (cexp m e - e) < 2 ^ 53.
Proof.
  intros Hm Ht. pose proof (cexp_lower m e) as L.
  pose proof (Zdigits2_bounds m Hm) as [_ B].
  assert (P : 0 < 2 ^ (cexp m e - e)) by (apply Z.pow_pos_nonneg; lia).
  apply Z.div_lt_upper_bound; [exact P|].
  rewrite <- Z.pow_add_r by lia.
  eapply Z.lt_le_trans; [exact B|]. apply Z.pow_le_mono_r; lia.
Qed.

Lemma no_shift (q t : Z) :
  0 <= q < 2 ^ 53 -> emin <= t ->
  shr_fexp prec emax q t loc_Exact = (Build_shr_record q false false, t).
Proof.
  intros [Hq0 Hq] Ht. unfold shr_fexp. cbn [shr_record_of_loc].
  assert (D : Zdigits2 q <= 53).
  { destruct (Z.eq_dec q 0) as [-> | NZ]; [cbn; lia|].
    pose proof (Zdigits2_bounds q ltac:(lia)) as [B _].
    destruct (Z_le_gt_dec (Zdigits2 q) 53) as [L | G]; [exact L|].
    assert (2 ^ 53 <= 2 ^ (Zdigits2 q - 1)) by (apply Z.pow_le_mono_r; lia). lia. }
  assert (N : fexp prec emax (Zdigits2 q + t) - t <= 0) by (params; lia).
  destruct (fexp prec emax (Zdigits2 q + t) - t); try lia; reflexivity.
Qed.

Lemma binary_round_aux_rnd (s : bool) (m : positive) (e : Z) :
  e <= cexp (Zpos m) e ->
  binary_round_aux prec emax s (Zpos m) e loc_Exact = finish s (rnd (Zpos m) e).
Proof.
  intros Ht. unfold binary_round_aux, rnd.
  pose proof (cexp_emin (Zpos m) e) as Hmin.
  destruct (Z.leb_spec (cexp (Zpos m) e) e) as [Le | Gt].
  - assert (E : cexp (Zpos m) e = e) by lia. rewrite E, Z.sub_diag, Z.pow_0_r, Z.mul_1_r.
    unfold shr_fexp at 1. fold (cexp (Zpos m) e). rewrite E, Z.sub_diag.
    cbn [shr shr_record_of_loc shr_m loc_of_shr_record round_nearest_even].
    unfold shr_fexp. fold (cexp (Zpos m) e). rewrite E, Z.sub_diag.
    cbn [shr shr_record_of_loc shr_m finish]. reflexivity.
  - unfold shr_fexp at 1. fold (cexp (Zpos m) e). cbn [shr_record_of_loc].
    rewrite shr_exact by lia.
    replace (e + (cexp (Zpos m) e - e)) with (cexp (Zpos m) e) by lia.
    cbn [shr_m]. rewrite round_shr by lia.
    set (t := cexp (Zpos m) e) in *.
    pose proof (shift_quotient_small (Zpos m) e ltac:(lia) Gt) as Q. fold t in Q.
    assert (P : 0 < 2 ^ (t - e)) by (apply Z.pow_pos_nonneg; lia).
    pose proof (rhe_bounds (Zpos m) (2 ^ (t - e)) ltac:(lia) P) as RB.
    pose proof (Z.div_pos (Zpos m) (2 ^ (t - e)) ltac:(lia) P) as QP.
    set (q := rhe (Zpos m) (2 ^ (t - e))) in *.
    destruct (Z.eqb_spec q (2 ^ 53)) as [Top | NTop].
    + rewrite Top. unfold shr_fexp.
      assert (F : fexp prec emax (Zdigits2 (2 ^ 53) + t) - t = 1)
        by (change (Zdigits2 (2 ^ 53)) with 54; params; lia).
      rewrite F. reflexivity.
    + rewrite no_shift by lia. cbn [shr_m finish].
      destruct q; try lia; reflexivity.
Qed.

Lemma binary_round_rnd (s : bool) (m : positive) (e : Z) :
  binary_round prec emax s m e = finish s (rnd (Zpos m) e).
Proof.
  unfold binary_round, shl_align. fold (Zdigits2 (Zpos m)). fold (cexp (Zpos m) e).
  destruct (cexp (Zpos m) e - e) as [| d | d] eqn:D.
  - apply binary_round_aux_rnd. lia.
  - apply binary_round_aux_rnd. lia.
  - set (t := cexp (Zpos m) e) in *.
    assert (Hs : Zpos (Pos.iter xO m d) = Zpos m * 2 ^ (e - t)).
    { rewrite iter_xO. f_equal. f_equal. lia. }
    assert (C : cexp (Zpos (Pos.iter xO m d)) t = t).
    { rewrite Hs. unfold cexp. rewrite Zdigits2_shift by lia.
      replace (Zdigits2 (Zpos m) + (e - t) + t) with (Zdigits2 (Zpos m) + e) by lia.
      reflexivity. }
    rewrite binary_round_aux_rnd by lia.
    unfold rnd. rewrite C, Z.leb_refl, Z.sub_diag, Z.pow_0_r, Z.mul_1_r.
    fold t. destruct (Z.leb_spec t e); [| lia].
    rewrite Hs. reflexivity.
Qed.

(** ** Rounding on a grid *)

Lemma rhe_one (m : Z) : rhe m 1 = m.
Proof. unfold rhe. rewrite Z.mod_1_r, Z.div_1_r. reflexivity. Qed.

Lemma rhe_scale (m P c : Z) : 0 < c -> 0 < P -> rhe (m * c) (P * c) = rhe m P.
Proof.
  intros Hc HP. unfold rhe.
  rewrite Z.div_mul_cancel_r, Z.mul_mod_distr_r by lia.
  destruct (Z.ltb_spec (2 * (m mod P)) P), (Z.ltb_spec (2 * (m mod P * c)) (P * c));
    try reflexivity; try nia.
  destruct (Z.eqb_spec (2 * (m mod P)) P), (Z.eqb_spec (2 * (m mod P * c)) (P * c));
    try reflexivity; nia.
Qed.

Lemma rhe_exact (j P : Z) : 0 < P -> rhe (j * P) P = j.
Proof.
  intros HP. unfold rhe. rewrite Z.mod_mul, Z.div_mul by lia.
  destruct (Z.ltb_spec (2 * 0) P); [reflexivity | lia].
Qed.

Lemma rhe_le_grid (m P j : Z) : 0 < P -> m <= j * P -> rhe m P <= j.
Proof.
  intros HP H. unfold rhe.
  pose proof (Z.div_mod m P ltac:(lia)) as E.
  pose proof (Z.mod_pos_bound m P HP) as B.
  assert (Q : m / P <= j) by nia.
  destruct (Z.ltb_spec (2 * (m mod P)) P); [exact Q|].
  assert (m / P < j) by nia.
  destruct ((2 * (m mod P) =? P) && Z.even (m / P)); lia.
Qed.

Lemma rhe_ge_grid (m P j : Z) : 0 < P -> j * P <= m -> j <= rhe m P.
Proof.
  intros HP H. unfold rhe.
  pose proof (Z.div_mod m P ltac:(lia)) as E.
  pose proof (Z.mod_pos_bound m P HP) as B.
  assert (Q : j <= m / P) by nia.
  destruct (2 * (m mod P) <? P); [exact Q|].
  destruct ((2 * (m mod P) =? P) && Z.even (m / P)); lia.
Qed.

Lemma rhe_mono (m1 m2 P : Z) : 0 < P -> m1 <= m2 -> rhe m1 P <= rhe m2 P.
Proof.
  intros HP H.
  pose proof (Z.div_mod m1 P ltac:(lia)) as E1.
  pose proof (Z.mod_pos_bound m1 P HP) as B1.
  pose proof (Z.div_mod m2 P ltac:(lia)) as E2.
  pose proof (Z.mod_pos_bound m2 P HP) as B2.
  assert (Q : m1 / P <= m2 / P) by (apply Z.div_le_mono; lia).
  destruct (Z.eq_dec (m1 / P) (m2 / P)) as [Same | Diff].
  - unfold rhe. rewrite <- Same in *.
    assert (R : m1 mod P <= m2 mod P) by lia.
    destruct (Z.ltb_spec (2 * (m1 mod P)) P), (Z.ltb_spec (2 * (m2 mod P)) P); try lia.
    + destruct ((2 * (m2 mod P) =? P) && Z.even (m1 / P)); lia.
    + destruct (Z.eqb_spec (2 * (m1 mod P)) P), (Z.eqb_spec (2 * (m2 mod P)) P);
        cbn [andb]; try lia; destruct (Z.even (m1 / P)); lia.
  - transitivity (m1 / P + 1).
    + unfold rhe. destruct (2 * (m1 mod P) <? P); [lia|].
      destruct ((2 * (m1 mod P) =? P) && Z.even (m1 / P)); lia.
    + transitivity (m2 / P); [lia|].
      unfold rhe. destruct (2 * (m2 mod P) <? P); [lia|].
      destruct ((2 * (m2 mod P) =? P) && Z.even (m2 / P)); lia.
Qed.

(** ** The value of a rounding, in units of [2^e] *)

Lemma spacing_pos (m e : Z) : e <= emin -> 0 < spacing m e.
Proof.
  intros He. unfold spacing. apply Z.pow_pos_nonneg; [lia|].
  pose proof (cexp_emin m e). lia.
Qed.

Lemma rnd_value (m e : Z) : 0 < m -> e <= emin -> value (rnd m e) e = F m e.
Proof.
  intros Hm He. unfold rnd, F, spacing, value.
  pose proof (cexp_emin m e) as Hmin.
  destruct (Z.leb_spec (cexp m e) e) as [Le | Gt].
  - assert (E : cexp m e = e) by lia. rewrite E, Z.sub_diag, Z.pow_0_r, rhe_one.
    cbn [fst snd]. rewrite Z.sub_diag, Z.pow_0_r. lia.
  - set (t := cexp m e) in *.
    destruct (Z.eqb_spec (rhe m (2 ^ (t - e))) (2 ^ 53)) as [Top | NTop]; cbn [fst snd].
    + rewrite Top. replace (t + 1 - e) with (Z.succ (t - e)) by lia.
      rewrite Z.pow_succ_r by lia. change (2 ^ 53) with (2 ^ 52 * 2). lia.
    + reflexivity.
Qed.

Lemma cexp_mono (m1 m2 e : Z) : 0 < m1 -> m1 <= m2 -> cexp m1 e <= cexp m2 e.
Proof.
  intros H1 H12. pose proof (Zdigits2_mono m1 m2 H1 H12). params. lia.
Qed.

Lemma F_mono (m1 m2 e : Z) : 0 < m1 -> m1 <= m2 -> e <= emin -> F m1 e <= F m2 e.
Proof.
  intros H1 H12 He. unfold F.
  pose proof (cexp_mono m1 m2 e H1 H12) as C.
  pose proof (spacing_pos m1 e He) as P1. pose proof (spacing_pos m2 e He) as P2.
  pose proof (cexp_emin m1 e) as Hmin1.
  destruct (Z.eq_dec (cexp m1 e) (cexp m2 e)) as [Same | Diff].
  - unfold spacing in *. rewrite <- Same in *.
    apply Z.mul_le_mono_nonneg_r; [lia|]. apply rhe_mono; lia.
  - assert (Lt : cexp m1 e < cexp m2 e) by lia.
    assert (D2 : cexp m2 e = Zdigits2 m2 + e - 53) by (params; lia).
    assert (D1 : Zdigits2 m1 + e - 53 <= cexp m1 e) by apply cexp_lower.
    assert (D12 : Zdigits2 m1 < Zdigits2 m2) by lia.
    pose proof (Zdigits2_bounds m1 H1) as [_ B1].
    pose proof (Zdigits2_bounds m2 ltac:(lia)) as [B2 _].
    pose proof (Zdigits2_pos m1 H1) as Dp.
    (* the power of two between them is on both grids *)
    set (B := 2 ^ (Zdigits2 m2 - 1)) in *.
    assert (M1 : m1 <= B).
    { unfold B. transitivity (2 ^ Zdigits2 m1); [lia|]. apply Z.pow_le_mono_r; lia. }
    assert (G2 : B = 2 ^ 52 * spacing m2 e).
    { unfold B, spacing. rewrite D2, <- Z.pow_add_r by lia. f_equal. lia. }
    assert (G1 : B = 2 ^ (Zdigits2 m2 - 1 - (cexp m1 e - e)) * spacing m1 e).
    { unfold B, spacing. rewrite <- Z.pow_add_r by lia. f_equal. lia. }
    transitivity B.
    + rewrite G1. apply Z.mul_le_mono_nonneg_r; [lia|].
      apply rhe_le_grid; [exact P1 | lia].
    + rewrite G2. apply Z.mul_le_mono_nonneg_r; [lia|].
      apply rhe_ge_grid; [exact P2 | lia].
Qed.

(** ** The exponent does not matter, only the value *)

Lemma cexp_shift (m e k : Z) : 0 < m -> 0 <= k -> cexp (m * 2 ^ k) (e - k) = cexp m e.
Proof.
  intros Hm Hk. unfold cexp. rewrite Zdigits2_shift by assumption. f_equal. lia.
Qed.

Lemma rnd_shift (m e k : Z) : 0 < m -> 0 <= k -> rnd (m * 2 ^ k) (e - k) = rnd m e.
Proof.
  intros Hm Hk. unfold rnd. rewrite cexp_shift by assumption.
  set (t := cexp m e).
  assert (K : 0 < 2 ^ k) by (apply Z.pow_pos_nonneg; lia).
  destruct (Z.leb_spec t (e - k)) as [A | A].
  - destruct (Z.leb_spec t e) as [B | B]; [| lia].
    f_equal. rewrite <- Z.mul_assoc, <- Z.pow_add_r by lia. f_equal. f_equal. lia.
  - destruct (Z.leb_spec t e) as [B | B].
    + (* the shift only removes zeros that the scaling added *)
      replace (m * 2 ^ k) with (m * 2 ^ (e - t) * 2 ^ (t - (e - k))).
      2:{ rewrite <- Z.mul_assoc, <- Z.pow_add_r by lia. f_equal. f_equal. lia. }
      rewrite rhe_exact by (apply Z.pow_pos_nonneg; lia).
      assert (Hq : m * 2 ^ (e - t) < 2 ^ 53).
      { pose proof (Zdigits2_bounds (m * 2 ^ (e - t))
                      ltac:(pose proof (Z.pow_pos_nonneg 2 (e - t)); nia)) as [_ U].
        rewrite Zdigits2_shift in U by lia.
        eapply Z.lt_le_trans; [exact U|]. apply Z.pow_le_mono_r; [lia|].
        pose proof (cexp_lower m e). fold t in H. lia. }
      destruct (Z.eqb_spec (m * 2 ^ (e - t)) (2 ^ 53)); [lia | reflexivity].
    + replace (2 ^ (t - (e - k))) with (2 ^ (t - e) * 2 ^ k).
      2:{ rewrite <- Z.pow_add_r by lia. f_equal. lia. }
      rewrite rhe_scale by (try apply Z.pow_pos_nonneg; lia). reflexivity.
Qed.

(** ** Canonical mantissas and exponents *)

Lemma rnd_canonical (m e : Z) : 0 < m -> canonical (rnd m e).
Proof.
  intros Hm. unfold rnd, canonical.
  pose proof (cexp_emin m e) as Hmin. pose proof (cexp_lower m e) as Hlow.
  pose proof (Zdigits2_bounds m Hm) as [BL BU]. pose proof (Zdigits2_pos m Hm) as Dp.
  set (t := cexp m e) in *.
  destruct (Z.leb_spec t e) as [Le | Gt]; cbn [fst snd].
  - assert (P : 0 < 2 ^ (e - t)) by (apply Z.pow_pos_nonneg; lia).
    pose proof (Zdigits2_bounds (m * 2 ^ (e - t)) ltac:(nia)) as [L U].
    rewrite Zdigits2_shift in L, U by lia.
    split; [lia|]. split.
    + split; [nia|]. eapply Z.lt_le_trans; [exact U|]. apply Z.pow_le_mono_r; lia.
    + destruct (Z.eq_dec t emin) as [E | NE]; [left; exact E | right; left].
      assert (T : t = Zdigits2 m + e - 53) by (subst t; params; lia).
      eapply Z.le_trans; [| exact L]. apply Z.pow_le_mono_r; lia.
  - assert (P : 0 < 2 ^ (t - e)) by (apply Z.pow_pos_nonneg; lia).
    pose proof (rhe_bounds m (2 ^ (t - e)) ltac:(lia) P) as RB.
    pose proof (shift_quotient_small m e Hm Gt) as Q. fold t in Q.
    pose proof (Z.div_pos m (2 ^ (t - e)) ltac:(lia) P) as QP.
    destruct (Z.eqb_spec (rhe m (2 ^ (t - e))) (2 ^ 53)) as [Top | NTop]; cbn [fst snd].
    + split; [lia|]. split; [lia|]. right. left. lia.
    + split; [lia|]. split; [lia|].
      destruct (Z.eq_dec t emin) as [E | NE]; [left; exact E | right; left].
      assert (T : t = Zdigits2 m + e - 53) by (subst t; params; lia).
      transitivity (m / 2 ^ (t - e)); [| lia].
      apply Z.div_le_lower_bound; [exact P|].
      rewrite <- Z.pow_add_r by lia.
      eapply Z.le_trans; [| exact BL]. apply Z.pow_le_mono_r; lia.
Qed.

Lemma lex_of_value (q1 t1 q2 t2 e : Z) :
  canonical (q1, t1) -> canonical (q2, t2) -> 0 < q1 -> e <= emin ->
  value (q1, t1) e <= value (q2, t2) e ->
  t1 < t2 \/ (t1 = t2 /\ q1 <= q2).
Proof.
  unfold canonical, value. cbn [fst snd].
  intros (M1 & B1 & C1) (M2 & B2 & C2) Hq He H.
  assert (P2 : 0 < 2 ^ (t2 - e)) by (apply Z.pow_pos_nonneg; lia).
  destruct (Z.lt_trichotomy t1 t2) as [L | [E | G]].
  - left. exact L.
  - right. split; [exact E|]. subst t2. nia.
  - exfalso.
    assert (S : 2 ^ (t1 - e) = 2 ^ (t1 - t2 - 1) * 2 * 2 ^ (t2 - e)).
    { replace (t1 - e) with (Z.succ (t1 - t2 - 1) + (t2 - e)) by lia.
      rewrite Z.pow_add_r, Z.pow_succ_r by lia. lia. }
    assert (P1 : 0 < 2 ^ (t1 - t2 - 1)) by (apply Z.pow_pos_nonneg; lia).
    assert (Q1 : 2 ^ 52 <= q1) by lia.
    change (2 ^ 53) with (2 ^ 52 * 2) in B2.
    rewrite S in H. nia.
Qed.

(** ** Order *)

Lemma finish_pos_le (c1 c2 : Z * Z) (e : Z) :
  canonical c1 -> canonical c2 -> e <= emin -> value c1 e <= value c2 e ->
  SFle (finish false c1) (finish false c2).
Proof.
  destruct c1 as [q1 t1], c2 as [q2 t2]. intros K1 K2 He H.
  pose proof K1 as (M1 & B1 & _). pose proof K2 as (M2 & B2 & _). cbn [fst snd] in *.
  unfold SFle, finish.
  destruct q1 as [| p1 | p1]; try lia.
  - destruct q2 as [| p2 | p2]; try lia; [reflexivity|].
    destruct (t2 <=? emax - prec); reflexivity.
  - destruct q2 as [| p2 | p2]; try lia.
    + exfalso. unfold value in H. cbn [fst snd] in H.
      pose proof (Z.pow_pos_nonneg 2 (t1 - e) ltac:(lia) ltac:(lia)). nia.
    + pose proof (lex_of_value _ _ _ _ e K1 K2 ltac:(lia) He H) as L.
      destruct (Z.leb_spec t1 (emax - prec)), (Z.leb_spec t2 (emax - prec));
        try reflexivity; try lia.
      unfold SFleb, SFcompare.
      destruct L as [L | [L1 L2]].
      * rewrite (proj2 (Z.compare_lt_iff t1 t2) L). reflexivity.
      * subst t2. rewrite Z.compare_refl.
        change (Pos.compare_cont Eq p1 p2) with (Pos.compare p1 p2).
        destruct (Pos.compare_spec p1 p2); try reflexivity. lia.
Qed.

Lemma finish_neg_le (c1 c2 : Z * Z) (e : Z) :
  canonical c1 -> canonical c2 -> e <= emin -> value c1 e <= value c2 e ->
  SFle (finish true c2) (finish true c1).
Proof.
  destruct c1 as [q1 t1], c2 as [q2 t2]. intros K1 K2 He H.
  pose proof K1 as (M1 & B1 & _). pose proof K2 as (M2 & B2 & _). cbn [fst snd] in *.
  unfold SFle, finish.
  destruct q1 as [| p1 | p1]; try lia.
  - destruct q2 as [| p2 | p2]; try lia; [reflexivity|].
    destruct (t2 <=? emax - prec); reflexivity.
  - destruct q2 as [| p2 | p2]; try lia.
    + exfalso. unfold value in H. cbn [fst snd] in H.
      pose proof (Z.pow_pos_nonneg 2 (t1 - e) ltac:(lia) ltac:(lia)). nia.
    + pose proof (lex_of_value _ _ _ _ e K1 K2 ltac:(lia) He H) as L.
      destruct (Z.leb_spec t1 (emax - prec)), (Z.leb_spec t2 (emax - prec));
        try reflexivity; try lia.
      unfold SFleb, SFcompare.
      destruct L as [L | [L1 L2]].
      * rewrite (proj2 (Z.compare_gt_iff t2 t1) L). reflexivity.
      * subst t2. rewrite Z.compare_refl.
        change (Pos.compare_cont Eq p2 p1) with (Pos.compare p2 p1).
        destruct (Pos.compare_spec p2 p1); try reflexivity. lia.
Qed.

Lemma finish_neg_pos (c1 c2 : Z * Z) : SFle (finish true c1) (finish false c2).
Proof.
  destruct c1 as [q1 t1], c2 as [q2 t2]. unfold SFle, finish.
  destruct q1, q2; try reflexivity;
    repeat match goal with |- context [if ?b then _ else _] => destruct b end;
    reflexivity.
Qed.

Lemma finish_neg_zero (c : Z * Z) (s : bool) : SFle (finish true c) (S754_zero s).
Proof.
  destruct c as [q t]. unfold SFle, finish.
  destruct q; try reflexivity; destruct (t <=? emax - prec); reflexivity.
Qed.

Lemma zero_finish_pos (c : Z * Z) (s : bool) : SFle (S754_zero s) (finish false c).
Proof.
  destruct c as [q t]. unfold SFle, finish.
  destruct q; try reflexivity; destruct (t <=? emax - prec); reflexivity.
Qed.

(** ** Rounding an integer number of units *)

Lemma RE_pos (e : Z) (p : positive) : RE e (Zpos p) = finish false (rnd (Zpos p) e).
Proof. unfold RE. cbn [binary_normalize]. apply binary_round_rnd. Qed.

Lemma RE_neg (e : Z) (p : positive) : RE e (Zneg p) = finish true (rnd (Zpos p) e).
Proof. unfold RE. cbn [binary_normalize]. apply binary_round_rnd. Qed.

Theorem RE_mono (e V1 V2 : Z) : e <= emin -> V1 <= V2 -> SFle (RE e V1) (RE e V2).
Proof.
  intros He H.
  destruct V1 as [| p1 | p1], V2 as [| p2 | p2]; try lia;
    rewrite ?RE_pos, ?RE_neg; try (change (RE e 0) with (S754_zero false)).
  - reflexivity.
  - apply zero_finish_pos.
  - apply finish_pos_le with (e := e); try apply rnd_canonical; try lia.
    rewrite !rnd_value by lia. apply F_mono; lia.
  - apply finish_neg_zero.
  - apply finish_neg_pos.
  - apply finish_neg_le with (e := e); try apply rnd_canonical; try lia.
    rewrite !rnd_value by lia. apply F_mono; lia.
Qed.

Theorem RE_shift (e k V : Z) : 0 <= k -> RE (e - k) (V * 2 ^ k) = RE e V.
Proof.
  intros Hk. assert (K : 0 < 2 ^ k) by (apply Z.pow_pos_nonneg; lia).
  destruct V as [| p | p].
  - reflexivity.
  - destruct (Zpos p * 2 ^ k) as [| p' | p'] eqn:E; try lia.
    rewrite !RE_pos, <- E. f_equal. apply rnd_shift; lia.
  - destruct (Zneg p * 2 ^ k) as [| p' | p'] eqn:E; try lia.
    rewrite !RE_neg. f_equal.
    replace (Zpos p') with (Zpos p * 2 ^ k) by lia. apply rnd_shift; lia.
Qed.

(** ** Doubles as integers *)

Lemma same_refl (x : spec_float) : same x x.
Proof. left. reflexivity. Qed.

Lemma same_finite (x y : spec_float) : same x y -> finite x = finite y.
Proof. intros [-> | (s & s' & -> & ->)]; reflexivity. Qed.

Lemma same_val (x y : spec_float) : same x y -> val x = val y.
Proof. intros [-> | (s & s' & -> & ->)]; reflexivity. Qed.

Lemma same_SFleb_l (x y z : spec_float) : same x y -> SFleb x z = SFleb y z.
Proof. intros [-> | (s & s' & -> & ->)]; [reflexivity|]. destruct z; reflexivity. Qed.

Lemma same_SFleb_r (x y z : spec_float) : same x y -> SFleb z x = SFleb z y.
Proof. intros [-> | (s & s' & -> & ->)]; [reflexivity|]. destruct z; reflexivity. Qed.

Lemma valid_canonical (s : bool) (m : positive) (e : Z) :
  valid_binary (S754_finite s m e) = true ->
  canonical (Zpos m, e) /\ e <= emax - prec /\ cexp (Zpos m) e = e.
Proof.
  cbn [SpecFloat.valid_binary]. unfold SpecFloat.bounded, SpecFloat.canonical_mantissa.
  intros H. apply andb_prop in H as [C B].
  apply Z.eqb_eq in C. apply Z.leb_le in B.
  fold (Zdigits2 (Zpos m)) in C. fold (cexp (Zpos m) e) in C.
  split; [| split; assumption].
  pose proof (cexp_emin (Zpos m) e) as Hmin. pose proof (cexp_lower (Zpos m) e) as Hlow.
  pose proof (Zdigits2_bounds (Zpos m) ltac:(lia)) as [BL BU].
  unfold canonical. cbn [fst snd]. split; [lia|]. split.
  - split; [lia|]. eapply Z.lt_le_trans; [exact BU|]. apply Z.pow_le_mono_r; lia.
  - destruct (Z.eq_dec e emin) as [E | NE]; [left; exact E | right; left].
    assert (D : Zdigits2 (Zpos m) = 53) by (params; lia).
    rewrite D in BL. exact BL.
Qed.

Lemma canonical_cexp (q t : Z) : canonical (q, t) -> 0 < q -> cexp q t = t.
Proof.
  intros (M & B & C) Hq. cbn [fst snd] in *.
  pose proof (Zdigits2_bounds q Hq) as [BL BU]. pose proof (Zdigits2_pos q Hq) as Dp.
  assert (D : Zdigits2 q <= 53).
  { destruct (Z_le_gt_dec (Zdigits2 q) 53) as [L | G]; [exact L|].
    assert (2 ^ 53 <= 2 ^ (Zdigits2 q - 1)) by (apply Z.pow_le_mono_r; lia). lia. }
  destruct C as [C | [C | C]]; [params; lia | | lia].
  assert (Zdigits2 q = 53).
  { destruct (Z.eq_dec (Zdigits2 q) 53) as [Y | NO]; [exact Y|].
    assert (2 ^ Zdigits2 q <= 2 ^ 52) by (apply Z.pow_le_mono_r; lia). lia. }
  params; lia.
Qed.

Lemma rnd_canonical_fixed (q t : Z) :
  canonical (q, t) -> 0 < q -> rnd q t = (q, t).
Proof.
  intros K Hq. unfold rnd.
  rewrite (canonical_cexp q t K Hq), Z.leb_refl, Z.sub_diag, Z.pow_0_r, Z.mul_1_r.
  reflexivity.
Qed.

Lemma finish_valid (s : bool) (c : Z * Z) :
  canonical c -> valid_binary (finish s c) = true.
Proof.
  destruct c as [q t]. intros K. unfold finish.
  destruct q as [| p | p]; try reflexivity.
  destruct (Z.leb_spec t (emax - prec)) as [L | G]; [| reflexivity].
  cbn [SpecFloat.valid_binary]. unfold SpecFloat.bounded, SpecFloat.canonical_mantissa.
  fold (Zdigits2 (Zpos p)). fold (cexp (Zpos p) t).
  rewrite (canonical_cexp _ _ K) by lia. rewrite Z.eqb_refl.
  apply Z.leb_le in L. rewrite L. reflexivity.
Qed.

Lemma RE_valid (e V : Z) : valid_binary (RE e V) = true.
Proof.
  destruct V as [| p | p]; [reflexivity | rewrite RE_pos | rewrite RE_neg];
    apply finish_valid, rnd_canonical; lia.
Qed.

(** A double is the rounding of its own value. *)
Lemma RE_representable (s : bool) (m : positive) (e : Z) :
  valid_binary (S754_finite s m e) = true ->
  RE emin (val (S754_finite s m e)) = S754_finite s m e.
Proof.
  intros Hv. destruct (valid_canonical s m e Hv) as (K & B & C).
  pose proof K as (M & _). cbn [snd] in M.
  cbn [val]. set (k := e - emin).
  replace emin with (e - k) at 1 by (subst k; lia).
  assert (P : 0 < 2 ^ k) by (apply Z.pow_pos_nonneg; subst k; lia).
  destruct s; cbn [cond_Zopp].
  - rewrite <- Z.mul_opp_l. rewrite RE_shift by (subst k; lia).
    change (- Zpos m) with (Zneg m). rewrite RE_neg, rnd_canonical_fixed by (auto; lia).
    cbn [finish]. destruct (Z.leb_spec e (emax - prec)); [reflexivity | lia].
  - rewrite RE_shift by (subst k; lia).
    rewrite RE_pos, rnd_canonical_fixed by (auto; lia).
    cbn [finish]. destruct (Z.leb_spec e (emax - prec)); [reflexivity | lia].
Qed.

Lemma RE_val (x : spec_float) :
  valid_binary x = true -> finite x = true -> same (RE emin (val x)) x.
Proof.
  intros Hv Hf. destruct x as [s | s | | s m e]; try discriminate.
  - right. exists false, s. split; reflexivity.
  - left. apply RE_representable, Hv.
Qed.

(** Comparison of finite doubles is comparison of their values. *)
Lemma val_pos (m : positive) (e : Z) : emin <= e -> 0 < Zpos m * 2 ^ (e - emin).
Proof.
  intros H. pose proof (Z.pow_pos_nonneg 2 (e - emin) ltac:(lia) ltac:(lia)). nia.
Qed.

Lemma SFle_val (x y : spec_float) :
  valid_binary x = true -> valid_binary y = true ->
  finite x = true -> finite y = true ->
  (SFleb x y = true <-> val x <= val y).
Proof.
  intros Vx Vy Fx Fy. split.
  - (* by contraposition, and monotonicity of rounding *)
    intros H. destruct (Z_le_gt_dec (val x) (val y)) as [L | G]; [exact L | exfalso].
    assert (R : SFle (RE emin (val y)) (RE emin (val x)))
      by (apply RE_mono; [reflexivity | lia]).
    unfold SFle in R.
    rewrite (same_SFleb_l _ _ _ (RE_val y Vy Fy)) in R.
    rewrite (same_SFleb_r _ _ _ (RE_val x Vx Fx)) in R.
    (* both orders hold, so the values agree *)
    destruct x as [sx | sx | | sx mx ex], y as [sy | sy | | sy my ey]; try discriminate;
      cbn [val] in G.
    + destruct (valid_canonical _ _ _ Vy) as ((My & _) & _). cbn [snd] in My.
      pose proof (val_pos my ey My). destruct sy; cbn [cond_Zopp] in G; [| lia].
      cbn in H. discriminate.
    + destruct (valid_canonical _ _ _ Vx) as ((Mx & _) & _). cbn [snd] in Mx.
      pose proof (val_pos mx ex Mx). destruct sx; cbn [cond_Zopp] in G; [lia|].
      cbn in R. discriminate.
    + destruct (valid_canonical _ _ _ Vx) as ((Mx & Bx & Cx) & _).
      destruct (valid_canonical _ _ _ Vy) as ((My & By & Cy) & _).
      cbn [fst snd] in *.
      pose proof (val_pos mx ex Mx). pose proof (val_pos my ey My).
      unfold SFleb, SFcompare in H, R.
      destruct sx, sy; cbn [cond_Zopp] in G; try discriminate; try lia.
      * destruct (Z.compare_spec ex ey), (Z.compare_spec ey ex); try discriminate; try lia.
        subst ey.
        change (Pos.compare_cont Eq mx my) with (Pos.compare mx my) in H.
        change (Pos.compare_cont Eq my mx) with (Pos.compare my mx) in R.
        destruct (Pos.compare_spec mx my), (Pos.compare_spec my mx);
          cbn in H, R; try discriminate; try lia; subst; lia.
      * destruct (Z.compare_spec ex ey), (Z.compare_spec ey ex); try discriminate; try lia.
        subst ey.
        change (Pos.compare_cont Eq mx my) with (Pos.compare mx my) in H.
        change (Pos.compare_cont Eq my mx) with (Pos.compare my mx) in R.
        destruct (Pos.compare_spec mx my), (Pos.compare_spec my mx);
          cbn in H, R; try discriminate; try lia; subst; lia.
  - intros L.
    assert (R : SFle (RE emin (val x)) (RE emin (val y)))
      by (apply RE_mono; [reflexivity | lia]).
    unfold SFle in R.
    rewrite (same_SFleb_l _ _ _ (RE_val x Vx Fx)) in R.
    rewrite (same_SFleb_r _ _ _ (RE_val y Vy Fy)) in R. exact R.
Qed.

(** ** The operations on finite doubles *)

Lemma shl_align_fst (m : positive) (e e' : Z) :
  e' <= e -> Zpos (fst (shl_align m e e')) = Zpos m * 2 ^ (e - e').
Proof.
  intros H. unfold shl_align. destruct (e' - e) as [| d | d] eqn:D; try lia; cbn [fst].
  - replace (e - e') with 0 by lia. lia.
  - rewrite iter_xO. f_equal. f_equal. lia.
Qed.

Lemma val_opp (s : bool) (m : positive) (e : Z) :
  val (S754_finite (negb s) m e) = - val (S754_finite s m e).
Proof. cbn [val]. destruct s; cbn [negb cond_Zopp]; lia. Qed.

Lemma aligned (s : bool) (m : positive) (e e' : Z) :
  emin <= e' <= e ->
  cond_Zopp s (Zpos (fst (shl_align m e e'))) * 2 ^ (e' - emin) = val (S754_finite s m e).
Proof.
  intros H. rewrite shl_align_fst by lia. cbn [val].
  replace (e - emin) with ((e - e') + (e' - emin)) by lia.
  rewrite Z.pow_add_r by lia. destruct s; cbn [cond_Zopp]; lia.
Qed.

Lemma valid_emin (s : bool) (m : positive) (e : Z) :
  valid_binary (S754_finite s m e) = true -> emin <= e.
Proof. intros H. destruct (valid_canonical s m e H) as ((M & _) & _). exact M. Qed.

Lemma RE_at (e V : Z) : emin <= e -> RE e V = RE emin (V * 2 ^ (e - emin)).
Proof.
  intros H. replace emin with (e - (e - emin)) at 1 by lia.
  symmetry. apply RE_shift. lia.
Qed.

Theorem SFsub_RE (x y : spec_float) :
  valid_binary x = true -> valid_binary y = true ->
  finite x = true -> finite y = true ->
  same (SFsub prec emax x y) (RE emin (val x - val y)).
Proof.
  intros Vx Vy Fx Fy.
  destruct x as [sx | sx | | sx mx ex], y as [sy | sy | | sy my ey]; try discriminate.
  - right. cbn [SFsub val]. destruct sx, sy; eexists; eexists; split; reflexivity.
  - left. cbn [SFsub]. rewrite <- (RE_representable (negb sy) my ey) by exact Vy.
    rewrite val_opp. reflexivity.
  - left. cbn [SFsub]. rewrite <- (RE_representable sx mx ex) at 1 by exact Vx.
    cbn [val]. f_equal. lia.
  - left. pose proof (valid_emin _ _ _ Vx). pose proof (valid_emin _ _ _ Vy).
    cbn [SFsub]. fold (RE (Z.min ex ey)
      (cond_Zopp sx (Zpos (fst (shl_align mx ex (Z.min ex ey)))) -
       cond_Zopp sy (Zpos (fst (shl_align my ey (Z.min ex ey)))))).
    rewrite RE_at by lia. rewrite Z.mul_sub_distr_r, !aligned by lia. reflexivity.
Qed.

Theorem SFadd_RE (x y : spec_float) :
  valid_binary x = true -> valid_binary y = true ->
  finite x = true -> finite y = true ->
  same (SFadd prec emax x y) (RE emin (val x + val y)).
Proof.
  intros Vx Vy Fx Fy.
  destruct x as [sx | sx | | sx mx ex], y as [sy | sy | | sy my ey]; try discriminate.
  - right. cbn [SFadd val]. destruct sx, sy; eexists; eexists; split; reflexivity.
  - left. cbn [SFadd]. rewrite <- (RE_representable sy my ey) at 1 by exact Vy.
    reflexivity.
  - left. cbn [SFadd]. rewrite <- (RE_representable sx mx ex) at 1 by exact Vx.
    cbn [val]. f_equal. lia.
  - left. pose proof (valid_emin _ _ _ Vx). pose proof (valid_emin _ _ _ Vy).
    cbn [SFadd]. fold (RE (Z.min ex ey)
      (cond_Zopp sx (Zpos (fst (shl_align mx ex (Z.min ex ey)))) +
       cond_Zopp sy (Zpos (fst (shl_align my ey (Z.min ex ey)))))).
    rewrite RE_at by lia. rewrite Z.mul_add_distr_r, !aligned by lia. reflexivity.
Qed.

Lemma Zdigits2_pow2 (k : Z) : 0 <= k -> Zdigits2 (2 ^ k) = k + 1.
Proof.
  intros H. apply Zdigits2_unique; [| lia].
  replace (k + 1 - 1) with k by lia. split; [lia|].
  apply Z.pow_lt_mono_r; lia.
Qed.

Lemma product_needs_no_alignment (sx sy : bool) (mx my : positive) (ex ey : Z) :
  valid_binary (S754_finite sx mx ex) = true ->
  valid_binary (S754_finite sy my ey) = true ->
  ex + ey <= cexp (Zpos (mx * my)) (ex + ey).
Proof.
  intros Vx Vy.
  destruct (valid_canonical _ _ _ Vx) as ((Mx & Bx & _) & _ & Cx).
  destruct (valid_canonical _ _ _ Vy) as ((My & By & _) & _ & Cy).
  cbn [fst snd] in *.
  pose proof (Zdigits2_bounds (Zpos mx) ltac:(lia)) as [Lx _].
  pose proof (Zdigits2_bounds (Zpos my) ltac:(lia)) as [Ly _].
  pose proof (Zdigits2_pos (Zpos mx) ltac:(lia)) as Dx.
  pose proof (Zdigits2_pos (Zpos my) ltac:(lia)) as Dy.
  assert (D : Zdigits2 (Zpos mx) + Zdigits2 (Zpos my) - 1 <= Zdigits2 (Zpos (mx * my))).
  { pose proof (Zdigits2_pow2 (Zdigits2 (Zpos mx) - 1 + (Zdigits2 (Zpos my) - 1))
                  ltac:(lia)) as E.
    assert (L : 2 ^ (Zdigits2 (Zpos mx) - 1 + (Zdigits2 (Zpos my) - 1)) <= Zpos (mx * my)).
    { rewrite Z.pow_add_r by lia. rewrite Pos2Z.inj_mul. nia. }
    assert (P : 0 < 2 ^ (Zdigits2 (Zpos mx) - 1 + (Zdigits2 (Zpos my) - 1)))
      by (apply Z.pow_pos_nonneg; lia).
    pose proof (Zdigits2_mono _ _ P L). lia. }
  params. lia.
Qed.

Theorem SFmul_RE (x y : spec_float) :
  valid_binary x = true -> valid_binary y = true ->
  finite x = true -> finite y = true ->
  same (SFmul prec emax x y) (RE (2 * emin) (val x * val y)).
Proof.
  intros Vx Vy Fx Fy.
  destruct x as [sx | sx | | sx mx ex], y as [sy | sy | | sy my ey]; try discriminate.
  - right. cbn [SFmul val]. eexists; eexists; split; reflexivity.
  - right. cbn [SFmul val]. eexists; eexists; split; reflexivity.
  - right. cbn [SFmul val]. rewrite Z.mul_0_r. eexists; eexists; split; reflexivity.
  - left. pose proof (valid_emin _ _ _ Vx). pose proof (valid_emin _ _ _ Vy).
    cbn [SFmul]. rewrite binary_round_aux_rnd by (eapply product_needs_no_alignment; eauto).
    assert (E : val (S754_finite sx mx ex) * val (S754_finite sy my ey) =
                cond_Zopp (xorb sx sy) (Zpos (mx * my)) * 2 ^ (ex + ey - 2 * emin)).
    { cbn [val]. replace (ex + ey - 2 * emin) with ((ex - emin) + (ey - emin)) by lia.
      rewrite Z.pow_add_r, Pos2Z.inj_mul by lia.
      destruct sx, sy; cbn [xorb cond_Zopp]; lia. }
    rewrite E.
    replace (2 * emin) with ((ex + ey) - (ex + ey - 2 * emin)) at 1 by lia.
    rewrite RE_shift by lia.
    destruct (xorb sx sy); cbn [cond_Zopp].
    + change (- Zpos (mx * my)) with (Zneg (mx * my)). rewrite RE_neg. reflexivity.
    + rewrite RE_pos. reflexivity.
Qed.

(** ** Bracketing a rounding between two others *)

Lemma SFle_finite_between (l x h : spec_float) :
  SFle l x -> SFle x h -> finite l = true -> finite h = true -> finite x = true.
Proof.
  unfold SFle. intros L H Fl Fh.
  destruct l, x, h; try discriminate; try reflexivity;
    cbn in L, H; repeat match goal with s : bool |- _ => destruct s end;
    discriminate.
Qed.

Theorem RE_between (e lo W hi : Z) :
  e <= emin -> lo <= W <= hi ->
  finite (RE e lo) = true -> finite (RE e hi) = true ->
  finite (RE e W) = true /\ val (RE e lo) <= val (RE e W) <= val (RE e hi).
Proof.
  intros He [L H] Fl Fh.
  pose proof (RE_mono e lo W He L) as ML. pose proof (RE_mono e W hi He H) as MH.
  assert (F : finite (RE e W) = true) by (eapply SFle_finite_between; eauto).
  split; [exact F|]. split.
  - apply SFle_val; auto using RE_valid.
  - apply SFle_val; auto using RE_valid.
Qed.

(** ** Primitive floats *)

Lemma leb_V (a b : float) :
  Fin a -> Fin b -> (PrimFloat.leb a b = true <-> V a <= V b).
Proof.
  intros Fa Fb. rewrite FloatAxioms.leb_spec. apply SFle_val; auto using Prim2SF_valid.
Qed.

Lemma sub_same (a b : float) :
  Fin a -> Fin b -> same (Prim2SF (a - b)) (RE emin (V a - V b)).
Proof.
  intros Fa Fb. rewrite FloatAxioms.sub_spec. apply SFsub_RE; auto using Prim2SF_valid.
Qed.

Lemma add_same (a b : float) :
  Fin a -> Fin b -> same (Prim2SF (a + b)) (RE emin (V a + V b)).
Proof.
  intros Fa Fb. rewrite FloatAxioms.add_spec. apply SFadd_RE; auto using Prim2SF_valid.
Qed.

Lemma mul_same (a b : float) :
  Fin a -> Fin b -> same (Prim2SF (a * b)) (RE (2 * emin) (V a * V b)).
Proof.
  intros Fa Fb. rewrite FloatAxioms.mul_spec. apply SFmul_RE; auto using Prim2SF_valid.
Qed.

Theorem sub_between (a b : float) (lo hi : Z) :
  Fin a -> Fin b -> lo <= V a - V b <= hi ->
  fits lo = true -> fits hi = true ->
  Fin (a - b) /\ rz lo <= V (a - b) <= rz hi.
Proof.
  intros Fa Fb B Fl Fh. pose proof (sub_same a b Fa Fb) as S.
  unfold Fin, V. rewrite (same_finite _ _ S), (same_val _ _ S).
  apply RE_between; auto. reflexivity.
Qed.

Theorem add_between (a b : float) (lo hi : Z) :
  Fin a -> Fin b -> lo <= V a + V b <= hi ->
  fits lo = true -> fits hi = true ->
  Fin (a + b) /\ rz lo <= V (a + b) <= rz hi.
Proof.
  intros Fa Fb B Fl Fh. pose proof (add_same a b Fa Fb) as S.
  unfold Fin, V. rewrite (same_finite _ _ S), (same_val _ _ S).
  apply RE_between; auto. reflexivity.
Qed.

Theorem mul_between (a b : float) (lo hi : Z) :
  Fin a -> Fin b -> lo <= V a * V b <= hi ->
  fits2 lo = true -> fits2 hi = true ->
  Fin (a * b) /\ rz2 lo <= V (a * b) <= rz2 hi.
Proof.
  intros Fa Fb B Fl Fh. pose proof (mul_same a b Fa Fb) as S.
  unfold Fin, V. rewrite (same_finite _ _ S), (same_val _ _ S).
  apply RE_between; auto. params. lia.
Qed.

Lemma rz_V (a : float) : Fin a -> fits (V a) = true /\ rz (V a) = V a.
Proof.
  intros Fa. pose proof (RE_val (Prim2SF a) (Prim2SF_valid a) Fa) as S.
  unfold fits, rz, V. rewrite (same_finite _ _ S), (same_val _ _ S). split; auto.
Qed.

Lemma SFltb_SFleb (x y : spec_float) : SFltb x y = true -> SFleb x y = true.
Proof. unfold SFltb, SFleb. destruct (SFcompare x y) as [[| |] |]; auto. Qed.

Lemma ltb_leb (a b : float) : PrimFloat.ltb a b = true -> PrimFloat.leb a b = true.
Proof. rewrite FloatAxioms.ltb_spec, FloatAxioms.leb_spec. apply SFltb_SFleb. Qed.

(** A float between two finite floats is finite. *)
Lemma Fin_between (l a h : float) :
  Fin l -> Fin h -> PrimFloat.leb l a = true -> PrimFloat.leb a h = true -> Fin a.
Proof.
  unfold Fin. rewrite !FloatAxioms.leb_spec. intros Fl Fh L H.
  eapply SFle_finite_between; eauto.
Qed.

Lemma ltb_V (a b : float) :
  Fin a -> Fin b -> PrimFloat.ltb a b = true -> V a < V b.
Proof.
  intros Fa Fb H.
  destruct (Z_lt_le_dec (V a) (V b)) as [L | G]; [exact L | exfalso].
  apply (leb_V b a Fb Fa) in G. rewrite FloatAxioms.leb_spec in G. rewrite FloatAxioms.ltb_spec in H.
  unfold SFltb in H. unfold SFleb in G.
  destruct (Prim2SF a) as [sa | sa | | sa ma ea], (Prim2SF b) as [sb | sb | | sb mb eb];
    cbn in H, G; try discriminate;
    repeat match goal with s : bool |- _ => destruct s end; try discriminate.
  - destruct (Z.compare_spec ea eb), (Z.compare_spec eb ea); try discriminate; try lia.
    subst. change (Pos.compare_cont Eq ma mb) with (Pos.compare ma mb) in H.
    change (Pos.compare_cont Eq mb ma) with (Pos.compare mb ma) in G.
    destruct (Pos.compare_spec ma mb), (Pos.compare_spec mb ma);
      cbn in H, G; try discriminate; lia.
  - destruct (Z.compare_spec ea eb), (Z.compare_spec eb ea); try discriminate; try lia.
    subst. change (Pos.compare_cont Eq ma mb) with (Pos.compare ma mb) in H.
    change (Pos.compare_cont Eq mb ma) with (Pos.compare mb ma) in G.
    destruct (Pos.compare_spec ma mb), (Pos.compare_spec mb ma);
      cbn in H, G; try discriminate; lia.
Qed.

Lemma V_bounds (a : float) : Fin a -> - maxV <= V a <= maxV.
Proof.
  unfold Fin, V. intros Fa. pose proof (Prim2SF_valid a) as Va.
  destruct (Prim2SF a) as [s | s | | s m e]; try discriminate;
    try (cbn [val]; unfold maxV; params; cbn; lia).
  destruct (valid_canonical _ _ _ Va) as ((M & B & _) & E & _). cbn [fst snd] in *.
  assert (P : 0 < 2 ^ (e - emin) <= 2 ^ (emax - prec - emin)).
  { split; [apply Z.pow_pos_nonneg; lia | apply Z.pow_le_mono_r; lia]. }
  cbn [val]. unfold maxV. destruct s; cbn [cond_Zopp]; nia.
Qed.

(** Integers *)

Lemma RE_int (n : Z) :
  - 2 ^ 53 < n < 2 ^ 53 -> finite (RE emin (I n)) = true /\ val (RE emin (I n)) = I n.
Proof.
  intros B. unfold I.
  replace emin with (0 - 1074) at 1 2 by reflexivity. rewrite RE_shift by lia.
  assert (K : forall p : positive, Zpos p < 2 ^ 53 ->
            rnd (Zpos p) 0 = (Zpos p * 2 ^ (0 - cexp (Zpos p) 0), cexp (Zpos p) 0) /\
            emin <= cexp (Zpos p) 0 <= 0).
  { intros p Hp. pose proof (Zdigits2_bounds (Zpos p) ltac:(lia)) as [BL BU].
    assert (D : Zdigits2 (Zpos p) <= 53).
    { destruct (Z_le_gt_dec (Zdigits2 (Zpos p)) 53) as [L | G]; [exact L|].
      assert (2 ^ 53 <= 2 ^ (Zdigits2 (Zpos p) - 1)) by (apply Z.pow_le_mono_r; lia). lia. }
    assert (C : emin <= cexp (Zpos p) 0 <= 0) by (params; lia).
    split; [| exact C]. unfold rnd.
    destruct (Z.leb_spec (cexp (Zpos p) 0) 0); [reflexivity | lia]. }
  assert (Val : forall (s : bool) (p : positive), Zpos p < 2 ^ 53 ->
            finite (finish s (rnd (Zpos p) 0)) = true /\
            val (finish s (rnd (Zpos p) 0)) = cond_Zopp s (Zpos p * 2 ^ 1074)).
  { intros s p Hp. destruct (K p Hp) as [E C]. rewrite E. set (t := cexp (Zpos p) 0) in *.
    assert (P : 0 < 2 ^ (0 - t)) by (apply Z.pow_pos_nonneg; lia).
    unfold finish. destruct (Zpos p * 2 ^ (0 - t)) as [| q | q] eqn:Q; try lia.
    destruct (Z.leb_spec t (emax - prec)) as [L | G]; [| params; lia].
    split; [reflexivity|]. cbn [val]. rewrite <- Q, <- Z.mul_assoc, <- Z.pow_add_r by (params; lia).
    f_equal. f_equal. f_equal. params. lia. }
  destruct n as [| p | p].
  - split; reflexivity.
  - rewrite RE_pos. apply (Val false). lia.
  - rewrite RE_neg. destruct (Val true p ltac:(lia)) as [A C]. split; [exact A|].
    rewrite C. cbn [cond_Zopp]. lia.
Qed.

Lemma V_of_uint63 (n : Z) :
  0 <= n < 2 ^ 53 ->
  Fin (PrimFloat.of_uint63 (Uint63.of_Z n)) /\ V (PrimFloat.of_uint63 (Uint63.of_Z n)) = I n.
Proof.
  intros B. unfold Fin, V. rewrite FloatAxioms.of_uint63_spec.
  rewrite Uint63.of_Z_spec, Z.mod_small
    by (split; [lia |]; eapply Z.lt_trans; [apply B | reflexivity]).
  fold (RE 0 n). rewrite RE_at by (params; lia).
  change (n * 2 ^ (0 - emin)) with (I n). apply RE_int. lia.
Qed.

(** ** Signs: what cannot be NaN *)

Lemma shr_1_m_nonneg (mrs : shr_record) : 0 <= shr_m mrs -> 0 <= shr_m (shr_1 mrs).
Proof.
  destruct mrs as [m r s]. cbn [shr_m]. intros H.
  destruct m as [| p | p]; try lia; [cbn; lia|].
  destruct p; cbn; lia.
Qed.

Lemma shr_m_nonneg (mrs : shr_record) (e n : Z) :
  0 <= shr_m mrs -> 0 <= shr_m (fst (shr mrs e n)).
Proof.
  intros H. destruct n as [| p | p]; cbn [shr fst]; try exact H.
  rewrite iter_pos_nat. induction (Pos.to_nat p) as [| k IH]; cbn [Nat.iter].
  - exact H.
  - apply shr_1_m_nonneg, IH.
Qed.

Lemma shr_fexp_nonneg (m e : Z) (l : location) :
  0 <= m -> 0 <= shr_m (fst (shr_fexp prec emax m e l)).
Proof.
  intros H. unfold shr_fexp. apply shr_m_nonneg.
  destruct l as [| []]; exact H.
Qed.

Lemma round_nearest_even_nonneg (m : Z) (l : location) :
  0 <= m -> 0 <= round_nearest_even m l.
Proof.
  intros H. destruct l as [| []]; cbn [round_nearest_even]; try lia.
  destruct (Z.even m); lia.
Qed.

Lemma binary_round_aux_nonneg (m e : Z) (l : location) :
  0 <= m -> nonneg (binary_round_aux prec emax false m e l) = true.
Proof.
  intros H. unfold binary_round_aux.
  pose proof (shr_fexp_nonneg m e l H) as A.
  destruct (shr_fexp prec emax m e l) as [mrs1 e1]. cbn [fst] in A.
  pose proof (shr_fexp_nonneg (round_nearest_even (shr_m mrs1) (loc_of_shr_record mrs1))
                e1 loc_Exact (round_nearest_even_nonneg _ _ A)) as B.
  destruct (shr_fexp prec emax _ e1 loc_Exact) as [mrs2 e2]. cbn [fst] in B.
  destruct (shr_m mrs2); try lia; [reflexivity|].
  destruct (e2 <=? emax - prec); reflexivity.
Qed.

Lemma SFsqrt_nonneg (x : spec_float) : nonneg x = true -> nonneg (SFsqrt prec emax x) = true.
Proof.
  destruct x as [s | [|] | | [|] m e]; try discriminate; intros _; try reflexivity.
  cbn [SFsqrt]. unfold SFsqrt_core_binary.
  set (m' := match _ - _ with Zpos _ => _ | Z0 => _ | Zneg _ => _ end).
  assert (M : 0 <= m').
  { subst m'. destruct (e - 2 * _); try lia. apply Z.shiftl_nonneg. lia. }
  pose proof (Z.sqrtrem_spec m' M) as S.
  destruct (Z.sqrtrem m') as [q r]. apply binary_round_aux_nonneg. nia.
Qed.

Lemma SFmul_square_nonneg (x : spec_float) :
  x <> S754_nan -> nonneg (SFmul prec emax x x) = true.
Proof.
  destruct x as [s | s | | s m e]; intros H; try congruence; cbn [SFmul].
  - reflexivity.
  - destruct s; reflexivity.
  - rewrite xorb_nilpotent. apply binary_round_aux_nonneg. lia.
Qed.

Lemma finish_nonneg (c : Z * Z) : nonneg (finish false c) = true.
Proof.
  destruct c as [q t]. unfold finish. destruct q; try reflexivity.
  destruct (t <=? emax - prec); reflexivity.
Qed.

Lemma RE_nonneg (e W : Z) : 0 <= W -> nonneg (RE e W) = true.
Proof.
  intros H. destruct W as [| p | p]; try lia; [reflexivity|].
  rewrite RE_pos. apply finish_nonneg.
Qed.

Lemma SFadd_nonneg (x y : spec_float) :
  nonneg x = true -> nonneg y = true -> nonneg (SFadd prec emax x y) = true.
Proof.
  destruct x as [sx | [|] | | [|] mx ex], y as [sy | [|] | | [|] my ey];
    try discriminate; intros _ _; try reflexivity.
  - destruct sx, sy; reflexivity.
  - cbn [SFadd cond_Zopp]. fold (RE (Z.min ex ey)
      (Zpos (fst (shl_align mx ex (Z.min ex ey))) +
       Zpos (fst (shl_align my ey (Z.min ex ey))))).
    apply RE_nonneg. lia.
Qed.

Lemma same_nonneg (x y : spec_float) : same x y -> nonneg x = nonneg y.
Proof. intros [-> | (s & s' & -> & ->)]; reflexivity. Qed.

Lemma nonneg_not_nan (x : spec_float) : nonneg x = true -> x <> S754_nan.
Proof. destruct x; discriminate || (intros _; discriminate). Qed.

Lemma finite_not_nan (x : spec_float) : finite x = true -> x <> S754_nan.
Proof. destruct x; discriminate || (intros _; discriminate). Qed.

Lemma zero_le_nonneg (s : bool) (x : spec_float) :
  nonneg x = true -> SFleb (S754_zero s) x = true.
Proof.
  destruct x as [sx | [|] | | [|] mx ex]; try discriminate; intros _; reflexivity.
Qed.

Lemma not_nan_is_nan (a : float) : NotNaN a -> PrimFloat.is_nan a = false.
Proof.
  unfold NotNaN, Prim2SF. destruct (PrimFloat.is_nan a); [congruence | reflexivity].
Qed.

Lemma Fin_NotNaN (a : float) : Fin a -> NotNaN a.
Proof. apply finite_not_nan. Qed.

Lemma NonNeg_NotNaN (a : float) : NonNeg a -> NotNaN a.
Proof. apply nonneg_not_nan. Qed.

Lemma sqrt_NonNeg (a : float) : NonNeg a -> NonNeg (PrimFloat.sqrt a).
Proof. unfold NonNeg. rewrite FloatAxioms.sqrt_spec. apply SFsqrt_nonneg. Qed.

Lemma square_NonNeg (a : float) : NotNaN a -> NonNeg (a * a).
Proof. unfold NonNeg, NotNaN. rewrite FloatAxioms.mul_spec. apply SFmul_square_nonneg. Qed.

Lemma add_NonNeg (a b : float) : NonNeg a -> NonNeg b -> NonNeg (a + b).
Proof. unfold NonNeg. rewrite FloatAxioms.add_spec. apply SFadd_nonneg. Qed.

Lemma zero_leb_NonNeg (a : float) : NonNeg a -> PrimFloat.leb 0 a = true.
Proof. unfold NonNeg. rewrite FloatAxioms.leb_spec. apply zero_le_nonneg. Qed.

(** A difference of finite floats in the right order. *)
Lemma sub_NonNeg (a b : float) : Fin a -> Fin b -> V b <= V a -> NonNeg (a - b).
Proof.
  intros Fa Fb H. unfold NonNeg.
  rewrite (same_nonneg _ _ (sub_same a b Fa Fb)). apply RE_nonneg. lia.
Qed.

(** [Math.floor] of a finite float. *)
Lemma shiftl_floor (m : Z) (e : Z) :
  emin <= e -> Z.shiftl m e = (m * 2 ^ (e - emin)) / 2 ^ 1074.
Proof.
  intros H. destruct (Z_le_gt_dec 0 e) as [P | Ng].
  - rewrite Z.shiftl_mul_pow2 by lia.
    replace (e - emin) with (e + 1074) by (params; lia).
    rewrite Z.pow_add_r, Z.mul_assoc by lia. rewrite Z.div_mul by lia. reflexivity.
  - rewrite Z.shiftl_div_pow2 by lia.
    replace (2 ^ 1074) with (2 ^ (e - emin) * 2 ^ (- e)).
    2:{ rewrite <- Z.pow_add_r by (params; lia). f_equal. params. lia. }
    rewrite (Z.mul_comm m).
    rewrite Z.div_mul_cancel_l; try reflexivity;
      apply Z.pow_nonzero; params; lia.
Qed.

End Binary64Theory.

(** * The particles *)

(** ** Explosion points: opacity *)

Section OpacityAnyNumber.
Context {num : Type} {N : Number num} {M : MathLib num}.
Import ExplosionParticle.

Lemma decay_ticks (n : nat) (p : t num) : decay (ticks n p) = decay p.
Proof. induction n as [| n IH]; [reflexivity | exact IH]. Qed.

Lemma alpha_ticks (n : nat) (p : t num) :
  alpha (ticks (S n) p) = num_sub (alpha (ticks n p)) (decay p).
Proof. cbn [ticks update fst alpha]. rewrite decay_ticks. reflexivity. Qed.

Lemma faded_alpha (n : nat) (p : t num) :
  faded (S n) p = num_leb (alpha (ticks (S n) p)) (num_dec 1 2).
Proof. cbn [faded ticks update fst snd alpha]. rewrite decay_ticks. reflexivity. Qed.

End OpacityAnyNumber.

(** In exact arithmetic the opacity after [k] ticks is the initial opacity
    minus [k] times the decay. *)
Lemma alpha_ticks_exact (MR : MathLib R) (k : nat) (p : ExplosionParticle.t R) :
  ExplosionParticle.alpha (ExplosionParticle.ticks (M := MR) k p) =
  (ExplosionParticle.alpha p - INR k * ExplosionParticle.decay p)%R.
Proof.
  induction k as [| k IH].
  - cbn [ExplosionParticle.ticks INR]. lra.
  - rewrite alpha_ticks, IH, S_INR. cbn [num_sub Number_R]. lra.
Qed.

Section OpacityBinary64.
Context {M : MathLib float}.
Import ExplosionParticle Binary64.
Local Open Scope float_scope.


Lemma unit_draw_V (r : float) : unit_draw r -> Fin r /\ (0 <= V r <= V 1)%Z.
Proof.
  intros [L U]. apply ltb_leb in U.
  assert (F0 : Fin 0) by reflexivity. assert (F1 : Fin 1) by reflexivity.
  assert (Fr : Fin r) by exact (Fin_between 0 r 1 F0 F1 L U).
  split; [exact Fr|]. split.
  - change 0%Z with (V 0). apply leb_V; assumption.
  - apply leb_V; assumption.
Qed.

(** [r * c + b] for a draw [r] and positive constants lies between [b] and
    [c + b], when those roundings are exact. *)
Lemma affine_draw (r c b lo hi : float) :
  unit_draw r -> Fin c -> Fin b -> (0 < V c)%Z ->
  fits2 0 = true -> fits2 (V 1 * V c) = true -> rz2 (V 1 * V c) = V c ->
  fits (0 + V b) = true -> fits (V c + V b) = true ->
  rz (0 + V b) = V lo -> rz (V c + V b) = V hi ->
  Fin (r * c + b) /\ (V lo <= V (r * c + b) <= V hi)%Z.
Proof.
  intros Hr Fc Fb Pc F20 F2c E2 Fl Fh El Eh.
  destruct (unit_draw_V r Hr) as [Fr [R0 R1]].
  destruct (mul_between r c 0 (V 1 * V c) Fr Fc ltac:(nia) F20 F2c) as [Fm [M0 M1]].
  rewrite E2 in M1. change (rz2 0) with 0%Z in M0.
  destruct (add_between (r * c) b (0 + V b) (V c + V b) Fm Fb ltac:(lia) Fl Fh) as [Fa [A0 A1]].
  rewrite El in A0. rewrite Eh in A1. split; [exact Fa | lia].
Qed.


Lemma initial_alpha (x y : float) (cx : option Context2D) (color : option Color) (r : Draws float) :
  unit_draw (r_alpha r) ->
  Fin (alpha (initialize x y cx color r)) /\
  (V c0_9 <= V (alpha (initialize x y cx color r)) <= V 1)%Z.
Proof.
  intros H. change (alpha (initialize x y cx color r)) with (r_alpha r * c0_1 + c0_9).
  apply affine_draw; try assumption; vm_compute; reflexivity.
Qed.

Lemma initial_decay (x y : float) (cx : option Context2D) (color : option Color) (r : Draws float) :
  unit_draw (r_decay r) ->
  Fin (decay (initialize x y cx color r)) /\
  (V c0_01 <= V (decay (initialize x y cx color r)) <= V c0_025)%Z.
Proof.
  intros H. change (decay (initialize x y cx color r)) with (r_decay r * c0_015 + c0_01).
  apply affine_draw; try assumption; vm_compute; reflexivity.
Qed.

End OpacityBinary64.

Section Fading.
Context {M : MathLib float}.
Import ExplosionParticle Binary64.
Local Open Scope float_scope.


Lemma fade_sound (dlo dhi : Z) (n : nat) (l0 u0 l u : Z) (p : t float) :
  fade dlo dhi n (l0, u0) = Some (l, u) ->
  Fin (alpha p) -> Fin (decay p) ->
  (l0 <= V (alpha p) <= u0)%Z -> (dlo <= V (decay p) <= dhi)%Z ->
  Fin (alpha (ticks n p)) /\ (l <= V (alpha (ticks n p)) <= u)%Z.
Proof.
  intros E Fa Fd Ba Bd. revert l u E.
  induction n as [| n IH]; intros l u E; cbn [fade] in E.
  - injection E as <- <-. split; assumption.
  - destruct (fade dlo dhi n (l0, u0)) as [[l' u'] |]; [| discriminate].
    destruct (IH l' u' eq_refl) as [Fn Bn].
    unfold fade_step in E.
    destruct (fits (l' - dhi)) eqn:Fl; [| discriminate].
    destruct (fits (u' - dlo)) eqn:Fu; [| discriminate].
    cbn [andb] in E. injection E as <- <-.
    rewrite alpha_ticks. cbn [num_sub Number_float].
    apply sub_between; try assumption. lia.
Qed.

(** With the draws in [0, 1) the opacity after 99 ticks is at most 0.01. *)
Lemma faded_by_99 (x y : float) (cx : option Context2D) (color : option Color) (r : Draws float) :
  unit_draw (r_alpha r) -> unit_draw (r_decay r) ->
  faded 99 (initialize x y cx color r) = true.
Proof.
  intros Ha Hd.
  destruct (initial_alpha x y cx color r Ha) as [Fa Ba].
  destruct (initial_decay x y cx color r Hd) as [Fd Bd].
  set (p := initialize x y cx color r) in *.
  assert (E : exists l u, fade (V c0_01) (V c0_025) 99 (V c0_9, V 1) = Some (l, u) /\
                          (u <= V c0_01)%Z).
  { eexists. eexists. split; [vm_compute; reflexivity | vm_compute; discriminate]. }
  destruct E as (l & u & E & Hu).
  destruct (fade_sound _ _ _ _ _ _ _ p E Fa Fd Ba Bd) as [Fn Bn].
  rewrite faded_alpha. cbn [num_leb Number_float].
  change (num_dec 1 2) with c0_01.
  apply leb_V; [exact Fn | reflexivity | lia].
Qed.

(** Subtracting a decay of at most 0.025 keeps a finite opacity finite and
    does not increase it. *)
Lemma fade_once (a d : float) :
  Fin a -> Fin d -> (0 <= V d <= V c0_025)%Z ->
  Fin (a - d) /\ (V (a - d) <= V a)%Z.
Proof.
  intros Fa Fd Bd. destruct (rz_V a Fa) as [Fv Ev].
  pose proof (V_bounds a Fa) as Ba.
  assert (Fl : fits (- maxV - V c0_025) = true) by (vm_compute; reflexivity).
  destruct (sub_between a d (- maxV - V c0_025) (V a) Fa Fd ltac:(lia) Fl Fv) as [F B].
  rewrite Ev in B. split; [exact F | lia].
Qed.

Lemma opacity_stays_finite (n : nat) (p : t float) :
  Fin (alpha p) -> Fin (decay p) -> (0 <= V (decay p) <= V c0_025)%Z ->
  Fin (alpha (ticks n p)).
Proof.
  intros Fa Fd Bd. induction n as [| n IH]; [exact Fa|].
  rewrite alpha_ticks. cbn [num_sub Number_float].
  apply fade_once; assumption.
Qed.

End Fading.

(** C10. Every explosion point fades out within 99 ticks: whatever the
    engine's trigonometry, the position and the color, and for every value
    in [0, 1) that [Math.random()] returns for the opacity and the decay,
    [update] returns true at some tick [k <= 99] (on binary64: the opacity
    after 99 subtractions of the decay is at most 0.01). *)
Theorem explosion_point_fades_within_99_ticks
    (M : MathLib float) (x y : float) (cx : option Context2D) (color : option Color)
    (r : ExplosionParticle.Draws float)
    (Halpha : unit_draw (ExplosionParticle.r_alpha r))
    (Hdecay : unit_draw (ExplosionParticle.r_decay r)) :
  exists k : nat,
    (1 <= k <= 99)%nat /\
    ExplosionParticle.faded k (ExplosionParticle.initialize x y cx color r) = true.
Proof.
  exists 99%nat. split; [lia|]. apply faded_by_99; assumption.
Qed.


Lemma explosion_point_fades_within_99_ticks_witness :
  unit_draw (ExplosionParticle.r_alpha sampleDraws) /\
  unit_draw (ExplosionParticle.r_decay sampleDraws) /\
  exists k : nat,
    (1 <= k <= 99)%nat /\
    ExplosionParticle.faded (M := MathLib_engine) k samplePoint = true.
Proof.
  split; [split; reflexivity|]. split; [split; reflexivity|].
  exact (explosion_point_fades_within_99_ticks MathLib_engine 0%float 0%float
           (Some TheContext) (Some (mkColor 0 100)) sampleDraws (conj eq_refl eq_refl) (conj eq_refl eq_refl)).
Defined.

(** C9 (amended). For every explosion point the simulation creates (draws
    in [0, 1)), on binary64: each tick subtracts the point's fixed decay from
    its opacity, rounded to the nearest double; the opacity never increases;
    and [update] returns true at a tick exactly when the opacity after that
    tick is at most 0.01, so removal is reported at the first such tick. In
    exact arithmetic the opacity after [k] ticks is the initial opacity
    minus [k] times the decay. *)
Theorem opacity_decays_by_rounded_subtraction
    (M : MathLib float) (x y : float) (cx : option Context2D) (color : option Color)
    (r : ExplosionParticle.Draws float)
    (Halpha : unit_draw (ExplosionParticle.r_alpha r))
    (Hdecay : unit_draw (ExplosionParticle.r_decay r)) (k : nat) :
  let p := ExplosionParticle.initialize x y cx color r in
  ExplosionParticle.alpha (ExplosionParticle.ticks (S k) p) =
    PrimFloat.sub (ExplosionParticle.alpha (ExplosionParticle.ticks k p))
                  (ExplosionParticle.decay p) /\
  PrimFloat.leb (ExplosionParticle.alpha (ExplosionParticle.ticks (S k) p))
                (ExplosionParticle.alpha (ExplosionParticle.ticks k p)) = true /\
  ExplosionParticle.faded (S k) p =
    PrimFloat.leb (ExplosionParticle.alpha (ExplosionParticle.ticks (S k) p))
                  0x1.47ae147ae147bp-7%float /\
  forall (MR : MathLib R) (q : ExplosionParticle.t R) (j : nat),
    ExplosionParticle.alpha (ExplosionParticle.ticks (M := MR) j q) =
    (ExplosionParticle.alpha q - INR j * ExplosionParticle.decay q)%R.
Proof.
  intros p.
  destruct (initial_alpha x y cx color r Halpha) as [Fa Ba].
  destruct (initial_decay x y cx color r Hdecay) as [Fd Bd]. fold p in Fa, Ba, Fd, Bd.
  assert (P : (0 <= Binary64.V c0_01)%Z) by (vm_compute; discriminate).
  pose proof (opacity_stays_finite k p Fa Fd ltac:(lia)) as Fk.
  destruct (fade_once _ _ Fk Fd ltac:(lia)) as [Fs Ls].
  split; [exact (alpha_ticks k p)|]. split; [| split].
  - rewrite alpha_ticks. cbn [num_sub Number_float].
    apply leb_V; assumption.
  - exact (faded_alpha k p).
  - intros MR q j. apply alpha_ticks_exact.
Qed.

Lemma opacity_decays_by_rounded_subtraction_witness :
  unit_draw (ExplosionParticle.r_alpha sampleDraws) /\
  unit_draw (ExplosionParticle.r_decay sampleDraws) /\
  PrimFloat.leb (ExplosionParticle.alpha (ExplosionParticle.ticks (M := MathLib_engine) 3 samplePoint))
                (ExplosionParticle.alpha (ExplosionParticle.ticks (M := MathLib_engine) 2 samplePoint))
  = true.
Proof.
  split; [split; reflexivity|]. split; [split; reflexivity|].
  exact (proj1 (proj2 (opacity_decays_by_rounded_subtraction MathLib_engine 0%float 0%float
           (Some TheContext) (Some (mkColor 0 100)) sampleDraws (conj eq_refl eq_refl) (conj eq_refl eq_refl) 2))).
Defined.

(** C9 as stated fails on binary64: the sample point starts at opacity
    0.9500000000000001 with decay 0.02; after three ticks its opacity is
    0.89, and the initial opacity minus 3 * 0.02 is 0.8900000000000001. *)
Lemma opacity_is_not_initial_minus_k_decay :
  ExplosionParticle.alpha samplePoint = 0x1.e666666666667p-1%float /\
  ExplosionParticle.decay samplePoint = 0x1.47ae147ae147bp-6%float /\
  ExplosionParticle.alpha (ExplosionParticle.ticks (M := MathLib_engine) 3 samplePoint)
    = 0x1.c7ae147ae147bp-1%float /\
  PrimFloat.sub (ExplosionParticle.alpha samplePoint)
    (PrimFloat.mul 3 (ExplosionParticle.decay samplePoint))
    = 0x1.c7ae147ae147cp-1%float /\
  PrimFloat.eqb
    (ExplosionParticle.alpha (ExplosionParticle.ticks (M := MathLib_engine) 3 samplePoint))
    (PrimFloat.sub (ExplosionParticle.alpha samplePoint)
       (PrimFloat.mul 3 (ExplosionParticle.decay samplePoint)))
  = false.
Proof.
  repeat split; vm_compute; reflexivity.
Qed.

(** ** Projectiles on binary64: launch and target at the same point *)

Section DegenerateGeometry.
Context {M : MathLib float}.
Import FireworkParticle Binary64.
Local Open Scope float_scope.

Lemma SFsub_diag (x : spec_float) :
  Binary64.finite x = true -> SFsub prec emax x x = S754_zero false.
Proof.
  destruct x as [s | s | | s m e]; try discriminate; intros _; cbn [SFsub].
  - destruct s; reflexivity.
  - rewrite Z.sub_diag. reflexivity.
Qed.

Lemma sub_diag (a : float) : Fin a -> a - a = 0.
Proof.
  intros H. apply Prim2SF_inj. rewrite FloatAxioms.sub_spec, SFsub_diag by exact H.
  reflexivity.
Qed.

(** Adding a small constant to a finite float: finite, and not below it. *)
Lemma add_small (a c : float) :
  Fin a -> Fin c -> (0 <= V c)%Z -> fits (maxV + V c) = true ->
  Fin (a + c) /\ (V a <= V (a + c))%Z.
Proof.
  intros Fa Fc Pc Fh. destruct (rz_V a Fa) as [Fv Ev].
  pose proof (V_bounds a Fa) as Ba.
  destruct (add_between a c (V a) (maxV + V c) Fa Fc ltac:(lia) Fv Fh) as [F B].
  rewrite Ev in B. split; [exact F | lia].
Qed.

Lemma add_zero (a : float) : Fin a -> Fin (a + 0) /\ V (a + 0) = V a.
Proof.
  intros Fa. destruct (rz_V a Fa) as [Fv Ev].
  assert (F0 : Fin 0) by reflexivity.
  destruct (add_between a 0 (V a) (V a) Fa F0) as [F B]; try assumption.
  - change (V 0) with 0%Z. lia.
  - rewrite Ev in B. split; [exact F | lia].
Qed.


End DegenerateGeometry.

(** C8. For every Projectile whose launch and target are the same finite
    point, on binary64 and for every engine that returns the values
    ECMAScript fixes at zero ([atan2(+0, +0) = +0], [cos(+0) = 1],
    [sin(+0) = +0]): the launch-to-target distance is 0, no Number the
    first [update] computes is NaN (the tick divides nowhere), that
    [update] returns true, and the sweep of that tick, once it has drawn
    the Projectile, removes it from the live collection. *)
Theorem coincident_target_is_reached_in_one_tick
    (M : MathLib float)
    (Hatan2 : Math_atan2 0%float 0%float = 0%float)
    (Hcos : Math_cos 0%float = 1%float)
    (Hsin : Math_sin 0%float = 0%float)
    (x0 y0 : float) (cx : option Context2D) (color : option Color) (random : float)
    (Hx : Binary64.Fin x0) (Hy : Binary64.Fin y0) :
  let p := FireworkParticle.initialize x0 y0 x0 y0 cx color random in
  FireworkParticle.distance p = 0%float /\
  Forall Binary64.NotNaN (FireworkParticle.arithmetic p) /\
  FireworkParticle.reached 1 p = true /\
  forall pg : Fireworks.Page float,
    FireworkParticle.draw p = Ok tt ->
    exists pg', Fireworks.sweepFireworks [p] pg = Ok ([], pg').
Proof.
  intros p.
  assert (Dx : PrimFloat.sub x0 x0 = 0%float) by (apply sub_diag; exact Hx).
  assert (Dy : PrimFloat.sub y0 y0 = 0%float) by (apply sub_diag; exact Hy).
  assert (Dist : FireworkParticle.distance p = 0%float).
  { subst p. cbn [FireworkParticle.initialize FireworkParticle.distance].
    unfold FireworkParticle.calculateDistance. cbn [num_sub num_mul num_add num_sqrt Number_float].
    rewrite Dx, Dy. reflexivity. }
  assert (Ang : FireworkParticle.angle p = 0%float).
  { subst p. cbn [FireworkParticle.initialize FireworkParticle.angle num_sub Number_float].
    rewrite Dx, Dy. exact Hatan2. }
  (* the values of the tick *)
  assert (F2 : Binary64.Fin c2_04) by reflexivity.
  destruct (add_small x0 c2_04 Hx F2 ltac:(vm_compute; discriminate)
              ltac:(vm_compute; reflexivity)) as [Fx' Lx'].
  destruct (add_zero y0 Hy) as [Fy' Ey'].
  pose proof (sub_NonNeg _ _ Fx' Hx Lx') as Ndx.
  pose proof (sub_NonNeg (PrimFloat.add y0 0%float) y0 Fy' Hy ltac:(lia)) as Ndy.
  pose proof (square_NonNeg _ (NonNeg_NotNaN _ Ndx)) as Nxx.
  pose proof (square_NonNeg _ (NonNeg_NotNaN _ Ndy)) as Nyy.
  pose proof (add_NonNeg _ _ Nxx Nyy) as Nsum.
  pose proof (sqrt_NonNeg _ Nsum) as Nsqrt.
  assert (Shape : FireworkParticle.arithmetic p =
    [c2_04; 1%float; c2_04; 0%float; 0%float;
     PrimFloat.add x0 c2_04; PrimFloat.add y0 0%float;
     PrimFloat.sub (PrimFloat.add x0 c2_04) x0;
     PrimFloat.sub (PrimFloat.add y0 0%float) y0;
     PrimFloat.mul (PrimFloat.sub (PrimFloat.add x0 c2_04) x0)
                   (PrimFloat.sub (PrimFloat.add x0 c2_04) x0);
     PrimFloat.mul (PrimFloat.sub (PrimFloat.add y0 0%float) y0)
                   (PrimFloat.sub (PrimFloat.add y0 0%float) y0);
     PrimFloat.add
       (PrimFloat.mul (PrimFloat.sub (PrimFloat.add x0 c2_04) x0)
                      (PrimFloat.sub (PrimFloat.add x0 c2_04) x0))
       (PrimFloat.mul (PrimFloat.sub (PrimFloat.add y0 0%float) y0)
                      (PrimFloat.sub (PrimFloat.add y0 0%float) y0));
     PrimFloat.sqrt
       (PrimFloat.add
          (PrimFloat.mul (PrimFloat.sub (PrimFloat.add x0 c2_04) x0)
                         (PrimFloat.sub (PrimFloat.add x0 c2_04) x0))
          (PrimFloat.mul (PrimFloat.sub (PrimFloat.add y0 0%float) y0)
                         (PrimFloat.sub (PrimFloat.add y0 0%float) y0)))]).
  { unfold FireworkParticle.arithmetic. rewrite Ang, Hcos, Hsin. reflexivity. }
  assert (Ret : snd (FireworkParticle.update p) = true).
  { unfold FireworkParticle.update. cbn [snd]. rewrite Ang, Hcos, Hsin, Dist.
    cbn [num_leb Number_float]. apply zero_leb_NonNeg. exact Nsqrt. }
  split; [exact Dist|]. split; [| split; [exact Ret |]].
  2:{ intros pg D. destruct (sweep_removes_finished p pg D Ret) as (pg' & E & _).
      exists pg'. exact E. }
  rewrite Shape.
  repeat (apply Forall_cons; [first
    [ apply NonNeg_NotNaN; assumption
    | apply Fin_NotNaN; assumption
    | apply Fin_NotNaN; reflexivity ] |]).
  apply Forall_nil.
Qed.

Lemma coincident_target_is_reached_in_one_tick_witness :
  Math_atan2 (MathLib := MathLib_engine) 0%float 0%float = 0%float /\
  Math_cos (MathLib := MathLib_engine) 0%float = 1%float /\
  Math_sin (MathLib := MathLib_engine) 0%float = 0%float /\
  Binary64.Fin 500%float /\ Binary64.Fin 830%float /\
  let p := FireworkParticle.initialize (M := MathLib_engine) 500%float 830%float
             500%float 830%float (Some TheContext) (Some (mkColor 0 100)) 0x1p-1%float in
  FireworkParticle.reached (M := MathLib_engine) 1 p = true /\
  exists pg', Fireworks.sweepFireworks (M := MathLib_engine) [p] pageWithCanvas = Ok ([], pg').
Proof.
  do 5 (split; [reflexivity|]).
  pose proof (coincident_target_is_reached_in_one_tick MathLib_engine eq_refl eq_refl eq_refl
                500%float 830%float (Some TheContext) (Some (mkColor 0 100)) 0x1p-1%float
                eq_refl eq_refl) as (_ & _ & R1 & Sw).
  intros p. split; [exact R1 | exact (Sw pageWithCanvas eq_refl)].
Defined.

(** ** spawnFirework on binary64 *)

Section LaunchRange.
Import Binary64.
Local Open Scope float_scope.

Lemma V_of_Z (n : Z) :
  (0 <= n < 2 ^ 53)%Z -> Fin (F64.of_Z n) /\ V (F64.of_Z n) = I n.
Proof.
  intros B. destruct n as [| p | p]; try lia.
  - split; reflexivity.
  - apply V_of_uint63. lia.
Qed.

Lemma int_fits (n : Z) : (- 2 ^ 53 < n < 2 ^ 53)%Z -> fits (I n) = true /\ rz (I n) = I n.
Proof. apply RE_int. Qed.

Lemma int_fits2 (n : Z) :
  (- 2 ^ 53 < n < 2 ^ 53)%Z -> fits2 (V 1 * I n) = true /\ rz2 (V 1 * I n) = I n.
Proof.
  intros B. unfold fits2, rz2.
  replace (V 1 * I n)%Z with (I n * 2 ^ 1074)%Z by (change (V 1) with (2 ^ 1074)%Z; lia).
  change (2 * emin)%Z with (emin - 1074)%Z. rewrite RE_shift by lia.
  apply RE_int. exact B.
Qed.

Lemma I_add (a b : Z) : (I a + I b = I (a + b))%Z.
Proof. unfold I. lia. Qed.

Lemma I_sub (a b : Z) : (I a - I b = I (a - b))%Z.
Proof. unfold I. lia. Qed.

Lemma I_le (a b : Z) : (a <= b)%Z -> (I a <= I b)%Z.
Proof. unfold I. intros H. apply Z.mul_le_mono_nonneg_r; [apply Z.pow_nonneg; lia | exact H]. Qed.


(** A draw below 1 is at most the double before 1. *)
Lemma below_one (r : float) :
  Fin r -> (V r < V 1)%Z -> (V r <= (2 ^ 53 - 1) * 2 ^ 1021)%Z.
Proof.
  unfold Fin, V. intros Fr H. pose proof (Prim2SF_valid r) as Vr.
  change (val (Prim2SF 1)) with (2 ^ 1074)%Z in H.
  destruct (Prim2SF r) as [s | s | | s m e]; try discriminate;
    try (cbn [val]; lia).
  destruct (valid_canonical _ _ _ Vr) as ((Mn & B & C) & E & _). cbn [fst snd] in *.
  destruct s; cbn [val cond_Zopp] in *.
  - pose proof (val_pos m e Mn). lia.
  - destruct (Z_le_gt_dec e (-53)) as [Small | Big].
    + assert (P : (0 < 2 ^ (e - emin) <= 2 ^ 1021)%Z).
      { split; [apply Z.pow_pos_nonneg; lia | apply Z.pow_le_mono_r; [lia|]].
        change emin with (-1074)%Z. lia. }
      nia.
    + exfalso. assert (Q : (2 ^ 52 <= Zpos m)%Z).
      { destruct C as [C | [C | C]]; [| exact C | lia].
        change emin with (-1074)%Z in C. lia. }
      assert (P : (2 ^ 1022 <= 2 ^ (e - emin))%Z).
      { apply Z.pow_le_mono_r; [lia|]. change emin with (-1074)%Z. lia. }
      change (2 ^ 1074)%Z with (2 ^ 52 * 2 ^ 1022)%Z in H. nia.
Qed.

Lemma floorZ_V (a : float) : Fin a -> F64.floorZ a = (V a / 2 ^ 1074)%Z.
Proof.
  unfold Fin, V, F64.floorZ. intros Fa. pose proof (Prim2SF_valid a) as Va.
  destruct (Prim2SF a) as [s | s | | s m e]; try discriminate; try reflexivity.
  pose proof (valid_emin _ _ _ Va) as Mn.
  rewrite shiftl_floor by exact Mn. cbn [val]. destruct s; cbn [cond_Zopp]; f_equal; lia.
Qed.


End LaunchRange.

Section Spawn.
Import Fireworks.
Local Open Scope float_scope.


End Spawn.




(** The target test is [x || ...]: a target coordinate 0 counts as absent
    and is replaced by a random one. *)
Lemma zero_target_is_replaced :
  match Fireworks.spawnFirework (M := MathLib_engine) (Some 0%float) (Some 300%float)
          (Some (mkColor 0 100)) pageWithCanvas with
  | Ok (_, pg') =>
      map (fun f => (FireworkParticle.targetX f, FireworkParticle.targetY f))
        (Fireworks.fireworks (Fireworks.self pg')) = [(500%float, 300%float)]
  | TypeError _ => False
  end.
Proof.
  vm_compute. reflexivity.
Qed.

(** ** Absolute rounding errors on binary64 *)

Ltac params := unfold Binary64.cexp, fexp, SpecFloat.emin, prec, emax in *.

Section Grids.
Import Binary64.
Local Open Scope Z_scope.

(** A multiple [j * 2^k] of a power of two, with [j] of at most 53 bits, is a
    double: rounding returns it. *)
Lemma RE_grid (k j : Z) :
  0 <= k <= 2045 -> - 2 ^ 53 < j < 2 ^ 53 ->
  finite (RE emin (j * 2 ^ k)) = true /\ val (RE emin (j * 2 ^ k)) = j * 2 ^ k.
Proof.
  intros Hk B. set (e := emin + k).
  replace emin with (e - k) at 1 2 by (subst e; lia). rewrite RE_shift by lia.
  assert (He : emin <= e <= emax - prec) by (subst e; params; lia).
  assert (K : forall p : positive, Zpos p < 2 ^ 53 ->
            rnd (Zpos p) e = (Zpos p * 2 ^ (e - cexp (Zpos p) e), cexp (Zpos p) e) /\
            emin <= cexp (Zpos p) e <= e).
  { intros p Hp. pose proof (Zdigits2_bounds (Zpos p) ltac:(lia)) as [BL BU].
    assert (D : Zdigits2 (Zpos p) <= 53).
    { destruct (Z_le_gt_dec (Zdigits2 (Zpos p)) 53) as [L | G]; [exact L|].
      assert (2 ^ 53 <= 2 ^ (Zdigits2 (Zpos p) - 1)) by (apply Z.pow_le_mono_r; lia). lia. }
    assert (C : emin <= cexp (Zpos p) e <= e) by (params; lia).
    split; [| exact C]. unfold rnd.
    destruct (Z.leb_spec (cexp (Zpos p) e) e); [reflexivity | lia]. }
  assert (Val : forall (s : bool) (p : positive), Zpos p < 2 ^ 53 ->
            finite (finish s (rnd (Zpos p) e)) = true /\
            val (finish s (rnd (Zpos p) e)) = cond_Zopp s (Zpos p * 2 ^ k)).
  { intros s p Hp. destruct (K p Hp) as [E C]. rewrite E. set (t := cexp (Zpos p) e) in *.
    assert (P : 0 < 2 ^ (e - t)) by (apply Z.pow_pos_nonneg; lia).
    unfold finish. destruct (Zpos p * 2 ^ (e - t)) as [| q | q] eqn:Q; try lia.
    destruct (Z.leb_spec t (emax - prec)) as [L | G]; [| lia].
    split; [reflexivity|]. cbn [val]. rewrite <- Q, <- Z.mul_assoc, <- Z.pow_add_r by lia.
    f_equal. f_equal. f_equal. subst e. lia. }
  destruct j as [| p | p].
  - split; reflexivity.
  - rewrite RE_pos. apply (Val false). lia.
  - rewrite RE_neg. destruct (Val true p ltac:(lia)) as [A C]. split; [exact A|].
    rewrite C. cbn [cond_Zopp]. lia.
Qed.

Lemma grid_fits (k j : Z) :
  0 <= k <= 2045 -> - 2 ^ 53 < j < 2 ^ 53 ->
  fits (j * 2 ^ k) = true /\ rz (j * 2 ^ k) = j * 2 ^ k.
Proof. apply RE_grid. Qed.

Lemma grid_fits2 (k j : Z) :
  0 <= k <= 2045 -> - 2 ^ 53 < j < 2 ^ 53 ->
  fits2 (j * 2 ^ k * 2 ^ 1074) = true /\ rz2 (j * 2 ^ k * 2 ^ 1074) = j * 2 ^ k.
Proof.
  intros Hk B. unfold fits2, rz2.
  change (2 * emin) with (emin - 1074). rewrite RE_shift by lia. apply RE_grid; assumption.
Qed.

(** Rounding is monotone. *)
Lemma rz_mono (W1 W2 : Z) :
  fits W1 = true -> fits W2 = true -> W1 <= W2 -> rz W1 <= rz W2.
Proof.
  intros F1 F2 L. unfold rz. apply SFle_val; auto using RE_valid.
  apply RE_mono; [reflexivity | exact L].
Qed.

Lemma rz2_mono (W1 W2 : Z) :
  fits2 W1 = true -> fits2 W2 = true -> W1 <= W2 -> rz2 W1 <= rz2 W2.
Proof.
  intros F1 F2 L. unfold rz2. apply SFle_val; auto using RE_valid.
  apply RE_mono; [params; lia | exact L].
Qed.

(** Rounding a value of magnitude below [2^53 * 2^k] moves it by less than
    [2^k]. *)
Lemma rz_near (k W : Z) :
  0 <= k <= 2045 -> Z.abs W <= (2 ^ 53 - 1) * 2 ^ k ->
  fits W = true /\ W - 2 ^ k < rz W < W + 2 ^ k.
Proof.
  intros Hk B. set (G := 2 ^ k) in *.
  assert (PG : 0 < G) by (apply Z.pow_pos_nonneg; lia).
  set (lo := W / G). set (hi := (W + G - 1) / G).
  assert (Llo : lo * G <= W < lo * G + G).
  { pose proof (Z.div_mod W G ltac:(lia)). pose proof (Z.mod_pos_bound W G PG). subst lo. nia. }
  assert (Lhi : W <= hi * G < W + G).
  { pose proof (Z.div_mod (W + G - 1) G ltac:(lia)).
    pose proof (Z.mod_pos_bound (W + G - 1) G PG). subst hi. nia. }
  assert (Blo : - 2 ^ 53 < lo < 2 ^ 53) by (split; nia).
  assert (Bhi : - 2 ^ 53 < hi < 2 ^ 53) by (split; nia).
  destruct (grid_fits k lo Hk Blo) as [Fl El]. destruct (grid_fits k hi Hk Bhi) as [Fh Eh].
  fold G in Fl, El, Fh, Eh.
  destruct (RE_between emin (lo * G) W (hi * G) ltac:(reflexivity) ltac:(lia) Fl Fh) as [F R].
  fold (rz (lo * G)) in R. fold (rz (hi * G)) in R. fold (rz W) in R. rewrite El, Eh in R.
  split; [exact F | lia].
Qed.

Lemma rz2_near (k W : Z) :
  0 <= k <= 2045 -> Z.abs W <= (2 ^ 53 - 1) * 2 ^ k * 2 ^ 1074 ->
  fits2 W = true /\ W - 2 ^ k * 2 ^ 1074 < rz2 W * 2 ^ 1074 < W + 2 ^ k * 2 ^ 1074.
Proof.
  intros Hk B. set (G := 2 ^ k) in *. set (U := 2 ^ 1074) in *.
  assert (PG : 0 < G) by (apply Z.pow_pos_nonneg; lia).
  assert (PU : 0 < U) by (apply Z.pow_pos_nonneg; lia).
  assert (PGU : 0 < G * U) by nia.
  set (lo := W / (G * U)). set (hi := (W + G * U - 1) / (G * U)).
  assert (Llo : lo * (G * U) <= W < lo * (G * U) + G * U).
  { pose proof (Z.div_mod W (G * U) ltac:(lia)). pose proof (Z.mod_pos_bound W (G * U) PGU).
    subst lo. nia. }
  assert (Lhi : W <= hi * (G * U) < W + G * U).
  { pose proof (Z.div_mod (W + G * U - 1) (G * U) ltac:(lia)).
    pose proof (Z.mod_pos_bound (W + G * U - 1) (G * U) PGU). subst hi. nia. }
  assert (Blo : - 2 ^ 53 < lo < 2 ^ 53) by (split; nia).
  assert (Bhi : - 2 ^ 53 < hi < 2 ^ 53) by (split; nia).
  destruct (grid_fits2 k lo Hk Blo) as [Fl El]. destruct (grid_fits2 k hi Hk Bhi) as [Fh Eh].
  fold G in Fl, El, Fh, Eh. fold U in Fl, El, Fh, Eh.
  destruct (RE_between (2 * emin) (lo * G * U) W (hi * G * U) ltac:(params; lia) ltac:(lia) Fl Fh)
    as [F R].
  fold (rz2 (lo * G * U)) in R. fold (rz2 (hi * G * U)) in R. fold (rz2 W) in R.
  rewrite El, Eh in R.
  split; [exact F | nia].
Qed.

(** Rounding keeps the sign. *)
Lemma rz_sign (W : Z) : fits W = true -> (0 <= W -> 0 <= rz W) /\ (W <= 0 -> rz W <= 0).
Proof.
  intros F. split; intros H.
  - change (rz 0 <= rz W). apply rz_mono; auto.
  - change (rz W <= rz 0). apply rz_mono; auto.
Qed.

Lemma rz2_sign (W : Z) : fits2 W = true -> (0 <= W -> 0 <= rz2 W) /\ (W <= 0 -> rz2 W <= 0).
Proof.
  intros F. split; intros H.
  - change (rz2 0 <= rz2 W). apply rz2_mono; auto.
  - change (rz2 W <= rz2 0). apply rz2_mono; auto.
Qed.

(** Rounding commutes with the change of sign. *)
Lemma finish_opp (c : Z * Z) :
  finite (finish true c) = finite (finish false c) /\
  val (finish true c) = - val (finish false c).
Proof.
  destruct c as [q t]. unfold finish. destruct q; try (split; reflexivity).
  destruct (t <=? emax - prec); split; reflexivity.
Qed.

Lemma RE_opp (e W : Z) :
  finite (RE e (- W)) = finite (RE e W) /\ val (RE e (- W)) = - val (RE e W).
Proof.
  destruct W as [| p | p]; [split; reflexivity | |].
  - change (- Zpos p) with (Zneg p). rewrite RE_neg, RE_pos. apply finish_opp.
  - change (- Zneg p) with (Zpos p). rewrite RE_neg, RE_pos.
    destruct (finish_opp (rnd (Zpos p) e)) as [A B]. split; [congruence | lia].
Qed.

Lemma rz_opp (W : Z) : fits (- W) = fits W /\ rz (- W) = - rz W.
Proof. apply RE_opp. Qed.

Lemma rz2_opp (W : Z) : fits2 (- W) = fits2 W /\ rz2 (- W) = - rz2 W.
Proof. apply RE_opp. Qed.

(** With a sign: [sg] is 1 or -1. *)
Lemma rz_signed (sg W : Z) :
  sg = 1 \/ sg = -1 -> fits (sg * W) = fits W /\ rz (sg * W) = sg * rz W.
Proof.
  intros [-> | ->].
  - rewrite !Z.mul_1_l. split; reflexivity.
  - replace (-1 * W) with (- W) by lia. replace (-1 * rz W) with (- rz W) by lia. apply rz_opp.
Qed.

Lemma rz2_signed (sg W : Z) :
  sg = 1 \/ sg = -1 -> fits2 (sg * W) = fits2 W /\ rz2 (sg * W) = sg * rz2 W.
Proof.
  intros [-> | ->].
  - rewrite !Z.mul_1_l. split; reflexivity.
  - replace (-1 * W) with (- W) by lia. replace (-1 * rz2 W) with (- rz2 W) by lia.
    apply rz2_opp.
Qed.

End Grids.

(** ** The square root on binary64 *)

Section SquareRoot.
Import Binary64.
Local Open Scope Z_scope.

(** The doubles from [2^52 * 2^j] on are multiples of [2^j]. *)
Lemma val_multiple (x : spec_float) (j : Z) :
  valid_binary x = true -> 0 <= j -> 2 ^ 52 * 2 ^ j <= val x ->
  exists i : Z, val x = i * 2 ^ j.
Proof.
  intros Vx Hj H. pose proof (Z.pow_pos_nonneg 2 j ltac:(lia) Hj) as Pj.
  destruct x as [s | s | | s m e]; cbn [val] in *; try lia.
  destruct (valid_canonical _ _ _ Vx) as ((Me & Bm & _) & _). cbn [fst snd] in *.
  pose proof (val_pos m e Me) as Pv.
  destruct s; cbn [cond_Zopp] in *; [lia|].
  destruct (Z_lt_le_dec (e - emin) j) as [L | G].
  - exfalso.
    assert (2 ^ (e - emin) * 2 <= 2 ^ j).
    { replace j with (Z.succ (j - 1)) by lia. rewrite Z.pow_succ_r by lia.
      assert (2 ^ (e - emin) <= 2 ^ (j - 1)) by (apply Z.pow_le_mono_r; lia). lia. }
    nia.
  - exists (Zpos m * 2 ^ (e - emin - j)).
    rewrite <- Z.mul_assoc, <- Z.pow_add_r by lia. do 2 f_equal. lia.
Qed.

(** Rounding a mantissa of 53 bits that carries a remainder below or above
    one half. *)
Lemma round_53 (q e : Z) (l : location) :
  2 ^ 52 <= q < 2 ^ 53 -> emin <= e < emax - prec -> l <> loc_Inexact Eq ->
  let Q := match l with loc_Inexact Gt => q + 1 | _ => q end in
  let r := binary_round_aux prec emax false q e l in
  valid_binary r = true /\ finite r = true /\ val r = Q * 2 ^ (e - emin).
Proof.
  intros Bq Be Hl Q r.
  assert (D : Zdigits2 q = 53) by (apply Zdigits2_unique; [exact Bq | lia]).
  assert (E1 : shr_fexp prec emax q e l = (shr_record_of_loc q l, e)).
  { unfold shr_fexp. rewrite D.
    replace (fexp prec emax (53 + e) - e) with 0 by (params; lia). reflexivity. }
  assert (E2 : round_nearest_even (shr_m (shr_record_of_loc q l))
                 (loc_of_shr_record (shr_record_of_loc q l)) = Q).
  { subst Q. destruct l as [| []]; try reflexivity. congruence. }
  assert (R : r = finish false (if Q =? 2 ^ 53 then (2 ^ 52, e + 1) else (Q, e))).
  { subst r. unfold binary_round_aux. rewrite E1, E2.
    assert (BQ : 2 ^ 52 <= Q <= 2 ^ 53) by (subst Q; destruct l as [| []]; lia).
    destruct (Z.eqb_spec Q (2 ^ 53)) as [Top | NTop].
    - rewrite Top. unfold shr_fexp.
      assert (F : fexp prec emax (Zdigits2 (2 ^ 53) + e) - e = 1)
        by (change (Zdigits2 (2 ^ 53)) with 54; params; lia).
      rewrite F. reflexivity.
    - rewrite no_shift by lia. cbn [shr_m finish].
      destruct Q; try lia; reflexivity. }
  assert (BQ : 2 ^ 52 <= Q <= 2 ^ 53) by (subst Q; destruct l as [| []]; lia).
  rewrite R. clear R r.
  destruct (Z.eqb_spec Q (2 ^ 53)) as [Top | NTop].
  - split; [apply finish_valid; unfold canonical; cbn [fst snd]; lia|].
    unfold finish. change (2 ^ 52) with (Zpos (2 ^ 52)).
    destruct (Z.leb_spec (e + 1) (emax - prec)); [| lia].
    split; [reflexivity|]. cbn [val cond_Zopp]. rewrite Top.
    replace (e + 1 - emin) with (Z.succ (e - emin)) by lia.
    rewrite Z.pow_succ_r by lia. lia.
  - split; [apply finish_valid; unfold canonical; cbn [fst snd]; lia|].
    unfold finish. destruct Q as [| p | p]; try lia.
    destruct (Z.leb_spec e (emax - prec)); [| lia].
    split; reflexivity.
Qed.

(** The square root of a positive double, in integers: with [N] the
    radicand in units of [2^(2 emin)], the root is one of the two
    neighbours [q * T] and [(q + 1) * T] of its exact value, and the upper
    one only if the radicand is no perfect square of the lower. *)
Lemma SFsqrt_finite (m : positive) (e : Z) :
  valid_binary (S754_finite false m e) = true ->
  exists q j : Z,
    0 <= j /\ 2 ^ 52 <= q < 2 ^ 53 /\
    valid_binary (SFsqrt prec emax (S754_finite false m e)) = true /\
    finite (SFsqrt prec emax (S754_finite false m e)) = true /\
    (q * 2 ^ j) * (q * 2 ^ j) <= Zpos m * 2 ^ (e - emin) * 2 ^ 1074
      < ((q + 1) * 2 ^ j) * ((q + 1) * 2 ^ j) /\
    (val (SFsqrt prec emax (S754_finite false m e)) = q * 2 ^ j \/
     (val (SFsqrt prec emax (S754_finite false m e)) = (q + 1) * 2 ^ j /\
      (q * 2 ^ j) * (q * 2 ^ j) < Zpos m * 2 ^ (e - emin) * 2 ^ 1074)).
Proof.
  intros Vx. destruct (valid_canonical _ _ _ Vx) as ((Me & Bm & _) & Ee & Ce).
  cbn [fst snd] in *.
  pose proof (Zdigits2_bounds (Zpos m) ltac:(lia)) as Bd.
  pose proof (Zdigits2_pos (Zpos m) ltac:(lia)) as Pd.
  cbn [SFsqrt]. unfold SFsqrt_core_binary.
  set (d := Zdigits2 (Zpos m)) in *.
  assert (Dd : d <= 53) by (params; lia).
  set (k := (d + e + 1) / 2).
  assert (Hk : 2 * k <= d + e + 1 <= 2 * k + 1).
  { subst k. pose proof (Z.div_mod (d + e + 1) 2 ltac:(lia)).
    pose proof (Z.mod_pos_bound (d + e + 1) 2 ltac:(lia)). lia. }
  assert (E' : Z.min (fexp prec emax (Z.div2 (d + e + 1))) (Z.div2 e) = k - 53).
  { rewrite !Z.div2_div. fold k.
    pose proof (Z.div_mod e 2 ltac:(lia)). pose proof (Z.mod_pos_bound e 2 ltac:(lia)).
    params. lia. }
  rewrite E'. set (e' := k - 53).
  assert (Be' : emin <= e' < emax - prec) by (subst e'; params; lia).
  set (s := e - 2 * e').
  assert (Hs : 52 <= s) by (subst s e'; lia).
  destruct s as [| ps | ps] eqn:Es; try lia. rewrite <- Es.
  rewrite Z.shiftl_mul_pow2 by lia.
  set (m' := Zpos m * 2 ^ s).
  assert (Ps : 0 < 2 ^ s) by (apply Z.pow_pos_nonneg; lia).
  assert (Bm' : 2 ^ 104 <= m' < 2 ^ 106).
  { assert (Ds : 105 <= d + s <= 106) by (subst e'; lia).
    assert (L : 2 ^ 104 <= 2 ^ (d - 1 + s)) by (apply Z.pow_le_mono_r; lia).
    assert (H : 2 ^ (d + s) <= 2 ^ 106) by (apply Z.pow_le_mono_r; lia).
    rewrite Z.pow_add_r in L, H by lia. subst m'. nia. }
  pose proof (Z.sqrtrem_spec m' ltac:(lia)) as SR.
  destruct (Z.sqrtrem m') as [q r]. destruct SR as [Em Br].
  assert (Bq : 2 ^ 52 <= q < 2 ^ 53).
  { change (2 ^ 104) with (2 ^ 52 * 2 ^ 52) in Bm'.
    change (2 ^ 106) with (2 ^ 53 * 2 ^ 53) in Bm'.
    split; nia. }
  set (l := if r =? 0 then loc_Exact else loc_Inexact (if r <=? q then Lt else Gt)).
  assert (Hl : l <> loc_Inexact Eq).
  { subst l. destruct (r =? 0); [discriminate|]. destruct (r <=? q); discriminate. }
  pose proof (round_53 q e' l Bq Be' Hl) as (Vr & Fr & Er).
  set (j := e' - emin) in *.
  assert (Hj : 0 <= j) by (subst j; lia).
  assert (Pj : 0 < 2 ^ j) by (apply Z.pow_pos_nonneg; lia).
  assert (EN : Zpos m * 2 ^ (e - emin) * 2 ^ 1074 = m' * (2 ^ j * 2 ^ j)).
  { subst m'. rewrite <- !Z.mul_assoc, <- !Z.pow_add_r by (subst j; lia).
    do 2 f_equal. subst j s e'. params. lia. }
  exists q, j. split; [exact Hj|]. split; [exact Bq|]. split; [exact Vr|].
  split; [exact Fr|]. rewrite EN, Er. split.
  - split; nia.
  - subst l. destruct (Z.eqb_spec r 0) as [R0 | RN].
    + left. reflexivity.
    + destruct (Z.leb_spec r q) as [Rl | Rg].
      * left. reflexivity.
      * right. split; [reflexivity | nia].
Qed.

Lemma representable_V (a : float) : Fin a -> representable (V a).
Proof. apply rz_V. Qed.

(** The square root of a non-negative finite double [a] is finite and not
    negative; every non-negative double whose square is at most [a] is at
    most the root, and every one whose square is at least [a] is at least
    the root. *)
Theorem sqrt_V (a : float) :
  Fin a -> 0 <= V a ->
  Fin (PrimFloat.sqrt a) /\ 0 <= V (PrimFloat.sqrt a) /\
  (forall w : Z, representable w -> 0 <= w -> w * w <= V a * 2 ^ 1074 -> w <= V (PrimFloat.sqrt a)) /\
  (forall w : Z, representable w -> 0 <= w -> V a * 2 ^ 1074 <= w * w -> V (PrimFloat.sqrt a) <= w).
Proof.
  unfold Fin, V. rewrite FloatAxioms.sqrt_spec. pose proof (Prim2SF_valid a) as Va.
  unfold SF64sqrt.
  destruct (Prim2SF a) as [s | s | | s m e]; try discriminate; intros _ Pa.
  - cbn [SFsqrt val finite]. split; [reflexivity|]. split; [lia|]. split.
    + intros w _ W0 H. nia.
    + intros w _ W0 _. exact W0.
  - pose proof Va as Va'. destruct (valid_canonical _ _ _ Va) as ((Me & _) & _).
    cbn [snd] in Me. pose proof (val_pos m e Me) as Pv.
    cbn [val] in Pa. destruct s; cbn [cond_Zopp] in Pa; [lia|].
    destruct (SFsqrt_finite m e Va') as (q & j & Hj & Bq & Vr & Fr & BN & Er).
    set (r := SFsqrt prec emax (S754_finite false m e)) in *.
    cbn [val cond_Zopp]. set (N := Zpos m * 2 ^ (e - emin) * 2 ^ 1074) in *.
    assert (Pj : 0 < 2 ^ j) by (apply Z.pow_pos_nonneg; lia).
    split; [exact Fr|]. split; [destruct Er as [-> | [-> _]]; nia|].
    assert (Gap : forall w : Z, representable w -> 2 ^ 52 * 2 ^ j <= w ->
                  exists i : Z, w = i * 2 ^ j).
    { intros w [FZ EZ] B. unfold rz in EZ. rewrite <- EZ in B |- *.
      apply val_multiple; [apply RE_valid | exact Hj | exact B]. }
    split.
    + intros w DZ W0 H.
      assert (w <= q * 2 ^ j); [| destruct Er as [-> | [-> _]]; nia].
      destruct (Z_lt_le_dec w (2 ^ 52 * 2 ^ j)) as [Small | Big]; [nia|].
      destruct (Gap w DZ Big) as [i ->].
      assert (i < q + 1) by nia. nia.
    + intros w DZ W0 H. destruct Er as [-> | [-> Strict]]; [nia|].
      assert (Big : 2 ^ 52 * 2 ^ j <= w) by nia.
      destruct (Gap w DZ Big) as [i ->].
      assert (q < i) by nia. nia.
Qed.

End SquareRoot.

(** ** Operations on finite doubles, in integers *)

Section Operations.
Import Binary64.
Local Open Scope Z_scope.

Lemma add_V (a b : float) :
  Fin a -> Fin b -> fits (V a + V b) = true ->
  Fin (a + b) /\ V (a + b) = rz (V a + V b).
Proof.
  intros Fa Fb Ff. pose proof (add_same a b Fa Fb) as S.
  unfold Fin, V. rewrite (same_finite _ _ S), (same_val _ _ S). split; [exact Ff | reflexivity].
Qed.

Lemma sub_V (a b : float) :
  Fin a -> Fin b -> fits (V a - V b) = true ->
  Fin (a - b) /\ V (a - b) = rz (V a - V b).
Proof.
  intros Fa Fb Ff. pose proof (sub_same a b Fa Fb) as S.
  unfold Fin, V. rewrite (same_finite _ _ S), (same_val _ _ S). split; [exact Ff | reflexivity].
Qed.

Lemma mul_V (a b : float) :
  Fin a -> Fin b -> fits2 (V a * V b) = true ->
  Fin (a * b) /\ V (a * b) = rz2 (V a * V b).
Proof.
  intros Fa Fb Ff. pose proof (mul_same a b Fa Fb) as S.
  unfold Fin, V. rewrite (same_finite _ _ S), (same_val _ _ S). split; [exact Ff | reflexivity].
Qed.

(** Strict comparison of finite doubles is that of their values. *)
Lemma ltb_iff (a b : float) :
  Fin a -> Fin b -> (PrimFloat.ltb a b = true <-> V a < V b).
Proof.
  intros Fa Fb. split; [apply ltb_V; assumption|].
  intros L. rewrite FloatAxioms.ltb_spec.
  assert (N : SFleb (Prim2SF b) (Prim2SF a) = false).
  { destruct (SFleb (Prim2SF b) (Prim2SF a)) eqn:E; [exfalso | reflexivity].
    rewrite <- FloatAxioms.leb_spec in E. apply (leb_V b a Fb Fa) in E. lia. }
  unfold Fin in Fa, Fb. unfold SFltb. unfold SFleb in N.
  destruct (Prim2SF a) as [sa | sa | | sa ma ea], (Prim2SF b) as [sb | sb | | sb mb eb];
    try discriminate; cbn in N |- *;
    repeat match goal with s : bool |- _ => destruct s end; try discriminate; try reflexivity.
  - destruct (Z.compare_spec eb ea), (Z.compare_spec ea eb); try discriminate; try lia;
      try reflexivity.
    subst. change (Pos.compare_cont Eq mb ma) with (Pos.compare mb ma) in N.
    change (Pos.compare_cont Eq ma mb) with (Pos.compare ma mb).
    rewrite (Pos.compare_antisym mb ma). destruct (Pos.compare mb ma); try discriminate; reflexivity.
  - destruct (Z.compare_spec eb ea), (Z.compare_spec ea eb); try discriminate; try lia;
      try reflexivity.
    subst. change (Pos.compare_cont Eq mb ma) with (Pos.compare mb ma) in N.
    change (Pos.compare_cont Eq ma mb) with (Pos.compare ma mb).
    rewrite (Pos.compare_antisym mb ma). destruct (Pos.compare mb ma); try discriminate; reflexivity.
Qed.

(** [a <= b] fails on finite doubles when [b < a]. *)
Lemma leb_false_V (a b : float) :
  Fin a -> Fin b -> PrimFloat.leb a b = false -> V b < V a.
Proof.
  intros Fa Fb H. destruct (Z_lt_le_dec (V b) (V a)) as [L | G]; [exact L | exfalso].
  apply (leb_V a b Fa Fb) in G. congruence.
Qed.

(** Finite doubles of the same value, not zero, are the same double. *)
Lemma V_inj (a b : float) : Fin a -> Fin b -> V a = V b -> V a <> 0 -> a = b.
Proof.
  unfold Fin, V. intros Fa Fb E NZ. apply Prim2SF_inj.
  pose proof (Prim2SF_valid a) as Va. pose proof (Prim2SF_valid b) as Vb.
  destruct (Prim2SF a) as [sa | sa | | sa ma ea]; try discriminate; [cbn in NZ; lia|].
  destruct (Prim2SF b) as [sb | sb | | sb mb eb]; try discriminate; [cbn in E, NZ; lia|].
  rewrite <- (RE_representable _ _ _ Va), <- (RE_representable _ _ _ Vb), E. reflexivity.
Qed.

Lemma representable_signed (sg w : Z) :
  sg = 1 \/ sg = -1 -> representable w -> representable (sg * w).
Proof.
  intros Hs [F E]. destruct (rz_signed sg w Hs) as [F' E']. split; congruence.
Qed.

(** Between two bounds that are doubles. *)
Lemma leb_bounds (lo a hi : float) :
  Fin lo -> Fin hi -> PrimFloat.leb lo a = true -> PrimFloat.leb a hi = true ->
  Fin a /\ V lo <= V a <= V hi.
Proof.
  intros Fl Fh L H. assert (Fa : Fin a) by exact (Fin_between lo a hi Fl Fh L H).
  split; [exact Fa|]. split; apply leb_V; assumption.
Qed.

End Operations.

(** ** One axis of a Projectile, in integers *)

Lemma U1_pos : (0 < U1)%Z.
Proof. reflexivity. Qed.

Lemma fine_pos : (0 < fine)%Z.
Proof. reflexivity. Qed.

Lemma coarse_pos : (0 < coarse)%Z.
Proof. reflexivity. Qed.

Lemma fine_U1 : U1 = (fine * 1073741824)%Z.
Proof. reflexivity. Qed.

Lemma coarse_U1 : U1 = (coarse * 128)%Z.
Proof. reflexivity. Qed.

(** The facts about the spacings, for [lia]. *)
Ltac units :=
  pose proof U1_pos; pose proof fine_pos; pose proof coarse_pos;
  pose proof fine_U1; pose proof coarse_U1.

Section Track.
Import Binary64.
Local Open Scope Z_scope.

Lemma near_fine (W : Z) :
  Z.abs W <= 8388608 * U1 - fine -> fits W = true /\ W - fine < rz W < W + fine.
Proof.
  intros B. apply (rz_near 1044); [lia|]. change (2 ^ 1044) with fine.
  change (2 ^ 53 - 1) with 9007199254740991. units. lia.
Qed.

Lemma near_coarse (W : Z) :
  Z.abs W <= 70368744177664 * U1 - coarse ->
  fits W = true /\ W - coarse < rz W < W + coarse.
Proof.
  intros B. apply (rz_near 1067); [lia|]. change (2 ^ 1067) with coarse.
  change (2 ^ 53 - 1) with 9007199254740991. units. lia.
Qed.

Lemma near2_fine (W : Z) :
  Z.abs W <= (8388608 * U1 - fine) * U1 ->
  fits2 W = true /\ W - fine * U1 < rz2 W * U1 < W + fine * U1.
Proof.
  intros B. apply (rz2_near 1044); [lia|]. change (2 ^ 1044) with fine.
  change (2 ^ 1074) with U1. change (2 ^ 53 - 1) with 9007199254740991. units. nia.
Qed.

Lemma near2_coarse (W : Z) :
  Z.abs W <= (70368744177664 * U1 - coarse) * U1 ->
  fits2 W = true /\ W - coarse * U1 < rz2 W * U1 < W + coarse * U1.
Proof.
  intros B. apply (rz2_near 1067); [lia|]. change (2 ^ 1067) with coarse.
  change (2 ^ 1074) with U1. change (2 ^ 53 - 1) with 9007199254740991. units. nia.
Qed.

(** An integer number of ones is a double. *)
Lemma ones_representable (n : Z) :
  - 2 ^ 53 < n < 2 ^ 53 -> representable (n * U1) /\ fits2 (n * U1 * U1) = true /\
  rz2 (n * U1 * U1) = n * U1.
Proof.
  intros B. split; [apply (grid_fits 1074 n); [lia | exact B]|].
  apply (grid_fits2 1074 n); [lia | exact B].
Qed.

(** The literal 1.02 lies between 65/64 and 33/32. *)
Lemma c1_02_bounds : 65 * U1 <= 64 * V c1_02 /\ 32 * V c1_02 <= 33 * U1.
Proof. split; apply Z.leb_le; vm_compute; reflexivity. Qed.

(** The speed of the next tick. *)
Lemma speed_step (SP : Z) :
  2 * U1 <= SP <= 2097152 * U1 ->
  fits2 (SP * V c1_02) = true /\
  SP + 4 * fine <= rz2 (SP * V c1_02) /\
  32 * rz2 (SP * V c1_02) <= 33 * SP + 32 * fine.
Proof.
  intros B. destruct c1_02_bounds as [AL AH]. set (A := V c1_02) in *. units.
  assert (P1 : 0 <= SP * (64 * A - 65 * U1)) by nia.
  assert (P2 : 0 <= SP * (33 * U1 - 32 * A)) by nia.
  destruct (near2_fine (SP * A)) as [F N]; [nia|].
  split; [exact F|]. set (R := rz2 (SP * A)) in *. split; nia.
Qed.

(** One move along an axis: position [X], signed so that the coefficient
    [K] of the speed is not negative. *)
Lemma axis_move (K SP X X0 : Z) :
  0 <= K <= U1 -> 2 * U1 <= SP <= 4194304 * U1 -> representable X ->
  Z.abs X0 <= 65536 * U1 -> 0 <= X - X0 <= 2097152 * U1 ->
  fits2 (K * SP) = true /\ fits (X + rz2 (K * SP)) = true /\
  X <= rz (X + rz2 (K * SP)) /\
  rz (X + rz2 (K * SP)) < X + SP + 2 * fine /\
  (U1 <= 2 * K -> 2 * X + SP < 2 * rz (X + rz2 (K * SP)) + 4 * fine).
Proof.
  intros BK BS [FX EX] B0 BX. units.
  destruct (near2_fine (K * SP)) as [F N]; [nia|].
  pose proof (proj1 (rz2_sign (K * SP) F) ltac:(nia)) as P.
  set (VX := rz2 (K * SP)) in *.
  assert (VXu : VX < SP + fine) by nia.
  destruct (near_fine (X + VX)) as [F' N']; [lia|].
  pose proof (rz_mono X (X + VX) FX F' ltac:(lia)) as Mo. rewrite EX in Mo.
  split; [exact F|]. split; [exact F'|]. split; [exact Mo|]. split; [lia|].
  intros Dom. assert (2 * VX + 2 * fine > SP) by nia. lia.
Qed.

(** The distance [A] along an axis as the code holds it, and its square. *)
Lemma axis_distance (A : Z) :
  0 <= A <= 4194304 * U1 ->
  fits A = true /\ 0 <= rz A /\ A - fine < rz A < A + fine /\
  fits2 (rz A * rz A) = true /\
  0 <= rz2 (rz A * rz A) <= 17592186044416 * U1 + 3 * coarse /\
  rz A * rz A - coarse * U1 < rz2 (rz A * rz A) * U1 < rz A * rz A + coarse * U1.
Proof.
  intros BX. units.
  destruct (near_fine A) as [F N]; [lia|].
  pose proof (proj1 (rz_sign A F) ltac:(lia)) as P.
  set (D := rz A) in *.
  assert (DD : D * D <= 17592186044416 * U1 * U1 + coarse * U1 + fine * fine) by nia.
  destruct (near2_coarse (D * D)) as [F2 N2]; [nia|].
  pose proof (proj1 (rz2_sign (D * D) F2) ltac:(nia)) as P2.
  set (Q := rz2 (D * D)) in *.
  split; [exact F|]. split; [exact P|]. split; [exact N|]. split; [exact F2|].
  split; [| exact N2]. split; [exact P2 | nia].
Qed.

(** Farther from the start, the distance and its square are not smaller. *)
Lemma axis_distance_mono (A A' : Z) :
  0 <= A -> A <= A' -> A' <= 4194304 * U1 ->
  rz A <= rz A' /\ rz2 (rz A * rz A) <= rz2 (rz A' * rz A').
Proof.
  intros B0 L B1.
  destruct (axis_distance A ltac:(lia)) as (F & P & _ & F2 & _).
  destruct (axis_distance A' ltac:(lia)) as (F' & P' & _ & F2' & _).
  pose proof (rz_mono A A' F F' ltac:(lia)) as Mo.
  split; [exact Mo|]. apply rz2_mono; [exact F2 | exact F2' | nia].
Qed.

(** One whole unit farther, the square grows by more than a half. *)
Lemma axis_distance_grows (A A' : Z) :
  0 <= A -> A + U1 <= A' -> A' <= 4194304 * U1 ->
  2 * rz2 (rz A * rz A) + U1 <= 2 * rz2 (rz A' * rz A').
Proof.
  intros B0 L B1. units.
  destruct (axis_distance A ltac:(lia)) as (_ & P & N & _ & _ & N2).
  destruct (axis_distance A' ltac:(lia)) as (_ & P' & N' & _ & _ & N2').
  set (D := rz A) in *. set (D' := rz A') in *.
  set (Q := rz2 (D * D)) in *. set (Q' := rz2 (D' * D')) in *.
  set (c := U1 - 2 * fine).
  assert (C0 : 0 <= c) by (subst c; lia).
  assert (DL : D + c <= D') by (subst c; lia).
  assert (SQ : D * D + c * c <= D' * D').
  { assert (0 <= (D' - (D + c)) * (D' + (D + c))) by (apply Z.mul_nonneg_nonneg; lia).
    assert (0 <= D * c) by (apply Z.mul_nonneg_nonneg; lia). lia. }
  assert (CC : U1 * (U1 - 4 * fine) <= c * c).
  { replace (c * c) with (U1 * (U1 - 4 * fine) + 4 * (fine * fine)) by (subst c; ring).
    assert (0 <= fine * fine) by (apply Z.mul_nonneg_nonneg; lia). lia. }
  assert (K : U1 * (U1 - 4 * fine - 2 * coarse) < (Q' - Q) * U1).
  { replace (U1 * (U1 - 4 * fine - 2 * coarse))
      with (U1 * (U1 - 4 * fine) - 2 * (coarse * U1)) by ring.
    replace ((Q' - Q) * U1) with (Q' * U1 - Q * U1) by ring. lia. }
  assert (U1 - 4 * fine - 2 * coarse < Q' - Q).
  { apply Z.mul_lt_mono_pos_l with (p := U1); lia. }
  lia.
Qed.

(** The sum of the two squares. *)
Lemma sum_of_squares (P Q : Z) :
  0 <= P <= 17592186044416 * U1 + 3 * coarse ->
  0 <= Q <= 17592186044416 * U1 + 3 * coarse ->
  fits (P + Q) = true /\ 0 <= rz (P + Q) /\ P + Q - coarse < rz (P + Q) < P + Q + coarse.
Proof.
  intros BP BQ. units.
  destruct (near_coarse (P + Q)) as [F N]; [lia|].
  pose proof (proj1 (rz_sign (P + Q) F) ltac:(lia)) as S0.
  split; [exact F|]. split; [exact S0 | exact N].
Qed.

End Track.

(** ** Square roots that differ *)

Section Roots.
Import Binary64.
Local Open Scope Z_scope.

(** The root of at least [n^2] is at least [n], and the root of at most
    [n^2] at most [n]. *)
Lemma sqrt_at_least (a : float) (n : Z) :
  Fin a -> 0 <= n < 2 ^ 53 -> n * n * U1 <= V a -> n * U1 <= V (PrimFloat.sqrt a).
Proof.
  intros Fa Bn H. units.
  assert (Pa : 0 <= V a) by nia.
  destruct (sqrt_V a Fa Pa) as (_ & _ & Lo & _).
  apply Lo; [apply ones_representable; lia | lia |].
  change (2 ^ 1074) with U1. nia.
Qed.

Lemma sqrt_at_most (a : float) (n : Z) :
  Fin a -> 0 <= n < 2 ^ 53 -> 0 <= V a <= n * n * U1 ->
  Fin (PrimFloat.sqrt a) /\ 0 <= V (PrimFloat.sqrt a) <= n * U1.
Proof.
  intros Fa Bn H. units.
  destruct (sqrt_V a Fa ltac:(lia)) as (Fr & Pr & _ & Up).
  split; [exact Fr|]. split; [exact Pr|].
  apply Up; [apply ones_representable; lia | lia |].
  change (2 ^ 1074) with U1. nia.
Qed.

(** A radicand larger by an eighth, below [2^38], has a larger root. *)
Lemma sqrt_grows (a b : float) :
  Fin a -> Fin b -> 0 <= V a -> 8 * V a + U1 <= 8 * V b -> V a < 274877906944 * U1 ->
  V (PrimFloat.sqrt a) < V (PrimFloat.sqrt b).
Proof.
  intros Fa Fb Pa Gr Ba. units.
  destruct (sqrt_V a Fa Pa) as (_ & _ & _ & Up).
  destruct (sqrt_V b Fb ltac:(lia)) as (_ & _ & Lo & _).
  change (2 ^ 1074) with U1 in Up, Lo.
  set (n := V a * U1) in *.
  set (t := n / (fine * fine)).
  assert (PF : 0 < fine * fine) by nia.
  assert (Pn : 0 <= n) by (subst n; nia).
  assert (Tn : t * (fine * fine) <= n < t * (fine * fine) + fine * fine).
  { pose proof (Z.div_mod n (fine * fine) ltac:(lia)).
    pose proof (Z.mod_pos_bound n (fine * fine) PF). subst t. nia. }
  assert (T0 : 0 <= t) by (subst t; apply Z.div_pos; lia).
  pose proof (Z.sqrt_spec t T0) as Sr. pose proof (Z.sqrt_nonneg t) as R0.
  set (r := Z.sqrt t) in *. cbv zeta in Sr.
  assert (Bt : t < 2 ^ 98).
  { assert (UU : U1 * U1 = fine * fine * 2 ^ 60).
    { rewrite fine_U1. change (2 ^ 60) with (1073741824 * 1073741824). ring. }
    assert (n < 274877906944 * (fine * fine * 2 ^ 60)) by (rewrite <- UU; subst n; nia).
    change (2 ^ 98) with (274877906944 * 2 ^ 60).
    destruct (Z_lt_le_dec t (274877906944 * 2 ^ 60)) as [L | G]; [exact L | exfalso].
    assert (274877906944 * 2 ^ 60 * (fine * fine) <= t * (fine * fine))
      by (apply Z.mul_le_mono_nonneg_r; lia).
    lia. }
  assert (Br : r < 2 ^ 49).
  { destruct (Z_lt_le_dec r (2 ^ 49)) as [L | G]; [exact L | exfalso].
    assert (2 ^ 49 * 2 ^ 49 <= r * r) by (apply Z.mul_le_mono_nonneg; lia).
    change (2 ^ 49 * 2 ^ 49) with (2 ^ 98) in *. lia. }
  destruct (grid_fits 1044 (r + 1) ltac:(lia) ltac:(lia)) as [F1 E1].
  destruct (grid_fits 1044 (r + 2) ltac:(lia) ltac:(lia)) as [F2 E2].
  change (2 ^ 1044) with fine in *.
  assert (W1 : n <= (r + 1) * fine * ((r + 1) * fine)).
  { replace ((r + 1) * fine * ((r + 1) * fine)) with ((r + 1) * (r + 1) * (fine * fine)) by ring.
    assert ((t + 1) * (fine * fine) <= (r + 1) * (r + 1) * (fine * fine))
      by (apply Z.mul_le_mono_nonneg_r; lia).
    lia. }
  assert (W2 : (r + 2) * fine * ((r + 2) * fine) <= V b * U1).
  { replace ((r + 2) * fine * ((r + 2) * fine))
      with (r * r * (fine * fine) + (4 * r + 4) * (fine * fine)) by ring.
    assert (r * r * (fine * fine) <= t * (fine * fine))
      by (apply Z.mul_le_mono_nonneg_r; lia).
    assert ((4 * r + 4) * (fine * fine) <= 2 ^ 52 * (fine * fine))
      by (apply Z.mul_le_mono_nonneg_r; lia).
    assert (UU : U1 * U1 = 2 ^ 60 * (fine * fine)).
    { rewrite fine_U1. change (2 ^ 60) with (1073741824 * 1073741824). ring. }
    assert (8 * n + U1 * U1 <= 8 * (V b * U1)).
    { subst n. replace (8 * (V a * U1) + U1 * U1) with ((8 * V a + U1) * U1) by ring.
      replace (8 * (V b * U1)) with (8 * V b * U1) by ring.
      apply Z.mul_le_mono_nonneg_r; lia. }
    change (2 ^ 60) with (256 * 2 ^ 52) in UU. lia. }
  pose proof (Up ((r + 1) * fine) (conj F1 E1) ltac:(nia) W1) as A1.
  pose proof (Lo ((r + 2) * fine) (conj F2 E2) ltac:(nia) W2) as A2.
  nia.
Qed.

End Roots.

(** ** One axis of a Projectile, on doubles *)

Section Axis.
Import Binary64.
Local Open Scope Z_scope.

Lemma onStage_V (v : float) : onStage v -> Fin v /\ Z.abs (V v) <= 65536 * U1.
Proof.
  intros [L H].
  destruct (leb_bounds (-65536)%float v 65536%float ltac:(reflexivity) ltac:(reflexivity) L H)
    as [F B].
  split; [exact F|].
  change (V (-65536)%float) with (- (65536 * U1)) in B.
  change (V 65536%float) with (65536 * U1) in B. lia.
Qed.

Lemma steady_heading (c s : float) : steady c s -> exists sx sy : Z, heading c s sx sy.
Proof.
  intros ([Lc Hc] & [Ls Hs] & Dom). units.
  destruct (leb_bounds (-1)%float c 1%float ltac:(reflexivity) ltac:(reflexivity) Lc Hc)
    as [Fc Bc].
  destruct (leb_bounds (-1)%float s 1%float ltac:(reflexivity) ltac:(reflexivity) Ls Hs)
    as [Fs Bs].
  change (V (-1)%float) with (- U1) in Bc, Bs. change (V 1%float) with U1 in Bc, Bs.
  assert (Fh : Fin 0x1p-1%float) by reflexivity.
  assert (Fm : Fin (-0x1p-1)%float) by reflexivity.
  assert (Vh : 2 * V 0x1p-1%float = U1) by reflexivity.
  assert (Vm : 2 * V (-0x1p-1)%float = - U1) by reflexivity.
  exists (if 0 <=? V c then 1 else -1), (if 0 <=? V s then 1 else -1).
  unfold heading.
  split; [split; [destruct (0 <=? V c) | destruct (0 <=? V s)]; auto|].
  split; [exact Fc|]. split; [exact Fs|].
  split; [destruct (Z.leb_spec 0 (V c)); lia|].
  split; [destruct (Z.leb_spec 0 (V s)); lia|].
  apply orb_true_iff in Dom as [Dom | Dom];
    [apply orb_true_iff in Dom as [Dom | Dom]; [apply orb_true_iff in Dom as [Dom | Dom]|]|].
  - apply (leb_V _ _ Fh Fc) in Dom. left. destruct (Z.leb_spec 0 (V c)); lia.
  - apply (leb_V _ _ Fc Fm) in Dom. left. destruct (Z.leb_spec 0 (V c)); lia.
  - apply (leb_V _ _ Fh Fs) in Dom. right. destruct (Z.leb_spec 0 (V s)); lia.
  - apply (leb_V _ _ Fs Fm) in Dom. right. destruct (Z.leb_spec 0 (V s)); lia.
Qed.

(** The speed of the next tick. *)
Lemma speed_tick (sp : float) :
  Fin sp -> 2 * U1 <= V sp <= 2097152 * U1 ->
  Fin (sp * c1_02) /\
  V sp + 4 * fine <= V (sp * c1_02) /\ 32 * V (sp * c1_02) <= 33 * V sp + 32 * fine.
Proof.
  intros Fs B. destruct (speed_step (V sp) B) as (F & L & H).
  destruct (mul_V sp c1_02 Fs ltac:(reflexivity) F) as [Fm Em].
  rewrite Em. split; [exact Fm|]. split; [exact L | exact H].
Qed.

(** One move along an axis. *)
Lemma axis_tick (sg : Z) (k sp x0 x : float) :
  sg = 1 \/ sg = -1 -> Fin k -> Fin sp -> Fin x0 -> Fin x ->
  0 <= sg * V k <= U1 -> 2 * U1 <= V sp <= 4194304 * U1 ->
  Z.abs (V x0) <= 65536 * U1 -> 0 <= covered sg x0 x <= 2097152 * U1 ->
  Fin (x + k * sp) /\
  covered sg x0 x <= covered sg x0 (x + k * sp) /\
  covered sg x0 (x + k * sp) < covered sg x0 x + V sp + 2 * fine /\
  (U1 <= 2 * (sg * V k) -> 2 * covered sg x0 x + V sp < 2 * covered sg x0 (x + k * sp) + 4 * fine).
Proof.
  intros Hs Fk Fsp F0 Fx Bk Bs B0 Bc. unfold covered in *.
  assert (RX : representable (sg * V x))
    by (apply representable_signed; [exact Hs | apply representable_V; exact Fx]).
  destruct (axis_move (sg * V k) (V sp) (sg * V x) (sg * V x0) Bk Bs RX
              ltac:(destruct Hs; subst sg; lia) ltac:(lia)) as (F2 & F1 & Mo & Up & Lo).
  destruct (rz2_signed sg (V k * V sp) Hs) as [Sf2 Se2].
  replace (sg * V k * V sp) with (sg * (V k * V sp)) in * by ring.
  rewrite Sf2 in F2. rewrite Se2 in F1, Mo, Up, Lo.
  destruct (mul_V k sp Fk Fsp F2) as [Fv Ev]. rewrite <- Ev in F1, Mo, Up, Lo.
  destruct (rz_signed sg (V x + V (k * sp)) Hs) as [Sf1 Se1].
  replace (sg * V x + sg * V (k * sp)) with (sg * (V x + V (k * sp))) in * by ring.
  rewrite Sf1 in F1. rewrite Se1 in Mo, Up, Lo.
  destruct (add_V x (k * sp) Fx Fv F1) as [Fa Ea]. rewrite <- Ea in Mo, Up, Lo.
  split; [exact Fa|]. split; [lia|]. split; [lia|]. intros Dom. specialize (Lo Dom). lia.
Qed.

(** The square of the distance along an axis. *)
Lemma axis_square (sg : Z) (x0 x : float) :
  sg = 1 \/ sg = -1 -> Fin x0 -> Fin x -> 0 <= covered sg x0 x <= 4194304 * U1 ->
  Fin ((x - x0) * (x - x0)) /\
  V ((x - x0) * (x - x0)) = rz2 (rz (covered sg x0 x) * rz (covered sg x0 x)).
Proof.
  intros Hs F0 Fx Bc. unfold covered in *.
  destruct (axis_distance _ Bc) as (F & _ & _ & F2 & _).
  destruct (rz_signed sg (V x - V x0) Hs) as [Sf Se]. rewrite Sf in F. rewrite Se in *.
  destruct (sub_V x x0 Fx F0 F) as [Fd Ed]. rewrite <- Ed in *.
  assert (Sq : sg * V (x - x0) * (sg * V (x - x0)) = V (x - x0) * V (x - x0))
    by (destruct Hs; subst sg; ring).
  rewrite Sq in *.
  destruct (mul_V (x - x0) (x - x0) Fd Fd F2) as [Fm Em].
  split; [exact Fm | exact Em].
Qed.

End Axis.

(** ** A Projectile in flight, on doubles *)

Section Flight.
Context {M : MathLib float}.
Import Binary64 FireworkParticle.
Local Open Scope Z_scope.

Variables (x0 y0 c s dist : float) (sx sy : Z).
Hypothesis Hhead : heading c s sx sy.
Hypothesis Hx0 : onStage x0.
Hypothesis Hy0 : onStage y0.

(** The radicand of the distance from the launch point. *)
Lemma radicand (x y : float) :
  Fin x -> Fin y ->
  0 <= covered sx x0 x <= 4194304 * U1 -> 0 <= covered sy y0 y <= 4194304 * U1 ->
  Fin ((x - x0) * (x - x0) + (y - y0) * (y - y0)) /\
  V ((x - x0) * (x - x0) + (y - y0) * (y - y0))
    = rz (rz2 (rz (covered sx x0 x) * rz (covered sx x0 x)) + rz2 (rz (covered sy y0 y) * rz (covered sy y0 y))) /\
  0 <= V ((x - x0) * (x - x0) + (y - y0) * (y - y0)).
Proof.
  intros Fx Fy Bx By. destruct Hhead as ((Hsx & Hsy) & _).
  destruct (onStage_V x0 Hx0) as [Fx0 _]. destruct (onStage_V y0 Hy0) as [Fy0 _].
  destruct (axis_square sx x0 x Hsx Fx0 Fx Bx) as [FP EP].
  destruct (axis_square sy y0 y Hsy Fy0 Fy By) as [FQ EQ].
  destruct (axis_distance _ Bx) as (_ & _ & _ & _ & BP & _).
  destruct (axis_distance _ By) as (_ & _ & _ & _ & BQ & _).
  destruct (sum_of_squares _ _ BP BQ) as (F & P & _).
  rewrite <- EP, <- EQ in F, P.
  destruct (add_V _ _ FP FQ F) as [Fa Ea].
  split; [exact Fa|]. rewrite Ea. split; [rewrite EP, EQ; reflexivity | exact P].
Qed.

(** A distance below [2^18] bounds what is covered along each axis, and
    the radicand. *)
Lemma close_by (x y : float) :
  Fin x -> Fin y ->
  0 <= covered sx x0 x <= 4194304 * U1 -> 0 <= covered sy y0 y <= 4194304 * U1 ->
  V (distanceFrom x0 y0 x y) < 262144 * U1 ->
  covered sx x0 x < 262144 * U1 + fine /\ covered sy y0 y < 262144 * U1 + fine /\
  V ((x - x0) * (x - x0) + (y - y0) * (y - y0)) < 274877906944 * U1.
Proof.
  intros Fx Fy Bx By Bd. unfold distanceFrom in Bd. units.
  destruct (radicand x y Fx Fy Bx By) as (FS & ES & PS).
  set (S := ((x - x0) * (x - x0) + (y - y0) * (y - y0))%float) in *.
  destruct (axis_distance _ Bx) as (_ & PX & NX & FX2 & BP & _).
  destruct (axis_distance _ By) as (_ & PY & NY & FY2 & BQ & _).
  destruct (sum_of_squares _ _ BP BQ) as (FSum & _ & _).
  set (AX := covered sx x0 x) in *. set (AY := covered sy y0 y) in *.
  destruct (ones_representable 68719476736 ltac:(lia)) as ([F36 E36] & F36' & E36').
  assert (Big : forall D Q : Z,
            0 <= D -> 0 <= Q -> fits2 (D * D) = true -> fits (rz2 (D * D) + Q) = true ->
            fits (Q + rz2 (D * D)) = true ->
            262144 * U1 <= D ->
            68719476736 * U1 <= rz (rz2 (D * D) + Q) /\ 68719476736 * U1 <= rz (Q + rz2 (D * D))).
  { intros D Q D0 Q0 FD F1 F2 L.
    assert (LL : 68719476736 * U1 * U1 <= D * D).
    { replace (68719476736 * U1 * U1) with (262144 * U1 * (262144 * U1)) by ring.
      apply Z.mul_le_mono_nonneg; lia. }
    pose proof (rz2_mono _ _ F36' FD LL) as M2. rewrite E36' in M2.
    split.
    - rewrite <- E36. apply rz_mono; [exact F36 | exact F1 | lia].
    - rewrite <- E36. apply rz_mono; [exact F36 | exact F2 | lia]. }
  assert (Root : 68719476736 * U1 <= V S -> False).
  { intros L. pose proof (sqrt_at_least S 262144 FS ltac:(lia) ltac:(lia)). lia. }
  split; [| split].
  - destruct (Z_lt_le_dec (rz AX) (262144 * U1)) as [L | G]; [lia | exfalso].
    apply Root. rewrite ES. apply (Big (rz AX) (rz2 (rz AY * rz AY))); try assumption; try lia.
    rewrite Z.add_comm. exact FSum.
  - destruct (Z_lt_le_dec (rz AY) (262144 * U1)) as [L | G]; [lia | exfalso].
    apply Root. rewrite ES. apply (Big (rz AY) (rz2 (rz AX * rz AX))); try assumption; try lia.
    rewrite Z.add_comm. exact FSum.
  - destruct (Z_lt_le_dec (V S) (274877906944 * U1)) as [L | G]; [exact L | exfalso].
    pose proof (sqrt_at_least S 524288 FS ltac:(lia) ltac:(lia)). lia.
Qed.

(** What [update] writes. *)
Lemma update_fields (q : t float) :
  startX q = x0 -> startY q = y0 -> Math_cos (angle q) = c -> Math_sin (angle q) = s ->
  acceleration q = c1_02 ->
  let q' := fst (update q) in
  startX q' = x0 /\ startY q' = y0 /\ angle q' = angle q /\ acceleration q' = c1_02 /\
  distance q' = distance q /\
  speed q' = (speed q * c1_02)%float /\
  x q' = (x q + c * (speed q * c1_02))%float /\
  y q' = (y q + s * (speed q * c1_02))%float /\
  currentDistance q' = distanceFrom x0 y0 (x q') (y q').
Proof.
  intros Ex Ey Ec Es Ea q'. subst q'. unfold update, distanceFrom.
  cbn [fst startX startY angle acceleration distance speed x y currentDistance].
  cbn [num_add num_sub num_mul num_sqrt Number_float].
  rewrite Ex, Ey, Ec, Es, Ea. repeat split; reflexivity.
Qed.

(** One tick of a Projectile that has not come within [2^18] of its
    launch point's distance bound: it stays in flight, one tick older, and
    its distance from the launch point has grown. *)
Lemma flight_step (n : nat) (q : t float) :
  inFlight x0 y0 c s dist sx sy n q ->
  V (currentDistance q) < 262144 * U1 ->
  inFlight x0 y0 c s dist sx sy (S n) (fst (update q)) /\
  V (currentDistance q) < V (currentDistance (fst (update q))).
Proof.
  intros ((Esx & Esy & Ec & Es & Ea & Ed) & (Fx & Fy & Fsp & Fcd) & (Bx & By & Bsp & Bn) & Ecd) Bd.
  destruct (update_fields q Esx Esy Ec Es Ea)
    as (Esx' & Esy' & Eang & Ea' & Ed' & Esp' & Ex' & Ey' & Ecd').
  set (q' := fst (update q)) in *.
  destruct Hhead as ((Hsx & Hsy) & Fc & Fs & Bc & Bs & Dom).
  destruct (onStage_V x0 Hx0) as [Fx0 Bx0]. destruct (onStage_V y0 Hy0) as [Fy0 By0].
  units.
  rewrite Ecd in Bd |- *.
  destruct (close_by (x q) (y q) Fx Fy Bx By Bd) as (Cx & Cy & CS).
  destruct (radicand (x q) (y q) Fx Fy Bx By) as (FS & ES & PS).
  (* the speed *)
  destruct (speed_tick (speed q) Fsp ltac:(lia)) as (Fsp' & Lsp & Hsp).
  rewrite <- Esp' in Fsp', Lsp, Hsp.
  (* the axes *)
  destruct (axis_tick sx c (speed q') x0 (x q) Hsx Fc Fsp' Fx0 Fx Bc ltac:(lia) Bx0 ltac:(lia))
    as (Fx' & Mx & Ux & Lx).
  destruct (axis_tick sy s (speed q') y0 (y q) Hsy Fs Fsp' Fy0 Fy Bs ltac:(lia) By0 ltac:(lia))
    as (Fy' & My & Uy & Ly).
  rewrite Esp' in Fx', Mx, Ux, Lx, Fy', My, Uy, Ly.
  rewrite <- Ex' in Fx', Mx, Ux, Lx. rewrite <- Ey' in Fy', My, Uy, Ly.
  rewrite <- Esp' in Ux, Lx, Uy, Ly.
  set (AX := covered sx x0 (x q)) in *. set (AY := covered sy y0 (y q)) in *.
  set (AX' := covered sx x0 (x q')) in *. set (AY' := covered sy y0 (y q')) in *.
  assert (Bx' : 0 <= AX' <= 4194304 * U1) by lia.
  assert (By' : 0 <= AY' <= 4194304 * U1) by lia.
  destruct (radicand (x q') (y q') Fx' Fy' Bx' By') as (FS' & ES' & PS').
  fold AX AY in ES. fold AX' AY' in ES'.
  (* the squares *)
  destruct (axis_distance_mono AX AX' ltac:(lia) Mx ltac:(lia)) as [_ MPx].
  destruct (axis_distance_mono AY AY' ltac:(lia) My ltac:(lia)) as [_ MPy].
  destruct (axis_distance AX Bx) as (_ & _ & _ & _ & BP & _).
  destruct (axis_distance AY By) as (_ & _ & _ & _ & BQ & _).
  destruct (axis_distance AX' Bx') as (_ & _ & _ & _ & BP' & _).
  destruct (axis_distance AY' By') as (_ & _ & _ & _ & BQ' & _).
  destruct (sum_of_squares _ _ BP BQ) as (_ & _ & NS).
  destruct (sum_of_squares _ _ BP' BQ') as (_ & _ & NS').
  rewrite <- ES in NS. rewrite <- ES' in NS'.
  assert (Grow : 2 * (rz2 (rz AX * rz AX) + rz2 (rz AY * rz AY)) + U1 <= 2 * (rz2 (rz AX' * rz AX') + rz2 (rz AY' * rz AY'))).
  { destruct Dom as [Dx | Dy].
    - pose proof (axis_distance_grows AX AX' ltac:(lia) ltac:(specialize (Lx Dx); lia) ltac:(lia)).
      lia.
    - pose proof (axis_distance_grows AY AY' ltac:(lia) ltac:(specialize (Ly Dy); lia) ltac:(lia)).
      lia. }
  assert (Sum : 2 * (AX + AY) + V (speed q') < 2 * (AX' + AY') + 4 * fine).
  { destruct Dom as [Dx | Dy]; [specialize (Lx Dx) | specialize (Ly Dy)]; lia. }
  set (S := ((x q - x0) * (x q - x0) + (y q - y0) * (y q - y0))%float) in *.
  set (S' := ((x q' - x0) * (x q' - x0) + (y q' - y0) * (y q' - y0))%float) in *.
  pose proof (sqrt_grows S S' FS FS' PS ltac:(lia) CS) as Root.
  destruct (sqrt_V S' FS' PS') as (Fr' & _).
  assert (Ecd'' : currentDistance q' = PrimFloat.sqrt S') by exact Ecd'.
  split.
  - unfold inFlight. fold AX' AY'.
    split; [split; [exact Esx' | split; [exact Esy' | split; [rewrite Eang; exact Ec
      | split; [rewrite Eang; exact Es | split; [exact Ea' | rewrite Ed'; exact Ed]]]]]|].
    split; [split; [exact Fx' | split; [exact Fy' | split; [exact Fsp'
      | rewrite Ecd''; exact Fr']]]|].
    split; [| exact Ecd'].
    split; [exact Bx'|]. split; [exact By'|]. split; [lia|].
    rewrite Nat2Z.inj_succ.
    replace (Z.succ (Z.of_nat n) * U1) with (Z.of_nat n * U1 + U1) by ring. lia.
  - rewrite Ecd''. exact Root.
Qed.

(** In flight and close by, less than [2^19] is covered. *)
Lemma flight_covered (n : nat) (q : t float) :
  inFlight x0 y0 c s dist sx sy n q ->
  V (currentDistance q) < 262144 * U1 -> Z.of_nat n <= 524288.
Proof.
  intros (_ & (Fx & Fy & _) & (Bx & By & _ & Bn) & Ecd) Bd. units.
  rewrite Ecd in Bd. destruct (close_by (x q) (y q) Fx Fy Bx By Bd) as (Cx & Cy & _).
  nia.
Qed.

End Flight.

(** ** From the launch to the target *)

(** A decidable property that holds somewhere holds at a first place. *)
Lemma first_true (f : nat -> bool) (n : nat) :
  f n = true ->
  exists k : nat, (k <= n)%nat /\ f k = true /\ forall j : nat, (j < k)%nat -> f j = false.
Proof.
  induction n as [n IH] using lt_wf_ind. intros H.
  destruct (existsb f (seq 0 n)) eqn:E.
  - apply existsb_exists in E as (m & Hm & Fm). apply in_seq in Hm.
    destruct (IH m ltac:(lia) Fm) as (k & Hk & Fk & Hj).
    exists k. repeat split; auto. lia.
  - exists n. repeat split; auto.
    intros j Hj. destruct (f j) eqn:Fj; [| reflexivity].
    assert (K : existsb f (seq 0 n) = true).
    { apply existsb_exists. exists j. split; [apply in_seq; lia | exact Fj]. }
    congruence.
Qed.

(** A property of the naturals that can be decided holds below a bound or
    fails at every number up to it. *)
Lemma bounded_search (f : nat -> bool) (N : nat) :
  (forall m : nat, (m <= N)%nat -> f m = false) \/
  (exists m : nat, (m <= N)%nat /\ f m = true).
Proof.
  induction N as [| N [IH | (m & Hm & Fm)]].
  - destruct (f 0%nat) eqn:E.
    + right. exists 0%nat. split; [lia | exact E].
    + left. intros m Hm. replace m with 0%nat by lia. exact E.
  - destruct (f (S N)) eqn:E.
    + right. exists (S N). split; [lia | exact E].
    + left. intros m Hm. destruct (Nat.eq_dec m (S N)) as [-> | NE]; [exact E|].
      apply IH. lia.
  - right. exists m. split; [lia | exact Fm].
Qed.

Section Launch.
Context {M : MathLib float}.
Import Binary64 FireworkParticle.
Local Open Scope Z_scope.

(** A Projectile as [initialize] leaves it is in flight, zero ticks old. *)
Lemma launch_inFlight (x1 y1 x2 y2 : float) (cx : option Context2D) (color : option Color)
    (random : float) (sx sy : Z) :
  onStage x1 -> onStage y1 ->
  inFlight x1 y1
    (Math_cos (angle (initialize x1 y1 x2 y2 cx color random)))
    (Math_sin (angle (initialize x1 y1 x2 y2 cx color random)))
    (distance (initialize x1 y1 x2 y2 cx color random)) sx sy 0
    (initialize x1 y1 x2 y2 cx color random).
Proof.
  intros Hx1 Hy1.
  destruct (onStage_V x1 Hx1) as [Fx _]. destruct (onStage_V y1 Hy1) as [Fy _].
  unfold inFlight, covered.
  cbn [initialize startX startY angle acceleration distance x y speed currentDistance].
  split; [repeat split; reflexivity|].
  split; [split; [exact Fx | split; [exact Fy | split; reflexivity]]|].
  replace (sx * (V x1 - V x1)) with 0 by ring. replace (sy * (V y1 - V y1)) with 0 by ring.
  pose proof U1_pos.
  split.
  - split; [lia|]. split; [lia|].
    change (V (num_of_Z 2)) with (2 * U1). split; lia.
  - unfold distanceFrom. rewrite (sub_diag x1 Fx), (sub_diag y1 Fy). reflexivity.
Qed.

(** The distance to the target is at most [2^18]. *)
Lemma target_distance (x1 y1 x2 y2 : float) :
  onStage x1 -> onStage y1 -> onStage x2 -> onStage y2 ->
  Fin (calculateDistance x1 y1 x2 y2) /\
  0 <= V (calculateDistance x1 y1 x2 y2) <= 262144 * U1.
Proof.
  intros Hx1 Hy1 Hx2 Hy2.
  destruct (onStage_V x1 Hx1) as [Fx1 Bx1]. destruct (onStage_V y1 Hy1) as [Fy1 By1].
  destruct (onStage_V x2 Hx2) as [Fx2 Bx2]. destruct (onStage_V y2 Hy2) as [Fy2 By2].
  units.
  unfold calculateDistance.
  cbn [num_add num_sub num_mul num_sqrt Number_float].
  destruct (ones_representable (-131072) ltac:(lia)) as ([Fl El] & _).
  destruct (ones_representable 131072 ltac:(lia)) as ([Fh Eh] & _).
  destruct (ones_representable 17179869184 ltac:(lia)) as ([F34 E34] & F34' & E34').
  destruct (ones_representable 34359738368 ltac:(lia)) as ([F35 E35] & _).
  assert (Side : forall a b : float, Fin a -> Fin b ->
            Z.abs (V a) <= 65536 * U1 -> Z.abs (V b) <= 65536 * U1 ->
            Fin ((b - a) * (b - a)) /\ 0 <= V ((b - a) * (b - a)) <= 17179869184 * U1).
  { intros a b Fa Fb Ba Bb.
    destruct (sub_between b a (-131072 * U1) (131072 * U1) Fb Fa ltac:(lia) Fl Fh) as [Fd Bd].
    rewrite El, Eh in Bd.
    assert (0 <= V (b - a) * V (b - a) <= 17179869184 * U1 * U1).
    { split; [nia|]. replace (17179869184 * U1 * U1) with (131072 * U1 * (131072 * U1)) by ring.
      destruct (Z_le_gt_dec 0 (V (b - a))).
      - apply Z.mul_le_mono_nonneg; lia.
      - replace (V (b - a) * V (b - a)) with (- V (b - a) * - V (b - a)) by ring.
        apply Z.mul_le_mono_nonneg; lia. }
    destruct (mul_between (b - a) (b - a) 0 (17179869184 * U1 * U1) Fd Fd ltac:(lia)
                ltac:(reflexivity) F34') as [Fm Bm].
    rewrite E34' in Bm. change (rz2 0) with 0 in Bm. split; [exact Fm | exact Bm]. }
  destruct (Side x1 x2 Fx1 Fx2 Bx1 Bx2) as [FP BP].
  destruct (Side y1 y2 Fy1 Fy2 By1 By2) as [FQ BQ].
  destruct (add_between _ _ 0 (34359738368 * U1) FP FQ ltac:(lia) ltac:(reflexivity) F35)
    as [FS BS].
  rewrite E35 in BS. change (rz 0) with 0 in BS.
  apply (sqrt_at_most _ 262144 FS); lia.
Qed.

Lemma reached_S (n : nat) (q : t float) :
  reached (S n) q = PrimFloat.leb (distance (ticks n q)) (currentDistance (ticks (S n) q)).
Proof. reflexivity. Qed.

(** From a Projectile [q] that is in flight, within [2^18] of its launch
    point, towards a target at most [2^18] away. *)
Variables (x0 y0 c s dist : float) (sx sy : Z) (q : t float).
Hypothesis Hhead : heading c s sx sy.
Hypothesis Hx0 : onStage x0.
Hypothesis Hy0 : onStage y0.
Hypothesis Hq : inFlight x0 y0 c s dist sx sy 0 q.
Hypothesis Hnear : V (currentDistance q) < 262144 * U1.
Hypothesis Hdist : Fin dist /\ V dist <= 262144 * U1.

(** While no tick has reached the target, the Projectile is in flight and
    within [2^18] of its launch point. *)
Lemma in_flight_until (n : nat) :
  (forall m : nat, (1 <= m <= n)%nat -> reached m q = false) ->
  inFlight x0 y0 c s dist sx sy n (ticks n q) /\
  V (currentDistance (ticks n q)) < 262144 * U1.
Proof.
  induction n as [| n IH]; intros Un.
  - split; [exact Hq | exact Hnear].
  - destruct (IH ltac:(intros m Hm; apply Un; lia)) as [J B].
    destruct (flight_step x0 y0 c s dist sx sy Hhead Hx0 Hy0 n (ticks n q) J B) as [J' G].
    change (fst (update (ticks n q))) with (ticks (S n) q) in J', G.
    split; [exact J'|].
    pose proof (Un (S n) ltac:(lia)) as R. rewrite reached_S in R.
    destruct J as ((_ & _ & _ & _ & _ & Ed) & _). rewrite Ed in R.
    destruct J' as (_ & (_ & _ & _ & Fcd) & _).
    destruct Hdist as [Fd Bd].
    pose proof (leb_false_V _ _ Fd Fcd R). lia.
Qed.

(** Until the target is reached, each tick takes the Projectile farther
    from its launch point. *)
Lemma farther_each_tick (n : nat) :
  (forall m : nat, (1 <= m <= n)%nat -> reached m q = false) ->
  PrimFloat.ltb (currentDistance (ticks n q)) (currentDistance (ticks (S n) q)) = true.
Proof.
  intros Un. destruct (in_flight_until n Un) as [J B].
  destruct (flight_step x0 y0 c s dist sx sy Hhead Hx0 Hy0 n (ticks n q) J B) as [J' G].
  change (fst (update (ticks n q))) with (ticks (S n) q) in J', G.
  destruct J as (_ & (_ & _ & _ & Fcd) & _). destruct J' as (_ & (_ & _ & _ & Fcd') & _).
  apply ltb_iff; assumption.
Qed.

(** The target is reached within 524289 ticks. *)
Lemma reached_within : exists m : nat, (m <= Z.to_nat 524289)%nat /\ reached m q = true.
Proof.
  destruct (bounded_search (fun m => reached m q) (Z.to_nat 524289)) as [No | Yes];
    [exfalso | exact Yes].
  destruct (in_flight_until (Z.to_nat 524289) ltac:(intros m Hm; apply No; lia)) as [J B].
  pose proof (flight_covered x0 y0 c s dist sx sy Hhead Hx0 Hy0 _ _ J B). lia.
Qed.

(** The first tick at which the target is reached, and the flight up to
    it. *)
Lemma first_reach :
  exists T : nat,
    ((1 <= T)%nat /\ Z.of_nat T <= 524289 /\ reached T q = true /\
     forall m : nat, (m < T)%nat -> reached m q = false) /\
    (forall n : nat, (n < T)%nat ->
       PrimFloat.ltb (currentDistance (ticks n q)) (currentDistance (ticks (S n) q)) = true) /\
    (forall T' : nat,
       reached T' q = true -> (forall m : nat, (m < T')%nat -> reached m q = false) ->
       T' = T).
Proof.
  destruct reached_within as (m0 & Hm0 & Rm0).
  destruct (first_true (fun n => reached n q) m0 Rm0) as (T & HT & RT & Before).
  assert (T1 : (1 <= T)%nat) by (destruct T; [cbn in RT; discriminate | lia]).
  exists T. split; [| split].
  - split; [exact T1|]. split; [lia|]. split; [exact RT | exact Before].
  - intros n Hn. apply farther_each_tick. intros m Hm. apply Before. lia.
  - intros T' RT' Before'.
    destruct (Nat.lt_trichotomy T T') as [L | [E | G]]; [| symmetry; exact E |].
    + rewrite (Before' T L) in RT. discriminate.
    + rewrite (Before T' G) in RT'. discriminate.
Qed.

End Launch.

(** ** The Projectile straight up *)

Section StraightUp.
Context {M : MathLib float}.
Import Binary64 FireworkParticle.
Local Open Scope Z_scope.

(** With the sine 1 and a cosine of at most [2^-28], the first tick takes
    the Projectile from (0, 0) exactly its speed away, 2 * 1.02. *)
Lemma straight_up (random : float) :
  upright M ->
  currentDistance (ticks 1 (initialize 0%float 0%float 0%float 100%float
                              (Some TheContext) (Some (mkColor 0 100)) random)) = c2_04 /\
  speed (ticks 1 (initialize 0%float 0%float 0%float 100%float
                    (Some TheContext) (Some (mkColor 0 100)) random)) = c2_04.
Proof.
  intros (Hs & Lc & Hc).
  cbn [ticks update fst initialize currentDistance speed x y startX startY angle acceleration].
  cbn [num_add num_sub num_mul num_sqrt num_of_Z num_dec Number_float].
  change (100 - 0)%float with 100%float. change (0 - 0)%float with 0%float.
  rewrite Hs. set (k := Math_cos (Math_atan2 100%float 0%float)) in *.
  change (F64.of_Z 2 * F64.dec 102 2)%float with c2_04.
  change (1 * c2_04)%float with c2_04.
  change (0 + c2_04 - 0)%float with c2_04.
  split; [| reflexivity].
  destruct (leb_bounds (-0x1p-28)%float k 0x1p-28%float ltac:(reflexivity) ltac:(reflexivity)
              Lc Hc) as [Fk Bk].
  assert (F2 : Fin c2_04) by reflexivity.
  (* the sideways step *)
  destruct (grid_fits2 1048 (-1) ltac:(lia) ltac:(lia)) as [Fl El].
  destruct (grid_fits2 1048 1 ltac:(lia) ltac:(lia)) as [Fh Eh].
  destruct (mul_between k c2_04 (-1 * 2 ^ 1048 * 2 ^ 1074) (1 * 2 ^ 1048 * 2 ^ 1074)
              Fk F2) as [Fv Bv]; [| exact Fl | exact Fh |].
  { change (V (-0x1p-28)%float) with (- 2 ^ 1046) in Bk.
    change (V 0x1p-28%float) with (2 ^ 1046) in Bk.
    assert (0 < V c2_04 <= 4 * U1)
      by (split; [apply Z.ltb_lt | apply Z.leb_le]; vm_compute; reflexivity).
    change (2 ^ 1048) with (4 * 2 ^ 1046). change (2 ^ 1074) with U1.
    pose proof U1_pos. set (u := 2 ^ 1046) in *. clearbody u. clearbody k.
    set (w := V c2_04) in *. clearbody w. nia. }
  rewrite El, Eh in Bv.
  assert (F0 : Fin 0%float) by reflexivity.
  destruct (rz_V _ Fv) as [Fvv Evv].
  destruct (add_V 0%float (k * c2_04) F0 Fv Fvv) as [Fx Ex].
  change (V 0%float + V (k * c2_04)%float) with (V (k * c2_04)%float) in Ex. rewrite Evv in Ex.
  set (x' := (0 + k * c2_04)%float) in *.
  destruct (rz_V _ Fx) as [Fxx Exx].
  destruct (sub_V x' 0%float Fx F0) as [Fd Ed].
  { change (V 0%float) with 0. rewrite Z.sub_0_r. exact Fxx. }
  change (V 0%float) with 0 in Ed. rewrite Z.sub_0_r, Exx, Ex in Ed.
  set (d := (x' - 0)%float) in *.
  (* its square is at most 2^-52 *)
  destruct (grid_fits2 1022 1 ltac:(lia) ltac:(lia)) as [Fq Eq].
  destruct (mul_between d d 0 (1 * 2 ^ 1022 * 2 ^ 1074) Fd Fd) as [Fs Bs];
    [| reflexivity | exact Fq |].
  { rewrite Ed. change (1 * 2 ^ 1022 * 2 ^ 1074) with (2 ^ 1048 * 2 ^ 1048).
    change (-1 * 2 ^ 1048) with (- 2 ^ 1048) in Bv. change (1 * 2 ^ 1048) with (2 ^ 1048) in Bv.
    set (u := 2 ^ 1048) in *. assert (0 < u) by reflexivity. clearbody u.
    set (v := V (k * c2_04)) in *. clearbody v. clear - Bv H. nia. }
  rewrite Eq in Bs. change (rz2 0) with 0 in Bs.
  (* which the square of the speed absorbs *)
  set (q := (c2_04 * c2_04)%float).
  assert (Fqq : Fin q) by reflexivity.
  destruct (add_between (d * d) q (V q) (V q + 1 * 2 ^ 1022) Fs Fqq ltac:(lia)) as [Fsum Bsum].
  { vm_compute. reflexivity. }
  { vm_compute. reflexivity. }
  assert (Lo : rz (V q) = V q) by (vm_compute; reflexivity).
  assert (Hi : rz (V q + 1 * 2 ^ 1022) = V q) by (vm_compute; reflexivity).
  rewrite Lo, Hi in Bsum.
  assert (E : (d * d + q)%float = q).
  { apply V_inj; [exact Fsum | exact Fqq | lia |].
    assert (V q <> 0) by (vm_compute; discriminate). lia. }
  rewrite E. vm_compute. reflexivity.
Qed.

End StraightUp.

(** C7 (amended). On binary64: with an engine whose sine at the angle of
    (0, 100) is 1 and whose cosine there is at most [2^-28] in magnitude,
    the Projectile from (0, 0) to (0, 100) has, after tick 1, travelled
    its first-tick speed, which is 2 * 1.02 = 2.04 and not 2: the speed is
    multiplied by the acceleration before the move. For every Projectile
    whose launch and target coordinates are at most 65536 in magnitude,
    and every engine whose cosine and sine at the launch angle lie in
    [-1, 1] with one of them at least one half in magnitude, there is a
    tick [T], between 1 and 524289 and fixed by launch, target and engine,
    at which [update] first returns true, and up to it the distance
    travelled grows strictly with every tick. *)
Theorem projectile_travel_grows_until_target (M : MathLib float) :
  (upright M ->
   forall random : float,
     FireworkParticle.currentDistance
       (FireworkParticle.ticks 1
          (FireworkParticle.initialize 0%float 0%float 0%float 100%float
             (Some TheContext) (Some (mkColor 0 100)) random)) = c2_04 /\
     FireworkParticle.speed
       (FireworkParticle.ticks 1
          (FireworkParticle.initialize 0%float 0%float 0%float 100%float
             (Some TheContext) (Some (mkColor 0 100)) random)) = c2_04) /\
  forall (x1 y1 x2 y2 : float) (cx : option Context2D) (color : option Color)
         (random : float),
    onStage x1 -> onStage y1 -> onStage x2 -> onStage y2 ->
    steady (Math_cos (Math_atan2 (y2 - y1) (x2 - x1))%float)
           (Math_sin (Math_atan2 (y2 - y1) (x2 - x1))%float) ->
    exists T : nat,
      ((1 <= T)%nat /\ (Z.of_nat T <= 524289)%Z /\
       FireworkParticle.reached T
         (FireworkParticle.initialize x1 y1 x2 y2 cx color random) = true /\
       forall m : nat, (m < T)%nat ->
         FireworkParticle.reached m
           (FireworkParticle.initialize x1 y1 x2 y2 cx color random) = false) /\
      (forall n : nat, (n < T)%nat ->
         PrimFloat.ltb
           (FireworkParticle.currentDistance
              (FireworkParticle.ticks n
                 (FireworkParticle.initialize x1 y1 x2 y2 cx color random)))
           (FireworkParticle.currentDistance
              (FireworkParticle.ticks (S n)
                 (FireworkParticle.initialize x1 y1 x2 y2 cx color random))) = true) /\
      (forall T' : nat,
         FireworkParticle.reached T'
           (FireworkParticle.initialize x1 y1 x2 y2 cx color random) = true ->
         (forall m : nat, (m < T')%nat ->
            FireworkParticle.reached m
              (FireworkParticle.initialize x1 y1 x2 y2 cx color random) = false) ->
         T' = T).
Proof.
  split; [intros Hup random; apply straight_up; exact Hup|].
  intros x1 y1 x2 y2 cx color random Hx1 Hy1 Hx2 Hy2 Hdir.
  destruct (steady_heading _ _ Hdir) as (sx & sy & Hhead).
  pose proof (launch_inFlight x1 y1 x2 y2 cx color random sx sy Hx1 Hy1) as Hq.
  apply (first_reach x1 y1 _ _ _ sx sy _ Hhead Hx1 Hy1 Hq).
  - pose proof U1_pos.
    change (Binary64.V (FireworkParticle.currentDistance
              (FireworkParticle.initialize x1 y1 x2 y2 cx color random))) with 0%Z.
    lia.
  - destruct (target_distance x1 y1 x2 y2 Hx1 Hy1 Hx2 Hy2) as [F B].
    split; [exact F | apply B].
Qed.

Lemma projectile_travel_grows_until_target_witness :
  onStage 500%float /\ onStage 800%float /\ onStage 300%float /\ onStage 200%float /\
  steady (Math_cos (MathLib := MathLib_engine)
            (Math_atan2 (MathLib := MathLib_engine) (200 - 800)%float (300 - 500)%float))
         (Math_sin (MathLib := MathLib_engine)
            (Math_atan2 (MathLib := MathLib_engine) (200 - 800)%float (300 - 500)%float)) /\
  upright MathLib_engine /\
  FireworkParticle.currentDistance
    (FireworkParticle.ticks (M := MathLib_engine) 1
       (FireworkParticle.initialize (M := MathLib_engine) 0%float 0%float 0%float 100%float
          (Some TheContext) (Some (mkColor 0 100)) 0x1p-1%float)) = c2_04 /\
  exists T : nat,
    (1 <= T)%nat /\
    FireworkParticle.reached (M := MathLib_engine) T
      (FireworkParticle.initialize (M := MathLib_engine) 500%float 800%float 300%float 200%float
         (Some TheContext) (Some (mkColor 0 100)) 0x1p-1%float) = true /\
    forall n : nat, (n < T)%nat ->
      PrimFloat.ltb
        (FireworkParticle.currentDistance
           (FireworkParticle.ticks (M := MathLib_engine) n
              (FireworkParticle.initialize (M := MathLib_engine) 500%float 800%float
                 300%float 200%float (Some TheContext) (Some (mkColor 0 100)) 0x1p-1%float)))
        (FireworkParticle.currentDistance
           (FireworkParticle.ticks (M := MathLib_engine) (S n)
              (FireworkParticle.initialize (M := MathLib_engine) 500%float 800%float
                 300%float 200%float (Some TheContext) (Some (mkColor 0 100)) 0x1p-1%float)))
      = true.
Proof.
  assert (Hup : upright MathLib_engine) by (repeat split; vm_compute; reflexivity).
  assert (H500 : onStage 500%float) by (split; reflexivity).
  assert (H800 : onStage 800%float) by (split; reflexivity).
  assert (H300 : onStage 300%float) by (split; reflexivity).
  assert (H200 : onStage 200%float) by (split; reflexivity).
  assert (Hdir : steady (Math_cos (MathLib := MathLib_engine)
            (Math_atan2 (MathLib := MathLib_engine) (200 - 800)%float (300 - 500)%float))
         (Math_sin (MathLib := MathLib_engine)
            (Math_atan2 (MathLib := MathLib_engine) (200 - 800)%float (300 - 500)%float)))
    by (repeat split; vm_compute; reflexivity).
  split; [exact H500|]. split; [exact H800|]. split; [exact H300|].
  split; [exact H200|]. split; [exact Hdir|]. split; [exact Hup|].
  destruct (projectile_travel_grows_until_target MathLib_engine) as [First Every].
  split; [exact (proj1 (First Hup 0x1p-1%float))|].
  destruct (Every 500%float 800%float 300%float 200%float
              (Some TheContext) (Some (mkColor 0 100)) 0x1p-1%float
              H500 H800 H300 H200 Hdir) as (T & (T1 & _ & RT & _) & Gr & _).
  exists T. split; [exact T1|]. split; [exact RT | exact Gr].
Defined.

(** C7 as stated fails twice on binary64, here with the reference engine.
    The Projectile from (0, 0) to (0, 100) has travelled 2.04, not 2, after
    its first tick. And a Projectile launched at (2^60, 0) towards
    (2^60 + 2^20, 0) has travelled 0 after its first tick and after its
    second, neither of which reaches the target: its step of 2.04 is lost
    in the rounding of the position. *)
Lemma first_tick_travels_2_04_and_far_launch_stalls :
  (FireworkParticle.currentDistance
     (FireworkParticle.ticks (M := MathLib_engine) 1
        (FireworkParticle.initialize (M := MathLib_engine) 0%float 0%float 0%float 100%float
           (Some TheContext) (Some (mkColor 0 100)) 0x1p-1%float))
   = 0x1.051eb851eb852p+1%float /\
   PrimFloat.eqb 0x1.051eb851eb852p+1%float 2%float = false) /\
  (FireworkParticle.reached (M := MathLib_engine) 1
     (FireworkParticle.initialize (M := MathLib_engine) 0x1p60%float 0%float
        0x1.00000000001p60%float 0%float
        (Some TheContext) (Some (mkColor 0 100)) 0x1p-1%float) = false /\
   FireworkParticle.reached (M := MathLib_engine) 2
     (FireworkParticle.initialize (M := MathLib_engine) 0x1p60%float 0%float
        0x1.00000000001p60%float 0%float
        (Some TheContext) (Some (mkColor 0 100)) 0x1p-1%float) = false /\
   FireworkParticle.currentDistance
     (FireworkParticle.ticks (M := MathLib_engine) 1
        (FireworkParticle.initialize (M := MathLib_engine) 0x1p60%float 0%float
           0x1.00000000001p60%float 0%float
           (Some TheContext) (Some (mkColor 0 100)) 0x1p-1%float)) = 0%float /\
   FireworkParticle.currentDistance
     (FireworkParticle.ticks (M := MathLib_engine) 2
        (FireworkParticle.initialize (M := MathLib_engine) 0x1p60%float 0%float
           0x1.00000000001p60%float 0%float
           (Some TheContext) (Some (mkColor 0 100)) 0x1p-1%float)) = 0%float /\
   PrimFloat.ltb 0%float 0%float = false).
Proof.
  split; [split; vm_compute; reflexivity|].
  repeat split; vm_compute; reflexivity.
Qed.

(** * More of the code *)

(** ** The Clock: intervals, display and special moments *)

Section ClockIntervals.
Import Countdown.

Lemma liveIntervals_app (tr l : list Effect) :
  liveIntervals (tr ++ l) = fold_left liveAfter l (liveIntervals tr).
Proof. unfold liveIntervals. apply fold_left_app. Qed.

Lemma liveAfter_other (l : list Effect) (live : list nat) :
  forallb (fun e => negb (isIntervalEffect e)) l = true ->
  fold_left liveAfter l live = live.
Proof.
  revert live. induction l as [| e l IH]; intros live H; [reflexivity|].
  cbn [forallb] in H. apply andb_prop in H as [He Hl].
  cbn [fold_left]. rewrite IH by exact Hl.
  destruct e; try reflexivity; discriminate.
Qed.

Lemma onlyEmits_refl (P : Effect -> bool) (w : World) : onlyEmits P w w.
Proof. repeat split. exists []. rewrite app_nil_r. split; reflexivity. Qed.

Lemma onlyEmits_trans (P : Effect -> bool) (a b c : World) :
  onlyEmits P a b -> onlyEmits P b c -> onlyEmits P a c.
Proof.
  intros (H1 & H2 & H3 & l & Hl & Pl) (K1 & K2 & K3 & k & Hk & Pk).
  repeat split; try congruence.
  exists (l ++ k). rewrite Hk, Hl, app_assoc. split; [reflexivity|].
  rewrite forallb_app, Pl, Pk. reflexivity.
Qed.

Lemma onlyEmits_emit (P : Effect -> bool) (e : Effect) (w : World) :
  P e = true -> onlyEmits P w (emit e w).
Proof.
  intros H. repeat split. exists [e]. split; [reflexivity|]. cbn. rewrite H. reflexivity.
Qed.

Lemma onlyEmits_setText (P : Effect -> bool) (el : Element) (s : string) (w : World) :
  onlyEmits P w (setText el s w).
Proof. repeat split. exists []. rewrite app_nil_r. split; reflexivity. Qed.

Lemma onlyEmits_updateDisplay (P : Effect -> bool) (time : TimeUnits) (w : World) :
  (forall el v, P (GsapTo el v) = true) ->
  onlyEmits P w (updateDisplay time w).
Proof.
  intros HP. unfold updateDisplay.
  generalize (entries time). intros l. revert w.
  induction l as [| [unit value] l IH]; intros w; [apply onlyEmits_refl|].
  cbn [fold_left]. eapply onlyEmits_trans; [| apply IH].
  destruct (elements (clock w) unit) as [el |]; [| apply onlyEmits_refl].
  destruct (String.eqb _ _); [apply onlyEmits_refl|].
  apply onlyEmits_emit, HP.
Qed.

Lemma onlyEmits_checkSpecialMoments (P : Effect -> bool) (time : TimeUnits) (w : World) :
  (forall msg, P (ConsoleLog msg) = true) ->
  onlyEmits P w (checkSpecialMoments time w).
Proof.
  intros HP. unfold checkSpecialMoments, triggerSpecialEvent.
  destruct (isMoment time 0 1 0 0), (isMoment time 0 0 10 0), (isMoment time 0 0 1 0);
    repeat first [ apply onlyEmits_refl
                 | eapply onlyEmits_trans; [| apply onlyEmits_emit, HP] ].
Qed.

Lemma onlyEmits_showCongratulations (P : Effect -> bool) (w : World) :
  (forall ms, P (SetTimeoutAlert ms) = true) ->
  onlyEmits P w (showCongratulations w).
Proof.
  intros HP. unfold showCongratulations.
  eapply onlyEmits_trans; [| apply onlyEmits_emit, HP].
  generalize [Days; Hours; Minutes; Seconds]. intros l. revert w.
  induction l as [| k l IH]; intros w; [apply onlyEmits_refl|].
  cbn [fold_left]. eapply onlyEmits_trans; [| apply IH].
  destruct (elements (clock w) k); [apply onlyEmits_setText | apply onlyEmits_refl].
Qed.

Lemma onlyEmits_holds (w w' : World) :
  onlyEmits (fun e => negb (isIntervalEffect e)) w w' ->
  holdsItsInterval w -> holdsItsInterval w'.
Proof.
  intros (C & N & _ & l & Hl & Pl) (L & B). split.
  - rewrite Hl, liveIntervals_app, liveAfter_other by exact Pl. rewrite C. exact L.
  - rewrite C, N. exact B.
Qed.

Lemma stop_holds (w : World) : holdsItsInterval w -> holdsItsInterval (stop w).
Proof.
  intros (L & B). unfold stop. destruct (intervalId (clock w)) as [id |] eqn:E.
  - split; [| intros i; cbn; discriminate].
    cbn [trace emit setIntervalId clock intervalId].
    rewrite <- app_assoc, liveIntervals_app, L. cbn.
    rewrite Nat.eqb_refl. reflexivity.
  - split; [rewrite E; exact L | intros i; rewrite E; discriminate].
Qed.

Lemma stop_clears (w : World) : intervalId (clock (stop w)) = None.
Proof.
  unfold stop. destruct (intervalId (clock w)) eqn:E; [reflexivity | exact E].
Qed.

Lemma stop_timer (w : World) : nextTimer (stop w) = nextTimer w.
Proof. unfold stop. destruct (intervalId (clock w)); reflexivity. Qed.

Lemma handleNewYear_holds (w : World) :
  holdsItsInterval w ->
  holdsItsInterval (handleNewYear w) /\ intervalId (clock (handleNewYear w)) = None.
Proof.
  intros H. unfold handleNewYear.
  pose proof (stop_holds w H) as H1. pose proof (stop_clears w) as C1.
  set (w1 := stop w) in *. clearbody w1.
  assert (Q : onlyEmits (fun e => negb (isIntervalEffect e)) w1
                (emit NewYearHandled
                   (if fireworksComponent (showCongratulations w1)
                    then emit MassiveCelebration (showCongratulations w1)
                    else showCongratulations w1))).
  { eapply onlyEmits_trans; [apply onlyEmits_showCongratulations; reflexivity|].
    eapply onlyEmits_trans; [| apply onlyEmits_emit; reflexivity].
    destruct (fireworksComponent _); [apply onlyEmits_emit; reflexivity | apply onlyEmits_refl]. }
  split; [exact (onlyEmits_holds _ _ Q H1)|].
  destruct Q as (C & _). rewrite C. exact C1.
Qed.

Lemma update_holds (now : Z) (w : World) :
  holdsItsInterval w -> holdsItsInterval (update now w).
Proof.
  intros H. unfold update. destruct (_ <=? 0).
  - apply handleNewYear_holds, H.
  - refine (onlyEmits_holds _ _ _ H).
    eapply onlyEmits_trans;
      [apply onlyEmits_updateDisplay | apply onlyEmits_checkSpecialMoments]; reflexivity.
Qed.

Lemma update_keeps_none (now : Z) (w : World) :
  intervalId (clock w) = None ->
  intervalId (clock (update now w)) = None /\ nextTimer (update now w) = nextTimer w.
Proof.
  intros E. unfold update. destruct (_ <=? 0).
  - unfold handleNewYear.
    assert (Q : onlyEmits (fun _ => true) (stop w)
                  (emit NewYearHandled
                     (if fireworksComponent (showCongratulations (stop w))
                      then emit MassiveCelebration (showCongratulations (stop w))
                      else showCongratulations (stop w)))).
    { eapply onlyEmits_trans; [apply onlyEmits_showCongratulations; reflexivity|].
      eapply onlyEmits_trans; [| apply onlyEmits_emit; reflexivity].
      destruct (fireworksComponent _); [apply onlyEmits_emit; reflexivity | apply onlyEmits_refl]. }
    destruct Q as (C & N & _). rewrite C, N, stop_clears, stop_timer. split; reflexivity.
  - assert (Q : onlyEmits (fun _ => true) w
                  (checkSpecialMoments (calculateTimeUnits (targetDate (clock w) - now))
                     (updateDisplay (calculateTimeUnits (targetDate (clock w) - now)) w))).
    { eapply onlyEmits_trans;
        [apply onlyEmits_updateDisplay | apply onlyEmits_checkSpecialMoments]; reflexivity. }
    destruct Q as (C & N & _). rewrite C, N. split; [exact E | reflexivity].
Qed.

Lemma start_holds (now : Z) (w : World) :
  holdsItsInterval w -> holdsItsInterval (start now w).
Proof.
  intros H. unfold start. destruct (intervalId (clock w)) as [id |] eqn:E; [exact H|].
  pose proof (update_holds now w H) as (L & B).
  destruct (update_keeps_none now w E) as (E1 & N1).
  set (w1 := update now w) in *. clearbody w1.
  split.
  - cbn [trace emit setIntervalId clock intervalId].
    rewrite <- app_assoc, liveIntervals_app, L, E1. reflexivity.
  - cbn [trace emit setIntervalId clock intervalId nextTimer].
    intros i [= <-]. lia.
Qed.

Lemma step_holds (e : Event) (w : World) :
  holdsItsInterval w -> holdsItsInterval (step w e).
Proof.
  intros H. destruct e as [now | | now]; cbn [step].
  - apply start_holds, H.
  - apply stop_holds, H.
  - destruct (intervalId (clock w)); [apply update_holds, H | exact H].
Qed.

Lemma run_holds (es : list Event) (w : World) :
  holdsItsInterval w -> holdsItsInterval (run es w).
Proof.
  revert w. induction es as [| e es IH]; intros w H; [exact H|].
  cbn [run fold_left]. apply IH, step_holds, H.
Qed.

(** X1. In every execution of the Clock, whatever the order of [start],
    [stop] and interval ticks and whatever the instants they read: the
    intervals registered with [setInterval] and not yet cleared are exactly
    the one whose id the Clock holds in [intervalId], or none when it holds
    none. No interval is ever registered twice or left behind. *)
Theorem clock_never_leaks_an_interval
    (target interval : Z) (getElementById : UnitKey -> option Element)
    (text : Element -> string) (fireworks : bool) (es : list Event) :
  let w := run es (construct target interval getElementById text fireworks) in
  liveIntervals (trace w) =
    match intervalId (clock w) with Some id => [id] | None => [] end.
Proof.
  intros w. subst w.
  refine (proj1 (run_holds es _ _)).
  split; [reflexivity | intros id; cbn; discriminate].
Qed.

End ClockIntervals.

Section ClockTicks.
Import Countdown.

Lemma idle_without_interval (ticks : list Z) (w : World) :
  intervalId (clock w) = None -> run (map IntervalFires ticks) w = w.
Proof.
  revert w. induction ticks as [| t ticks IH]; intros w H; [reflexivity|].
  cbn [map run fold_left step]. rewrite H. apply IH, H.
Qed.

Lemma ticks_signal_when_late (ticks : list Z) (w : World) :
  intervalId (clock w) <> None ->
  let late := existsb (fun t => targetDate (clock w) <=? t) ticks in
  let w' := run (map IntervalFires ticks) w in
  newYearCount w' = (newYearCount w + (if late then 1 else 0))%nat /\
  (intervalId (clock w') = None <-> late = true).
Proof.
  revert w. induction ticks as [| now ticks IH]; intros w Hrun; cbn zeta.
  - cbn. split; [lia |]. split; [congruence | discriminate].
  - cbn [map run fold_left step existsb].
    destruct (intervalId (clock w)) as [id |] eqn:E; [clear Hrun | congruence].
    destruct (Z.leb_spec (targetDate (clock w)) now) as [After | Before].
    + destruct (update_at_target now w After) as (I1 & T1 & N1 & C1).
      cbn [orb].
      change (fold_left step (map IntervalFires ticks) (update now w))
        with (run (map IntervalFires ticks) (update now w)).
      rewrite idle_without_interval by exact I1.
      split; [lia | split; [reflexivity | intros _; exact I1]].
    + destruct (update_before_target now w Before) as (Q1 & Q2 & Q3 & Q4).
      assert (Hi : intervalId (clock (update now w)) <> None)
        by (rewrite Q1, E; discriminate).
      specialize (IH _ Hi). cbn zeta in IH. rewrite Q1, Q4 in IH.
      cbn [orb]. exact IH.
Qed.

(** X2. A Clock started before its target signals the terminal event
    exactly once if some tick of its interval reads an instant at or after
    the target, and not at all otherwise; its interval is cleared in the
    first case and still registered in the second. *)
Theorem started_in_time_signals_iff_a_tick_is_late
    (now0 : Z) (ticks : list Z) (w : World)
    (Hidle : intervalId (clock w) = None)
    (Hbefore : now0 < targetDate (clock w)) :
  let late := existsb (fun t => targetDate (clock w) <=? t) ticks in
  let w' := run (CallStart now0 :: map IntervalFires ticks) w in
  newYearCount w' = (newYearCount w + (if late then 1 else 0))%nat /\
  (intervalId (clock w') = None <-> late = true).
Proof.
  intros late w'. subst late w'.
  cbn [run fold_left step]. unfold start. rewrite Hidle.
  destruct (update_before_target now0 w Hbefore) as (Q1 & Q2 & Q3 & Q4).
  set (w1 := emit _ _).
  assert (Hc : newYearCount w1 = newYearCount w).
  { subst w1. rewrite newYearCount_emit. cbn [isNewYear].
    unfold newYearCount, setIntervalId, emit. cbn [trace].
    rewrite filter_app, length_app. cbn.
    unfold newYearCount in Q4. lia. }
  assert (Ht : targetDate (clock w1) = targetDate (clock w)).
  { subst w1. cbn. rewrite Q1. reflexivity. }
  assert (Hi : intervalId (clock w1) <> None) by (subst w1; cbn; discriminate).
  pose proof (ticks_signal_when_late ticks w1 Hi) as H. cbn zeta in H.
  rewrite Ht, Hc in H. exact H.
Qed.

Lemma started_in_time_signals_iff_a_tick_is_late_witness :
  intervalId (clock (construct newYear2026 1000 allElements (fun _ => "00"%string) true))
    = None /\
  newYear2026 - 2000
    < targetDate (clock (construct newYear2026 1000 allElements (fun _ => "00"%string) true)) /\
  newYearCount
    (run (CallStart (newYear2026 - 2000)
            :: map IntervalFires [newYear2026 - 1000; newYear2026; newYear2026 + 1000])
       (construct newYear2026 1000 allElements (fun _ => "00"%string) true))
  = 1%nat.
Proof.
  split; [reflexivity|]. split; [reflexivity|].
  exact (proj1 (started_in_time_signals_iff_a_tick_is_late (newYear2026 - 2000)
                  [newYear2026 - 1000; newYear2026; newYear2026 + 1000]
                  (construct newYear2026 1000 allElements (fun _ => "00"%string) true)
                  eq_refl eq_refl)).
Defined.

End ClockTicks.

Section ClockDisplay.
Import Countdown.

Lemma zeroed_stays (l : list UnitKey) (w : World) (el : Element) :
  textContent w el = "00"%string ->
  textContent
    (fold_left (fun (w : World) (k : UnitKey) =>
                  match elements (clock w) k with
                  | Some el => setText el "00" w
                  | None => w
                  end) l w) el = "00"%string.
Proof.
  revert w. induction l as [| k l IH]; intros w H; [exact H|].
  cbn [fold_left]. apply IH.
  destruct (elements (clock w) k) as [e |]; [| exact H].
  cbn [setText textContent]. destruct (Nat.eqb el e); [reflexivity | exact H].
Qed.

Lemma zeroes_each (l : list UnitKey) (w : World) (k : UnitKey) (el : Element) :
  In k l -> elements (clock w) k = Some el ->
  textContent
    (fold_left (fun (w : World) (k : UnitKey) =>
                  match elements (clock w) k with
                  | Some el => setText el "00" w
                  | None => w
                  end) l w) el = "00"%string.
Proof.
  revert w. induction l as [| k0 l IH]; intros w Hin He; [destruct Hin|].
  cbn [fold_left]. destruct Hin as [-> | Hin].
  - rewrite He. apply zeroed_stays. cbn [setText textContent].
    rewrite Nat.eqb_refl. reflexivity.
  - apply IH; [exact Hin|].
    destruct (elements (clock w) k0); exact He.
Qed.

Lemma stop_elements (w : World) : elements (clock (stop w)) = elements (clock w).
Proof. unfold stop. destruct (intervalId (clock w)); reflexivity. Qed.

(** X3. Once the target is reached, [update] leaves the text "00" in every
    countdown element the page has, whatever it showed before, and asks for
    the greeting alert one second later. *)
Theorem update_past_target_shows_zeros (now : Z) (w : World)
    (Hpast : targetDate (clock w) <= now) :
  (forall k el, elements (clock w) k = Some el ->
                textContent (update now w) el = "00"%string) /\
  In (SetTimeoutAlert 1000) (trace (update now w)).
Proof.
  unfold update.
  destruct (Z.leb_spec (targetDate (clock w) - now) 0) as [_ | L]; [| lia].
  unfold handleNewYear, showCongratulations.
  set (zero := fun (w : World) (k : UnitKey) => _).
  split.
  - intros k el He.
    assert (Z : textContent (fold_left zero [Days; Hours; Minutes; Seconds] (stop w)) el
                = "00"%string).
    { apply (zeroes_each _ (stop w) k).
      - destruct k; cbn; auto.
      - rewrite stop_elements. exact He. }
    destruct (fireworksComponent _); exact Z.
  - destruct (fireworksComponent _); cbn [emit trace fireworksComponent];
      rewrite ?in_app_iff; cbn; tauto.
Qed.

Lemma update_past_target_shows_zeros_witness :
  targetDate (clock (construct newYear2026 1000 allElements (fun _ => "59"%string) true))
    <= newYear2026 + 1 /\
  textContent
    (update (newYear2026 + 1)
       (construct newYear2026 1000 allElements (fun _ => "59"%string) true)) 3%nat
  = "00"%string.
Proof.
  split; [unfold newYear2026; cbn; lia|].
  exact (proj1 (update_past_target_shows_zeros (newYear2026 + 1)
                  (construct newYear2026 1000 allElements (fun _ => "59"%string) true)
                  ltac:(unfold newYear2026; cbn; lia)) Seconds 3%nat eq_refl).
Defined.

Lemma isMoment_hour (d : Z) :
  isMoment (calculateTimeUnits d) 0 1 0 0 = (3600000 <=? d) && (d <? 3601000).
Proof.
  unfold isMoment, calculateTimeUnits. cbn [days hours minutes seconds].
  apply eq_true_iff_eq. rewrite !andb_true_iff, !Z.eqb_eq, Z.leb_le, Z.ltb_lt.
  split.
  - intros (((Hd & Hh) & Hm) & Hs).
    assert (N : 0 <= d).
    { destruct (Z_lt_le_dec d 0) as [Neg | Pos]; [exfalso | exact Pos].
      assert (d / 1000 / 60 / 60 / 24 < 0); [| lia].
      repeat (apply Z.div_lt_upper_bound; [lia|]). lia. }
    assert (Hs0 : 0 <= d / 1000) by (apply Z.div_pos; lia).
    assert (Hm0 : 0 <= d / 1000 / 60) by (apply Z.div_pos; lia).
    assert (Hh0 : 0 <= d / 1000 / 60 / 60) by (apply Z.div_pos; lia).
    rewrite (Z.rem_mod_nonneg _ _ Hh0) in Hh by lia.
    rewrite (Z.rem_mod_nonneg _ _ Hm0) in Hm by lia.
    rewrite (Z.rem_mod_nonneg _ _ Hs0) in Hs by lia.
    clear Hs0 Hm0 Hh0. Z.div_mod_to_equations. lia.
  - intros [L U].
    assert (Es : d / 1000 = 3600) by (Z.div_mod_to_equations; lia).
    rewrite Es. repeat split; reflexivity.
Qed.

Lemma isMoment_ten (d : Z) :
  isMoment (calculateTimeUnits d) 0 0 10 0 = (600000 <=? d) && (d <? 601000).
Proof.
  unfold isMoment, calculateTimeUnits. cbn [days hours minutes seconds].
  apply eq_true_iff_eq. rewrite !andb_true_iff, !Z.eqb_eq, Z.leb_le, Z.ltb_lt.
  split.
  - intros (((Hd & Hh) & Hm) & Hs).
    assert (N : 0 <= d).
    { destruct (Z_lt_le_dec d 0) as [Neg | Pos]; [exfalso | exact Pos].
      assert (d / 1000 / 60 / 60 / 24 < 0); [| lia].
      repeat (apply Z.div_lt_upper_bound; [lia|]). lia. }
    assert (Hs0 : 0 <= d / 1000) by (apply Z.div_pos; lia).
    assert (Hm0 : 0 <= d / 1000 / 60) by (apply Z.div_pos; lia).
    assert (Hh0 : 0 <= d / 1000 / 60 / 60) by (apply Z.div_pos; lia).
    rewrite (Z.rem_mod_nonneg _ _ Hh0) in Hh by lia.
    rewrite (Z.rem_mod_nonneg _ _ Hm0) in Hm by lia.
    rewrite (Z.rem_mod_nonneg _ _ Hs0) in Hs by lia.
    clear Hs0 Hm0 Hh0. Z.div_mod_to_equations. lia.
  - intros [L U].
    assert (Es : d / 1000 = 600) by (Z.div_mod_to_equations; lia).
    rewrite Es. repeat split; reflexivity.
Qed.

Lemma isMoment_one (d : Z) :
  isMoment (calculateTimeUnits d) 0 0 1 0 = (60000 <=? d) && (d <? 61000).
Proof.
  unfold isMoment, calculateTimeUnits. cbn [days hours minutes seconds].
  apply eq_true_iff_eq. rewrite !andb_true_iff, !Z.eqb_eq, Z.leb_le, Z.ltb_lt.
  split.
  - intros (((Hd & Hh) & Hm) & Hs).
    assert (N : 0 <= d).
    { destruct (Z_lt_le_dec d 0) as [Neg | Pos]; [exfalso | exact Pos].
      assert (d / 1000 / 60 / 60 / 24 < 0); [| lia].
      repeat (apply Z.div_lt_upper_bound; [lia|]). lia. }
    assert (Hs0 : 0 <= d / 1000) by (apply Z.div_pos; lia).
    assert (Hm0 : 0 <= d / 1000 / 60) by (apply Z.div_pos; lia).
    assert (Hh0 : 0 <= d / 1000 / 60 / 60) by (apply Z.div_pos; lia).
    rewrite (Z.rem_mod_nonneg _ _ Hh0) in Hh by lia.
    rewrite (Z.rem_mod_nonneg _ _ Hm0) in Hm by lia.
    rewrite (Z.rem_mod_nonneg _ _ Hs0) in Hs by lia.
    clear Hs0 Hm0 Hh0. Z.div_mod_to_equations. lia.
  - intros [L U].
    assert (Es : d / 1000 = 60) by (Z.div_mod_to_equations; lia).
    rewrite Es. repeat split; reflexivity.
Qed.

(** X4. [checkSpecialMoments] logs "hour_to_new_year" exactly while the
    remaining time is in [3600000, 3601000) milliseconds,
    "ten_minutes_to_new_year" in [600000, 601000) and
    "one_minute_to_new_year" in [60000, 61000), for every remaining time,
    negative ones included; it logs nothing else, and never two events in
    one call. *)
Theorem special_moments_are_one_second_windows (diff : Z) (w : World) :
  trace (checkSpecialMoments (calculateTimeUnits diff) w) = trace w ++ momentsAt diff /\
  (List.length (momentsAt diff) <= 1)%nat.
Proof.
  unfold checkSpecialMoments, triggerSpecialEvent, momentsAt.
  rewrite isMoment_hour, isMoment_ten, isMoment_one.
  destruct ((3600000 <=? diff) && (diff <? 3601000)) eqn:A,
           ((600000 <=? diff) && (diff <? 601000)) eqn:B,
           ((60000 <=? diff) && (diff <? 61000)) eqn:C;
    cbn [emit trace app List.length];
    rewrite <- ?app_assoc, ?app_nil_r; (split; [reflexivity|]); try lia;
    exfalso;
    rewrite ?andb_true_iff, ?Z.leb_le, ?Z.ltb_lt in *; lia.
Qed.

End ClockDisplay.

Section ClockFormat.
Import Countdown.




End ClockFormat.

(** ** [Math.floor(Math.random() * n)] on binary64 *)

Section DrawIndex.
Import Binary64.
Local Open Scope Z_scope.

Lemma rhe_down (j P r : Z) :
  0 < P -> 0 <= r -> 2 * r < P -> rhe (j * P + r) P = j.
Proof.
  intros HP Hr Hlt. unfold rhe.
  assert (Q : (j * P + r) / P = j).
  { symmetry. apply (Z.div_unique _ _ _ r); lia. }
  assert (M : (j * P + r) mod P = r).
  { symmetry. apply (Z.mod_unique _ _ j); lia. }
  rewrite Q, M.
  destruct (Z.ltb_spec (2 * r) P); [reflexivity | lia].
Qed.

(** The double nearest to [(1 - 2^-53) * n], for an integer [n] of at most
    53 bits: it is below [n]. *)
Lemma largest_draw_times (n : Z) :
  1 <= n < 2 ^ 53 ->
  fits2 ((2 ^ 53 - 1) * 2 ^ 1021 * I n) = true /\
  rz2 ((2 ^ 53 - 1) * 2 ^ 1021 * I n) < I n.
Proof.
  intros Hn. unfold fits2, rz2.
  replace ((2 ^ 53 - 1) * 2 ^ 1021 * I n) with ((2 ^ 53 - 1) * n * 2 ^ 2095)
    by (unfold I; change (2 ^ 2095) with (2 ^ 1021 * 2 ^ 1074); ring).
  change (2 * emin) with (-53 - 2095).
  rewrite RE_shift by lia.
  set (m := (2 ^ 53 - 1) * n).
  assert (Pm : 0 < m) by (subst m; lia).
  assert (E : RE (-53) m = finish false (rnd m (-53))).
  { clearbody m. destruct m as [| p | p]; try lia. apply RE_pos. }
  rewrite E. clear E.
  pose proof (Zdigits2_bounds n ltac:(lia)) as Bn.
  pose proof (Zdigits2_pos n ltac:(lia)) as Pd.
  set (D := Zdigits2 n) in *.
  assert (D53 : D <= 53).
  { destruct (Z_le_gt_dec D 53) as [L | G]; [exact L | exfalso].
    assert (2 ^ 53 <= 2 ^ (D - 1)) by (apply Z.pow_le_mono_r; lia). lia. }
  assert (P2 : 2 ^ D = 2 * 2 ^ (D - 1)).
  { replace D with (Z.succ (D - 1)) at 1 by lia. rewrite Z.pow_succ_r by lia. reflexivity. }
  assert (Pp : 0 < 2 ^ (D - 1)) by (apply Z.pow_pos_nonneg; lia).
  unfold I.
  destruct (Z.eq_dec n (2 ^ (D - 1))) as [Pow | NotPow].
  - (* n is a power of two: the product is exact *)
    assert (Dm : Zdigits2 m = D + 52).
    { apply Zdigits2_unique; [| lia]. subst m. rewrite Pow.
      replace (D + 52 - 1) with (52 + (D - 1)) by lia.
      replace (D + 52) with (53 + (D - 1)) by lia.
      rewrite !Z.pow_add_r by lia. nia. }
    assert (T : cexp m (-53) = D - 54).
    { unfold cexp. rewrite Dm. unfold fexp, SpecFloat.emin, prec, emax. lia. }
    unfold rnd. rewrite T.
    destruct (Z.leb_spec (D - 54) (-53)) as [One | More].
    + assert (D = 1) by lia. subst m. rewrite Pow.
      replace (D - 1) with 0 by lia. replace (-53 - (D - 54)) with 0 by lia.
      replace (D - 54) with (-53) by lia.
      cbn. split; [reflexivity | lia].
    + replace (D - 54 - -53) with (D - 1) by lia.
      assert (Q : rhe m (2 ^ (D - 1)) = 2 ^ 53 - 1).
      { subst m. rewrite Pow. apply rhe_exact. exact Pp. }
      rewrite Q. change (2 ^ 53 - 1 =? 2 ^ 53) with false. cbv iota.
      change (2 ^ 53 - 1) with 9007199254740991.
      unfold finish. change emax with 1024. change prec with 53.
      destruct (Z.leb_spec (D - 54) (1024 - 53)) as [_ | Bad]; [| lia].
      cbn [finite val cond_Zopp]. split; [reflexivity|].
      change emin with (-1074). rewrite Pow.
      replace (D - 54 - -1074) with (D - 1 + 1021) by lia.
      rewrite Z.pow_add_r by lia.
      change (2 ^ 1074) with (2 ^ 53 * 2 ^ 1021).
      assert (0 < 2 ^ 1021) by (apply Z.pow_pos_nonneg; lia). nia.
  - (* otherwise the product is rounded down *)
    assert (Ln : 2 ^ (D - 1) < n) by lia.
    assert (P53 : 2 ^ 53 = 2 ^ (53 - D) * 2 ^ D).
    { rewrite <- Z.pow_add_r by lia. f_equal. lia. }
    assert (Pq : 0 < 2 ^ (53 - D)) by (apply Z.pow_pos_nonneg; lia).
    assert (Dm : Zdigits2 m = D + 53).
    { apply Zdigits2_unique; [| lia]. subst m.
      replace (D + 53 - 1) with (53 + (D - 1)) by lia.
      replace (D + 53) with (53 + D) by lia.
      rewrite !Z.pow_add_r by lia. nia. }
    assert (T : cexp m (-53) = D - 53).
    { unfold cexp. rewrite Dm. unfold fexp, SpecFloat.emin, prec, emax. lia. }
    unfold rnd. rewrite T.
    destruct (Z.leb_spec (D - 53) (-53)) as [Bad | _]; [lia|].
    replace (D - 53 - -53) with D by lia.
    assert (Q : rhe m (2 ^ D) = n * 2 ^ (53 - D) - 1).
    { replace m with ((n * 2 ^ (53 - D) - 1) * 2 ^ D + (2 ^ D - n)) by (subst m; nia).
      apply rhe_down; lia. }
    rewrite Q.
    assert (Qlt : 0 < n * 2 ^ (53 - D) - 1 < 2 ^ 53) by nia.
    destruct (Z.eqb_spec (n * 2 ^ (53 - D) - 1) (2 ^ 53)) as [Bad | _]; [lia|].
    unfold finish.
    destruct (n * 2 ^ (53 - D) - 1) as [| q | q] eqn:Eq; try lia.
    change emax with 1024. change prec with 53.
    destruct (Z.leb_spec (D - 53) (1024 - 53)) as [_ | Bad]; [| lia].
    cbn [finite val cond_Zopp]. split; [reflexivity|].
    rewrite <- Eq. change emin with (-1074).
    replace (D - 53 - -1074) with (D + 1021) by lia.
    assert (S : 2 ^ 1074 = 2 ^ (53 - D) * 2 ^ (D + 1021)).
    { rewrite <- Z.pow_add_r by lia. f_equal. lia. }
    rewrite S.
    assert (0 < 2 ^ (D + 1021)) by (apply Z.pow_pos_nonneg; lia). nia.
Qed.

(** [Math.floor(Math.random() * n)] is an index below [n], for every
    positive integer [n] that a double holds exactly. *)
Lemma draw_index (r : float) (n : Z) :
  unit_draw r -> 1 <= n < 2 ^ 53 ->
  0 <= F64.floorZ (PrimFloat.mul r (F64.of_Z n)) < n.
Proof.
  intros Hr Hn. destruct (unit_draw_V r Hr) as [Fr [R0 _]].
  destruct Hr as [_ Hlt].
  pose proof (ltb_V r 1 Fr ltac:(reflexivity) Hlt) as Lt.
  pose proof (below_one r Fr Lt) as Le.
  destruct (V_of_Z n ltac:(lia)) as [Fn Vn].
  destruct (largest_draw_times n Hn) as [Fh Eh].
  assert (Pn : 0 < I n) by (unfold I; assert (0 < 2 ^ 1074) by (apply Z.pow_pos_nonneg; lia); nia).
  destruct (mul_between r (F64.of_Z n) 0 ((2 ^ 53 - 1) * 2 ^ 1021 * I n) Fr Fn
              ltac:(rewrite Vn; nia) ltac:(reflexivity) Fh) as [Fp Bp].
  change (rz2 0) with 0 in Bp.
  rewrite floorZ_V by exact Fp.
  assert (P : 0 < 2 ^ 1074) by (apply Z.pow_pos_nonneg; lia).
  split.
  - apply Z.div_pos; lia.
  - apply Z.div_lt_upper_bound; [exact P|].
    set (top := rz2 _) in *. unfold I in Eh. lia.
Qed.

End DrawIndex.

(** ** The simulation loop as it runs *)

Section LoopRuns.
Context {num : Type} {N : Number num} {M : MathLib num}.
Import Fireworks.

Lemma bind_ok {A B : Type} (c : Action num A) (k : A -> Action num B)
    (p p' : Page num) (a : A) :
  c p = Ok (a, p') -> bind c k p = k a p'.
Proof. intros H. unfold bind. rewrite H. reflexivity. Qed.

Lemma with_simulation_same (p : Page num) :
  with_simulation (fireworks (self p)) (particles (self p)) (drawn p) p = p.
Proof. destruct p as [[] ]. reflexivity. Qed.

Lemma with_simulation_twice (fws fws' : list (FireworkParticle.t num))
    (ps ps' : list (ExplosionParticle.t num)) (d d' : nat) (p : Page num) :
  with_simulation fws' ps' d' (with_simulation fws ps d p) = with_simulation fws' ps' d' p.
Proof. reflexivity. Qed.

Lemma newExplosionParticle_spec (x y : num) (color : option Color) (p : Page num) :
  newExplosionParticle x y color p
  = Ok (ExplosionParticle.initialize x y (ctx (self p)) color
          (ExplosionParticle.mkDraws (random p (drawn p)) (random p (S (drawn p)))
             (random p (S (S (drawn p)))) (random p (S (S (S (drawn p)))))
             (random p (S (S (S (S (drawn p))))))),
        with_simulation (fireworks (self p)) (particles (self p))
          (S (S (S (S (S (drawn p)))))) p).
Proof.
  destruct p as [[st cv cx run fws ps aid] ce iw ih fr ts nh rnd dr co li].
  reflexivity.
Qed.

Lemma createParticles_n_spec (n : nat) (x y : num) (color : option Color) (p : Page num) :
  exists new,
    createParticles_n n x y color p
    = Ok (tt, with_simulation (fireworks (self p)) (particles (self p) ++ new)
                (5 * n + drawn p) p) /\
    List.length new = n /\
    Forall (burstOf p x y color) new.
Proof.
  revert p. induction n as [| n IH]; intros p.
  - exists []. cbn [createParticles_n]. rewrite app_nil_r, Nat.mul_0_r, Nat.add_0_l.
    rewrite with_simulation_same. repeat split. constructor.
  - cbn [createParticles_n].
    unfold bind at 1. rewrite newExplosionParticle_spec.
    set (e := ExplosionParticle.initialize _ _ _ _ _).
    unfold bind at 1. unfold modify at 1.
    set (q := mkPage _ _ _ _ _ _ _ _ _ _ _).
    destruct (IH q) as (new & Hn & Ln & Fn).
    exists (e :: new). rewrite Hn. split; [| split].
    + subst q. unfold with_simulation, set_particles.
      cbn [self particles fireworks drawn settings canvas ctx isRunning animationId
           canvasElement innerWidth innerHeight frames timeouts nextHandle random console
           listening].
      rewrite <- app_assoc. cbn [app].
      replace (5 * n + S (S (S (S (S (drawn p))))))%nat with (5 * S n + drawn p)%nat by lia.
      reflexivity.
    + cbn. rewrite Ln. reflexivity.
    + constructor.
      * subst e. repeat split.
      * revert Fn. apply Forall_impl. intros a (A1 & A2 & A3 & A4). repeat split; assumption.
Qed.

Lemma draw_equippedFirework (f : FireworkParticle.t num) :
  equippedFirework f -> FireworkParticle.draw f = Ok tt.
Proof.
  intros [Hc Hk]. unfold FireworkParticle.draw.
  destruct (_ <? _)%nat; [reflexivity|].
  destruct (FireworkParticle.ctx f); [| congruence].
  destruct (FireworkParticle.color f); [reflexivity | congruence].
Qed.

Lemma draw_equippedPoint (e : ExplosionParticle.t num) :
  equippedPoint e -> ExplosionParticle.draw e = Ok tt.
Proof.
  intros [Hc Hk]. unfold ExplosionParticle.draw.
  destruct (_ || _); [reflexivity|].
  destruct (ExplosionParticle.ctx e); [| congruence].
  destruct (ExplosionParticle.color e); [reflexivity | congruence].
Qed.

Lemma update_equippedFirework (f : FireworkParticle.t num) :
  equippedFirework f -> equippedFirework (fst (FireworkParticle.update f)).
Proof. intros H. exact H. Qed.

Lemma update_equippedPoint (e : ExplosionParticle.t num) :
  equippedPoint e -> equippedPoint (fst (ExplosionParticle.update e)).
Proof. intros H. exact H. Qed.

Lemma survivors_equipped (l : list (FireworkParticle.t num)) :
  Forall equippedFirework l -> Forall equippedFirework (survivors l).
Proof.
  induction 1 as [| f l Hf Hl IH]; cbn [survivors]; [constructor|].
  destruct (snd (FireworkParticle.update f)); [exact IH|].
  constructor; [apply update_equippedFirework, Hf | exact IH].
Qed.

Lemma glowing_equipped (l : list (ExplosionParticle.t num)) :
  Forall equippedPoint l -> Forall equippedPoint (glowing l).
Proof.
  induction 1 as [| e l He Hl IH]; cbn [glowing]; [constructor|].
  destruct (snd (ExplosionParticle.update e)); [exact IH|].
  constructor; [apply update_equippedPoint, He | exact IH].
Qed.

Lemma survivors_finished_length (l : list (FireworkParticle.t num)) :
  (List.length (survivors l) + List.length (finished l) = List.length l)%nat.
Proof.
  induction l as [| f l IH]; [reflexivity|].
  cbn [survivors finished]. destruct (snd (FireworkParticle.update f)); cbn [List.length]; lia.
Qed.

Lemma glowing_length (l : list (ExplosionParticle.t num)) :
  (List.length (glowing l) <= List.length l)%nat.
Proof.
  induction l as [| e l IH]; [reflexivity|].
  cbn [glowing]. destruct (snd (ExplosionParticle.update e)); cbn [List.length]; lia.
Qed.

(** A sweep of the projectiles: it keeps the survivors, and the explosion
    points it adds are the bursts of the finished ones. *)
Lemma sweepFireworks_spec (l : list (FireworkParticle.t num)) (p : Page num) :
  Forall equippedFirework l ->
  let count := Z.to_nat (particleCount (settings (self p))) in
  exists new,
    sweepFireworks l p
    = Ok (survivors l,
          with_simulation (fireworks (self p)) (particles (self p) ++ new)
            (5 * (count * List.length (finished l)) + drawn p) p) /\
    List.length new = (count * List.length (finished l))%nat /\
    Forall (fun e => exists f, In f (finished l) /\
                       burstOf p (FireworkParticle.x f) (FireworkParticle.y f)
                         (FireworkParticle.color f) e) new.
Proof.
  intros Hl count. induction Hl as [| f l Hf Hl IH].
  - exists []. cbn [sweepFireworks survivors finished List.length].
    rewrite app_nil_r, Nat.mul_0_r, Nat.mul_0_r, Nat.add_0_l, with_simulation_same.
    repeat split. constructor.
  - destruct IH as (new & E & Ln & Fn).
    cbn [sweepFireworks]. rewrite (bind_ok _ _ _ _ _ E).
    unfold bind at 1, lift. rewrite (draw_equippedFirework f Hf).
    cbn [survivors finished].
    destruct (FireworkParticle.update f) as [f' done] eqn:U. cbn [fst snd].
    destruct done.
    + set (q := with_simulation _ _ _ p) in *.
      destruct (createParticles_n_spec count (FireworkParticle.x f') (FireworkParticle.y f')
                  (FireworkParticle.color f') q) as (more & Em & Lm & Fm).
      exists (new ++ more).
      unfold createParticles, bind, this.
      change (Z.to_nat (particleCount (settings (self q)))) with count.
      rewrite Em. split; [| split].
      * unfold ret. subst q. rewrite with_simulation_twice.
        cbn [with_simulation self particles fireworks drawn List.length].
        rewrite app_assoc.
        replace (5 * count + (5 * (count * List.length (finished l)) + drawn p))%nat
          with (5 * (count * S (List.length (finished l))) + drawn p)%nat by lia.
        reflexivity.
      * rewrite length_app, Ln, Lm. cbn [List.length]. lia.
      * apply Forall_app. split.
        -- revert Fn. apply Forall_impl. intros e (g & Hg & B). exists g.
           split; [right; exact Hg | exact B].
        -- revert Fm. apply Forall_impl. intros e B. exists f'.
           split; [left; reflexivity | exact B].
    + exists new. unfold ret. split; [exact (f_equal _ eq_refl) | split; assumption].
Qed.

Lemma sweepParticles_spec (l : list (ExplosionParticle.t num)) (p : Page num) :
  Forall equippedPoint l -> sweepParticles l p = Ok (glowing l, p).
Proof.
  induction 1 as [| e l He Hl IH]; [reflexivity|].
  cbn [sweepParticles]. rewrite (bind_ok _ _ _ _ _ IH).
  unfold bind, lift. rewrite (draw_equippedPoint e He).
  cbn [glowing]. destruct (ExplosionParticle.update e) as [e' done]. cbn [fst snd].
  destruct done; reflexivity.
Qed.

Lemma updateFireworks_spec (p : Page num) :
  Forall equippedFirework (fireworks (self p)) ->
  let count := Z.to_nat (particleCount (settings (self p))) in
  let done := finished (fireworks (self p)) in
  exists new,
    updateFireworks p
    = Ok (tt, with_simulation (survivors (fireworks (self p))) (particles (self p) ++ new)
                (5 * (count * List.length done) + drawn p) p) /\
    List.length new = (count * List.length done)%nat /\
    Forall (fun e => exists f, In f done /\
                       burstOf p (FireworkParticle.x f) (FireworkParticle.y f)
                         (FireworkParticle.color f) e) new.
Proof.
  intros Hl count done.
  destruct (sweepFireworks_spec (fireworks (self p)) p Hl) as (new & E & Ln & Fn).
  exists new. split; [| split; assumption].
  unfold updateFireworks, bind at 1, this. rewrite (bind_ok _ _ _ _ _ E). reflexivity.
Qed.

Lemma updateParticles_spec (p : Page num) :
  Forall equippedPoint (particles (self p)) ->
  updateParticles p
  = Ok (tt, with_simulation (fireworks (self p)) (glowing (particles (self p))) (drawn p) p).
Proof.
  intros Hl. unfold updateParticles, bind at 1, this.
  rewrite (bind_ok _ _ _ _ _ (sweepParticles_spec _ p Hl)).
  destruct p as [[]]. reflexivity.
Qed.

Lemma autoSpawn_spec (p : Page num) :
  autoSpawn p
  = Ok (tt, with_timeouts
              (timeouts p ++ burstFor (settings (self p)) (List.length (fireworks (self p))))
              p).
Proof.
  unfold autoSpawn, bind, this, burstFor, spawnBurst.
  destruct (_ <? simultaneousFireworks (settings (self p)))%Z.
  - destruct (0 <? Z.min _ _)%Z.
    + apply spawnBurst_from_schedules.
    + unfold ret. rewrite app_nil_r, with_timeouts_same. reflexivity.
  - unfold ret. rewrite app_nil_r, with_timeouts_same. reflexivity.
Qed.

Lemma equipped_burst (p : Page num) (done : list (FireworkParticle.t num))
    (new : list (ExplosionParticle.t num)) :
  ctx (self p) <> None -> Forall equippedFirework done ->
  Forall (fun e => exists f, In f done /\
                     burstOf p (FireworkParticle.x f) (FireworkParticle.y f)
                       (FireworkParticle.color f) e) new ->
  Forall equippedPoint new.
Proof.
  intros Hc Hd. apply Forall_impl. intros e (f & Hf & (C & K & _)).
  rewrite Forall_forall in Hd. destruct (Hd f Hf) as [_ Kf].
  split; congruence.
Qed.

Lemma finished_equipped (l : list (FireworkParticle.t num)) :
  Forall equippedFirework l -> Forall equippedFirework (finished l).
Proof.
  induction 1 as [| f l Hf Hl IH]; cbn [finished]; [constructor|].
  destruct (snd (FireworkParticle.update f)); [| exact IH].
  constructor; [apply update_equippedFirework, Hf | exact IH].
Qed.

(** One pass of [loop] on a running, well equipped page. *)
Lemma loop_spec (p : Page num) :
  wellEquipped p -> isRunning (self p) = true ->
  let count := Z.to_nat (particleCount (settings (self p))) in
  let done := finished (fireworks (self p)) in
  exists new,
    loop p = Ok (tt, afterLoop (glowing (particles (self p) ++ new))
                       (5 * (count * List.length done) + drawn p) p) /\
    List.length new = (count * List.length done)%nat /\
    Forall (fun e => exists f, In f done /\
                       burstOf p (FireworkParticle.x f) (FireworkParticle.y f)
                         (FireworkParticle.color f) e) new.
Proof.
  intros (Hc & Hv & Hf & He) Hr count done.
  destruct (updateFireworks_spec p Hf) as (new & E1 & Ln & Fn).
  exists new. split; [| split; assumption].
  pose proof (equipped_burst p _ new Hc (finished_equipped _ Hf) Fn) as Hn.
  unfold loop, bind at 1, this. rewrite Hr. cbn [negb].
  unfold bind at 1, this_ctx, bind at 1, this.
  destruct (ctx (self p)) as [cx |] eqn:Ec; [| congruence]. unfold ret at 1.
  unfold bind at 1, this_canvas, bind at 1, this.
  destruct (canvas (self p)) as [cv |] eqn:Ev; [| congruence]. unfold ret at 1.
  rewrite (bind_ok _ _ _ _ _ E1).
  set (p1 := with_simulation _ _ _ p).
  assert (E2 := updateParticles_spec p1 ltac:(apply Forall_app; split; assumption)).
  rewrite (bind_ok _ _ _ _ _ E2).
  rewrite (bind_ok _ _ _ _ _ (autoSpawn_spec _)).
  subst p1. destruct p as [[st cv0 cx0 run fws ps aid] ce iw ih fr ts nh rnd dr co li].
  reflexivity.
Qed.

Lemma afterLoop_equipped (ps : list (ExplosionParticle.t num)) (d : nat) (p : Page num) :
  wellEquipped p -> Forall equippedPoint ps -> wellEquipped (afterLoop ps d p).
Proof.
  intros (Hc & Hv & Hf & He) Hp. repeat split; try assumption.
  apply survivors_equipped, Hf.
Qed.

Lemma frameFires_spec (id : nat) (p : Page num) :
  wellEquipped p -> isRunning (self p) = true -> In id (frames p) ->
  let count := Z.to_nat (particleCount (settings (self p))) in
  let done := finished (fireworks (self p)) in
  exists new p',
    frameFires id p = Ok (tt, p') /\
    wellEquipped p' /\
    self p' = self (afterLoop (glowing (particles (self p) ++ new))
                      (5 * (count * List.length done) + drawn p) p) /\
    frames p' = filter (fun i => negb (Nat.eqb i id)) (frames p) ++ [nextHandle p] /\
    timeouts p' = timeouts p ++ burstFor (settings (self p))
                                  (List.length (survivors (fireworks (self p)))) /\
    nextHandle p' = S (nextHandle p) /\
    random p' = random p /\
    List.length new = (count * List.length done)%nat.
Proof.
  intros Hw Hr Hin count done. unfold frameFires.
  assert (Ex : existsb (Nat.eqb id) (frames p) = true).
  { apply existsb_exists. exists id. split; [exact Hin | apply Nat.eqb_refl]. }
  rewrite Ex. unfold bind at 1, cancelAnimationFrame.
  set (q := mkPage _ _ _ _ _ _ _ _ _ _ _).
  assert (Hq : wellEquipped q) by exact Hw.
  destruct (loop_spec q Hq Hr) as (new & E & Ln & Fn).
  exists new. eexists. split; [exact E|].
  split.
  - apply afterLoop_equipped; [exact Hq|].
    apply glowing_equipped, Forall_app. split; [apply Hw|].
    destruct Hw as (Hc & _ & Hf & _).
    exact (equipped_burst q _ new Hc (finished_equipped _ Hf) Fn).
  - repeat split. exact Ln.
Qed.

Lemma filter_out_one (id : nat) (l : list nat) :
  NoDup l -> In id l ->
  S (List.length (filter (fun i => negb (Nat.eqb i id)) l)) = List.length l.
Proof.
  induction 1 as [| a l Ha Hl IH]; intros Hin; [destruct Hin|].
  cbn [filter]. destruct (Nat.eqb_spec a id) as [-> | Ne]; cbn [negb List.length].
  - f_equal. clear IH Hin Hl. induction l as [| b l IH]; [reflexivity|].
    cbn [filter]. destruct (Nat.eqb_spec b id) as [-> | Nb]; cbn [negb List.length].
    + exfalso. apply Ha. left. reflexivity.
    + f_equal. apply IH. intros H. apply Ha. right. exact H.
  - f_equal. apply IH. destruct Hin as [E | Hin]; [congruence | exact Hin].
Qed.

(** X6. On a running loop with its canvas, whose live particles can all be
    painted, an animation frame completes and keeps that condition. It
    keeps the number of tick chains, leaves the projectiles that have not
    reached their target, and calls [autoSpawn] on them: when fewer than
    [simultaneousFireworks] are alive it schedules a burst, whatever number
    of spawns is already pending. *)
Theorem frame_keeps_the_chains_and_schedules_a_burst (id : nat) (p : Page num)
    (Hequipped : wellEquipped p) (Hrunning : isRunning (self p) = true)
    (Hframes : NoDup (frames p)) (Hid : In id (frames p)) :
  exists p',
    frameFires id p = Ok (tt, p') /\
    wellEquipped p' /\
    isRunning (self p') = true /\
    tickChains p' = tickChains p /\
    fireworks (self p') = survivors (fireworks (self p)) /\
    timeouts p' = timeouts p ++ burstFor (settings (self p))
                                  (List.length (survivors (fireworks (self p)))).
Proof.
  destruct (frameFires_spec id p Hequipped Hrunning Hid)
    as (new & p' & E & Hw & Hs & Hf & Ht & _).
  exists p'. split; [exact E|]. split; [exact Hw|].
  assert (Hr : isRunning (self p') = true) by (rewrite Hs; exact Hrunning).
  split; [exact Hr|]. split; [| split; [rewrite Hs; reflexivity | exact Ht]].
  unfold tickChains. rewrite Hr, Hrunning, Hf, length_app. cbn [List.length].
  rewrite <- (filter_out_one id (frames p) Hframes Hid). lia.
Qed.

(** X7. While no projectile is alive, every animation frame schedules a
    whole new burst on top of the spawns that are still pending: after [k]
    frames in a row the pending timeouts have grown by [k] bursts, and there
    is still one tick chain. The number of scheduled spawns is not bounded by
    [simultaneousFireworks]. *)
Theorem pending_spawns_accumulate (k : nat) (p : Page num) (id : nat)
    (Hequipped : wellEquipped p) (Hrunning : isRunning (self p) = true)
    (Hnone : fireworks (self p) = []) (Hframe : frames p = [id]) :
  exists p',
    passes k p = Ok (tt, p') /\
    timeouts p' = timeouts p ++ List.concat (repeat (burstFor (settings (self p)) 0) k) /\
    fireworks (self p') = [] /\
    tickChains p' = 1%nat.
Proof.
  revert p id Hequipped Hrunning Hnone Hframe.
  induction k as [| k IH]; intros p id Hw Hr Hn Hf.
  - exists p. cbn [passes repeat List.concat]. rewrite app_nil_r.
    repeat split; [exact Hn|]. unfold tickChains. rewrite Hr, Hf. reflexivity.
  - destruct (frameFires_spec id p Hw Hr ltac:(rewrite Hf; left; reflexivity))
      as (new & p1 & E & Hw1 & Hs1 & Hf1 & Ht1 & _).
    assert (Hr1 : isRunning (self p1) = true) by (rewrite Hs1; exact Hr).
    assert (Hn1 : fireworks (self p1) = []).
    { rewrite Hs1. cbn [afterLoop self fireworks]. rewrite Hn. reflexivity. }
    assert (Hf1' : frames p1 = [nextHandle p]).
    { rewrite Hf1, Hf. cbn [filter]. rewrite Nat.eqb_refl. reflexivity. }
    assert (Hset : settings (self p1) = settings (self p)) by (rewrite Hs1; reflexivity).
    destruct (IH p1 (nextHandle p) Hw1 Hr1 Hn1 Hf1') as (p' & E' & Ht' & Hn' & Hc').
    exists p'. split; [| split; [| split; assumption]].
    + cbn [passes]. unfold bind, nextFrame. rewrite Hf, E. exact E'.
    + rewrite Ht', Ht1, Hset, Hn. cbn [survivors List.length repeat List.concat].
      rewrite <- app_assoc. reflexivity.
Qed.

(** X8. Hiding and showing the page again, as [App.handleVisibilityChange]
    does it with [pause] and [resume], adds a tick chain to a running loop:
    [pause] leaves the requested frame pending and [resume] runs [loop]
    at once, which requests another. *)
Theorem hide_and_show_adds_a_tick_chain (p : Page num)
    (Hequipped : wellEquipped p) (Hrunning : isRunning (self p) = true) :
  exists p',
    bind (handleVisibilityChange true) (fun _ => handleVisibilityChange false) p
      = Ok (tt, p') /\
    wellEquipped p' /\
    isRunning (self p') = true /\
    frames p' = frames p ++ [nextHandle p] /\
    tickChains p' = S (tickChains p).
Proof.
  unfold handleVisibilityChange, bind at 1, pause, modify.
  set (q := mkPage _ _ _ _ _ _ _ _ _ _ _).
  assert (Hq : wellEquipped q) by exact Hequipped.
  unfold resume, bind at 1, this. cbn [q self set_isRunning isRunning negb].
  unfold bind at 1, modify.
  set (q' := mkPage _ _ _ _ _ _ _ _ _ _ _).
  assert (Hq' : wellEquipped q') by exact Hequipped.
  destruct (loop_spec q' Hq' eq_refl) as (new & E & Ln & Fn).
  eexists. split; [exact E|]. split; [| split; [reflexivity | split; [reflexivity|]]].
  - apply afterLoop_equipped; [exact Hq'|].
    apply glowing_equipped, Forall_app. split; [apply Hequipped|].
    destruct Hequipped as (Hc & _ & Hf & _).
    exact (equipped_burst q' _ new Hc (finished_equipped _ Hf) Fn).
  - unfold tickChains. rewrite Hrunning.
    cbn [afterLoop self isRunning frames q' q set_isRunning].
    rewrite length_app. cbn [List.length]. lia.
Qed.

Lemma stop_spec (p : Page num) :
  (ctx (self p) <> None -> canvas (self p) <> None) -> stop p = Ok (tt, stopped p).
Proof.
  intros Hcanvas.
  destruct p as [[st cv cx run fws ps aid] ce iw ih fr ts nh rnd dr co li].
  cbn [self ctx canvas] in Hcanvas.
  destruct cx as [x |];
    [ destruct cv as [v |]; [| exfalso; apply Hcanvas; [discriminate | reflexivity]] | ];
    destruct aid as [id |]; reflexivity.
Qed.

(** X9. [stop] on a loop that has its canvas, or none at all: the loop is
    not running, the frame it had requested is cancelled, and no tick chain
    is left. It leaves the projectiles, the explosion points and the pending
    timeouts as they are: scheduled spawns are not cancelled. *)
Theorem stop_cancels_the_frame_and_keeps_the_timeouts (p : Page num)
    (Hcanvas : ctx (self p) <> None -> canvas (self p) <> None) :
  exists p',
    stop p = Ok (tt, p') /\
    isRunning (self p') = false /\
    animationId (self p') = None /\
    tickChains p' = 0%nat /\
    frames p' = match animationId (self p) with
                | Some id => filter (fun i => negb (Nat.eqb i id)) (frames p)
                | None => frames p
                end /\
    timeouts p' = timeouts p /\
    fireworks (self p') = fireworks (self p) /\
    particles (self p') = particles (self p).
Proof.
  exists (stopped p). split; [apply stop_spec, Hcanvas|]. repeat split.
Qed.

Lemma spawnFirework_spec (x y : option num) (color : option Color) (c : Canvas)
    (p : Page num) :
  canvas (self p) = Some c ->
  spawnFirework x y color p
  = Ok (tt, with_simulation (fireworks (self p) ++ [fst (spawned x y color c p)])
              (particles (self p)) (snd (spawned x y color c p)) p).
Proof.
  intros Hc. destruct p as [[st cv cx run fws ps aid] ce iw ih fr ts nh rnd dr co li].
  cbn [self canvas] in Hc. subst cv.
  unfold spawned, given.
  destruct x as [vx |]; [destruct (num_falsy vx) eqn:Fx |];
    (destruct y as [vy |]; [destruct (num_falsy vy) eqn:Fy |]);
    destruct color as [k |];
    unfold spawnFirework, bind, this_canvas, bind, this, ret, randomRange, bind, Math_random,
      or_else, getRandomColor, bind, this, ret, modify;
    cbn [self canvas]; rewrite ?Fx, ?Fy; reflexivity.
Qed.

Lemma spawnFirework_without_canvas (x y : option num) (color : option Color) (p : Page num) :
  canvas (self p) = None -> spawnFirework x y color p = TypeError "this.canvas is null".
Proof.
  intros Hc. unfold spawnFirework, bind at 1, this_canvas, bind at 1, this. rewrite Hc.
  reflexivity.
Qed.

Lemma sweep_throws_at_the_last (l : list (FireworkParticle.t num))
    (f : FireworkParticle.t num) (what : string) (p : Page num) :
  FireworkParticle.draw f = TypeError what ->
  sweepFireworks (l ++ [f]) p = TypeError what.
Proof.
  intros Hd. induction l as [| g l IH]; cbn [app sweepFireworks].
  - unfold bind at 1, ret at 1. unfold bind at 1, lift. rewrite Hd. reflexivity.
  - unfold bind at 1. rewrite IH. reflexivity.
Qed.

(** X10. With an empty palette in the options, [spawnFirework] called
    without a color still pushes a Projectile, whose color is [undefined];
    the next pass of [loop] throws a TypeError when it draws it. *)
Theorem empty_palette_breaks_the_next_frame (x y : option num) (c : Canvas)
    (cx : Context2D) (p : Page num)
    (Hcanvas : canvas (self p) = Some c) (Hctx : ctx (self p) = Some cx)
    (Hrunning : isRunning (self p) = true)
    (Hpalette : colors (settings (self p)) = []) :
  (exists p',
     spawnFirework x y None p = Ok (tt, p') /\
     List.length (fireworks (self p')) = S (List.length (fireworks (self p)))) /\
  bind (spawnFirework x y None) (fun _ => loop) p = TypeError "this.color is undefined".
Proof.
  pose proof (spawnFirework_spec x y None c p Hcanvas) as E.
  set (f := fst (spawned x y None c p)) in *.
  assert (Hf : FireworkParticle.draw f = TypeError "this.color is undefined").
  { subst f. unfold spawned. cbn [fst snd]. rewrite Hpalette.
    unfold FireworkParticle.draw, FireworkParticle.initialize.
    cbn [FireworkParticle.coordinates FireworkParticle.ctx FireworkParticle.color List.length
         Nat.ltb Nat.leb].
    rewrite Hctx. unfold index. destruct (_ <? 0)%Z; [reflexivity|].
    destruct (Z.to_nat _); reflexivity. }
  split.
  - eexists. split; [exact E|]. cbn [with_simulation self fireworks].
    rewrite length_app. cbn [List.length]. lia.
  - rewrite (bind_ok _ _ _ _ _ E).
    set (q := with_simulation _ _ _ p).
    assert (Qr : isRunning (self q) = true) by exact Hrunning.
    assert (Qx : ctx (self q) = Some cx) by exact Hctx.
    assert (Qc : canvas (self q) = Some c) by exact Hcanvas.
    assert (Qf : fireworks (self q) = fireworks (self p) ++ [f]) by reflexivity.
    clearbody q.
    unfold loop, bind at 1, this. rewrite Qr. cbn [negb].
    unfold bind at 1, this_ctx, bind at 1, this. rewrite Qx. unfold ret at 1.
    unfold bind at 1, this_canvas, bind at 1, this. rewrite Qc. unfold ret at 1.
    unfold bind at 1, updateFireworks, bind at 1, this.
    unfold bind at 1. rewrite Qf.
    rewrite (sweep_throws_at_the_last _ f _ _ Hf). reflexivity.
Qed.

(** X11. A click on the document: [handleClick] does nothing while the
    loop is not running or when the click hit a button; otherwise it spawns
    exactly one Projectile, launched 30 pixels below the canvas and aimed at
    the pointer, provided neither pointer coordinate is 0. It takes three
    draws: the launch abscissa, the color, the brightness. *)
Theorem click_spawns_a_projectile_at_the_pointer
    (clientX clientY : num) (onButton : bool) (c : Canvas) (p : Page num)
    (Hcanvas : canvas (self p) = Some c) :
  (isRunning (self p) = false \/ onButton = true ->
   handleClick clientX clientY onButton p = Ok (tt, p)) /\
  (isRunning (self p) = true -> onButton = false ->
   num_falsy clientX = false -> num_falsy clientY = false ->
   exists f,
     handleClick clientX clientY onButton p
     = Ok (tt, with_simulation (fireworks (self p) ++ [f]) (particles (self p))
                 (S (S (S (drawn p)))) p) /\
     FireworkParticle.targetX f = clientX /\
     FireworkParticle.targetY f = clientY /\
     FireworkParticle.startY f = num_add (num_of_Z (height c)) (num_of_Z 30) /\
     FireworkParticle.y f = FireworkParticle.startY f /\
     FireworkParticle.x f = FireworkParticle.startX f).
Proof.
  split.
  - intros H. unfold handleClick, bind, this.
    destruct H as [-> | ->]; [reflexivity | rewrite orb_true_r; reflexivity].
  - intros Hr Hb Fx Fy. subst onButton.
    unfold handleClick, bind at 1, this. rewrite Hr. cbn [negb orb].
    rewrite (spawnFirework_spec _ _ _ c p Hcanvas).
    unfold spawned, given. rewrite Fx, Fy. cbn [fst snd].
    eexists. split; [reflexivity|]. repeat split.
Qed.

Lemma massiveCelebration_spec (p : Page num) :
  massiveCelebration p
  = Ok (tt, with_timeouts
              (timeouts p ++ burstSchedule 0 15
               ++ [(1000, CallSpawnBurst 10); (2000, CallSpawnBurst 8)]%Z) p).
Proof.
  unfold massiveCelebration, spawnBurst.
  rewrite (bind_ok _ _ _ _ _ (spawnBurst_from_schedules _ _ p)).
  destruct p as [s ce iw ih fr ts nh rnd dr co li].
  unfold bind, setTimeout, with_timeouts.
  cbn [self canvasElement innerWidth innerHeight frames timeouts nextHandle random drawn
       console listening].
  rewrite <- !app_assoc. reflexivity.
Qed.

Lemma pendingSpawns_app (a b : list (Z * Callback)) :
  pendingSpawns (a ++ b) = (pendingSpawns a + pendingSpawns b)%nat.
Proof.
  induction a as [| [ms cb] a IH]; [reflexivity|].
  cbn [app pendingSpawns]. rewrite IH. destruct cb; lia.
Qed.

Lemma pendingSpawns_burstSchedule (i : Z) (n : nat) : pendingSpawns (burstSchedule i n) = n.
Proof.
  revert i. induction n as [| n IH]; intros i; [reflexivity|].
  cbn [burstSchedule pendingSpawns]. rewrite IH. reflexivity.
Qed.

(** X12. [massiveCelebration] completes and never looks at the state
    of the loop: running or not, with or without canvas, it schedules 15
    spawns 150 ms apart and two more bursts, of 10 after one second and of
    8 after two, 33 Projectiles in all. On a loop without canvas the first
    of these timeouts to fire throws a TypeError. *)
Theorem massiveCelebration_schedules_33_spawns (p : Page num) :
  exists p',
    massiveCelebration p = Ok (tt, p') /\
    self p' = self p /\
    frames p' = frames p /\
    timeouts p' = timeouts p ++ burstSchedule 0 15
                  ++ [(1000, CallSpawnBurst 10); (2000, CallSpawnBurst 8)]%Z /\
    pendingSpawns (timeouts p') = (pendingSpawns (timeouts p) + 33)%nat /\
    (canvas (self p) = None -> timeouts p = [] ->
     timeoutFires 0 p' = TypeError "this.canvas is null").
Proof.
  eexists. split; [apply massiveCelebration_spec|].
  split; [reflexivity|]. split; [reflexivity|]. split; [reflexivity|]. split.
  - cbn [with_timeouts timeouts]. rewrite !pendingSpawns_app, pendingSpawns_burstSchedule.
    cbn. lia.
  - intros Hc Ht. unfold timeoutFires. cbn [with_timeouts timeouts]. rewrite Ht.
    cbn [app burstSchedule nth_error callback].
    apply spawnFirework_without_canvas. exact Hc.
Qed.

(** X13. One pass of [updateFireworks] over projectiles that can be
    painted: every projectile either survives, updated and in its place, or
    has reached its target and is replaced by [particleCount] explosion
    points created where it ended, in its color; nothing else is added or
    lost, and each new point takes five draws. *)
Theorem finished_projectiles_become_bursts (p : Page num)
    (Hequipped : Forall equippedFirework (fireworks (self p))) :
  let count := Z.to_nat (particleCount (settings (self p))) in
  let done := finished (fireworks (self p)) in
  exists new p',
    updateFireworks p = Ok (tt, p') /\
    fireworks (self p') = survivors (fireworks (self p)) /\
    particles (self p') = particles (self p) ++ new /\
    (List.length (fireworks (self p')) + List.length done
     = List.length (fireworks (self p)))%nat /\
    List.length new = (count * List.length done)%nat /\
    drawn p' = (5 * List.length new + drawn p)%nat /\
    Forall (fun e => exists f, In f done /\
                       ExplosionParticle.x e = FireworkParticle.x f /\
                       ExplosionParticle.y e = FireworkParticle.y f /\
                       ExplosionParticle.color e = FireworkParticle.color f) new.
Proof.
  intros count done.
  destruct (updateFireworks_spec p Hequipped) as (new & E & Ln & Fn).
  exists new. eexists. split; [exact E|].
  split; [reflexivity|]. split; [reflexivity|]. split; [| split; [exact Ln | split]].
  - cbn [with_simulation self fireworks]. apply survivors_finished_length.
  - cbn [with_simulation drawn]. rewrite Ln. reflexivity.
  - revert Fn. apply Forall_impl. intros e (f & Hf & (_ & K & X & Y)).
    exists f. repeat split; assumption.
Qed.

End LoopRuns.

(** ** The simulation loop on binary64 *)

Section LoopOnBinary64.
Context {M : MathLib float}.
Import Fireworks Binary64.

Lemma index_of_draw {A : Type} (l : list A) (r : float) :
  unit_draw r -> l <> [] -> (Z.of_nat (List.length l) < 2 ^ 53)%Z ->
  exists a, index l (F64.floorZ (PrimFloat.mul r (F64.of_Z (Z.of_nat (List.length l)))))
            = Some a /\ In a l.
Proof.
  intros Hr Hne Hlen.
  assert (L1 : (1 <= Z.of_nat (List.length l))%Z).
  { destruct l; [congruence | cbn [List.length]; lia]. }
  pose proof (draw_index r _ Hr (conj L1 Hlen)) as [I0 I1].
  unfold index. destruct (Z.ltb_spec (F64.floorZ (PrimFloat.mul r (F64.of_Z (Z.of_nat (List.length l))))) 0);
    [lia|].
  destruct (nth_error l (Z.to_nat _)) as [a |] eqn:E.
  - exists a. split; [reflexivity | exact (nth_error_In _ _ E)].
  - apply nth_error_None in E. lia.
Qed.

(** X14. [getRandomColor] takes one draw and, for every palette that is
    not empty, returns one of its entries: [Math.floor(Math.random() * n)]
    is an index below [n] on binary64, whatever the length [n] of the
    palette. For the empty palette it returns [undefined]. *)
Theorem getRandomColor_returns_a_palette_entry (p : Page float)
    (Hdraw : unit_draw (random p (drawn p)))
    (Hlength : (Z.of_nat (List.length (colors (settings (self p)))) < 2 ^ 53)%Z) :
  exists k,
    getRandomColor p
    = Ok (k, with_simulation (fireworks (self p)) (particles (self p)) (S (drawn p)) p) /\
    (colors (settings (self p)) = [] -> k = None) /\
    (colors (settings (self p)) <> [] ->
     exists c, k = Some c /\ In c (colors (settings (self p)))).
Proof.
  eexists. split; [| split].
  - destruct p as [[st cv cx run fws ps aid] ce iw ih fr ts nh rnd dr co li]. reflexivity.
  - intros E. rewrite E. unfold index. destruct (_ <? 0)%Z; [reflexivity|].
    destruct (Z.to_nat _); reflexivity.
  - intros Hne. destruct (index_of_draw _ _ Hdraw Hne Hlength) as (c & E & Hin).
    exists c. split; [exact E | exact Hin].
Qed.

Lemma spawned_equipped (x y : option float) (color : option Color) (c : Canvas)
    (p : Page float) :
  safePage p -> equippedFirework (fst (spawned x y color c p)).
Proof.
  intros ((Hc & _) & Hne & Hlen & Hr). unfold spawned. cbn [fst snd]. split.
  - exact Hc.
  - cbn [FireworkParticle.initialize FireworkParticle.color].
    destruct color as [k |]; cbn [fst]; [discriminate|].
    cbn [num_mul num_floorZ num_of_Z Number_float].
    match goal with
    | |- index _ (F64.floorZ (PrimFloat.mul (random p ?d) _)) <> None =>
        destruct (index_of_draw (colors (settings (self p))) (random p d) (Hr d) Hne Hlen)
          as (a & E & _)
    end.
    rewrite E. discriminate.
Qed.

Lemma safePage_keeps (p p' : Page float) :
  safePage p -> wellEquipped p' ->
  settings (self p') = settings (self p) -> random p' = random p ->
  safePage p'.
Proof.
  intros (_ & Hne & Hlen & Hr) Hw Es Er. split; [exact Hw|].
  rewrite Es, Er. split; [exact Hne | split; [exact Hlen | exact Hr]].
Qed.

Lemma spawnFirework_safe (x y : option float) (color : option Color) (p : Page float) :
  safePage p ->
  exists p',
    spawnFirework x y color p = Ok (tt, p') /\ safePage p' /\
    List.length (fireworks (self p')) = S (List.length (fireworks (self p))) /\
    timeouts p' = timeouts p /\ frames p' = frames p /\
    isRunning (self p') = isRunning (self p).
Proof.
  intros Hs. pose proof Hs as ((Hc & Hv & Hf & He) & _).
  destruct (canvas (self p)) as [c |] eqn:Ec; [| congruence].
  eexists. split; [apply (spawnFirework_spec x y color c p Ec)|].
  split; [| split; [| repeat split]].
  - apply (safePage_keeps p); [exact Hs | | reflexivity | reflexivity].
    repeat split; try assumption. cbn [with_simulation self ctx canvas fireworks particles].
    + rewrite Ec. discriminate.
    + apply Forall_app. split; [exact Hf|]. constructor; [| constructor].
      apply spawned_equipped, Hs.
  - cbn [with_simulation self fireworks]. rewrite length_app. cbn [List.length]. lia.
Qed.

Lemma loop_safe (p : Page float) :
  safePage p -> exists p', loop p = Ok (tt, p') /\ safePage p'.
Proof.
  intros Hs. pose proof Hs as (Hw & _).
  destruct (isRunning (self p)) eqn:Hr.
  - destruct (loop_spec p Hw Hr) as (new & E & Ln & Fn).
    eexists. split; [exact E|].
    apply (safePage_keeps p); [exact Hs | | reflexivity | reflexivity].
    apply afterLoop_equipped; [exact Hw|].
    apply glowing_equipped, Forall_app. split; [apply Hw|].
    destruct Hw as (Hc & _ & Hf & _).
    exact (equipped_burst p _ new Hc (finished_equipped _ Hf) Fn).
  - exists p. split; [| exact Hs]. unfold loop, bind, this. rewrite Hr. reflexivity.
Qed.

Lemma modify_safe (f : t float -> t float) (p : Page float) :
  safePage p ->
  settings (f (self p)) = settings (self p) ->
  ctx (f (self p)) <> None -> canvas (f (self p)) <> None ->
  Forall equippedFirework (fireworks (f (self p))) ->
  Forall equippedPoint (particles (f (self p))) ->
  exists p', modify f p = Ok (tt, p') /\ safePage p' /\ self p' = f (self p).
Proof.
  intros Hs E1 E2 E3 E4 E5. eexists. split; [reflexivity|]. split; [| reflexivity].
  apply (safePage_keeps p); [exact Hs | | exact E1 | reflexivity].
  split; [exact E2 | split; [exact E3 | split; [exact E4 | exact E5]]].
Qed.

Lemma with_timeouts_safe (ts : list (Z * Callback)) (p : Page float) :
  safePage p -> safePage (with_timeouts ts p).
Proof. intros Hs. exact Hs. Qed.

Lemma callback_safe (cb : Callback) (p : Page float) :
  safePage p -> exists p', callback cb p = Ok (tt, p') /\ safePage p'.
Proof.
  intros Hs. destruct cb as [| count]; cbn [callback].
  - destruct (spawnFirework_safe None None None p Hs) as (p' & E & Hs' & _).
    exists p'. split; assumption.
  - eexists. split; [apply spawnBurst_from_schedules|]. exact Hs.
Qed.

Lemma resume_safe (p : Page float) :
  safePage p -> exists p', resume p = Ok (tt, p') /\ safePage p'.
Proof.
  intros Hs. unfold resume, bind at 1, this.
  destruct (isRunning (self p)) eqn:Hr; cbn [negb].
  - exists p. split; [reflexivity | exact Hs].
  - pose proof Hs as ((Hc & Hv & Hf & He) & _).
    destruct (modify_safe (set_isRunning true) p Hs eq_refl Hc Hv Hf He) as (q & E & Hq & _).
    rewrite (bind_ok _ _ _ _ _ E). apply loop_safe, Hq.
Qed.

Lemma start_safe (p : Page float) :
  safePage p -> exists p', start p = Ok (tt, p') /\ safePage p'.
Proof.
  intros Hs. pose proof Hs as ((Hc & Hv & Hf & He) & _).
  destruct (isRunning (self p)) eqn:Hr.
  - exists p. split; [apply start_when_running, Hr | exact Hs].
  - destruct (ctx (self p)) as [x |] eqn:Ex; [| congruence].
    destruct (canvas (self p)) as [c |] eqn:Ec; [| congruence].
    exists (started p). split; [apply (start_when_stopped p c x Ex Ec Hr)|].
    apply (safePage_keeps p); [exact Hs | | reflexivity | reflexivity].
    split; [cbn; rewrite Ex; discriminate|].
    split; [cbn; rewrite Ec; discriminate|]. split; constructor.
Qed.

Lemma stop_safe (p : Page float) :
  safePage p -> exists p', stop p = Ok (tt, p') /\ safePage p'.
Proof.
  intros Hs. pose proof Hs as ((Hc & Hv & Hf & He) & _).
  exists (stopped p). split; [apply stop_spec; intros _; exact Hv|].
  apply (safePage_keeps p); [exact Hs | | reflexivity | reflexivity].
  split; [exact Hc | split; [exact Hv | split; [exact Hf | exact He]]].
Qed.

Lemma pause_safe (p : Page float) :
  safePage p -> exists p', pause p = Ok (tt, p') /\ safePage p'.
Proof.
  intros Hs. pose proof Hs as ((Hc & Hv & Hf & He) & _).
  destruct (modify_safe (set_isRunning false) p Hs eq_refl Hc Hv Hf He) as (q & E & Hq & _).
  exists q. split; assumption.
Qed.

Lemma frameFires_safe (id : nat) (p : Page float) :
  safePage p -> exists p', frameFires id p = Ok (tt, p') /\ safePage p'.
Proof.
  intros Hs. unfold frameFires. destruct (existsb _ _).
  - unfold bind, cancelAnimationFrame. apply loop_safe. exact Hs.
  - exists p. split; [reflexivity | exact Hs].
Qed.

Lemma timeoutFires_safe (k : nat) (p : Page float) :
  safePage p -> exists p', timeoutFires k p = Ok (tt, p') /\ safePage p'.
Proof.
  intros Hs. unfold timeoutFires. destruct (nth_error _ _) as [[ms cb] |].
  - apply callback_safe, with_timeouts_safe, Hs.
  - exists p. split; [reflexivity | exact Hs].
Qed.

Lemma resizeCanvas_safe (w h : Z) (p : Page float) :
  safePage p -> exists p', windowResized w h p = Ok (tt, p') /\ safePage p'.
Proof.
  intros Hs. pose proof Hs as ((Hc & Hv & Hf & He) & Hne & Hlen & Hr).
  unfold windowResized. destruct (listening p).
  - unfold resizeCanvas, bind at 1, this_canvas, bind at 1, this. cbn [self].
    destruct (canvas (self p)) as [c |] eqn:Ec; [| congruence]. unfold ret at 1.
    eexists. split; [reflexivity|].
    split; [| split; [exact Hne | split; [exact Hlen | exact Hr]]].
    split; [exact Hc | split; [discriminate | split; [exact Hf | exact He]]].
  - eexists. split; [reflexivity|]. exact Hs.
Qed.

Lemma happens_safe (e : PageEvent) (p : Page float) :
  safePage p -> exists p', happens e p = Ok (tt, p') /\ safePage p'.
Proof.
  intros Hs. destruct e; cbn [happens].
  - apply start_safe, Hs.
  - apply stop_safe, Hs.
  - apply pause_safe, Hs.
  - apply resume_safe, Hs.
  - eexists. split; [apply massiveCelebration_spec | exact Hs].
  - eexists. split; [apply spawnBurst_from_schedules | exact Hs].
  - destruct (spawnFirework_safe x y color p Hs) as (p' & E & Hs' & _).
    exists p'. split; assumption.
  - apply frameFires_safe, Hs.
  - apply timeoutFires_safe, Hs.
  - unfold documentClicked. destruct (listening p).
    + unfold handleClick, bind at 1, this. destruct (_ || _).
      * exists p. split; [reflexivity | exact Hs].
      * destruct (spawnFirework_safe (Some clientX) (Some clientY) None p Hs)
          as (p' & E & Hs' & _).
        exists p'. split; assumption.
    + exists p. split; [reflexivity | exact Hs].
  - apply resizeCanvas_safe, Hs.
  - unfold handleVisibilityChange. destruct hidden; [apply pause_safe | apply resume_safe];
      exact Hs.
Qed.

Lemma construct_spec (options : Settings) (c : Canvas) (w h : Z) (rnd : nat -> float) :
  construct options (blank (Some c) w h rnd) = Ok (tt, constructedWith options c w h rnd).
Proof. reflexivity. Qed.

Lemma constructedWith_safe (options : Settings) (c : Canvas) (w h : Z) (rnd : nat -> float) :
  colors options <> [] -> (Z.of_nat (List.length (colors options)) < 2 ^ 53)%Z ->
  (forall i, unit_draw (rnd i)) ->
  safePage (constructedWith options c w h rnd).
Proof.
  intros Hne Hlen Hr.
  split; [| split; [exact Hne | split; [exact Hlen | exact Hr]]].
  split; [discriminate | split; [discriminate | split; constructor]].
Qed.

(** X15. A loop that found its canvas never reads a property of [null] or
    [undefined]. From the page the constructor leaves, with any options
    whose palette is not empty, and for every sequence of calls of its
    methods, animation frames, timeouts, clicks, window resizes and
    visibility changes, in any order, every step completes: each live
    particle always has its drawing context and a color, and the canvas is
    never lost. *)
Theorem loop_with_canvas_never_reads_null (options : Settings) (c : Canvas) (w h : Z)
    (rnd : nat -> float) (es : list PageEvent)
    (Hpalette : colors options <> [])
    (Hlength : (Z.of_nat (List.length (colors options)) < 2 ^ 53)%Z)
    (Hdraws : forall i, unit_draw (rnd i)) :
  exists p',
    bind (construct options) (fun _ => unfolds es) (blank (Some c) w h rnd) = Ok (tt, p') /\
    wellEquipped p'.
Proof.
  rewrite (bind_ok _ _ _ _ _ (construct_spec options c w h rnd)).
  pose proof (constructedWith_safe options c w h rnd Hpalette Hlength Hdraws) as Hs.
  revert Hs. generalize (constructedWith options c w h rnd). intros p Hs. revert p Hs.
  induction es as [| e es IH]; intros p Hs; cbn [unfolds].
  - exists p. split; [reflexivity | apply Hs].
  - destruct (happens_safe e p Hs) as (p1 & E1 & Hs1).
    rewrite (bind_ok _ _ _ _ _ E1). apply IH, Hs1.
Qed.

Lemma timerSteps_app (a b : list (Z * Callback)) :
  timerSteps (a ++ b) = (timerSteps a + timerSteps b)%nat.
Proof.
  induction a as [| [ms cb] a IH]; [reflexivity|].
  cbn [app timerSteps]. rewrite IH. destruct cb; lia.
Qed.

Lemma timerSteps_burstSchedule (i : Z) (n : nat) : timerSteps (burstSchedule i n) = n.
Proof.
  revert i. induction n as [| n IH]; intros i; [reflexivity|].
  cbn [burstSchedule timerSteps]. rewrite IH. reflexivity.
Qed.

Lemma drain_lands (fuel : nat) (p : Page float) :
  safePage p -> (timerSteps (timeouts p) <= fuel)%nat ->
  exists p',
    drain fuel p = Ok (tt, p') /\ safePage p' /\
    timeouts p' = [] /\
    List.length (fireworks (self p'))
    = (List.length (fireworks (self p)) + pendingSpawns (timeouts p))%nat /\
    isRunning (self p') = isRunning (self p) /\
    frames p' = frames p.
Proof.
  revert p. induction fuel as [| fuel IH]; intros p Hs Hfuel.
  - exists p. destruct (timeouts p) as [| [ms cb] ts] eqn:Et.
    + cbn [drain pendingSpawns].
      split; [reflexivity | split; [exact Hs | split; [first [exact Et | reflexivity] | split; [lia | split; reflexivity]]]].
    + exfalso. cbn [timerSteps] in Hfuel. destruct cb; lia.
  - cbn [drain]. destruct (timeouts p) as [| [ms cb] ts] eqn:Et.
    + exists p. cbn [pendingSpawns].
      split; [reflexivity | split; [exact Hs | split; [first [exact Et | reflexivity] | split; [lia | split; reflexivity]]]].
    + unfold bind at 1, timeoutFires. rewrite Et.
      cbn [nth_error firstn skipn app].
      set (q := with_timeouts ts p).
      assert (Hq : safePage q) by exact Hs.
      destruct cb as [| count]; cbn [callback timerSteps pendingSpawns] in *.
      * destruct (spawnFirework_safe None None None q Hq)
          as (p1 & E1 & Hs1 & L1 & T1 & F1 & R1).
        rewrite E1.
        destruct (IH p1 Hs1 ltac:(rewrite T1; cbn [q with_timeouts timeouts]; lia))
          as (p' & E' & Hs' & T' & L' & R' & F').
        exists p'. split; [exact E'|]. split; [exact Hs'|]. split; [exact T'|].
        rewrite L', L1, T1, R', R1, F', F1. cbn [q with_timeouts timeouts self frames isRunning].
        split; [lia | split; reflexivity].
      * unfold spawnBurst. rewrite (spawnBurst_from_schedules (Z.to_nat count) 0 q).
        set (p1 := with_timeouts _ q).
        assert (Hs1 : safePage p1) by exact Hs.
        destruct (IH p1 Hs1) as (p' & E' & Hs' & T' & L' & R' & F').
        { cbn [p1 q with_timeouts timeouts]. rewrite timerSteps_app, timerSteps_burstSchedule.
          lia. }
        exists p'. split; [exact E'|]. split; [exact Hs'|]. split; [exact T'|].
        rewrite L', R', F'. cbn [p1 q with_timeouts timeouts self frames].
        rewrite pendingSpawns_app, pendingSpawns_burstSchedule.
        split; [lia | split; reflexivity].
Qed.

(** X16. Every scheduled spawn lands. On a loop with its canvas and a
    palette, once the browser has run the pending timeouts and those they
    schedule in turn, none is left and the live collection has grown by
    exactly the number of Projectiles that were scheduled, whether the loop
    is running or not: nothing but [start] and the sweep of a running loop
    ever removes them. *)
Theorem scheduled_spawns_all_land (fuel : nat) (p : Page float)
    (Hsafe : safePage p) (Hfuel : (timerSteps (timeouts p) <= fuel)%nat) :
  exists p',
    drain fuel p = Ok (tt, p') /\
    timeouts p' = [] /\
    List.length (fireworks (self p'))
    = (List.length (fireworks (self p)) + pendingSpawns (timeouts p))%nat /\
    isRunning (self p') = isRunning (self p) /\
    frames p' = frames p.
Proof.
  destruct (drain_lands fuel p Hsafe Hfuel) as (p' & E & _ & H).
  exists p'. split; [exact E | exact H].
Qed.

End LoopOnBinary64.

(** ** [randomRange] and the life of an explosion point, on binary64 *)

Section Ranges.
Context {M : MathLib float}.
Import Fireworks Binary64.
Local Open Scope float_scope.

Lemma SFle_chain_finite (l a b h : spec_float) :
  SFle l a -> SFle a b -> SFle b h -> finite l = true -> finite h = true ->
  finite a = true /\ finite b = true.
Proof.
  unfold SFle. intros L A H Fl Fh.
  destruct l, a, b, h; try discriminate; try (split; reflexivity);
    cbn in L, A, H; repeat match goal with s : bool |- _ => destruct s end;
    discriminate.
Qed.

Lemma Fin_chain (l a b h : float) :
  Fin l -> Fin h -> (l <=? a) = true -> (a <=? b) = true -> (b <=? h) = true ->
  Fin a /\ Fin b.
Proof.
  unfold Fin. rewrite !FloatAxioms.leb_spec. intros Fl Fh L A H.
  exact (SFle_chain_finite _ _ _ _ L A H Fl Fh).
Qed.

(** The product with 1 is exact. *)
Lemma one_times (a : float) :
  Fin a -> fits2 (V 1 * V a) = true /\ rz2 (V 1 * V a) = V a.
Proof.
  intros Fa. unfold fits2, rz2.
  replace (V 1 * V a)%Z with (V a * 2 ^ 1074)%Z by (change (V 1) with (2 ^ 1074)%Z; lia).
  change (2 * emin)%Z with (emin - 1074)%Z. rewrite RE_shift by lia.
  apply rz_V. exact Fa.
Qed.

Lemma add_exactly (a b : float) :
  Fin a -> Fin b -> fits (V a + V b) = true ->
  Fin (a + b) /\ V (a + b) = rz (V a + V b).
Proof.
  intros Fa Fb Ff.
  destruct (add_between a b (V a + V b) (V a + V b) Fa Fb ltac:(lia) Ff Ff) as [F B].
  split; [exact F | lia].
Qed.

Lemma randomRange_value (lo hi r : float) :
  unit_draw r ->
  (-0x1p1022 <=? lo) = true -> (lo <=? hi) = true -> (hi <=? 0x1p1022) = true ->
  Fin (r * (hi - lo) + lo) /\
  (lo <=? r * (hi - lo) + lo) = true /\
  (r * (hi - lo) + lo <=? (hi - lo) + lo) = true.
Proof.
  intros Hr Hlo Hord Hhi.
  assert (Fm1 : Fin (-0x1p1022)) by reflexivity.
  assert (Fp1 : Fin 0x1p1022) by reflexivity.
  destruct (Fin_chain (-0x1p1022) lo hi 0x1p1022 Fm1 Fp1 Hlo Hord Hhi) as [Fl Fh].
  destruct (unit_draw_V r Hr) as [Fr [R0 R1]].
  pose proof (proj1 (leb_V _ _ Fm1 Fl) Hlo) as Bl.
  pose proof (proj1 (leb_V _ _ Fl Fh) Hord) as Bo.
  pose proof (proj1 (leb_V _ _ Fh Fp1) Hhi) as Bh.
  set (B := V 0x1p1022) in *.
  assert (EB : V (-0x1p1022) = (- B)%Z) by reflexivity. rewrite EB in Bl. clear EB.
  assert (PB : (0 < B)%Z) by reflexivity.
  (* the width of the range *)
  assert (F0 : fits 0 = true) by reflexivity.
  assert (F2 : fits (2 * B) = true) by (vm_compute; reflexivity).
  destruct (sub_between hi lo 0 (2 * B) Fh Fl ltac:(lia) F0 F2) as [Fd Bd].
  change (rz 0) with 0%Z in Bd.
  assert (E2 : rz (2 * B) = (2 * B)%Z) by (vm_compute; reflexivity). rewrite E2 in Bd.
  (* the draw times the width *)
  destruct (one_times (hi - lo) Fd) as [F1 E1].
  destruct (mul_between r (hi - lo) 0 (V 1 * V (hi - lo)) Fr Fd ltac:(nia)
              ltac:(reflexivity) F1) as [Fp Bp].
  change (rz2 0) with 0%Z in Bp. rewrite E1 in Bp.
  (* and the lower end *)
  destruct (rz_V lo Fl) as [Fvl Evl].
  assert (Fm : fits (- B) = true) by (vm_compute; reflexivity).
  assert (F3 : fits (3 * B) = true) by (vm_compute; reflexivity).
  assert (Fs : fits (V (hi - lo) + V lo) = true).
  { unfold fits. apply (RE_between emin (- B) _ (3 * B)); [reflexivity | lia | exact Fm | exact F3]. }
  destruct (add_exactly (hi - lo) lo Fd Fl Fs) as [Fe Ee].
  destruct (add_between (r * (hi - lo)) lo (0 + V lo) (V (hi - lo) + V lo) Fp Fl
              ltac:(lia) Fvl Fs) as [Fa Ba].
  cbn [Z.add] in Ba. rewrite Evl, <- Ee in Ba.
  split; [exact Fa|]. split; apply leb_V; try assumption; lia.
Qed.

(** The same on integer bounds, where the width and the upper end are
    exact. *)
Lemma randomRange_integers (a b : Z) (r : float) :
  unit_draw r -> (0 <= a <= b)%Z -> (b < 2 ^ 53)%Z ->
  (F64.of_Z a <=? r * (F64.of_Z b - F64.of_Z a) + F64.of_Z a) = true /\
  (r * (F64.of_Z b - F64.of_Z a) + F64.of_Z a <=? F64.of_Z b) = true.
Proof.
  intros Hr Hab Hb.
  destruct (unit_draw_V r Hr) as [Fr [R0 R1]].
  destruct (V_of_Z a ltac:(lia)) as [Fa Va].
  destruct (V_of_Z b ltac:(lia)) as [Fb Vb].
  set (A := F64.of_Z a) in *. set (B := F64.of_Z b) in *.
  destruct (int_fits (b - a) ltac:(lia)) as [FD ED].
  destruct (sub_between B A (I (b - a)) (I (b - a)) Fb Fa
              ltac:(rewrite Va, Vb, I_sub; lia) FD FD) as [Fd Bd].
  rewrite ED in Bd. assert (Vd : V (B - A) = I (b - a)) by lia. clear Bd.
  destruct (int_fits2 (b - a) ltac:(lia)) as [F2 E2].
  assert (P : (0 <= I (b - a))%Z) by (change 0%Z with (I 0); apply I_le; lia).
  destruct (mul_between r (B - A) 0 (V 1 * I (b - a)) Fr Fd
              ltac:(rewrite Vd; nia) ltac:(reflexivity) F2) as [Fp Bp].
  rewrite E2 in Bp. change (rz2 0) with 0%Z in Bp.
  destruct (int_fits a ltac:(lia)) as [FL EL].
  destruct (int_fits b ltac:(lia)) as [FH EH].
  destruct (add_between (r * (B - A)) A (I a) (I b) Fp Fa
              ltac:(rewrite Va; replace (I b) with (I (b - a) + I a)%Z
                      by (rewrite I_add; f_equal; lia); lia)
              FL FH) as [Fs Bs].
  rewrite EL, EH in Bs.
  split; apply leb_V; try assumption; lia.
Qed.

(** X17. [randomRange(min, max)] takes one draw and, for bounds of
    magnitude up to 2^1022 with [min <= max], returns a finite Number that
    is at least [min] and at most [(max - min) + min] as binary64 computes
    it; for integer bounds from 0 up to 2^53 that upper end is [max]
    itself. *)
Theorem randomRange_stays_in_range (lo hi : float) (p : Page float)
    (Hdraw : unit_draw (random p (drawn p)))
    (Hlo : (-0x1p1022 <=? lo) = true) (Horder : (lo <=? hi) = true)
    (Hhi : (hi <=? 0x1p1022) = true) :
  exists v,
    randomRange lo hi p
    = Ok (v, with_simulation (fireworks (self p)) (particles (self p)) (S (drawn p)) p) /\
    Fin v /\
    (lo <=? v) = true /\
    (v <=? (hi - lo) + lo) = true /\
    (forall a b : Z, (0 <= a <= b)%Z -> (b < 2 ^ 53)%Z ->
       lo = F64.of_Z a -> hi = F64.of_Z b -> (v <=? hi) = true).
Proof.
  exists (random p (drawn p) * (hi - lo) + lo).
  destruct (randomRange_value lo hi _ Hdraw Hlo Horder Hhi) as (Fv & L & U).
  split; [| split; [exact Fv | split; [exact L | split; [exact U|]]]].
  - destruct p as [[st cv cx run fws ps aid] ce iw ih fr ts nh rnd dr co li]. reflexivity.
  - intros a b Hab Hb -> ->. apply (randomRange_integers a b _ Hdraw Hab Hb).
Qed.

Lemma glowing_app (a b : list (ExplosionParticle.t float)) :
  glowing (a ++ b) = glowing a ++ glowing b.
Proof.
  induction a as [| e a IH]; [reflexivity|].
  cbn [app glowing]. rewrite IH. destruct (snd (ExplosionParticle.update e)); reflexivity.
Qed.

Lemma glowing_iter_app (k : nat) (a b : list (ExplosionParticle.t float)) :
  Nat.iter k glowing (a ++ b) = Nat.iter k glowing a ++ Nat.iter k glowing b.
Proof.
  induction k as [| k IH]; [reflexivity|].
  rewrite !Nat.iter_succ, IH. apply glowing_app.
Qed.

Lemma glowing_iter_one (k : nat) (e : ExplosionParticle.t float) :
  Nat.iter k glowing [e] = [] \/ Nat.iter k glowing [e] = [ExplosionParticle.ticks k e].
Proof.
  induction k as [| k [IH | IH]]; [right; reflexivity | left | ].
  - rewrite Nat.iter_succ, IH. reflexivity.
  - rewrite Nat.iter_succ, IH. cbn [glowing ExplosionParticle.ticks].
    destruct (snd (ExplosionParticle.update _)); [left | right]; reflexivity.
Qed.

Lemma glowing_iter_nil (k : nat) :
  Nat.iter k glowing ([] : list (ExplosionParticle.t float)) = [].
Proof. induction k as [| k IH]; [reflexivity|]. rewrite Nat.iter_succ, IH. reflexivity. Qed.

Lemma faded_succ (k : nat) (e : ExplosionParticle.t float) :
  ExplosionParticle.faded (S k) e = snd (ExplosionParticle.update (ExplosionParticle.ticks k e)).
Proof. reflexivity. Qed.

Lemma glowing_one (e : ExplosionParticle.t float) :
  snd (ExplosionParticle.update e) = true -> glowing [e] = [].
Proof. intros H. cbn [glowing]. rewrite H. reflexivity. Qed.

Lemma fresh_point_is_swept (e : ExplosionParticle.t float) :
  freshPoint e -> Nat.iter 99 glowing [e] = [].
Proof.
  intros (x & y & cx & color & r & Ha & Hd & ->).
  pose proof (faded_by_99 x y cx color r Ha Hd) as H.
  rewrite faded_succ in H. rewrite Nat.iter_succ.
  destruct (glowing_iter_one 98 (ExplosionParticle.initialize x y cx color r))
    as [E | E]; rewrite E; [reflexivity|].
  apply glowing_one. exact H.
Qed.

(** X18. An explosion point is swept within 99 frames of its creation. For
    points that can be painted, [sweepParticles] draws each, updates it and
    keeps those whose opacity is still above 0.01; and of any points created
    from draws in [0, 1), none is left after 99 sweeps. The sweep never adds
    a point. *)
Theorem explosion_points_are_swept_within_99_frames
    (l : list (ExplosionParticle.t float)) (Hfresh : Forall freshPoint l) :
  (forall p : Page float,
     Forall equippedPoint l -> sweepParticles l p = Ok (glowing l, p)) /\
  Nat.iter 99 glowing l = [] /\
  (List.length (glowing l) <= List.length l)%nat /\
  Forall (fun e => PrimFloat.leb (ExplosionParticle.alpha e) (F64.dec 1 2) = false)
    (glowing l).
Proof.
  split; [intros p He; apply sweepParticles_spec, He|].
  split; [| split; [apply glowing_length|]].
  - induction Hfresh as [| e l He Hl IH]; [apply glowing_iter_nil|].
    change (e :: l) with ([e] ++ l). rewrite glowing_iter_app, IH, app_nil_r.
    apply fresh_point_is_swept, He.
  - clear Hfresh. induction l as [| e l IH]; [constructor|].
    cbn [glowing]. destruct (snd (ExplosionParticle.update e)) eqn:U; [exact IH|].
    constructor; [exact U | exact IH].
Qed.

End Ranges.

(** ** The Projectiles the loop launches reach their targets *)

Section Launched.
Context {M : MathLib float}.
Import Fireworks Binary64.
Local Open Scope Z_scope.

(** [r * c + b] for a draw [r], a slope [c] between two integers of either
    sign and an integer [b]. *)
Lemma affine_in_range (r c b : float) (cl ch bv : Z) :
  unit_draw r -> Fin c -> Fin b -> V b = I bv ->
  I cl <= V c <= I ch -> cl <= 0 <= ch ->
  - 2 ^ 52 < cl -> ch < 2 ^ 52 -> - 2 ^ 52 < bv < 2 ^ 52 ->
  Fin (r * c + b) /\ I (cl + bv) <= V (r * c + b) <= I (ch + bv).
Proof.
  intros Hr Fc Fb Vb Bc Sg Bl Bh Bb.
  destruct (unit_draw_V r Hr) as [Fr [R0 R1]]. change (V 1) with U1 in R1.
  unfold I in *. change (2 ^ 1074) with U1 in *. pose proof U1_pos as PU.
  destruct (ones_representable cl ltac:(lia)) as (_ & Fl2 & El2).
  destruct (ones_representable ch ltac:(lia)) as (_ & Fh2 & Eh2).
  destruct (mul_between r c (cl * U1 * U1) (ch * U1 * U1) Fr Fc) as [Fm Bm];
    [| exact Fl2 | exact Fh2 |].
  { set (vr := V r) in *. set (vc := V c) in *. clearbody vr vc. clear - R0 R1 Bc Sg PU.
    split.
    - destruct (Z_le_gt_dec 0 vc) as [P | Ng].
      + assert (0 <= vr * vc) by (apply Z.mul_nonneg_nonneg; lia).
        assert (cl * U1 * U1 <= 0) by nia. lia.
      + assert (vr * (- vc) <= U1 * (- vc)) by (apply Z.mul_le_mono_nonneg_r; lia).
        assert (U1 * (- vc) <= U1 * (- (cl * U1))) by (apply Z.mul_le_mono_nonneg_l; lia).
        nia.
    - destruct (Z_le_gt_dec 0 vc) as [P | Ng].
      + assert (vr * vc <= U1 * vc) by (apply Z.mul_le_mono_nonneg_r; lia).
        assert (U1 * vc <= U1 * (ch * U1)) by (apply Z.mul_le_mono_nonneg_l; lia).
        nia.
      + assert (vr * vc <= 0) by nia.
        assert (0 <= ch * U1 * U1) by nia. lia. }
  rewrite El2, Eh2 in Bm.
  destruct (ones_representable (cl + bv) ltac:(lia)) as ([Fl El] & _).
  destruct (ones_representable (ch + bv) ltac:(lia)) as ([Fh Eh] & _).
  destruct (add_between (r * c) b ((cl + bv) * U1) ((ch + bv) * U1) Fm Fb ltac:(lia) Fl Fh)
    as [Fa Ba].
  rewrite El, Eh in Ba. split; [exact Fa | exact Ba].
Qed.

(** The difference of two integers, computed on doubles, is exact. *)
Lemma int_minus (a : float) (n k : Z) :
  Fin a -> V a = I n -> 0 <= k < 2 ^ 52 -> - 2 ^ 52 < n < 2 ^ 52 ->
  Fin (a - F64.of_Z k) /\ V (a - F64.of_Z k) = I (n - k).
Proof.
  intros Fa Va Bk Bn. destruct (V_of_Z k ltac:(lia)) as [Fk Vk].
  destruct (int_fits (n - k) ltac:(lia)) as [Ff Ef].
  destruct (sub_V a (F64.of_Z k) Fa Fk) as [Fs Es].
  { rewrite Va, Vk, I_sub. exact Ff. }
  rewrite Va, Vk, I_sub, Ef in Es. split; [exact Fs | exact Es].
Qed.

Lemma onStage_of_V (v : float) (lo hi : Z) :
  Fin v -> I lo <= V v <= I hi -> -65536 <= lo -> hi <= 65536 -> onStage v.
Proof.
  intros Fv B Bl Bh. unfold I in B. pose proof (Z.pow_pos_nonneg 2 1074 ltac:(lia) ltac:(lia)).
  split; apply leb_V; try assumption; try reflexivity.
  - change (V (-65536)%float) with (-65536 * 2 ^ 1074). nia.
  - change (V 65536%float) with (65536 * 2 ^ 1074). nia.
Qed.

(** On a canvas up to 65536 wide and 65506 high, every Projectile that
    [spawnFirework] pushes is launched and aimed within 65536 of the
    origin, provided a target it is given is. *)
Lemma spawned_onStage (x y : option float) (color : option Color) (c : Canvas)
    (p : Page float) :
  0 <= width c <= 65536 -> 0 <= height c <= 65506 ->
  (forall i : nat, unit_draw (random p i)) ->
  (forall v : float, x = Some v -> onStage v) ->
  (forall v : float, y = Some v -> onStage v) ->
  onStage (FireworkParticle.startX (fst (spawned x y color c p))) /\
  onStage (FireworkParticle.startY (fst (spawned x y color c p))) /\
  onStage (FireworkParticle.targetX (fst (spawned x y color c p))) /\
  onStage (FireworkParticle.targetY (fst (spawned x y color c p))).
Proof.
  intros Bw Bh Hr Hx Hy.
  unfold spawned. cbn [fst snd FireworkParticle.initialize FireworkParticle.startX
    FireworkParticle.startY FireworkParticle.targetX FireworkParticle.targetY].
  unfold given. cbn [num_add num_sub num_mul num_of_Z num_dec num_falsy Number_float].
  destruct (V_of_Z (width c) ltac:(lia)) as [FW VW].
  destruct (V_of_Z (height c) ltac:(lia)) as [FH VH].
  set (W := F64.of_Z (width c)) in *. set (H := F64.of_Z (height c)) in *.
  destruct (V_of_Z 150 ltac:(lia)) as [F150 V150].
  destruct (V_of_Z 100 ltac:(lia)) as [F100 V100].
  destruct (V_of_Z 30 ltac:(lia)) as [F30 V30].
  (* the launch point *)
  destruct (int_minus W (width c) 150 FW VW ltac:(lia) ltac:(lia)) as [Fa Va].
  destruct (int_minus (W - F64.of_Z 150) (width c - 150) 150 Fa Va ltac:(lia) ltac:(lia))
    as [Fb Vb].
  destruct (affine_in_range (random p (drawn p)) _ (F64.of_Z 150) (-300) 65236 150
              (Hr _) Fb F150 V150) as [Fsx Bsx]; try lia.
  { rewrite Vb. split; apply I_le; lia. }
  destruct (int_fits (height c + 30) ltac:(lia)) as [Fsy' Esy'].
  destruct (add_V H (F64.of_Z 30) FH F30) as [Fsy Esy].
  { rewrite VH, V30, I_add. exact Fsy'. }
  rewrite VH, V30, I_add, Esy' in Esy.
  split; [exact (onStage_of_V _ _ _ Fsx Bsx ltac:(lia) ltac:(lia))|].
  split; [apply (onStage_of_V _ (height c + 30) (height c + 30) Fsy); lia|].
  (* the target *)
  split.
  - destruct x as [v |]; [destruct (F64.falsy v) eqn:E |]; cbn [fst];
      try (apply Hx; reflexivity).
    + destruct (int_minus W (width c) 100 FW VW ltac:(lia) ltac:(lia)) as [Fa' Va'].
      destruct (int_minus (W - F64.of_Z 100) (width c - 100) 100 Fa' Va' ltac:(lia) ltac:(lia))
        as [Fb' Vb'].
      destruct (affine_in_range (random p (S (drawn p))) _ (F64.of_Z 100) (-200) 65336 100
                  (Hr _) Fb' F100 V100) as [Ft Bt]; try lia.
      { rewrite Vb'. split; apply I_le; lia. }
      exact (onStage_of_V _ _ _ Ft Bt ltac:(lia) ltac:(lia)).
    + destruct (int_minus W (width c) 100 FW VW ltac:(lia) ltac:(lia)) as [Fa' Va'].
      destruct (int_minus (W - F64.of_Z 100) (width c - 100) 100 Fa' Va' ltac:(lia) ltac:(lia))
        as [Fb' Vb'].
      destruct (affine_in_range (random p (S (drawn p))) _ (F64.of_Z 100) (-200) 65336 100
                  (Hr _) Fb' F100 V100) as [Ft Bt]; try lia.
      { rewrite Vb'. split; apply I_le; lia. }
      exact (onStage_of_V _ _ _ Ft Bt ltac:(lia) ltac:(lia)).
  - (* half the height, less 150 *)
    assert (Half : Fin (H * F64.dec 5 1 - F64.of_Z 150) /\
                   I (-150) <= V (H * F64.dec 5 1 - F64.of_Z 150) <= I 32618).
    { assert (F5 : Fin (F64.dec 5 1)) by reflexivity.
      assert (V5 : 2 * V (F64.dec 5 1) = U1) by reflexivity.
      destruct (ones_representable 0 ltac:(lia)) as (_ & Fz2 & Ez2).
      destruct (ones_representable 32768 ltac:(lia)) as (_ & Fh2 & Eh2).
      pose proof U1_pos as PU. unfold I in *. change (2 ^ 1074) with U1 in *.
      destruct (mul_between H (F64.dec 5 1) (0 * U1 * U1) (32768 * U1 * U1) FH F5)
        as [Fm Bm]; [| exact Fz2 | exact Fh2 |].
      { rewrite VH. set (h5 := V (F64.dec 5 1)) in *. clearbody h5. clear - V5 Bh PU. nia. }
      rewrite Ez2, Eh2 in Bm.
      destruct (ones_representable (-150) ltac:(lia)) as ([Fl El] & _).
      destruct (ones_representable 32618 ltac:(lia)) as ([Fu Eu] & _).
      destruct (sub_between (H * F64.dec 5 1) (F64.of_Z 150) (-150 * U1) (32618 * U1)
                  Fm F150 ltac:(lia) Fl Fu) as [Fs Bs].
      rewrite El, Eu in Bs. split; [exact Fs | exact Bs]. }
    destruct Half as [Fc Bc].
    destruct y as [v |]; [destruct (F64.falsy v) eqn:E |]; cbn [fst];
      try (apply Hy; reflexivity).
    + destruct (affine_in_range (random p (snd (match (match x with
                  | Some n => if F64.falsy n then None else Some n | None => None end) with
                  | Some v0 => (v0, S (drawn p))
                  | None => ((random p (S (drawn p)) * (W - F64.of_Z 100 - F64.of_Z 100)
                              + F64.of_Z 100)%float, S (S (drawn p))) end)))
                _ (F64.of_Z 150) (-150) 32618 150 (Hr _) Fc F150 V150 Bc) as [Ft Bt]; try lia.
      exact (onStage_of_V _ _ _ Ft Bt ltac:(lia) ltac:(lia)).
    + destruct (affine_in_range (random p (snd (match (match x with
                  | Some n => if F64.falsy n then None else Some n | None => None end) with
                  | Some v0 => (v0, S (drawn p))
                  | None => ((random p (S (drawn p)) * (W - F64.of_Z 100 - F64.of_Z 100)
                              + F64.of_Z 100)%float, S (S (drawn p))) end)))
                _ (F64.of_Z 150) (-150) 32618 150 (Hr _) Fc F150 V150 Bc) as [Ft Bt]; try lia.
      exact (onStage_of_V _ _ _ Ft Bt ltac:(lia) ltac:(lia)).
Qed.

Lemma spawned_shape (x y : option float) (color : option Color) (c : Canvas)
    (p : Page float) :
  exists (x1 y1 x2 y2 : float) (k : option Color) (rnd : float),
    fst (spawned x y color c p)
    = FireworkParticle.initialize x1 y1 x2 y2 (ctx (self p)) k rnd.
Proof. unfold spawned. cbn [fst]. repeat eexists. Qed.

End Launched.

(** X19. The Projectiles the loop launches reach their targets. On a canvas
    up to 65536 wide and 65506 high, with draws in [0, 1), a target that
    is within 65536 of the origin where one is given, and an engine whose
    cosine and sine at the launch angle lie in [-1, 1] with one of them at
    least one half in magnitude: [spawnFirework] pushes a Projectile for
    which [update] first returns true at some tick between 1 and 524289,
    and up to that tick its distance from the launch point grows strictly
    with every tick. *)
Theorem launched_projectiles_reach_their_targets
    (M : MathLib float) (x y : option float) (color : option Color)
    (c : Fireworks.Canvas) (p : Fireworks.Page float)
    (Hcanvas : Fireworks.canvas (Fireworks.self p) = Some c)
    (Hwidth : (0 <= Fireworks.width c <= 65536)%Z)
    (Hheight : (0 <= Fireworks.height c <= 65506)%Z)
    (Hdraws : forall i : nat, unit_draw (Fireworks.random p i))
    (Hx : forall v : float, x = Some v -> onStage v)
    (Hy : forall v : float, y = Some v -> onStage v)
    (Hdir : steady (Math_cos (FireworkParticle.angle (fst (spawned x y color c p))))
                   (Math_sin (FireworkParticle.angle (fst (spawned x y color c p))))) :
  exists (f : FireworkParticle.t float) (p' : Fireworks.Page float) (T : nat),
    Fireworks.spawnFirework x y color p = Ok (tt, p') /\
    Fireworks.fireworks (Fireworks.self p') = Fireworks.fireworks (Fireworks.self p) ++ [f] /\
    (1 <= T)%nat /\ (Z.of_nat T <= 524289)%Z /\
    FireworkParticle.reached T f = true /\
    (forall m : nat, (m < T)%nat -> FireworkParticle.reached m f = false) /\
    (forall n : nat, (n < T)%nat ->
       PrimFloat.ltb (FireworkParticle.currentDistance (FireworkParticle.ticks n f))
         (FireworkParticle.currentDistance (FireworkParticle.ticks (S n) f)) = true).
Proof.
  destruct (spawned_onStage x y color c p Hwidth Hheight Hdraws Hx Hy) as (O1 & O2 & O3 & O4).
  destruct (spawned_shape x y color c p) as (x1 & y1 & x2 & y2 & k & rnd & Ef).
  rewrite Ef in O1, O2, O3, O4, Hdir.
  cbn [FireworkParticle.initialize FireworkParticle.startX FireworkParticle.startY
       FireworkParticle.targetX FireworkParticle.targetY] in O1, O2, O3, O4.
  destruct (steady_heading _ _ Hdir) as (sx & sy & Hhead).
  set (f := FireworkParticle.initialize x1 y1 x2 y2 (Fireworks.ctx (Fireworks.self p)) k rnd)
    in *.
  pose proof (launch_inFlight x1 y1 x2 y2 (Fireworks.ctx (Fireworks.self p)) k rnd sx sy
                O1 O2) as Hq.
  fold f in Hq.
  assert (Hnear : (Binary64.V (FireworkParticle.currentDistance f) < 262144 * U1)%Z).
  { pose proof U1_pos. change (Binary64.V (FireworkParticle.currentDistance f)) with 0%Z. lia. }
  assert (Hdist : Binary64.Fin (FireworkParticle.distance f) /\
                  (Binary64.V (FireworkParticle.distance f) <= 262144 * U1)%Z).
  { destruct (target_distance x1 y1 x2 y2 O1 O2 O3 O4) as [F B]. split; [exact F | apply B]. }
  destruct (first_reach x1 y1 _ _ _ sx sy f Hhead O1 O2 Hq Hnear Hdist)
    as (T & (T1 & TB & RT & Before) & Grow & _).
  exists f, (with_simulation (Fireworks.fireworks (Fireworks.self p) ++ [f])
               (Fireworks.particles (Fireworks.self p)) (snd (spawned x y color c p)) p), T.
  split; [rewrite (spawnFirework_spec x y color c p Hcanvas), Ef; reflexivity|].
  split; [reflexivity|]. split; [exact T1|]. split; [exact TB|]. split; [exact RT|].
  split; [exact Before | exact Grow].
Qed.

(** ** The statements above at concrete pages *)

Section Examples.
Import Fireworks Binary64.
Local Existing Instance MathLib_engine.

Lemma runningPage_wellEquipped : wellEquipped runningPage.
Proof. split; [discriminate | split; [discriminate | split; constructor]]. Qed.

Lemma half_unit_draw (i : nat) : unit_draw (half i).
Proof. split; reflexivity. Qed.

Lemma runningPage_safe : safePage runningPage.
Proof.
  split; [exact runningPage_wellEquipped|]. split; [discriminate|].
  split; [reflexivity | exact half_unit_draw].
Qed.

Lemma frame_keeps_the_chains_and_schedules_a_burst_witness :
  wellEquipped runningPage /\ isRunning (self runningPage) = true /\
  NoDup (frames runningPage) /\ In 1%nat (frames runningPage) /\
  exists p',
    frameFires 1 runningPage = Ok (tt, p') /\
    tickChains p' = tickChains runningPage /\
    fireworks (self p') = survivors (fireworks (self runningPage)).
Proof.
  assert (Hn : NoDup (frames runningPage))
    by (vm_compute; constructor; [intros [] | constructor]).
  assert (Hi : In 1%nat (frames runningPage)) by (left; reflexivity).
  split; [exact runningPage_wellEquipped|]. split; [reflexivity|].
  split; [exact Hn|]. split; [exact Hi|].
  destruct (frame_keeps_the_chains_and_schedules_a_burst 1 runningPage
              runningPage_wellEquipped eq_refl Hn Hi) as (p' & E & _ & _ & T & F & _).
  exists p'. split; [exact E | split; [exact T | exact F]].
Defined.

Lemma pending_spawns_accumulate_witness :
  wellEquipped runningPage /\ isRunning (self runningPage) = true /\
  fireworks (self runningPage) = [] /\ frames runningPage = [1%nat] /\
  exists p',
    passes 3 runningPage = Ok (tt, p') /\
    timeouts p' = timeouts runningPage
                  ++ List.concat (repeat (burstFor (settings (self runningPage)) 0) 3) /\
    tickChains p' = 1%nat.
Proof.
  split; [exact runningPage_wellEquipped|]. split; [reflexivity|].
  split; [reflexivity|]. split; [reflexivity|].
  destruct (pending_spawns_accumulate 3 runningPage 1 runningPage_wellEquipped
              eq_refl eq_refl eq_refl) as (p' & E & T & _ & C).
  exists p'. split; [exact E | split; [exact T | exact C]].
Defined.

Lemma hide_and_show_adds_a_tick_chain_witness :
  wellEquipped runningPage /\ isRunning (self runningPage) = true /\
  exists p',
    bind (handleVisibilityChange true) (fun _ => handleVisibilityChange false) runningPage
      = Ok (tt, p') /\
    tickChains p' = 2%nat.
Proof.
  split; [exact runningPage_wellEquipped|]. split; [reflexivity|].
  destruct (hide_and_show_adds_a_tick_chain runningPage runningPage_wellEquipped eq_refl)
    as (p' & E & _ & _ & _ & C).
  exists p'. split; [exact E | exact C].
Defined.

Lemma stop_cancels_the_frame_and_keeps_the_timeouts_witness :
  (ctx (self runningPage) <> None -> canvas (self runningPage) <> None) /\
  exists p',
    stop runningPage = Ok (tt, p') /\
    tickChains p' = 0%nat /\
    timeouts p' = timeouts runningPage.
Proof.
  assert (H : ctx (self runningPage) <> None -> canvas (self runningPage) <> None)
    by (intros _; discriminate).
  split; [exact H|].
  destruct (stop_cancels_the_frame_and_keeps_the_timeouts runningPage H)
    as (p' & E & _ & _ & C & _ & T & _).
  exists p'. split; [exact E | split; [exact C | exact T]].
Defined.

Lemma empty_palette_breaks_the_next_frame_witness :
  canvas (self colorlessPage) = Some (mkCanvas 1000 800) /\
  ctx (self colorlessPage) = Some TheContext /\
  isRunning (self colorlessPage) = true /\
  colors (settings (self colorlessPage)) = [] /\
  bind (spawnFirework None None None) (fun _ => loop) colorlessPage
    = TypeError "this.color is undefined".
Proof.
  split; [reflexivity|]. split; [reflexivity|]. split; [reflexivity|]. split; [reflexivity|].
  exact (proj2 (empty_palette_breaks_the_next_frame None None (mkCanvas 1000 800) TheContext
                  colorlessPage eq_refl eq_refl eq_refl eq_refl)).
Defined.

Lemma click_spawns_a_projectile_at_the_pointer_witness :
  canvas (self runningPage) = Some (mkCanvas 1000 800) /\
  handleClick 400%float 300%float true runningPage = Ok (tt, runningPage) /\
  exists f,
    handleClick 400%float 300%float false runningPage
    = Ok (tt, with_simulation (fireworks (self runningPage) ++ [f])
                (particles (self runningPage)) (S (S (S (drawn runningPage)))) runningPage) /\
    FireworkParticle.targetX f = 400%float /\
    FireworkParticle.targetY f = 300%float.
Proof.
  split; [reflexivity|]. split.
  - exact (proj1 (click_spawns_a_projectile_at_the_pointer 400%float 300%float true
                    (mkCanvas 1000 800) runningPage eq_refl) (or_intror eq_refl)).
  - destruct (proj2 (click_spawns_a_projectile_at_the_pointer
                       (N := Number_float) (M := MathLib_engine) 400%float 300%float false
                       (mkCanvas 1000 800) runningPage eq_refl)
                eq_refl eq_refl ltac:(vm_compute; reflexivity)
                ltac:(vm_compute; reflexivity)) as (f & E & X & Y & _).
    exists f. split; [exact E | split; [exact X | exact Y]].
Defined.

Lemma massiveCelebration_schedules_33_spawns_witness :
  canvas (self pageWithoutCanvas) = None /\ timeouts pageWithoutCanvas = [] /\
  exists p',
    massiveCelebration pageWithoutCanvas = Ok (tt, p') /\
    pendingSpawns (timeouts p') = 33%nat /\
    timeoutFires 0 p' = TypeError "this.canvas is null".
Proof.
  split; [reflexivity|]. split; [reflexivity|].
  destruct (massiveCelebration_schedules_33_spawns pageWithoutCanvas)
    as (p' & E & _ & _ & _ & P & Throws).
  exists p'. split; [exact E|]. split; [exact P | exact (Throws eq_refl eq_refl)].
Defined.

Lemma finished_projectiles_become_bursts_witness :
  Forall equippedFirework (fireworks (self pageWithLanding)) /\
  exists new p',
    updateFireworks pageWithLanding = Ok (tt, p') /\
    fireworks (self p') = survivors (fireworks (self pageWithLanding)) /\
    particles (self p') = particles (self pageWithLanding) ++ new.
Proof.
  assert (H : Forall equippedFirework (fireworks (self pageWithLanding)))
    by (constructor; [split; discriminate | constructor]).
  split; [exact H|].
  destruct (finished_projectiles_become_bursts pageWithLanding H)
    as (new & p' & E & F & P & _).
  exists new, p'. split; [exact E | split; [exact F | exact P]].
Defined.

Lemma getRandomColor_returns_a_palette_entry_witness :
  unit_draw (random pageWithCanvas (drawn pageWithCanvas)) /\
  (Z.of_nat (List.length (colors (settings (self pageWithCanvas)))) < 2 ^ 53)%Z /\
  exists k c,
    getRandomColor pageWithCanvas
    = Ok (k, with_simulation (fireworks (self pageWithCanvas))
               (particles (self pageWithCanvas)) (S (drawn pageWithCanvas)) pageWithCanvas) /\
    k = Some c /\ In c (colors (settings (self pageWithCanvas))).
Proof.
  split; [split; reflexivity|]. split; [reflexivity|].
  destruct (getRandomColor_returns_a_palette_entry pageWithCanvas
              (conj eq_refl eq_refl) eq_refl) as (k & E & _ & Some_).
  destruct (Some_ ltac:(discriminate)) as (c & Ek & Hin).
  exists k, c. split; [exact E | split; [exact Ek | exact Hin]].
Defined.

Lemma loop_with_canvas_never_reads_null_witness :
  colors defaults <> [] /\
  (Z.of_nat (List.length (colors defaults)) < 2 ^ 53)%Z /\
  (forall i, unit_draw (half i)) /\
  exists p',
    bind (construct defaults)
      (fun _ => unfolds [StartCalled; FrameFires 1; TimeoutFires 0;
                         Clicked 400%float 300%float false; Resized 800 600;
                         VisibilityChanged true; VisibilityChanged false;
                         MassiveCelebrationCalled; StopCalled])
      (blank (Some (mkCanvas 300 150)) 1000 800 half) = Ok (tt, p').
Proof.
  assert (H : colors defaults <> []) by discriminate.
  split; [exact H|]. split; [reflexivity|]. split; [exact half_unit_draw|].
  destruct (loop_with_canvas_never_reads_null defaults (mkCanvas 300 150) 1000 800 half
              [StartCalled; FrameFires 1; TimeoutFires 0;
               Clicked 400%float 300%float false; Resized 800 600;
               VisibilityChanged true; VisibilityChanged false;
               MassiveCelebrationCalled; StopCalled]
              H eq_refl half_unit_draw) as (p' & E & _).
  exists p'. exact E.
Defined.

Lemma scheduled_spawns_all_land_witness :
  safePage runningPage /\
  (timerSteps (timeouts runningPage) <= 8)%nat /\
  exists p',
    drain 8 runningPage = Ok (tt, p') /\
    timeouts p' = [] /\
    List.length (fireworks (self p')) = 8%nat.
Proof.
  assert (F : (timerSteps (timeouts runningPage) <= 8)%nat) by (vm_compute; lia).
  split; [exact runningPage_safe|]. split; [exact F|].
  destruct (scheduled_spawns_all_land 8 runningPage runningPage_safe F)
    as (p' & E & T & L & _).
  exists p'. split; [exact E | split; [exact T | exact L]].
Defined.

Lemma randomRange_stays_in_range_witness :
  unit_draw (random pageWithCanvas (drawn pageWithCanvas)) /\
  (-0x1p1022 <=? 50)%float = true /\ (50 <=? 150)%float = true /\
  (150 <=? 0x1p1022)%float = true /\
  exists v,
    randomRange 50%float 150%float pageWithCanvas
    = Ok (v, with_simulation (fireworks (self pageWithCanvas))
               (particles (self pageWithCanvas)) (S (drawn pageWithCanvas)) pageWithCanvas) /\
    (50 <=? v)%float = true /\ (v <=? 150)%float = true.
Proof.
  split; [split; reflexivity|]. split; [reflexivity|]. split; [reflexivity|].
  split; [reflexivity|].
  destruct (randomRange_stays_in_range 50%float 150%float pageWithCanvas
              (conj eq_refl eq_refl) eq_refl eq_refl eq_refl) as (v & E & _ & L & _ & U).
  exists v. split; [exact E|]. split; [exact L|].
  exact (U 50%Z 150%Z ltac:(lia) ltac:(lia) eq_refl eq_refl).
Defined.

Lemma samplePoint_fresh : freshPoint samplePoint.
Proof.
  exists 0%float, 0%float, (Some TheContext), (Some (mkColor 0 100)), sampleDraws.
  split; [split; reflexivity|]. split; [split; reflexivity | reflexivity].
Qed.

Lemma explosion_points_are_swept_within_99_frames_witness :
  Forall freshPoint [samplePoint] /\
  Nat.iter 99 glowing [samplePoint] = [].
Proof.
  assert (H : Forall freshPoint [samplePoint])
    by (constructor; [exact samplePoint_fresh | constructor]).
  split; [exact H|].
  exact (proj1 (proj2 (explosion_points_are_swept_within_99_frames [samplePoint] H))).
Defined.

Lemma launched_projectiles_reach_their_targets_witness :
  canvas (self runningPage) = Some (mkCanvas 1000 800) /\
  (0 <= width (mkCanvas 1000 800) <= 65536)%Z /\
  (0 <= height (mkCanvas 1000 800) <= 65506)%Z /\
  (forall i : nat, unit_draw (random runningPage i)) /\
  (forall v : float, Some 400%float = Some v -> onStage v) /\
  (forall v : float, Some 300%float = Some v -> onStage v) /\
  steady
    (Math_cos (FireworkParticle.angle
       (fst (spawned (Some 400%float) (Some 300%float) None (mkCanvas 1000 800) runningPage))))
    (Math_sin (FireworkParticle.angle
       (fst (spawned (Some 400%float) (Some 300%float) None (mkCanvas 1000 800) runningPage)))) /\
  exists (f : FireworkParticle.t float) (p' : Page float) (T : nat),
    spawnFirework (Some 400%float) (Some 300%float) None runningPage = Ok (tt, p') /\
    fireworks (self p') = fireworks (self runningPage) ++ [f] /\
    (1 <= T)%nat /\
    FireworkParticle.reached T f = true.
Proof.
  assert (Hx : forall v : float, Some 400%float = Some v -> onStage v)
    by (intros v E; injection E as <-; split; reflexivity).
  assert (Hy : forall v : float, Some 300%float = Some v -> onStage v)
    by (intros v E; injection E as <-; split; reflexivity).
  assert (Hd : steady
    (Math_cos (FireworkParticle.angle
       (fst (spawned (Some 400%float) (Some 300%float) None (mkCanvas 1000 800) runningPage))))
    (Math_sin (FireworkParticle.angle
       (fst (spawned (Some 400%float) (Some 300%float) None (mkCanvas 1000 800) runningPage)))))
    by (repeat split; vm_compute; reflexivity).
  split; [reflexivity|]. split; [cbn; lia|]. split; [cbn; lia|].
  split; [exact half_unit_draw|]. split; [exact Hx|]. split; [exact Hy|]. split; [exact Hd|].
  destruct (launched_projectiles_reach_their_targets MathLib_engine
              (Some 400%float) (Some 300%float) None (mkCanvas 1000 800) runningPage
              eq_refl ltac:(cbn; lia) ltac:(cbn; lia) half_unit_draw Hx Hy Hd)
    as (f & p' & T & E & F & T1 & _ & R & _).
  exists f, p', T. split; [exact E | split; [exact F | split; [exact T1 | exact R]]].
Defined.

End Examples.
